(* ===== verification/_CoqProject ===== *)
-Q . S2P
Prelude.v
GoStd.v
EbpfMap.v
GoNet.v
Os.v
BpfMap.v
Concrete.v
Kernel.v
Policy.v
Typed.v
Session.v
Tasks.v
Enforcement.v
Pb.v
Warrants.v
Upstream.v
Registry.v
Node.v
WatchLoop.v
AuditQueue.v
Pamsock.v
Ringbuf.v
Emit.v
AuditStream.v
Reconnect.v
Binder.v
System.v
Threads.v
Requests.v
Concurrent.v
Authority.v
Handles.v
Services.v
Shutdown.v
Loader.v
World.v
Daemon.v
Lifecycle.v
Run.v
GoFmt.v
CtlOutput.v
Warrantctl.v
Hooks.v
EndToEnd.v
