(* ===== verification/Prelude.v ===== *)
(** * The session-warrant agent, verified

    session-warrant binds an SSH session to a signed, expiring warrant and lets
    BPF LSM programs judge the session's execs, writes and connections by the
    warrant's policy.  This library models the agent that runs on a node
    (src/agent, Go), with as much of its surroundings as its guarantees are about:
    the BPF programs (src/bpf/warrant.bpf.c) and the line the PAM
    module sends (src/pam/pam_warrant.c).

    ** How the parts fit together

    [warrantd] loads and attaches the BPF object (loader), opens the pinned maps
    (bpfmap), reads the local warrant file and subscribes to pushed warrants
    (upstream).  A warrant that passes its checks is installed by the registry:
    its policy is compiled from paths to inodes (policy) and written to the rule
    maps, then the warrant itself, then the active flag.  When a session opens,
    the PAM module's datagram (pamsock) reaches the binder, which looks for a
    warrant of the account and key and tags the session's cgroup with it, or
    queues an audit event (store).  The queue is uploaded and acknowledged
    (upstream/audit).  The kernel's verdicts come back through the ring buffer
    (ringbuf).  [warrantctl] does the same by hand for development.

    ** Files

    - Prelude: widths, errors, the state-and-error monad [M] with its loops and
      deferred calls, the tactics and hint databases, lemmas on integers and lists.
    - GoStd, GoNet, GoFmt: the parts of Go's standard library the agent calls,
      modelled (strings, strconv, path/filepath, sort.Search; net.ParseCIDR, netip;
      fmt's padding, times and addresses as text).
    - EbpfMap, Os: interfaces for code outside the repository, as classes with
      their laws: hash maps, per-CPU arrays and LPM tries as the kernel documents
      them, and the operating system.  Concrete, World: instances that satisfy
      these and the later interfaces, used by the witnesses.
    - BpfMap: internal/bpfmap, every write to the six maps; state [Maps].  Typed:
      the values in them fit the C structs.  Handles: opening and closing the
      pinned maps and the ring buffer, against the class [PinnedMaps].
    - Kernel: what the BPF programs decide from the maps.  Tasks: fork tagging and
      the self-protection hooks.  Emit: how records are numbered and written.
      Hooks: the programs as they are attached, with the answer of an earlier LSM,
      the two ways they read a file, the record each leaves, what a decoder finds in
      it, and the kprobe mirrors.
    - Policy: internal/policy, [Compile], [Apply] and the [Watcher]; WatchLoop: the
      watcher's goroutine, its callback and [Close] as a step relation.
    - Session, Enforcement: bpfmap and policy together with the kernel's decisions.
    - Pb: the protobuf messages (internal/pb) as records.
    - Warrants: cmd/warrantd/warrants.go.  Upstream: internal/upstream (signature
      check, trust keys, the subscription loop, reconnecting).
    - Registry: cmd/warrantd/registry.go against the class [KernelWarrants];
      Node: the policy installer and the clocks as its instance, and the
      registry's properties over any instance.
    - AuditQueue: internal/store/auditqueue.go.  AuditStream: the queue, the two
      goroutines of internal/upstream/audit.go, lost connections and the server's
      commits as one step relation.  Reconnect: the goroutines [StreamAudit] and
      [Subscribe] themselves, a loop over the class [Stream] whose two instances
      are the upload, with its contexts and channels, and the subscription.
    - Pamsock, Binder, Ringbuf: internal/pamsock, cmd/warrantd/binder.go,
      internal/ringbuf.  Services: the gRPC connection, systemd's notify socket
      (cmd/warrantd/notify.go) and the stubs of internal/store/store.go.
    - System: pushes, resyncs, datagrams and the watcher's callbacks as steps on
      one state, each request whole, with the invariants that join the components.
    - Threads: goroutines that share a state and a sync.RWMutex: requests as
      resumptions, their interleavings, a rely-guarantee logic against the class
      [Discipline] (what is protected, what every step keeps), a simpler logic for
      facts every single step keeps and for what only grows ([pkeeps]), progress and
      termination.  Requests: the calls of System as such requests, split at every
      map operation and lock, and the watcher's whole pass.  Concurrent: the
      discipline of the registry's mutex, the daemon's goroutines under it, and the
      sequential registry over a kernel that is a map of warrants, which the
      goroutines are compared with.  Authority: where the warrants and rules
      in the kernel come from, for the same goroutines.
    - Loader: internal/loader against the class [Ebpf], stated on the pins in
      bpffs, the open handles and the collections held open.
    - Daemon: cmd/warrantd/main.go and hooks.go up to the point where sessions are
      let in.  Shutdown: the goroutines and the [select] loop after it.  Run: the
      whole of [run] and [main] with the deferred calls, over a frame law between
      the kinds of resource.  Lifecycle: start-up joined with
      Concurrent.
    - CtlOutput, Warrantctl: cmd/warrantctl, its printed lines and its run.
    - EndToEnd: the components composed: signed bytes to verdicts, pushes to what the
      hooks answer, calls to log lines.

    Definitions keep the names of the Go code.  A Go function that returns an
    error is a function into [res]; one that also changes state is in [M S], where
    an early return keeps the changes made before it; a panic is a third outcome.
    Unsigned and signed integers are [Z] with the wrap-around written out.  Where
    Go ranges over a map the order is an argument, and theorems hold for every
    order.  Every query of the file system or a clock carries its moment, so the
    answers may change between any two queries.  The text of an error is kept; log
    lines and progress messages are left out.

    ** What is proved

    - End to end: C1, a pushed policy whose signature verified is what the tasks of
      the session bound to it are judged by; C2, in every interleaving of the
      goroutines the kernel holds no warrant and no rule that was not there at the
      start or signed for this host; C10, an agent that starts without an enforcing
      warrant makes the kernel refuse nothing, but for a signed mode that only the
      conversion to a byte makes enforcing; C14, what [emit] writes decodes to what
      the hook judged; C15, whatever a program records, a refused call above all, is
      logged with its process and warrant, or counted as lost.
    - Enforcement (C3-C7): from the policy as written to the verdict.  Exec is
      decided by exactly the compiled list, a write by the nearest rule that reaches
      it (where no inode has both effects), an IPv4 or IPv6 connection by the longest
      matching network and only by rules of the policy, and the agent's own
      directories are closed.  C8: revocation reaches every decision but that on UNIX
      sockets.  C9, C11: descendants of a tagged task keep its warrant wherever no
      other one is bound, and a judged task cannot touch the agent.
    - The BPF programs (C12, C13): observe mode records the calls enforce mode
      refuses, and a mirror leaves the records its LSM hook leaves.
    - Sessions and goroutines (C16-C20): what is bound is what the kernel enforces;
      from start-up on, in every interleaving of the agent's goroutines, every
      tagged session is judged; the registry is linearizable, every value in the
      maps is well typed at every moment, and no request deadlocks.
    - Warrants (C21-C25): matching picks the right warrant; a warrant is installed
      whole or not at all; resync cuts exactly what the server dropped and the kernel
      let go; only signed bytes are accepted; the expiry is translated to the boot
      clock.
    - Policies (C26-C29): compilation is faithful, recompiling follows a replaced
      file (and keeps the old inode's rule), a pass of the watcher restores the exec
      and write rules of each changed policy that still compiles and applies, and a
      closed watcher comes to its end.
    - Audit (C30-C33): the upload goroutines refine an abstract protocol in which no
      event number disappears silently, both goroutines that talk to the server
      stop when they are told to, the backlog can always be delivered, and the
      bisecting queue is equivalent to plain filters.
    - The daemon (C34-C37): attaching is all or nothing, a started daemon has every
      hook, a signalled daemon stops, and whatever was opened, the loaded collection
      included, is given back on every path.  C38, C39: the subscription and the PAM
      line.
    - Some theorems without a number state behaviour that departs from what the
      comments or the protocol say: an ALLOW beats a DENY on the same inode
      ([allow_overrides_deny]), a task older than its session's tag escapes by
      moving to another cgroup ([unforked_task_escapes]), an old revision can be
      replayed after a resync ([replay_after_resync]), inspect_udp never
      reaches the kernel ([inspect_udp_never_reaches_kernel]), an unknown mode can be
      enforced ([mode_truncation_enforces]), and the parent in the record of a
      refused open is the file ([parent_field_is_file]).
    - The others complete the picture of their file, among them that an
      uninterrupted request is the sequential call (Requests), that revisions only
      grow (Node), that the pinned maps are opened all or none (Handles), that an
      unwarranted session is queued (Binder), the
      payload round trips (Ringbuf), the reconnect delays (Upstream), the mirror
      comparison and the release of the harness (Warrantctl), and that colour
      changes nothing but colour (CtlOutput).

    ** Bounds and fuel

    [WALK_MAX] is the kernel's own bound on the directory walk.  [load_loop] has
    the source's four attempts as fuel, and [load_loop_no_fuel] shows that it is
    enough; [sort_Search] and [TrimSpace] get the length of their input, which
    bounds their iterations; [fmt_u] prints 64-bit numbers with twenty digits.
    Everything else is structural recursion, or a step relation.

    The step relations of WatchLoop, Shutdown, Threads and Reconnect have a measure that every step of
    the agent's own lowers, which is what their termination theorems rest on;
    arrivals from outside are separate steps.

    ** What is not modelled

    gRPC, TLS, Ed25519, JSON and protobuf decoding, cilium/ebpf, the kernel's maps
    and sockets are parameters with the laws the agent relies on.  Left out are the
    generated marshalling code, most log lines, how the BPF programs walk dentries and
    copy socket addresses (what they read is an argument), the Java server, the benchmarks and
    deployment scripts.  The specs, the watch list and the audit queue have mutexes
    of their own that are held for one access each; such an access is one step.  A
    single map operation is one step, as the kernel's maps make it.

    Of the agent's own packages nothing else is left: the lines of Go without a
    definition here are imports, comments, the parsing of flags, progress messages
    ([logf], [errOr]), interface assertions, and one-line wrappers
    ([warrantList.match], the [Server] struct, [DefaultObjectPath]). *)

From Stdlib Require Import ZArith Lia Ascii String.
From stdpp Require Import base tactics numbers list strings gmap.

Open Scope Z_scope.
#[global] Arguments String.append !_ _ / : simpl nomatch.

(** * Fixed-width integers

    Go's [uintN] and [int64] are [Z] with the wrap-around written out. *)

Definition u8 (z : Z) : Z := z mod 2 ^ 8.
Definition u16 (z : Z) : Z := z mod 2 ^ 16.
Definition u32 (z : Z) : Z := z mod 2 ^ 32.
Definition u64 (z : Z) : Z := z mod 2 ^ 64.
Definition i64 (z : Z) : Z := (z + 2 ^ 63) mod 2 ^ 64 - 2 ^ 63.

Definition is_u8 (z : Z) : Prop := 0 <= z < 2 ^ 8.
Definition is_u16 (z : Z) : Prop := 0 <= z < 2 ^ 16.
Definition is_u32 (z : Z) : Prop := 0 <= z < 2 ^ 32.
Definition is_u64 (z : Z) : Prop := 0 <= z < 2 ^ 64.
Definition is_i64 (z : Z) : Prop := - 2 ^ 63 <= z < 2 ^ 63.

(** * Errors

    A Go [error] value: a sentinel made by [errors.New] (compared by identity,
    named here by its text), a [syscall.Errno], an error wrapped with [%w], or
    a formatted error that wraps nothing. *)

Inductive error : Type :=
  | ENew (name : string)
  | EErrno (n : Z)
  | EWrap (msg : string) (e : error)
  | EMsg (msg : string).

#[export] Instance error_eq_dec : EqDecision error.
Proof. solve_decision. Defined.

Definition ENOENT : Z := 2.
Definition EEXIST : Z := 17.
Definition ErrNotExist : error := ENew "file does not exist".
Definition ErrExist : error := ENew "file already exists".

(** [syscall.Errno.Is]: the portable sentinels an errno stands for. *)
Definition errno_is (n : Z) (target : error) : bool :=
  bool_decide (n = ENOENT ∧ target = ErrNotExist) ||
  bool_decide (n = EEXIST ∧ target = ErrExist).

(** [errors.Is]: walk the [%w] chain. *)
Fixpoint errors_Is (e target : error) : bool :=
  match e with
  | EMsg _ => false
  | ENew _ => bool_decide (e = target)
  | EErrno n => bool_decide (e = target) || errno_is n target
  | EWrap _ e' => errors_Is e' target
  end.

(** * Results and the state monad

    A Go function that returns [(T, error)], or panics. *)

Inductive res (A : Type) : Type :=
  | Ok (a : A)
  | Err (e : error)
  | Panic (msg : string).
Arguments Ok {A} a.
Arguments Err {A} e.
Arguments Panic {A} msg.

#[export] Instance res_eq_dec `{EqDecision A} : EqDecision (res A).
Proof. solve_decision. Defined.

Definition res_bind {A B : Type} (m : res A) (k : A → res B) : res B :=
  match m with Ok a => k a | Err e => Err e | Panic s => Panic s end.

(** Stateful code that can fail: the state after the call, and the result.
    An early return keeps the changes made before it. *)
Definition M (S A : Type) : Type := S → S * res A.

Definition mok {S A : Type} (a : A) : M S A := λ s, (s, Ok a).
Definition merr {S A : Type} (e : error) : M S A := λ s, (s, Err e).
Definition mget {S : Type} : M S S := λ s, (s, Ok s).
Definition mput {S : Type} (s : S) : M S unit := λ _, (s, Ok tt).
Definition mmod {S : Type} (f : S → S) : M S unit := λ s, (f s, Ok tt).
Definition mres {S A : Type} (r : res A) : M S A := λ s, (s, r).

Definition mbnd {S A B : Type} (m : M S A) (k : A → M S B) : M S B :=
  λ s, match m s with
       | (s', Ok a) => k a s'
       | (s', Err e) => (s', Err e)
       | (s', Panic p) => (s', Panic p)
       end.

(** [for _, x := range l { if err := f(x); err != nil { return err } }] *)
Fixpoint mfor {S A : Type} (l : list A) (f : A → M S unit) : M S unit :=
  match l with
  | [] => mok tt
  | x :: l' => mbnd (f x) (λ _, mfor l' f)
  end.

(** A call whose error is looked at instead of returned. *)
Definition mtry {S A} (m : M S A) : M S (A + error) :=
  λ s, match m s with
       | (s', Ok a) => (s', Ok (inl a))
       | (s', Err e) => (s', Ok (inr e))
       | (s', Panic p) => (s', Panic p)
       end.

(** [fmt.Errorf] with [%w] around what a call returns. *)
Definition wrapping {S A} (msg : string) (m : M S A) : M S A :=
  λ s, match m s with
       | (s', Err e) => (s', Err (EWrap msg e))
       | out => out
       end.

(** [defer f()]: [f] runs when the rest returns, its error is printed. *)
Definition deferring {S A B} (f : M S B) (m : M S A) : M S A :=
  λ s, let '(s', r) := m s in (fst (f s'), r).

(** [defer f()] as a return with an error sees it; on success [f] is still due. *)
Definition on_fail {S A B} (f : M S B) (m : M S A) : M S A :=
  λ s, match m s with
       | (s', Ok a) => (s', Ok a)
       | (s', r) => (fst (f s'), r)
       end.

Declare Scope go_scope.
Delimit Scope go_scope with go.
Notation "'do' x := m 'in' k" := (mbnd m (λ x, k))
  (at level 10, x name, m at level 100, k at level 200) : go_scope.
Notation "m ';;;' k" := (mbnd m (λ _, k))
  (at level 199, k at level 200, right associativity) : go_scope.
Notation "'try' x := m 'in' k" := (res_bind m (λ x, k))
  (at level 10, x name, m at level 100, k at level 200) : go_scope.
Open Scope go_scope.

(** * Automation *)

Create HintDb gohints.

(** Split every boolean test and [decide] in sight, then simplify. *)
Ltac case_tests :=
  repeat (case_match || case_bool_decide || case_decide); simplify_eq/=.

Ltac zify_bools :=
  repeat match goal with
  | H : (_ =? _) = true |- _ => apply Z.eqb_eq in H
  | H : (_ =? _) = false |- _ => apply Z.eqb_neq in H
  | H : (_ <? _) = true |- _ => apply Z.ltb_lt in H
  | H : (_ <? _) = false |- _ => apply Z.ltb_ge in H
  | H : (_ <=? _) = true |- _ => apply Z.leb_le in H
  | H : (_ <=? _) = false |- _ => apply Z.leb_gt in H
  | H : andb _ _ = true |- _ => apply andb_true_iff in H as [? ?]
  | H : andb _ _ = false |- _ => apply andb_false_iff in H as [?|?]
  | H : orb _ _ = false |- _ => apply orb_false_iff in H as [? ?]
  | H : orb _ _ = true |- _ => apply orb_true_iff in H as [?|?]
  | H : negb _ = true |- _ => apply negb_true_iff in H
  | H : negb _ = false |- _ => apply negb_false_iff in H
  end.

(** Linear arithmetic with division and modulo by constants. *)
Ltac divmod_lia := Z.to_euclidean_division_equations; lia.

Ltac unfold_widths :=
  unfold u8, u16, u32, u64, i64, is_u8, is_u16, is_u32, is_u64, is_i64 in *.

(** * Monad lemmas: how a run of [mbnd] and [mfor] decomposes *)

Section monad.
Context {S : Type}.

Lemma mbnd_ok {A B} (m : M S A) (k : A → M S B) s s' b :
  mbnd m k s = (s', Ok b) →
  ∃ s1 a, m s = (s1, Ok a) ∧ k a s1 = (s', Ok b).
Proof. unfold mbnd. destruct (m s) as [s1 [a|e|p]]; naive_solver. Qed.

Lemma mbnd_run {A B} (m : M S A) (k : A → M S B) s s1 a :
  m s = (s1, Ok a) → mbnd m k s = k a s1.
Proof. unfold mbnd. by intros ->. Qed.

Lemma mbnd_state {A B} (P : S → Prop) (m : M S A) (k : A → M S B) s :
  P s → (∀ s, P s → P (fst (m s))) → (∀ a s, P s → P (fst (k a s))) →
  P (fst (mbnd m k s)).
Proof.
  intros Hs Hm Hk. unfold mbnd. specialize (Hm s Hs).
  destruct (m s) as [s1 [a|e|p]]; simpl in *; auto.
Qed.

Lemma mfor_app {A} (l1 l2 : list A) (f : A → M S unit) s :
  mfor (l1 ++ l2) f s = mbnd (mfor l1 f) (λ _, mfor l2 f) s.
Proof.
  revert s. induction l1 as [|x l1 IH]; intros s; [done|].
  simpl. unfold mbnd at 1 2 3.
  destruct (f x s) as [s1 [[]|e|p]]; [|done|done]. by rewrite IH.
Qed.

(** An invariant of every step is an invariant of the loop, whatever the
    outcome. *)
Lemma mfor_inv {A} (P : S → Prop) (l : list A) (f : A → M S unit) s :
  P s → (∀ x s, x ∈ l → P s → P (fst (f x s))) → P (fst (mfor l f s)).
Proof.
  revert s. induction l as [|x l IH]; intros s Hs Hf; [done|].
  simpl. unfold mbnd.
  pose proof (Hf x s ltac:(set_solver) Hs) as H1.
  destruct (f x s) as [s1 [[]|e|p]]; simpl in *; try done.
  apply IH; [done|]. intros y s2 Hy. apply Hf. set_solver.
Qed.

(** A relation between the consumed prefix and the state, established step
    by step, holds at the end of a loop that succeeds. *)
Lemma mfor_ok_ind {A} (P : list A → S → Prop) (l : list A) (f : A → M S unit) s s' :
  P [] s →
  (∀ done x s1 s2, P done s1 → x ∈ l → f x s1 = (s2, Ok tt) → P (done ++ [x]) s2) →
  mfor l f s = (s', Ok tt) → P l s'.
Proof.
  intros H0 Hstep.
  cut (∀ pre suf s1, pre ++ suf = l → P pre s1 →
         mfor suf f s1 = (s', Ok tt) → P l s').
  { intros H. by apply (H [] l s). }
  intros pre suf. revert pre. induction suf as [|x suf IH]; intros pre s1 Hl HP.
  - intros [= <-]. rewrite app_nil_r in Hl. by subst.
  - intros (s2 & [] & Hx & Hrest)%mbnd_ok.
    eapply (IH (pre ++ [x])); [by rewrite <- app_assoc| |done].
    eapply Hstep; [done| |done]. set_solver.
Qed.
End monad.

Lemma wrapping_ok {S A} msg (m : M S A) s s' a :
  wrapping msg m s = (s', Ok a) → m s = (s', Ok a).
Proof. unfold wrapping. by destruct (m s) as [s1 [a1|e|x]]. Qed.

Lemma on_fail_ok {S A B} (f : M S B) (m : M S A) s s' a :
  on_fail f m s = (s', Ok a) → m s = (s', Ok a).
Proof. unfold on_fail. by destruct (m s) as [s1 [a1|e|x]]. Qed.

(** A run, from its result alone: the state is named, not computed. *)
Lemma run_named {S A} (m : M S A) s r : snd (m s) = r → m s = (fst (m s), r).
Proof. intros <-. apply surjective_pairing. Qed.

(** [keeps P m]: the computation preserves [P], whether it succeeds or fails. *)
Definition keeps {S A : Type} (P : S → Prop) (m : M S A) : Prop :=
  ∀ s, P s → P (fst (m s)).

Section keeps.
Context {S : Type} (P : S → Prop).

Lemma keeps_mok {A} (a : A) : keeps P (mok a).
Proof. by intros s. Qed.
Lemma keeps_merr {A} e : keeps P (merr (A := A) e).
Proof. by intros s. Qed.
Lemma keeps_mres {A} (r : res A) : keeps P (mres r).
Proof. by intros s. Qed.
Lemma keeps_mget : keeps P mget.
Proof. by intros s. Qed.
Lemma keeps_mbnd {A B} (m : M S A) (k : A → M S B) :
  keeps P m → (∀ a, keeps P (k a)) → keeps P (mbnd m k).
Proof. intros Hm Hk s Hs. by apply mbnd_state. Qed.
Lemma keeps_mfor {A} (l : list A) (f : A → M S unit) :
  (∀ x, x ∈ l → keeps P (f x)) → keeps P (mfor l f).
Proof. intros Hf s Hs. apply mfor_inv; [done|]. intros x s' Hx. by apply Hf. Qed.
Lemma keeps_if {A} (b : bool) (m1 m2 : M S A) :
  keeps P m1 → keeps P m2 → keeps P (if b then m1 else m2).
Proof. by destruct b. Qed.
Lemma keeps_ok {A} (m : M S A) s s' r : keeps P m → m s = (s', r) → P s → P s'.
Proof. intros Hm E Hs. specialize (Hm s Hs). by rewrite E in Hm. Qed.
End keeps.
#[export] Hint Resolve keeps_mok keeps_merr keeps_mres keeps_mget keeps_if : gohints.

Lemma keeps_mtry {S A} (P : S → Prop) (m : M S A) : keeps P m → keeps P (mtry m).
Proof. intros Hm s Hs. unfold mtry. specialize (Hm s Hs). by destruct (m s) as [s' []]. Qed.
Lemma keeps_wrapping {S A} (P : S → Prop) msg (m : M S A) : keeps P m → keeps P (wrapping msg m).
Proof. intros Hm s Hs. unfold wrapping. specialize (Hm s Hs). by destruct (m s) as [s' []]. Qed.
Lemma keeps_deferring {S A B} (P : S → Prop) (f : M S B) (m : M S A) :
  keeps P f → keeps P m → keeps P (deferring f m).
Proof.
  intros Hf Hm s Hs. unfold deferring. specialize (Hm s Hs). destruct (m s) as [s' r]. by apply Hf.
Qed.
#[export] Hint Resolve keeps_mtry keeps_wrapping keeps_deferring : gohints.

(** [always Q m]: from every state the computation succeeds in a state with [Q]. *)
Definition always {S A : Type} (Q : S → Prop) (m : M S A) : Prop :=
  ∀ s, Q (fst (m s)) ∧ ∃ a, snd (m s) = Ok a.
Definition total {S A : Type} (m : M S A) : Prop := always (λ _, True) m.

Section always.
Context {S : Type} (Q : S → Prop).

Lemma total_mok {A} (a : A) : total (S := S) (mok a).
Proof. intros s. split; [done|]. by exists a. Qed.
Lemma total_mmod (f : S → S) : total (mmod f).
Proof. intros s. split; [done|]. by exists tt. Qed.
Lemma total_if {A} (b : bool) (m1 m2 : M S A) : total m1 → total m2 → total (if b then m1 else m2).
Proof. by destruct b. Qed.
Lemma total_mbnd {A B} (m : M S A) (k : A → M S B) :
  total m → (∀ a, total (k a)) → total (mbnd m k).
Proof.
  intros Hm Hk s. destruct (Hm s) as [_ [a Ha]]. unfold mbnd.
  destruct (m s) as [s1 r]. simpl in Ha. subst r. apply Hk.
Qed.
Lemma total_mfor {A} (l : list A) (f : A → M S unit) : (∀ x, total (f x)) → total (mfor l f).
Proof. intros Hf. induction l; simpl; [apply total_mok|by apply total_mbnd]. Qed.

Lemma always_total {A} (m : M S A) : always Q m → total m.
Proof. intros Hm s. split; [done|]. apply Hm. Qed.
Lemma always_fst {A B} (m : M S A) (k : A → M S B) :
  always Q m → (∀ a, total (k a)) → (∀ a, keeps Q (k a)) → always Q (mbnd m k).
Proof.
  intros Hm Ht Hk s. destruct (Hm s) as [Hq [a Ha]]. unfold mbnd.
  destruct (m s) as [s1 r]. simpl in *. subst r. split; [by apply Hk|]. apply Ht.
Qed.
Lemma always_snd {A B} (m : M S A) (k : A → M S B) :
  total m → (∀ a, always Q (k a)) → always Q (mbnd m k).
Proof.
  intros Hm Hk s. destruct (Hm s) as [_ [a Ha]]. unfold mbnd.
  destruct (m s) as [s1 r]. simpl in *. subst r. apply Hk.
Qed.
(** One element of the loop establishes [Q], the others keep it. *)
Lemma always_mfor {A} (l : list A) (f : A → M S unit) x :
  x ∈ l → always Q (f x) → (∀ y, total (f y)) → (∀ y, keeps Q (f y)) → always Q (mfor l f).
Proof.
  intros Hx Hq Ht Hk. induction Hx as [x l|x y l Hx IH]; simpl.
  - apply always_fst; [done|intros _; by apply total_mfor|intros _; by apply keeps_mfor].
  - apply always_snd; [done|]. intros _. by apply IH.
Qed.
End always.
#[export] Hint Resolve total_mok total_mmod total_if : gohints.

(** Decompose a computation into its steps and leave the primitive ones. *)
Ltac total_steps :=
  repeat first
    [ solve [auto with gohints] | apply total_if
    | apply total_mfor; intros ? | apply total_mbnd; [|intros ?]
    | match goal with |- total (match ?x with _ => _ end) => destruct x end ].
Ltac keep_steps :=
  repeat first
    [ solve [auto with gohints] | apply keeps_if
    | apply keeps_mfor; intros ? ? | apply keeps_mbnd; [|intros ?]
    | match goal with |- keeps _ (match ?x with _ => _ end) => destruct x end ].

(** * Integer lemmas *)

Lemma u64_small z : is_u64 z → u64 z = z.
Proof. unfold_widths. intros. by rewrite Z.mod_small. Qed.
Lemma u32_small z : is_u32 z → u32 z = z.
Proof. unfold_widths. intros. by rewrite Z.mod_small. Qed.
Lemma i64_small z : is_i64 z → i64 z = z.
Proof. unfold_widths. intros. rewrite Z.mod_small; lia. Qed.
Lemma u64_range z : is_u64 (u64 z).
Proof. unfold_widths. apply Z.mod_pos_bound. lia. Qed.
Lemma u32_range z : is_u32 (u32 z).
Proof. unfold_widths. apply Z.mod_pos_bound. lia. Qed.
Lemma u16_range z : is_u16 (u16 z).
Proof. unfold_widths. apply Z.mod_pos_bound. lia. Qed.
Lemma u8_range z : is_u8 (u8 z).
Proof. unfold_widths. apply Z.mod_pos_bound. lia. Qed.
Lemma i64_range z : is_i64 (i64 z).
Proof.
  unfold_widths. pose proof (Z.mod_pos_bound (z + 2 ^ 63) (2 ^ 64)). lia.
Qed.
#[export] Hint Resolve u64_range u32_range u16_range u8_range i64_range : gohints.
Create Rewrite HintDb gowidths.
#[export] Hint Rewrite u64_small u32_small i64_small using (unfold_widths; lia) : gowidths.

(** A value below [2^k] and a multiple of [2^k] have no bit in common. *)
Lemma lor_add_pow2 a b k : 0 <= k → 0 <= a < 2 ^ k → Z.lor a (b * 2 ^ k) = a + b * 2 ^ k.
Proof.
  intros Hk Ha. assert (Z.land a (b * 2 ^ k) = 0) as Hl.
  { apply Z.bits_inj'. intros n Hn. rewrite Z.land_spec, Z.bits_0.
    destruct (Z.lt_ge_cases n k).
    - rewrite (Z.mul_pow2_bits_low _ k) by lia. apply andb_false_r.
    - replace a with (a mod 2 ^ k) by (by apply Z.mod_small).
      rewrite Z.mod_pow2_bits_high by lia. done. }
  rewrite Z.add_nocarry_lxor by done. by rewrite Z.lxor_lor.
Qed.

(** Masking a byte in place. *)
Lemma land_byte_at x k :
  0 <= k → Z.land x (255 * 2 ^ k) = (x / 2 ^ k) mod 256 * 2 ^ k.
Proof.
  intros Hk. rewrite <- !Z.shiftl_mul_pow2 by done.
  change 256 with (2 ^ 8). rewrite <- Z.land_ones by lia. change (Z.ones 8) with 255.
  rewrite <- Z.shiftr_div_pow2 by done. apply Z.bits_inj'. intros n Hn.
  rewrite Z.land_spec, !Z.shiftl_spec, Z.land_spec by done.
  destruct (Z.lt_ge_cases n k).
  - rewrite !(Z.testbit_neg_r _ (n - k)) by lia. by rewrite andb_false_r.
  - rewrite Z.shiftr_spec by lia. by replace (n - k + k) with n by lia.
Qed.

(** * List lemmas *)

(** The last element of [l] that satisfies [p]. *)
Definition find_last {A : Type} (p : A → bool) (l : list A) : option A :=
  List.find p (rev l).

Lemma find_last_snoc {A} (p : A → bool) l x :
  find_last p (l ++ [x]) = if p x then Some x else find_last p l.
Proof. unfold find_last. rewrite rev_app_distr. simpl. by destruct (p x). Qed.

Lemma find_last_None {A} (p : A → bool) l :
  find_last p l = None ↔ (∀ x, x ∈ l → p x = false).
Proof.
  unfold find_last. split.
  - intros H x Hx. eapply List.find_none; [done|].
    by apply list_elem_of_In, in_rev in Hx.
  - intros H. destruct (List.find p (rev l)) eqn:E; [|done].
    apply List.find_some in E as [E1 E2].
    apply in_rev, list_elem_of_In in E1. rewrite H in E2; done.
Qed.

Lemma find_last_ext {A} (p q : A → bool) l :
  (∀ x, x ∈ l → p x = q x) → find_last p l = find_last q l.
Proof.
  induction l as [|x l IH] using rev_ind; [done|]. intros He. rewrite !find_last_snoc.
  rewrite (He x) by set_solver. destruct (q x); [done|]. apply IH. set_solver.
Qed.
Lemma find_last_Some {A} (p : A → bool) l x :
  find_last p l = Some x → x ∈ l ∧ p x = true.
Proof.
  unfold find_last. intros [E1 E2]%List.find_some.
  by apply in_rev, list_elem_of_In in E1.
Qed.

Lemma elem_of_snoc {A} (l : list A) x y : x ∈ l ++ [y] ↔ x ∈ l ∨ x = y.
Proof. by rewrite elem_of_app, list_elem_of_singleton. Qed.

Lemma last_In_Some {A} (l : list A) x : last l = Some x → x ∈ l.
Proof. apply last_Some_elem_of. Qed.
