(* ===== verification/GoStd.v ===== *)
(** The parts of Go's standard library the agent calls on strings and paths:
    [strings.Cut], [Split], [SplitN], [Trim*], [HasPrefix], [strconv.ParseUint],
    decimal formatting, [path/filepath] and [slices.Contains].  A Go string is
    a byte string: [string] of [ascii]. *)

From Stdlib Require Import ZArith Lia Ascii String.
From stdpp Require Import base tactics numbers list strings gmap.
From S2P Require Import Prelude.

(** * Definitions *)

Definition TAB : ascii := "009"%char.
Definition LF : ascii := "010"%char.
Definition SLASH : ascii := "/"%char.

Definition byte_of_Z (z : Z) : ascii := ascii_of_N (Z.to_N z).
Definition Z_of_byte (c : ascii) : Z := Z.of_N (N_of_ascii c).

Fixpoint str_mem (c : ascii) (s : string) : bool :=
  match s with
  | EmptyString => false
  | String a s' => Ascii.eqb a c || str_mem c s'
  end.

(** [strings.HasPrefix], [TrimPrefix], [CutPrefix]. *)
Fixpoint CutPrefix (s p : string) {struct p} : option string :=
  match p with
  | EmptyString => Some s
  | String a p' =>
      match s with
      | String b s' => if Ascii.eqb a b then CutPrefix s' p' else None
      | EmptyString => None
      end
  end.
Definition HasPrefix (s p : string) : bool :=
  match CutPrefix s p with Some _ => true | None => false end.
Definition TrimPrefix (s p : string) : string := default s (CutPrefix s p).

Fixpoint str_rev_app (s acc : string) : string :=
  match s with
  | EmptyString => acc
  | String a s' => str_rev_app s' (String a acc)
  end.
Definition str_rev (s : string) : string := str_rev_app s "".

(** [strings.TrimSuffix]. *)
Definition TrimSuffix (s p : string) : string :=
  match CutPrefix (str_rev s) (str_rev p) with
  | Some r => str_rev r
  | None => s
  end.

(** [strings.Cut] with a one-byte separator. *)
Fixpoint Cut (s : string) (c : ascii) : option (string * string) :=
  match s with
  | EmptyString => None
  | String a s' =>
      if Ascii.eqb a c then Some ("", s')
      else match Cut s' c with
           | Some (l, r) => Some (String a l, r)
           | None => None
           end
  end.

(** [strings.SplitN] and [strings.Split] with a one-byte separator. *)
Fixpoint SplitN (s : string) (c : ascii) (n : nat) : list string :=
  match n with
  | O => []
  | S O => [s]
  | S n' => match Cut s c with
            | Some (l, r) => l :: SplitN r c n'
            | None => [s]
            end
  end.

Fixpoint Split (s : string) (c : ascii) : list string :=
  match s with
  | EmptyString => [""]
  | String a s' =>
      if Ascii.eqb a c then "" :: Split s' c
      else match Split s' c with
           | h :: t => String a h :: t
           | [] => [String a ""]
           end
  end.

Fixpoint Join (l : list string) (c : ascii) : string :=
  match l with
  | [] => ""
  | [s] => s
  | s :: l' => s +:+ String c (Join l' c)
  end.

(** A string of given bytes. *)
Definition bytes_str (l : list Z) : string :=
  List.fold_right (λ b s, String (byte_of_Z b) s) "" l.
(** [%q] of a string of ASCII and printable UTF-8, which is copied. *)
Definition hex_digit (d : Z) : ascii := byte_of_Z (if d <? 10 then 48 + d else 87 + d).
Definition quote_byte (c : ascii) : string :=
  let b := Z.of_N (N_of_ascii c) in
  match List.find (λ p, fst p =? b)
          [(7, 97); (8, 98); (9, 116); (10, 110); (11, 118); (12, 102); (13, 114); (34, 34); (92, 92)] with
  | Some p => bytes_str [92; snd p]
  | None =>
      if (b <? 32) || (b =? 127)
      then bytes_str [92; 120] +:+ String (hex_digit (b / 16)) (String (hex_digit (b mod 16)) "")
      else String c ""
  end.
Fixpoint quote_bytes (s : string) : string :=
  match s with
  | EmptyString => ""
  | String c s' => quote_byte c +:+ quote_bytes s'
  end.
Definition fmt_q (s : string) : string := bytes_str [34] +:+ quote_bytes s +:+ bytes_str [34].

(** The UTF-8 encodings of [unicode.IsSpace]'s code points. *)
Definition space_runes : list string :=
  ((λ b, bytes_str [b]) <$> [9; 10; 11; 12; 13; 32]) ++
  (bytes_str <$> [[194; 133]; [194; 160]; [225; 154; 128]]) ++
  ((λ b, bytes_str [226; 128; b]) <$>
     [128; 129; 130; 131; 132; 133; 134; 135; 136; 137; 138; 168; 169; 175]) ++
  (bytes_str <$> [[226; 129; 159]; [227; 128; 128]]).

Fixpoint cut_any (ps : list string) (s : string) : option string :=
  match ps with
  | [] => None
  | p :: ps' => match CutPrefix s p with
                | Some r => Some r
                | None => cut_any ps' s
                end
  end.
Fixpoint trim_left (fuel : nat) (ps : list string) (s : string) : string :=
  match fuel with
  | O => s
  | S f => match cut_any ps s with
           | Some r => trim_left f ps r
           | None => s
           end
  end.

(** [strings.TrimSpace].  UTF-8 is self-synchronising, so trimming encoded
    spaces at either end is trimming runes. *)
Definition TrimSpace (s : string) : string :=
  let l := trim_left (String.length s) space_runes s in
  str_rev (trim_left (String.length l) (str_rev <$> space_runes) (str_rev l)).

Definition Contains_byte (s : string) (c : ascii) : bool := str_mem c s.

Definition lower_byte (c : ascii) : ascii :=
  let n := Z_of_byte c in
  if (65 <=? n) && (n <=? 90) then byte_of_Z (n + 32) else c.
Definition upper_byte (c : ascii) : ascii :=
  let n := Z_of_byte c in
  if (97 <=? n) && (n <=? 122) then byte_of_Z (n - 32) else c.
Fixpoint map_bytes (f : ascii → ascii) (s : string) : string :=
  match s with
  | EmptyString => EmptyString
  | String a s' => String (f a) (map_bytes f s')
  end.

(** [slices.Contains]. *)
Definition slices_Contains {A} `{EqDecision A} (l : list A) (x : A) : bool :=
  bool_decide (x ∈ l).

(** ** Numbers *)

Definition ErrSyntax : error := ENew "invalid syntax".
Definition ErrRange : error := ENew "value out of range".

Definition digit_val (c : ascii) : option Z :=
  let n := Z_of_byte c in
  if (48 <=? n) && (n <=? 57) then Some (n - 48) else None.

(** The loop of [strconv.ParseUint(s, 10, 64)] from accumulator [n]. *)
Fixpoint parse_digits (max n : Z) (s : string) : res Z :=
  match s with
  | EmptyString => Ok n
  | String c s' =>
      match digit_val c with
      | None => Err (EWrap "strconv.ParseUint: " ErrSyntax)
      | Some d => if max <? n * 10 + d then Err (EWrap "strconv.ParseUint: " ErrRange)
                  else parse_digits max (n * 10 + d) s'
      end
  end.
Definition ParseUint64 (s : string) : res Z :=
  match s with
  | EmptyString => Err (EWrap "strconv.ParseUint: " ErrSyntax)
  | _ => parse_digits (2 ^ 64 - 1) 0 s
  end.

(** [%d] of an unsigned number of at most [fuel] digits. *)
Fixpoint fmt_digits (fuel : nat) (z : Z) (acc : string) : string :=
  match fuel with
  | O => acc
  | S f => let acc' := String (byte_of_Z (48 + z mod 10)) acc in
           if z <? 10 then acc' else fmt_digits f (z / 10) acc'
  end.
Definition fmt_u (z : Z) : string := fmt_digits 20 z "".

(** ** Paths *)

Definition IsAbs (p : string) : bool := HasPrefix p "/".

(** [filepath.Clean]: drop empty and [.] elements, resolve [..] lexically. *)
Fixpoint clean_elems (rooted : bool) (out : list string) (l : list string) : list string :=
  match l with
  | [] => out
  | e :: l' =>
      if bool_decide (e = "" ∨ e = ".") then clean_elems rooted out l'
      else if bool_decide (e = "..") then
        match rev out with
        | x :: r =>
            if bool_decide (x = "..") then clean_elems rooted (out ++ [".."]) l'
            else clean_elems rooted (rev r) l'
        | [] => if rooted then clean_elems rooted out l'
                else clean_elems rooted [".."] l'
        end
      else clean_elems rooted (out ++ [e]) l'
  end.
Definition Clean (p : string) : string :=
  let rooted := IsAbs p in
  let body := Join (clean_elems rooted [] (Split p SLASH)) SLASH in
  if rooted then String SLASH body
  else if bool_decide (body = "") then "." else body.

(** [filepath.Base]: the last element after trailing slashes are removed. *)
Fixpoint last_elem (l : list string) : string :=
  match l with
  | [] => ""
  | e :: l' => let r := last_elem l' in if bool_decide (r = "") then e else r
  end.
Definition Base (p : string) : string :=
  if bool_decide (p = "") then "."
  else let b := last_elem (Split p SLASH) in
       if bool_decide (b = "") then "/" else b.

(** * Lemmas *)

Lemma str_app_nil_r s : s +:+ "" = s.
Proof. induction s; simpl; congruence. Qed.
Lemma str_app_assoc s t u : (s +:+ t) +:+ u = s +:+ (t +:+ u).
Proof. induction s; simpl; congruence. Qed.

Lemma CutPrefix_app p s : CutPrefix (p +:+ s) p = Some s.
Proof. induction p; simpl; [done|]. by rewrite Ascii.eqb_refl. Qed.

Lemma CutPrefix_Some s p r : CutPrefix s p = Some r → s = p +:+ r.
Proof.
  revert s r. induction p as [|a p IH]; intros s r; simpl.
  - by intros [= ->].
  - destruct s as [|b s]; [done|].
    destruct (Ascii.eqb_spec a b) as [->|]; [|done].
    intros ->%IH. done.
Qed.

Lemma HasPrefix_spec s p : HasPrefix s p = true ↔ ∃ r, s = p +:+ r.
Proof.
  unfold HasPrefix. split.
  - destruct (CutPrefix s p) eqn:E; [|done]. intros _.
    eexists. by apply CutPrefix_Some.
  - intros [r ->]. by rewrite CutPrefix_app.
Qed.

Lemma str_rev_app_spec s acc : str_rev_app s acc = str_rev s +:+ acc.
Proof.
  unfold str_rev. revert acc. induction s as [|a s IH]; intros acc; [done|].
  simpl. rewrite IH, (IH (String a "")), str_app_assoc. done.
Qed.
Lemma str_rev_app_distr s t : str_rev (s +:+ t) = str_rev t +:+ str_rev s.
Proof.
  induction s as [|a s IH]; simpl; [by rewrite str_app_nil_r|].
  unfold str_rev at 1 3. simpl.
  by rewrite !str_rev_app_spec, IH, str_app_assoc.
Qed.
Lemma str_rev_involutive s : str_rev (str_rev s) = s.
Proof.
  induction s as [|a s IH]; [done|].
  change (String a s) with (String a "" +:+ s) at 1.
  rewrite str_rev_app_distr, str_rev_app_distr, IH. done.
Qed.

Lemma TrimSuffix_app s p : TrimSuffix (s +:+ p) p = s.
Proof.
  unfold TrimSuffix. rewrite str_rev_app_distr, CutPrefix_app.
  apply str_rev_involutive.
Qed.

Lemma Cut_app s c r : str_mem c s = false → Cut (s +:+ String c r) c = Some (s, r).
Proof.
  induction s as [|a s IH]; simpl; intros H.
  - by rewrite Ascii.eqb_refl.
  - apply orb_false_iff in H as [-> H]. by rewrite IH.
Qed.
Lemma Cut_None s c : str_mem c s = false → Cut s c = None.
Proof.
  induction s as [|a s IH]; simpl; intros H; [done|].
  apply orb_false_iff in H as [-> H]. by rewrite IH.
Qed.
Lemma Cut_Some s c l r :
  Cut s c = Some (l, r) → s = l +:+ String c r ∧ str_mem c l = false.
Proof.
  revert l r. induction s as [|a s IH]; intros l r; simpl; [done|].
  destruct (Ascii.eqb_spec a c) as [->|Hne].
  - by intros [= <- <-].
  - destruct (Cut s c) as [[l' r']|]; [|done].
    intros [= <- <-]. destruct (IH l' r' eq_refl) as [-> Hm]. simpl.
    rewrite Hm. by apply Ascii.eqb_neq in Hne as ->.
Qed.

Lemma Split_nosep s c : str_mem c s = false → Split s c = [s].
Proof.
  induction s as [|a s IH]; simpl; intros H; [done|].
  apply orb_false_iff in H as [-> H]. by rewrite IH.
Qed.
Lemma Split_app s c r : str_mem c s = false → Split (s +:+ String c r) c = s :: Split r c.
Proof.
  induction s as [|a s IH]; simpl; intros H.
  - by rewrite Ascii.eqb_refl.
  - apply orb_false_iff in H as [-> H]. by rewrite IH.
Qed.
Lemma Split_nonempty s c : Split s c ≠ [].
Proof.
  destruct s as [|a s]; simpl; [done|].
  destruct (Ascii.eqb a c); [done|]. by destruct (Split s c).
Qed.
(** Splitting loses nothing: joining the pieces gives the string back. *)
Lemma Join_Split s c : Join (Split s c) c = s.
Proof.
  induction s as [|a s IH]; simpl; [done|].
  destruct (Ascii.eqb_spec a c) as [->|].
  - destruct (Split s c) eqn:E; [by apply Split_nonempty in E|].
    rewrite <- IH. done.
  - destruct (Split s c) as [|h t] eqn:E; [by apply Split_nonempty in E|].
    rewrite <- IH. by destruct t.
Qed.

Lemma slices_Contains_spec {A} `{EqDecision A} (l : list A) x :
  slices_Contains l x = true ↔ x ∈ l.
Proof. apply bool_decide_eq_true. Qed.

(** ** Decimal numbers round-trip *)

Lemma Z_of_byte_of_Z z : 0 <= z < 256 → Z_of_byte (byte_of_Z z) = z.
Proof.
  intros H. unfold Z_of_byte, byte_of_Z. rewrite N_ascii_embedding; lia.
Qed.
Lemma digit_val_digit d : 0 <= d < 10 → digit_val (byte_of_Z (48 + d)) = Some d.
Proof.
  intros H. unfold digit_val. rewrite Z_of_byte_of_Z by lia.
  replace ((48 <=? 48 + d) && (48 + d <=? 57)) with true by lia. f_equal. lia.
Qed.

Lemma parse_fmt_digits fuel max z acc :
  0 <= z <= max → z < 10 ^ Z.of_nat fuel → fuel ≠ O →
  parse_digits max 0 (fmt_digits fuel z acc) = parse_digits max z acc.
Proof.
  revert z acc. induction fuel as [|f IH]; intros z acc Hz Hlt Hf; [done|].
  simpl. pose proof (Z.mod_pos_bound z 10 ltac:(lia)) as Hm.
  pose proof (Z.div_mod z 10 ltac:(lia)) as Hd.
  destruct (Z.ltb_spec z 10) as [Hs|Hs].
  - simpl. rewrite digit_val_digit by lia.
    rewrite Z.mod_small by lia. destruct (Z.ltb_spec max (0 * 10 + z)); [lia|].
    f_equal.
  - assert (z / 10 < 10 ^ Z.of_nat f).
    { apply Z.div_lt_upper_bound; [lia|]. rewrite Nat2Z.inj_succ, Z.pow_succ_r in Hlt; lia. }
    assert (1 <= z / 10) by (apply Z.div_le_lower_bound; lia).
    assert (f ≠ O) by (intros ->; simpl in *; lia).
    rewrite IH by lia. simpl. rewrite digit_val_digit by lia.
    replace (z / 10 * 10 + z mod 10) with z by lia.
    destruct (Z.ltb_spec max z); [lia|done].
Qed.

Lemma fmt_digits_cons fuel z acc :
  fuel ≠ O → ∃ c s, fmt_digits fuel z acc = String c s.
Proof.
  revert z acc. induction fuel as [|f IH]; intros z acc Hf; [done|].
  simpl. destruct (z <? 10); [by eauto|].
  destruct f; [by eauto|]. by apply IH.
Qed.

Lemma ParseUint64_fmt z : is_u64 z → ParseUint64 (fmt_u z) = Ok z.
Proof.
  unfold_widths. intros H. unfold ParseUint64, fmt_u.
  destruct (fmt_digits_cons 20 z "" ltac:(done)) as (c & s & E).
  rewrite E, <- E, parse_fmt_digits; [done|lia| |done].
  change (10 ^ Z.of_nat 20) with 100000000000000000000. lia.
Qed.

(** A parsed number is a [uint64]. *)
Lemma parse_digits_range max n s z :
  0 <= n <= max → parse_digits max n s = Ok z → 0 <= z <= max.
Proof.
  revert n. induction s as [|c s IH]; intros n Hn; simpl; [naive_solver|].
  unfold digit_val. destruct (_ && _) eqn:E; [|done]. zify_bools.
  destruct (Z.ltb_spec max (n * 10 + (Z_of_byte c - 48))); [done|].
  apply IH. lia.
Qed.
Lemma ParseUint64_range s z : ParseUint64 s = Ok z → is_u64 z.
Proof.
  unfold ParseUint64. destruct s; [done|]. intros H%parse_digits_range; unfold_widths; lia.
Qed.

(** The decimal rendering contains digits only. *)
Lemma fmt_digits_mem fuel z acc c :
  0 <= z → digit_val c = None → str_mem c acc = false →
  str_mem c (fmt_digits fuel z acc) = false.
Proof.
  revert z acc. induction fuel as [|f IH]; intros z acc Hz Hc Ha; [done|].
  simpl. pose proof (Z.mod_pos_bound z 10 ltac:(lia)) as Hm.
  assert (str_mem c (String (byte_of_Z (48 + z mod 10)) acc) = false).
  { simpl. rewrite Ha, orb_false_r. apply Ascii.eqb_neq. intros <-.
    rewrite digit_val_digit in Hc; done. }
  destruct (z <? 10); [done|]. apply IH; [|done|done].
  apply Z.div_pos; lia.
Qed.
Lemma fmt_u_mem z c : 0 <= z → digit_val c = None → str_mem c (fmt_u z) = false.
Proof. intros. by apply fmt_digits_mem. Qed.

(** ** [sort.Search] *)

(** The smallest index in [i, j) at which [f] holds, by bisection; [fuel]
    bounds the halvings, [j - i] of them are enough. *)
Fixpoint search_loop (fuel : nat) (f : nat → bool) (i j : nat) : nat :=
  match fuel with
  | O => i
  | S fuel' =>
      if (i <? j)%nat then
        let h := ((i + j) / 2)%nat in
        if negb (f h) then search_loop fuel' f (S h) j else search_loop fuel' f i h
      else i
  end.
Definition sort_Search (n : nat) (f : nat → bool) : nat := search_loop n f 0 n.

(** For a predicate that stays true once it is true, the result separates the
    indices where it fails from those where it holds. *)
Lemma search_loop_spec fuel f i j :
  (i <= j)%nat → (j - i <= fuel)%nat →
  (∀ a b, (a <= b)%nat → f a = true → f b = true) →
  let r := search_loop fuel f i j in
  (i <= r <= j)%nat ∧ (∀ k, (i <= k < r)%nat → f k = false) ∧
  (∀ k, (r <= k < j)%nat → f k = true).
Proof.
  revert i j. induction fuel as [|n IH]; intros i j Hij Hf Hm; cbn [search_loop].
  { split; [lia|]. split; intros; lia. }
  destruct (Nat.ltb_spec i j) as [Hlt|]; [|split; [lia|]; split; intros; lia].
  set (h := ((i + j) / 2)%nat).
  assert (i <= h < j)%nat as Hh.
  { pose proof (Nat.div_mod_eq (i + j) 2). pose proof (Nat.mod_upper_bound (i + j) 2). subst h. lia. }
  clearbody h.
  destruct (f h) eqn:Eh; simpl.
  - destruct (IH i h) as (H1 & H2 & H3); [lia|lia|done|]. split; [lia|]. split; [done|].
    intros k Hk. destruct (Nat.lt_ge_cases k h); [by apply H3; lia|]. by apply (Hm h).
  - destruct (IH (S h) j) as (H1 & H2 & H3); [lia|lia|done|]. split; [lia|]. split; [|done].
    intros k Hk. destruct (Nat.lt_ge_cases h k); [by apply H2; lia|].
    destruct (f k) eqn:Ek; [|done]. rewrite (Hm k h) in Eh; [done|lia|done].
Qed.

Lemma sort_Search_spec n f :
  (∀ a b, (a <= b)%nat → f a = true → f b = true) →
  (sort_Search n f <= n)%nat ∧ (∀ k, (k < sort_Search n f)%nat → f k = false) ∧
  (∀ k, (sort_Search n f <= k < n)%nat → f k = true).
Proof.
  intros Hm. destruct (search_loop_spec n f 0 n) as (H1 & H2 & H3); [lia|lia|done|].
  split; [apply H1|]. split; [|done]. intros k Hk. apply H2. unfold sort_Search in Hk. lia.
Qed.

(** * Errors as text *)

(** [error.Error]. *)
Class ErrnoText := errno_text : Z → string.
Fixpoint Error `{ErrnoText} (e : error) : string :=
  match e with
  | ENew s => s
  | EErrno n => errno_text n
  | EWrap m e' => m +:+ Error e'
  | EMsg m => m
  end.
(** [errors.Join] of the errors that are not nil. *)
Definition errors_Join `{ErrnoText} (errs : list error) : option error :=
  match errs with
  | [] => None
  | e :: es => Some (EMsg (foldl (λ s e', s +:+ String LF (Error e')) (Error e) es))
  end.

(** * Joined paths *)

(** [filepath.Join] of two elements. *)
Definition filepath_Join (a b : string) : string :=
  if bool_decide (a = "") then (if bool_decide (b = "") then "" else Clean b)
  else if bool_decide (b = "") then Clean a
  else Clean (a +:+ String SLASH b).

(** A file name: one path element that [Clean] keeps. *)
Definition plain_name (n : string) : Prop :=
  str_mem SLASH n = false ∧ n ≠ "" ∧ n ≠ "." ∧ n ≠ "..".
#[export] Instance plain_name_dec n : Decision (plain_name n).
Proof. unfold plain_name. apply _. Defined.

Lemma Split_snoc s n : str_mem SLASH n = false →
  Split (s +:+ String SLASH n) SLASH = Split s SLASH ++ [n].
Proof.
  intros Hn. induction s as [|a s IH]; cbn -[SLASH].
  - rewrite Ascii.eqb_refl. by rewrite Split_nosep.
  - destruct (Ascii.eqb a SLASH); [by rewrite IH|]. rewrite IH.
    destruct (Split s SLASH) eqn:E; [by apply Split_nonempty in E|done].
Qed.

Lemma clean_elems_snoc r out l n :
  plain_name n → clean_elems r out (l ++ [n]) = clean_elems r out l ++ [n].
Proof.
  intros (_ & H1 & H2 & H3). revert out. induction l as [|e l IH]; intros out; simpl.
  - rewrite bool_decide_false by (by intros [?|?]). by rewrite bool_decide_false.
  - repeat case_bool_decide; try done. destruct (rev out); [by destruct r|].
    by case_bool_decide.
Qed.

Lemma Join_snoc l n c : Join (l ++ [n]) c = match l with [] => n | _ => Join l c +:+ String c n end.
Proof.
  induction l as [|s l IH]; [done|]. destruct l as [|s' l]; [done|].
  change ((s :: s' :: l) ++ [n]) with (s :: (s' :: l) ++ [n]).
  change (Join (s :: (s' :: l) ++ [n]) c) with (s +:+ String c (Join ((s' :: l) ++ [n]) c)).
  rewrite IH. change (Join (s :: s' :: l) c) with (s +:+ String c (Join (s' :: l) c)).
  by rewrite str_app_assoc.
Qed.

Lemma str_app_inj s t u : s +:+ t = s +:+ u → t = u.
Proof. induction s; simpl; [done|]. intros [= ?]. auto. Qed.

Lemma str_app_empty s t : s +:+ t = "" → t = "".
Proof. by destruct s. Qed.

(** Different programs are pinned at different paths. *)
Lemma filepath_Join_inj d n n' :
  d ≠ "" → plain_name n → plain_name n' →
  filepath_Join d n = filepath_Join d n' → n = n'.
Proof.
  intros Hd Hn Hn'. unfold filepath_Join. rewrite !(bool_decide_false (d = "")) by done.
  pose proof Hn as (Hs & He & _). pose proof Hn' as (Hs' & He' & _).
  rewrite !bool_decide_false by done. unfold Clean.
  rewrite !Split_snoc by done. rewrite !clean_elems_snoc by done. rewrite !Join_snoc.
  assert (∀ x, IsAbs (d +:+ String SLASH x) = HasPrefix (d +:+ String SLASH "") "/") as Ha.
  { intros x. destruct d as [|a d]; [done|]. unfold IsAbs, HasPrefix.
    cbn -[Ascii.eqb SLASH]. by destruct (Ascii.eqb _ a). }
  rewrite !Ha. destruct (HasPrefix _ _).
  - destruct (clean_elems _ _ _); [by intros [= ->]|]. intros [= E].
    apply str_app_inj in E. by simplify_eq.
  - destruct (clean_elems _ _ _) as [|x l].
    + by rewrite !bool_decide_false.
    + rewrite !bool_decide_false; [|by intros ?%str_app_empty..].
      intros E. apply str_app_inj in E. by simplify_eq.
Qed.

Lemma Clean_nonempty p : Clean p ≠ "".
Proof. unfold Clean. destruct (IsAbs p); [done|]. by case_bool_decide. Qed.
Lemma filepath_Join_nonempty a b : a ≠ "" ∨ b ≠ "" → filepath_Join a b ≠ "".
Proof.
  unfold filepath_Join. repeat case_bool_decide; intros ?; try apply Clean_nonempty. naive_solver.
Qed.
