(* ===== verification/EbpfMap.v ===== *)
(** The kernel maps, as an interface.

    The agent reaches BPF maps through [github.com/cilium/ebpf] and the kernel
    behind it; neither is part of the repository.  A map type is a parameter
    here: its operations as the Go code calls them ([Lookup], [Put], [Delete]),
    the content the BPF programs see with [bpf_map_lookup_elem], and the laws
    the kernel documents for each map type.  The bounded maps at the end
    satisfy the laws. *)

From Stdlib Require Import ZArith Lia String.
From stdpp Require Import base tactics numbers list strings gmap.
From S2P Require Import Prelude.

Definition ErrKeyNotExist : error := ENew "key does not exist".
Definition E2BIG : Z := 7.
Definition EINVAL : Z := 22.

(** * [BPF_MAP_TYPE_HASH] *)

Class HashMap (T K V : Type) := {
  hm_get : T → K → option V;                     (* bpf_map_lookup_elem *)
  hm_Lookup : T → K → res V;                     (* Map.Lookup *)
  hm_Put : T → K → V → T * option error;         (* Map.Put, nil is None *)
  hm_Delete : T → K → T * option error           (* Map.Delete *)
}.
Arguments hm_get {T K V _} _ _.
Arguments hm_Lookup {T K V _} _ _.
Arguments hm_Put {T K V _} _ _ _.
Arguments hm_Delete {T K V _} _ _.

Class HashMapLaws (T K V : Type) `{EqDecision K} `{HashMap T K V} : Prop := {
  hm_Lookup_ok m k v : hm_Lookup m k = Ok v → hm_get m k = Some v;
  hm_Lookup_missing m k e :
    hm_Lookup m k = Err e → errors_Is e ErrKeyNotExist = true → hm_get m k = None;
  hm_Put_ok m k v m' :
    hm_Put m k v = (m', None) →
    ∀ k', hm_get m' k' = if decide (k' = k) then Some v else hm_get m k';
  hm_Put_err m k v m' e :
    hm_Put m k v = (m', Some e) → ∀ k', hm_get m' k' = hm_get m k';
  hm_Delete_ok m k m' :
    hm_Delete m k = (m', None) →
    ∀ k', hm_get m' k' = if decide (k' = k) then None else hm_get m k';
  hm_Delete_err m k m' e :
    hm_Delete m k = (m', Some e) →
    (∀ k', hm_get m' k' = hm_get m k') ∧
    (errors_Is e ErrKeyNotExist = true → hm_get m k = None)
}.

(** * [BPF_MAP_TYPE_PERCPU_ARRAY] with one entry *)

Class PercpuArray (T V : Type) := {
  pa_get : T → nat → option V;                   (* the entry on one CPU *)
  pa_Put : T → list V → T * option error         (* Put(uint32(0), vals) *)
}.
Arguments pa_get {T V _} _ _.
Arguments pa_Put {T V _} _ _.

Class PercpuArrayLaws (T V : Type) `{PercpuArray T V} : Prop := {
  pa_Put_ok m vals m' :
    pa_Put m vals = (m', None) → ∀ cpu, pa_get m' cpu = vals !! cpu;
  pa_Put_err m vals m' e :
    pa_Put m vals = (m', Some e) → ∀ cpu, pa_get m' cpu = pa_get m cpu
}.

(** * [BPF_MAP_TYPE_LPM_TRIE]

    A key is a prefix length and data bits, most significant bit first.  An
    entry matches a lookup key when it is no longer than it and agrees with it
    on its own prefix; a lookup returns the longest matching entry.  This holds
    for user space and for BPF programs alike. *)

Class LpmKey (K : Type) := {
  lk_len : K → Z;
  lk_bits : K → list bool;
  lk_cut : K → Z → K                             (* the same data, another length *)
}.
Class LpmKeyLaws (K : Type) (width : Z) `{LpmKey K} : Prop := {
  lk_bits_width k : Z.of_nat (length (lk_bits k)) = width;
  lk_cut_len k n : lk_len (lk_cut k n) = n;
  lk_cut_bits k n : lk_bits (lk_cut k n) = lk_bits k
}.

Definition lk_prefix {K} `{LpmKey K} (k : K) : list bool :=
  take (Z.to_nat (lk_len k)) (lk_bits k).

(** [lk_covers k' k]: an entry stored under [k'] matches a lookup of [k]. *)
Definition lk_covers {K} `{LpmKey K} (k' k : K) : bool :=
  (lk_len k' <=? lk_len k) &&
  bool_decide (lk_prefix k' = take (Z.to_nat (lk_len k')) (lk_bits k)).

Class LpmTrie (T K V : Type) := {
  lp_max : Z;                                    (* 8 * (key size - 4) *)
  lp_entry : T → K → option V;                   (* the entry at exactly this prefix *)
  lp_find : T → K → option V;                    (* bpf_map_lookup_elem *)
  lp_Lookup : T → K → res V;
  lp_Put : T → K → V → T * option error
}.
Arguments lp_max T K V {_}.
Arguments lp_entry {T K V _} _ _.
Arguments lp_find {T K V _} _ _.
Arguments lp_Lookup {T K V _} _ _.
Arguments lp_Put {T K V _} _ _ _.

Class LpmTrieLaws (T K V : Type) `{LpmKey K} `{LpmTrie T K V} : Prop := {
  lp_find_Some m k v :
    lp_find m k = Some v →
    ∃ k', lp_entry m k' = Some v ∧ lk_covers k' k = true ∧
          ∀ k'' v'', lp_entry m k'' = Some v'' → lk_covers k'' k = true →
                     lk_len k'' <= lk_len k';
  lp_find_None m k :
    lp_find m k = None → lk_len k <= lp_max T K V →
    ∀ k' v, lp_entry m k' = Some v → lk_covers k' k = false;
  lp_entry_prefix m k k' :
    0 <= lk_len k → lk_len k = lk_len k' → lk_prefix k = lk_prefix k' →
    lp_entry m k = lp_entry m k';
  lp_Lookup_ok m k v : lp_Lookup m k = Ok v → lp_find m k = Some v;
  lp_Lookup_missing m k e :
    lp_Lookup m k = Err e → errors_Is e ErrKeyNotExist = true → lp_find m k = None;
  lp_Put_ok m k v m' :
    lp_Put m k v = (m', None) →
    lk_len k <= lp_max T K V ∧
    ∀ k', lp_entry m' k' =
          if decide (lk_len k' = lk_len k ∧ lk_prefix k' = lk_prefix k) then Some v
          else lp_entry m k';
  lp_Put_err m k v m' e :
    lp_Put m k v = (m', Some e) → ∀ k', lp_entry m' k' = lp_entry m k'
}.

Lemma lk_covers_spec {K} `{LpmKey K} (k' k : K) :
  lk_covers k' k = true ↔
  lk_len k' <= lk_len k ∧ lk_prefix k' = take (Z.to_nat (lk_len k')) (lk_bits k).
Proof. unfold lk_covers. by rewrite andb_true_iff, bool_decide_eq_true, Z.leb_le. Qed.

Lemma lk_covers_refl {K} `{LpmKey K} (k : K) : lk_covers k k = true.
Proof. apply lk_covers_spec. split; [lia|done]. Qed.

(** Two entries that match the same lookup with the same length are the same
    entry, so the longest one determines the value. *)
Lemma lp_find_unique {T K V} `{LpmTrieLaws T K V} (m : T) (k k' : K) (v : V) :
  0 <= lk_len k' → lk_len k <= lp_max T K V →
  lp_entry m k' = Some v → lk_covers k' k = true →
  (∀ k'' v'', lp_entry m k'' = Some v'' → lk_covers k'' k = true →
              lk_len k'' <= lk_len k') →
  lp_find m k = Some v.
Proof.
  intros Hpos Hmax He Hc Hlong. destruct (lp_find m k) as [v'|] eqn:E.
  - destruct (lp_find_Some m k v' E) as (k2 & He2 & Hc2 & Hl2).
    pose proof (Hlong _ _ He2 Hc2). pose proof (Hl2 _ _ He Hc).
    assert (lk_len k' = lk_len k2) as Hlen by lia.
    rewrite <- He2, <- (lp_entry_prefix m k' k2), He; [done|done|done|].
    apply lk_covers_spec in Hc as [_ ->], Hc2 as [_ ->]. by rewrite Hlen.
  - rewrite (lp_find_None m k E Hmax k' v He) in Hc. done.
Qed.

(** * Bounded maps that satisfy the laws *)

Record bhash (K V : Type) `{Countable K} : Type := BHash {
  bh_cap : Z;
  bh_map : gmap K V
}.
Arguments BHash {K V _ _} _ _.
Arguments bh_cap {K V _ _} _.
Arguments bh_map {K V _ _} _.

#[export] Instance bhash_map {K V} `{Countable K} : HashMap (bhash K V) K V := {
  hm_get m k := bh_map m !! k;
  hm_Lookup m k := match bh_map m !! k with
                   | Some v => Ok v
                   | None => Err (EWrap "lookup: " ErrKeyNotExist)
                   end;
  hm_Put m k v :=
    if bool_decide (is_Some (bh_map m !! k)) || (Z.of_nat (size (bh_map m)) <? bh_cap m)
    then (BHash (bh_cap m) (<[k := v]> (bh_map m)), None)
    else (m, Some (EWrap "update: " (EErrno E2BIG)));
  hm_Delete m k :=
    match bh_map m !! k with
    | Some _ => (BHash (bh_cap m) (delete k (bh_map m)), None)
    | None => (m, Some (EWrap "delete: " ErrKeyNotExist))
    end
}.

#[export] Instance bhash_laws {K V} `{Countable K} : HashMapLaws (bhash K V) K V.
Proof.
  split; simpl; intros; repeat case_match; simplify_map_eq; done.
Qed.

Record bpercpu (V : Type) : Type := BPercpu { bp_ncpu : nat; bp_vals : list V }.
Arguments BPercpu {V} _ _.
Arguments bp_ncpu {V} _.
Arguments bp_vals {V} _.

#[export] Instance bpercpu_map {V} : PercpuArray (bpercpu V) V := {
  pa_get m cpu := bp_vals m !! cpu;
  pa_Put m vals :=
    if (length vals =? bp_ncpu m)%nat then (BPercpu (bp_ncpu m) vals, None)
    else (m, Some (EErrno EINVAL))
}.
#[export] Instance bpercpu_laws {V} : PercpuArrayLaws (bpercpu V) V.
Proof. split; simpl; intros; case_match; by simplify_eq/=. Qed.

(** A trie as the map from prefixes to values; the lookup tries the lookup
    key's prefixes from the longest to the shortest. *)
Record blpm (K V : Type) : Type := BLpm { bl_cap : Z; bl_map : gmap (list bool) V }.
Arguments BLpm {K V} _ _.
Arguments bl_cap {K V} _.
Arguments bl_map {K V} _.

Fixpoint blpm_search {V} (m : gmap (list bool) V) (bits : list bool) (n : nat) : option V :=
  match m !! take n bits with
  | Some v => Some v
  | None => match n with O => None | S n' => blpm_search m bits n' end
  end.

Section blpm.
Context {K V : Type} `{LpmKey K} (maxlen : Z).

Definition lk_wf (k : K) : bool :=
  (0 <=? lk_len k) && (lk_len k <=? maxlen) &&
  (lk_len k <=? Z.of_nat (length (lk_bits k))).

Definition blpm_trie : LpmTrie (blpm K V) K V := {|
  lp_max := maxlen;
  lp_entry m k := if lk_wf k then bl_map m !! lk_prefix k else None;
  lp_find m k :=
    if (lk_len k <=? maxlen) && (0 <=? lk_len k)
    then blpm_search (bl_map m) (lk_bits k) (Z.to_nat (lk_len k)) else None;
  lp_Lookup m k :=
    if (lk_len k <=? maxlen) && (0 <=? lk_len k) then
      match blpm_search (bl_map m) (lk_bits k) (Z.to_nat (lk_len k)) with
      | Some v => Ok v
      | None => Err (EWrap "lookup: " ErrKeyNotExist)
      end
    else Err (EErrno EINVAL);
  lp_Put m k v :=
    if lk_wf k then
      if bool_decide (is_Some (bl_map m !! lk_prefix k)) ||
         (Z.of_nat (size (bl_map m)) <? bl_cap m)
      then (BLpm (bl_cap m) (<[lk_prefix k := v]> (bl_map m)), None)
      else (m, Some (EErrno 28))
    else (m, Some (EErrno EINVAL))
|}.
End blpm.

Lemma blpm_search_Some {V} (m : gmap (list bool) V) bits n v :
  blpm_search m bits n = Some v →
  ∃ i, (i <= n)%nat ∧ m !! take i bits = Some v ∧
       ∀ j w, (j <= n)%nat → m !! take j bits = Some w → (j <= i)%nat.
Proof.
  induction n as [|n IH]; simpl; intros Hs.
  - destruct (m !! take 0 bits) eqn:E; [|done]. exists O. naive_solver lia.
  - destruct (m !! take (S n) bits) eqn:E.
    + simplify_eq. exists (S n). naive_solver lia.
    + destruct (IH Hs) as (i & Hi & Hm & Hmax). exists i. split; [lia|]. split; [done|].
      intros j w Hj Hw. assert (j ≠ S n) by congruence. eapply Hmax; [lia|done].
Qed.
Lemma blpm_search_None {V} (m : gmap (list bool) V) bits n :
  blpm_search m bits n = None → ∀ j, (j <= n)%nat → m !! take j bits = None.
Proof.
  induction n as [|n IH]; simpl; intros Hs j Hj.
  - destruct (m !! take 0 bits) eqn:E; [done|]. by replace j with O by lia.
  - destruct (m !! take (S n) bits) eqn:E; [done|].
    destruct (decide (j = S n)) as [->|]; [done|]. apply IH; [done|lia].
Qed.

Section blpm_laws.
Context {K V : Type} `{HK : LpmKey K} (maxlen : Z) `{HL : !LpmKeyLaws K maxlen}.

Lemma lk_prefix_length (k : K) :
  0 <= lk_len k <= maxlen → length (lk_prefix k) = Z.to_nat (lk_len k).
Proof.
  intros Hk. unfold lk_prefix. rewrite length_take.
  pose proof (lk_bits_width k). lia.
Qed.

Lemma lk_wf_spec (k : K) : lk_wf maxlen k = true ↔ 0 <= lk_len k <= maxlen.
Proof.
  unfold lk_wf. rewrite !andb_true_iff, !Z.leb_le. pose proof (lk_bits_width k). lia.
Qed.

(** What the search finds is the entry of the longest covering prefix. *)
Lemma blpm_find_Some (m : blpm K V) k v :
  (if (lk_len k <=? maxlen) && (0 <=? lk_len k)
   then blpm_search (bl_map m) (lk_bits k) (Z.to_nat (lk_len k)) else None) = Some v →
  ∃ k', lp_entry (LpmTrie := blpm_trie maxlen) m k' = Some v ∧ lk_covers k' k = true ∧
        ∀ k'' v'', lp_entry (LpmTrie := blpm_trie maxlen) m k'' = Some v'' →
                   lk_covers k'' k = true → lk_len k'' <= lk_len k'.
Proof.
  destruct (_ && _) eqn:Hk; [|done]. zify_bools.
  intros (i & Hi & Hm & Hmax)%blpm_search_Some.
  assert (lk_wf maxlen (lk_cut k (Z.of_nat i)) = true) as Hwf.
  { apply lk_wf_spec. rewrite lk_cut_len. lia. }
  exists (lk_cut k (Z.of_nat i)). simpl. rewrite Hwf.
  unfold lk_prefix. rewrite lk_cut_len, lk_cut_bits, Nat2Z.id. split; [done|]. split.
  - apply lk_covers_spec. unfold lk_prefix.
    rewrite lk_cut_len, lk_cut_bits. split; [lia|done].
  - intros k'' v''. destruct (lk_wf maxlen k'') eqn:Hw; [|done].
    apply lk_wf_spec in Hw. intros He [Hlen Hp]%lk_covers_spec.
    fold (lk_prefix k'') in He. rewrite Hp in He.
    pose proof (Hmax (Z.to_nat (lk_len k'')) v'' ltac:(lia) He). lia.
Qed.

Lemma blpm_find_None (m : blpm K V) k :
  (if (lk_len k <=? maxlen) && (0 <=? lk_len k)
   then blpm_search (bl_map m) (lk_bits k) (Z.to_nat (lk_len k)) else None) = None →
  lk_len k <= maxlen →
  ∀ k' v, lp_entry (LpmTrie := blpm_trie maxlen) m k' = Some v → lk_covers k' k = false.
Proof.
  intros Hf Hmax k' v. simpl. destruct (lk_wf maxlen k') eqn:Hw; [|done].
  apply lk_wf_spec in Hw. intros He. apply not_true_iff_false.
  intros [Hlen Hp]%lk_covers_spec.
  replace ((lk_len k <=? maxlen) && (0 <=? lk_len k)) with true in Hf by lia.
  rewrite Hp, (blpm_search_None _ _ _ Hf) in He; [done|lia].
Qed.

Lemma blpm_laws : LpmTrieLaws (blpm K V) K V (H0 := blpm_trie maxlen).
Proof.
  split.
  - apply blpm_find_Some.
  - apply blpm_find_None.
  - intros m k k' H0 Hl Hp. simpl. rewrite Hp.
    assert (lk_wf maxlen k = lk_wf maxlen k') as ->; [|done].
    apply Bool.eq_iff_eq_true. by rewrite !lk_wf_spec, Hl.
  - intros m k v. simpl. repeat case_match; naive_solver.
  - intros m k e. simpl. repeat case_match; intros; simplify_eq/=; done.
  - intros m k v m'. simpl. destruct (lk_wf maxlen k) eqn:Hw; [|done].
    destruct (_ || _); intros [= <-]. apply lk_wf_spec in Hw as Hw'.
    split; [lia|]. intros k'. simpl. unfold lk_wf at 1. case_decide as Hd.
    + destruct Hd as [Hl Hp]. fold (lk_wf maxlen k').
      rewrite (proj2 (lk_wf_spec k')) by lia. by rewrite Hp, lookup_insert_eq.
    + fold (lk_wf maxlen k'). destruct (lk_wf maxlen k') eqn:Hw2; [|done].
      apply lk_wf_spec in Hw2. rewrite lookup_insert_ne; [done|].
      intros Hp. apply Hd. split; [|done].
      apply (f_equal length) in Hp. rewrite !lk_prefix_length in Hp; lia.
  - intros m k v m' e. simpl. repeat case_match; intros; by simplify_eq/=.
Qed.
End blpm_laws.
