(* ===== verification/GoNet.v ===== *)
(** The parts of Go's [net] and [net/netip] the agent calls: parsing an
    address, parsing a CIDR, masking, and the IPv4-in-IPv6 forms.  An address is
    16 bytes, each a [Z] below 256. *)

From Stdlib Require Import ZArith Lia Ascii String.
From stdpp Require Import base tactics numbers list strings gmap.
From S2P Require Import Prelude GoStd.

(** * Definitions *)

Definition zeros (n : nat) : list Z := replicate n 0.
Definition v4InV6Prefix : list Z := zeros 10 ++ [255; 255].

(** [netip.Addr]: the 16-byte form, whether it is an IPv4 address, its zone. *)
Record Addr := mkAddr { addr16 : list Z; is4 : bool; zone : string }.

Definition AddrFrom16 (b : list Z) : Addr := mkAddr b false "".
Definition Is4In6 (a : Addr) : bool :=
  negb (is4 a) && bool_decide (take 12 (addr16 a) = v4InV6Prefix).
Definition Unmap (a : Addr) : Addr :=
  if Is4In6 a then mkAddr (addr16 a) true "" else a.
Definition BitLen (a : Addr) : Z := if is4 a then 32 else 128.

Definition perr {A} : res A := Err (EMsg "ParseAddr").

(** One decimal octet of [parseIPv4Fields]: digits, no leading zero, below 256. *)
Definition parse_octet (s : string) : option Z :=
  match s with
  | EmptyString => None
  | String c rest =>
      if Ascii.eqb c "0" && negb (bool_decide (rest = "")) then None
      else match parse_digits 255 0 s with Ok n => Some n | _ => None end
  end.

Definition parseIPv4Fields (s : string) : option (list Z) :=
  match Split s "." with
  | [a; b; c; d] =>
      match parse_octet a, parse_octet b, parse_octet c, parse_octet d with
      | Some a, Some b, Some c, Some d => Some [a; b; c; d]
      | _, _, _, _ => None
      end
  | _ => None
  end.

Definition parseIPv4 (s : string) : res Addr :=
  match parseIPv4Fields s with
  | Some b => Ok (mkAddr (v4InV6Prefix ++ b) true "")
  | None => perr
  end.

Definition hex_val (c : ascii) : option Z :=
  let n := Z_of_byte c in
  if (48 <=? n) && (n <=? 57) then Some (n - 48)
  else if (97 <=? n) && (n <=? 102) then Some (n - 87)
  else if (65 <=? n) && (n <=? 70) then Some (n - 55)
  else None.

(** The inner loop of [parseIPv6]: hex digits from offset [off]; [None] when a
    group has more than four. *)
Fixpoint hex_group (off : nat) (acc : Z) (s : string) : option (nat * Z * string) :=
  match s with
  | EmptyString => Some (off, acc, s)
  | String c s' =>
      match hex_val c with
      | None => Some (off, acc, s)
      | Some d => if (3 <? off)%nat then None
                  else hex_group (S off) (acc * 16 + d) s'
      end
  end.

(** The outer loop: [ip] the bytes so far, [ell] where the ellipsis is. *)
Fixpoint v6_loop (fuel : nat) (ip : list Z) (ell : option nat) (s : string)
    : option (list Z * option nat * string) :=
  match fuel with
  | O => Some (ip, ell, s)
  | S f =>
      match hex_group 0 0 s with
      | None => None
      | Some (O, _, _) => None
      | Some (S _, acc, rest) =>
          if HasPrefix rest "." then
            if (bool_decide (ell = None) && negb (length ip =? 12)%nat)
               || (16 <? length ip + 4)%nat then None
            else match parseIPv4Fields s with
                 | Some b => Some (ip ++ b, ell, "")
                 | None => None
                 end
          else
            let ip := ip ++ [acc / 256; acc mod 256] in
            match rest with
            | EmptyString => Some (ip, ell, "")
            | String c s1 =>
                if negb (Ascii.eqb c ":") then None
                else match s1 with
                     | EmptyString => None
                     | String c2 s2 =>
                         if Ascii.eqb c2 ":" then
                           if bool_decide (ell = None) then
                             if bool_decide (s2 = "") then Some (ip, Some (length ip), "")
                             else v6_loop f ip (Some (length ip)) s2
                           else None
                         else v6_loop f ip ell s1
                     end
            end
      end
  end.

(** After the loop: the string must be used up and the ellipsis expanded. *)
Definition v6_finish (ip : list Z) (ell : option nat) (s : string) : option (list Z) :=
  if negb (bool_decide (s = "")) then None
  else if (length ip <? 16)%nat then
    match ell with
    | None => None
    | Some e => Some (take e ip ++ zeros (16 - length ip) ++ drop e ip)
    end
  else match ell with None => Some ip | Some _ => None end.

Definition parseIPv6 (s0 : string) : res Addr :=
  let '(s, z, bad) := match Cut s0 "%" with
                      | Some (s, z) => (s, z, bool_decide (z = ""))
                      | None => (s0, "", false)
                      end in
  if bad then perr
  else
    let '(s, ell) := match CutPrefix s "::" with
                     | Some r => (r, Some O)
                     | None => (s, None)
                     end in
    if bool_decide (ell = Some O ∧ s = "") then Ok (mkAddr (zeros 16) false z)
    else match v6_loop 8 [] ell s with
         | None => perr
         | Some (ip, ell, rest) =>
             match v6_finish ip ell rest with
             | Some ip => Ok (mkAddr ip false z)
             | None => perr
             end
         end.

(** [netip.ParseAddr]: the first dot, colon or percent decides. *)
Fixpoint addr_kind (s : string) : option ascii :=
  match s with
  | EmptyString => None
  | String c s' =>
      if Ascii.eqb c "." || Ascii.eqb c ":" || Ascii.eqb c "%" then Some c
      else addr_kind s'
  end.
Definition ParseAddr (s : string) : res Addr :=
  match addr_kind s with
  | Some c => if Ascii.eqb c "." then parseIPv4 s
              else if Ascii.eqb c ":" then parseIPv6 s else perr
  | None => perr
  end.

(** [net.dtoi]: decimal digits up to 0xFFFFFF, the whole string used. *)
Definition dtoi (s : string) : option Z :=
  match s with
  | EmptyString => None
  | _ => match parse_digits (16777215 - 1) 0 s with Ok n => Some n | _ => None end
  end.

(** A byte whose top [n] bits are set. *)
Definition mask_byte (n : Z) : Z := 255 - (2 ^ (8 - n) - 1).
Fixpoint CIDRMask (ones : Z) (len : nat) : list Z :=
  match len with
  | O => []
  | S l => if 8 <=? ones then 255 :: CIDRMask (ones - 8) l
           else mask_byte (Z.max 0 ones) :: CIDRMask 0 l
  end.

(** [IP.Mask]: a four-byte mask applies to the IPv4 tail of a mapped address. *)
Definition IPMask (ip mask : list Z) : list Z :=
  let ip := if bool_decide (length mask = 4%nat ∧ length ip = 16%nat ∧
                            take 12 ip = v4InV6Prefix)
            then drop 12 ip else ip in
  zip_with Z.land ip mask.

(** [IP.To4] and [IP.To16]. *)
Definition To4 (ip : list Z) : option (list Z) :=
  if (length ip =? 4)%nat then Some ip
  else if bool_decide (length ip = 16%nat ∧ take 12 ip = v4InV6Prefix)
  then Some (drop 12 ip) else None.
Definition To16 (ip : list Z) : list Z :=
  if (length ip =? 4)%nat then v4InV6Prefix ++ ip else ip.

(** [net.ParseCIDR]: the network address and the number of mask bits. *)
Record IPNet := mkIPNet { netIP : list Z; netOnes : Z }.

Definition ParseCIDR (s : string) : res IPNet :=
  let bad := Err (EMsg ("invalid CIDR address: " +:+ s)) in
  match Cut s SLASH with
  | None => bad
  | Some (addr, mask) =>
      match ParseAddr addr with
      | Ok a =>
          if negb (bool_decide (zone a = "")) then bad
          else match dtoi mask with
               | Some n =>
                   if BitLen a <? n then bad
                   else let m := CIDRMask n (Z.to_nat (BitLen a / 8)) in
                        Ok (mkIPNet (IPMask (addr16 a) m) n)
               | None => bad
               end
      | _ => bad
      end
  end.

(** * Examples on the forms the policies use *)

Example parse_cidr_v4 : ParseCIDR "10.1.2.3/8" = Ok (mkIPNet [10; 0; 0; 0] 8).
Proof. reflexivity. Qed.
Example parse_cidr_v6 :
  ParseCIDR "2001:db8::1/33" =
  Ok (mkIPNet ([32; 1; 13; 184] ++ zeros 12) 33).
Proof. reflexivity. Qed.
Example parse_cidr_mapped :
  ParseCIDR "::ffff:10.0.0.0/104" = Ok (mkIPNet (v4InV6Prefix ++ [10; 0; 0; 0]) 104).
Proof. reflexivity. Qed.
Example parse_cidr_leading_zero : ParseCIDR "10.01.0.0/16" = Err (EMsg "invalid CIDR address: 10.01.0.0/16").
Proof. reflexivity. Qed.
Example parse_cidr_too_long : ParseCIDR "10.0.0.0/33" = Err (EMsg "invalid CIDR address: 10.0.0.0/33").
Proof. reflexivity. Qed.
Example parse_cidr_two_ellipses : ParseCIDR "1::2::3/64" = Err (EMsg "invalid CIDR address: 1::2::3/64").
Proof. reflexivity. Qed.

(** * Lemmas *)

(** A parsed address has 16 bytes and an IPv4 one is mapped. *)
Definition bytes_ok (l : list Z) : Prop := Forall (λ b, 0 <= b < 256) l.

Lemma parse_octet_range s n : parse_octet s = Some n → 0 <= n < 256.
Proof.
  unfold parse_octet. destruct s; [done|]. case_match; [done|].
  destruct (parse_digits 255 0 _) eqn:E; [|done|done]. intros [= ->].
  apply parse_digits_range in E; lia.
Qed.

Lemma parseIPv4Fields_ok s b :
  parseIPv4Fields s = Some b → length b = 4%nat ∧ bytes_ok b.
Proof.
  unfold parseIPv4Fields. repeat (case_match; try done). intros [= <-].
  split; [done|]. repeat constructor; by eapply parse_octet_range.
Qed.

Lemma v4prefix_ok : bytes_ok v4InV6Prefix.
Proof. repeat constructor; lia. Qed.

Lemma zeros_ok n : bytes_ok (zeros n).
Proof. apply Forall_replicate. lia. Qed.

Lemma parseIPv4_ok s a :
  parseIPv4 s = Ok a →
  is4 a = true ∧ zone a = "" ∧
  ∃ b, length b = 4%nat ∧ bytes_ok b ∧ addr16 a = v4InV6Prefix ++ b.
Proof.
  unfold parseIPv4. destruct (parseIPv4Fields s) as [b|] eqn:E; [|done].
  intros [= <-]. apply parseIPv4Fields_ok in E as [? ?]. eauto 10.
Qed.

Lemma hex_val_range c d : hex_val c = Some d → 0 <= d < 16.
Proof. unfold hex_val. repeat case_match; intros; simplify_eq; zify_bools; lia. Qed.

Lemma hex_group_range off acc s off' acc' rest :
  (off <= 4)%nat → 0 <= acc < 16 ^ Z.of_nat off →
  hex_group off acc s = Some (off', acc', rest) → 0 <= acc' < 65536.
Proof.
  revert off acc. induction s as [|c s IH]; intros off acc Ho Ha; simpl.
  - intros [= <- <- <-]. pose proof (Z.pow_le_mono_r 16 (Z.of_nat off) 4). lia.
  - destruct (hex_val c) as [d|] eqn:E.
    + destruct (Nat.ltb_spec 3 off); [done|]. apply IH; [lia|].
      apply hex_val_range in E. rewrite Nat2Z.inj_succ, Z.pow_succ_r; lia.
    + intros [= <- <- <-]. pose proof (Z.pow_le_mono_r 16 (Z.of_nat off) 4). lia.
Qed.

(** The loop keeps the address a string of at most 16 bytes, with the ellipsis
    inside it. *)
Definition v6_inv (ip : list Z) (ell : option nat) : Prop :=
  bytes_ok ip ∧ (length ip <= 16)%nat ∧
  match ell with Some e => (e <= length ip)%nat | None => True end.

Lemma bytes_ok_word acc : 0 <= acc < 65536 → bytes_ok [acc / 256; acc mod 256].
Proof.
  intros H. pose proof (Z.mod_pos_bound acc 256).
  assert (0 <= acc / 256 < 256).
  { split; [apply Z.div_pos; lia|apply Z.div_lt_upper_bound; lia]. }
  repeat constructor; lia.
Qed.

Lemma v6_inv_word ip ell acc :
  0 <= acc < 65536 → v6_inv ip ell → (length ip + 2 <= 16)%nat →
  v6_inv (ip ++ [acc / 256; acc mod 256]) ell ∧
  v6_inv (ip ++ [acc / 256; acc mod 256]) (Some (length (ip ++ [acc / 256; acc mod 256]))).
Proof.
  intros Ha (Hb & Hl & He) Hroom. unfold v6_inv. rewrite length_app. simpl.
  assert (bytes_ok (ip ++ [acc / 256; acc mod 256])).
  { apply Forall_app. split; [done|]. by apply bytes_ok_word. }
  split; (split; [done|]); (split; [lia|]); [|lia]. destruct ell; lia.
Qed.

Lemma v6_loop_inv fuel ip ell s ip' ell' rest :
  v6_inv ip ell → (length ip + 2 * fuel <= 16)%nat →
  v6_loop fuel ip ell s = Some (ip', ell', rest) → v6_inv ip' ell'.
Proof.
  revert ip ell s. induction fuel as [|f IH]; intros ip ell s Hi Hl; simpl.
  - intros [= <- <- <-]. done.
  - destruct (hex_group 0 0 s) as [[[off acc] r]|] eqn:E; [|done].
    destruct off as [|off]; [done|].
    apply hex_group_range in E; [|lia|simpl; lia].
    destruct (HasPrefix r ".").
    + destruct (_ || _) eqn:Eg; [done|].
      destruct (parseIPv4Fields s) as [b|] eqn:Eb; [|done]. intros [= <- <- <-].
      apply parseIPv4Fields_ok in Eb as [Hb1 Hb2]. destruct Hi as (H1 & H2 & H3).
      apply orb_false_iff in Eg as [_ Eg]. apply Nat.ltb_ge in Eg.
      unfold v6_inv. rewrite length_app.
      split; [by apply Forall_app|]. split; [lia|]. destruct ell; lia.
    + destruct (v6_inv_word ip ell acc E Hi ltac:(lia)) as [Hw1 Hw2].
      assert (length (ip ++ [(acc / 256)%Z; (acc mod 256)%Z]) + 2 * f <= 16)%nat
        by (rewrite length_app; simpl; lia).
      repeat (case_match; try done); intros; simplify_eq; eauto.
Qed.

Lemma v6_finish_ok ip ell s b :
  v6_inv ip ell → v6_finish ip ell s = Some b → length b = 16%nat ∧ bytes_ok b.
Proof.
  intros (H1 & H2 & H3). unfold v6_finish. destruct (negb _); [done|].
  destruct (Nat.ltb_spec (length ip) 16).
  - destruct ell as [e|]; [|done]. intros [= <-].
    rewrite !length_app, length_take, length_drop. unfold zeros. rewrite length_replicate.
    split; [lia|]. apply Forall_app. split; [by apply Forall_take|].
    apply Forall_app. split; [apply zeros_ok|by apply Forall_drop].
  - destruct ell; [done|]. intros [= <-]. split; [lia|done].
Qed.

Lemma parseIPv6_ok s a :
  parseIPv6 s = Ok a → is4 a = false ∧ length (addr16 a) = 16%nat ∧ bytes_ok (addr16 a).
Proof.
  unfold parseIPv6.
  destruct (match Cut s "%" with Some (s, z) => _ | None => _ end) as [[s1 z] bad].
  destruct bad; [done|].
  destruct (match CutPrefix s1 "::" with Some r => _ | None => _ end) as [s2 ell] eqn:E0.
  case_bool_decide; [intros [= <-]; split; [done|]; split; [done|apply (zeros_ok 16)]|].
  destruct (v6_loop 8 [] ell s2) as [[[ip el] r]|] eqn:E; [|done].
  destruct (v6_finish ip el r) as [b|] eqn:Ef; [|done]. intros [= <-]. simpl.
  split; [done|]. eapply v6_finish_ok; [|done]. eapply v6_loop_inv; [| |done]; [|simpl; lia].
  split; [constructor|]. split; [simpl; lia|].
  case_match; simplify_eq; simpl; lia.
Qed.

Lemma ParseAddr_ok s a :
  ParseAddr s = Ok a →
  length (addr16 a) = 16%nat ∧ bytes_ok (addr16 a) ∧
  (is4 a = true → ∃ b, length b = 4%nat ∧ addr16 a = v4InV6Prefix ++ b).
Proof.
  unfold ParseAddr. destruct (addr_kind s) as [c|]; [|done].
  destruct (Ascii.eqb c "."); [|destruct (Ascii.eqb c ":"); [|done]].
  - intros (_ & _ & b & Hl & Hb & Ha)%parseIPv4_ok. rewrite Ha.
    split; [rewrite length_app; simpl; lia|].
    split; [apply Forall_app; split; [apply v4prefix_ok|done]|]. intros _. by exists b.
  - intros (H4 & Hl & Hb)%parseIPv6_ok. rewrite H4. done.
Qed.

Lemma dtoi_nonneg s n : dtoi s = Some n → 0 <= n.
Proof.
  unfold dtoi. destruct s; [done|].
  destruct (parse_digits _ _ _) eqn:E; [|done|done]. intros [= ->].
  apply parse_digits_range in E; lia.
Qed.
