(* ===== verification/Os.v ===== *)
(** The operating system as the agent sees it: [stat], [os.ReadFile], the boot
    clock and the device-number macros of [golang.org/x/sys/unix].  None of it
    is in the repository, so it is a class parameter.  The file system changes
    under the agent, so every query carries the moment ([nat]) it is made at. *)

From Stdlib Require Import ZArith Lia String.
From stdpp Require Import base tactics numbers list strings gmap.
From S2P Require Import Prelude.

(** [unix.Stat_t], the fields the agent reads. *)
Record Stat_t := mkStat { st_Dev : Z; st_Ino : Z; st_Mode : Z }.

Definition S_IFMT : Z := 61440.      (* 0o170000 *)
Definition S_IFREG : Z := 32768.     (* 0o100000 *)
Definition S_IFDIR : Z := 16384.     (* 0o040000 *)
Definition S_ISUID : Z := 2048.      (* 0o004000 *)
Definition S_IFTYPE (st : Stat_t) : Z := Z.land (st_Mode st) S_IFMT.

(** [os.FileInfo.Mode().IsRegular]: none of the type bits Go knows, that is
    none of block, character, directory, pipe, symlink, socket. *)
Definition IsRegular (st : Stat_t) : bool :=
  negb (bool_decide (S_IFTYPE st ∈ [24576; 8192; 16384; 4096; 40960; 49152])).

Class Os := {
  unix_Stat : nat → string → res Stat_t;
  os_ReadFile : nat → string → res string;
  unix_Major : Z → Z;
  unix_Minor : Z → Z;
  clock_boottime : nat → res (Z * Z)     (* (sec, nsec) of CLOCK_BOOTTIME *)
}.

(** What the macros document: both parts are 32-bit and together determine the
    device number. *)
Class OsLaws `{Os} : Prop := {
  unix_Major_range d : is_u32 (unix_Major d);
  unix_Minor_range d : is_u32 (unix_Minor d);
  unix_dev_inj d d' :
    is_u64 d → is_u64 d' →
    unix_Major d = unix_Major d' → unix_Minor d = unix_Minor d' → d = d'
}.
