(* ===== verification/BpfMap.v ===== *)
(** Package [bpfmap] (agent/internal/bpfmap): the only entry point to the BPF
    maps.  The values and keys it writes, and every operation that changes a
    map. *)

From Stdlib Require Import ZArith Lia Ascii String.
From stdpp Require Import base tactics numbers list strings gmap.
From S2P Require Import Prelude GoStd GoNet EbpfMap Os.

(** * Data *)

Definition ModeObserve : Z := 0.
Definition ModeDryRun : Z := 1.
Definition ModeEnforce : Z := 2.
Definition OnExpiryDemote : Z := 0.
Definition OnExpiryKill : Z := 1.
Definition OnExpirySessionOnlyGrace : Z := 2.
Definition ProtoAny : Z := 0.
Definition ProtoTCP : Z := 1.
Definition ProtoUDP : Z := 2.
Definition EffectAllowByte : Z := 1.
Definition EffectDenyByte : Z := 2.

(** The value of the [warrants] map. *)
Record KWarrant := mkKWarrant {
  ExpiresNs : Z; GraceNs : Z; SubjectID : Z; PolicyID : Z;
  Revoked : Z; Mode : Z; OnExpiry : Z; BreakGlass : Z; InspectUDP : Z
}.

Definition set_Revoked (w : KWarrant) (b : Z) : KWarrant :=
  mkKWarrant (ExpiresNs w) (GraceNs w) (SubjectID w) (PolicyID w)
             b (Mode w) (OnExpiry w) (BreakGlass w) (InspectUDP w).

Record FileRef := mkFileRef { Dev : Z; Ino : Z }.
#[export] Instance FileRef_eq_dec : EqDecision FileRef.
Proof. solve_decision. Defined.

Record ruleKey := mkRuleKey { rk_PolicyID : Z; rk_Dev : Z; rk_Ino : Z }.
#[export] Instance ruleKey_eq_dec : EqDecision ruleKey.
Proof. solve_decision. Defined.
#[export] Instance ruleKey_countable : Countable ruleKey.
Proof.
  refine (inj_countable' (λ k, (rk_PolicyID k, rk_Dev k, rk_Ino k))
            (λ '(p, d, i), mkRuleKey p d i) _).
  by intros [].
Defined.

Record writeVal := mkWriteVal { wv_Effect : Z; wv_Recursive : Z }.
#[export] Instance writeVal_eq_dec : EqDecision writeVal.
Proof. solve_decision. Defined.

Record netKey := mkNetKey { PrefixLen : Z; PolicyIDBE : Z; nk_Addr : list Z }.
Record netVal := mkNetVal { nv_Proto : Z; NPorts : Z; Ports : list Z }.

Definition MaxPortsPerRule : Z := 7.

(** ** The key as the trie reads it: bytes in memory order, high bit first *)

Definition byte_bits (b : Z) : list bool :=
  Z.testbit b <$> [7; 6; 5; 4; 3; 2; 1; 0].
Definition bits_of (l : list Z) : list bool := l ≫= byte_bits.

(** A [uint32] in memory on a little-endian machine. *)
Definition u32_mem (v : Z) : list Z :=
  [v mod 256; v / 2 ^ 8 mod 256; v / 2 ^ 16 mod 256; v / 2 ^ 24 mod 256].
(** The bytes of a [uint32], most significant first. *)
Definition u32_be (v : Z) : list Z :=
  [v / 2 ^ 24 mod 256; v / 2 ^ 16 mod 256; v / 2 ^ 8 mod 256; v mod 256].

Definition addr_field (a : list Z) : list Z := take 16 (a ++ zeros 16).

#[export] Instance netKey_lpm : LpmKey netKey := {
  lk_len := PrefixLen;
  lk_bits k := bits_of (u32_mem (PolicyIDBE k) ++ addr_field (nk_Addr k));
  lk_cut k n := mkNetKey n (PolicyIDBE k) (nk_Addr k)
}.

(** * The kernel's maps and the handle on them *)

Class KernelMaps := {
  af_t : Type; cw_t : Type; wa_t : Type; re_t : Type; rw_t : Type; rn_t : Type;
  af_ops :: PercpuArray af_t Z;
  cw_ops :: HashMap cw_t Z Z;
  wa_ops :: HashMap wa_t Z KWarrant;
  re_ops :: HashMap re_t ruleKey Z;
  rw_ops :: HashMap rw_t ruleKey writeVal;
  rn_ops :: LpmTrie rn_t netKey netVal
}.

Class KernelMapsLaws `{KernelMaps} : Prop := {
  af_laws :: PercpuArrayLaws af_t Z;
  cw_laws :: HashMapLaws cw_t Z Z;
  wa_laws :: HashMapLaws wa_t Z KWarrant;
  re_laws :: HashMapLaws re_t ruleKey Z;
  rw_laws :: HashMapLaws rw_t ruleKey writeVal;
  rn_laws :: LpmTrieLaws rn_t netKey netVal;
  rn_width : lp_max rn_t netKey netVal = 160
}.

Record Maps `{KernelMaps} := mkMaps {
  activeFlag : af_t;
  cgroupWarrant : cw_t;
  warrants : wa_t;
  ruleExec : re_t;
  ruleWrite : rw_t;
  ruleNet : rn_t;
  ncpu : nat
}.

Section bpfmap.
Context `{KernelMaps}.

Definition set_activeFlag (m : Maps) x :=
  mkMaps _ x (cgroupWarrant m) (warrants m) (ruleExec m) (ruleWrite m) (ruleNet m) (ncpu m).
Definition set_cgroupWarrant (m : Maps) x :=
  mkMaps _ (activeFlag m) x (warrants m) (ruleExec m) (ruleWrite m) (ruleNet m) (ncpu m).
Definition set_warrants (m : Maps) x :=
  mkMaps _ (activeFlag m) (cgroupWarrant m) x (ruleExec m) (ruleWrite m) (ruleNet m) (ncpu m).
Definition set_ruleExec (m : Maps) x :=
  mkMaps _ (activeFlag m) (cgroupWarrant m) (warrants m) x (ruleWrite m) (ruleNet m) (ncpu m).
Definition set_ruleWrite (m : Maps) x :=
  mkMaps _ (activeFlag m) (cgroupWarrant m) (warrants m) (ruleExec m) x (ruleNet m) (ncpu m).
Definition set_ruleNet (m : Maps) x :=
  mkMaps _ (activeFlag m) (cgroupWarrant m) (warrants m) (ruleExec m) (ruleWrite m) x (ncpu m).

(** The result of a map call: the new map goes into the handle, an error is
    wrapped as the caller says. *)
Definition finish {T} (set : Maps → T → Maps) (wrap : error → error)
    (r : T * option error) : M Maps unit :=
  λ m, let m' := set m (fst r) in
       match snd r with
       | None => (m', Ok tt)
       | Some e => (m', Err (wrap e))
       end.

Definition isMissing (e : error) : bool := errors_Is e ErrKeyNotExist.

(** A missing key is not an error. *)
Definition finish_ignoreMissing {T} (set : Maps → T → Maps)
    (r : T * option error) : M Maps unit :=
  λ m, let m' := set m (fst r) in
       match snd r with
       | None => (m', Ok tt)
       | Some e => if isMissing e then (m', Ok tt) else (m', Err e)
       end.

Definition PutWarrant (id : Z) (w : KWarrant) : M Maps unit :=
  λ m, finish set_warrants (EWrap ("영장 " +:+ fmt_u id +:+ " 쓰기: "))
         (hm_Put (warrants m) id w) m.

(** [Revoke] reads the entry and writes it back. *)
Definition revoke_read (id : Z) : M Maps KWarrant :=
  λ m, (m, match hm_Lookup (warrants m) id with
           | Ok w => Ok w
           | Err e => Err (EWrap ("영장 " +:+ fmt_u id +:+ " 조회: ") e)
           | Panic p => Panic p
           end).
Definition revoke_write (id : Z) (w : KWarrant) : M Maps unit :=
  λ m, finish set_warrants (EWrap ("영장 " +:+ fmt_u id +:+ " 취소: "))
         (hm_Put (warrants m) id (set_Revoked w 1)) m.
Definition Revoke (id : Z) : M Maps unit :=
  do w := revoke_read id in revoke_write id w.

Definition DeleteWarrant (id : Z) : M Maps unit :=
  λ m, finish_ignoreMissing set_warrants (hm_Delete (warrants m) id) m.

Definition TagCgroup (cgroupID warrantID : Z) : M Maps unit :=
  λ m, finish set_cgroupWarrant (EWrap ("cgroup " +:+ fmt_u cgroupID +:+ " 태그: "))
         (hm_Put (cgroupWarrant m) cgroupID warrantID) m.

Definition UntagCgroup (cgroupID : Z) : M Maps unit :=
  λ m, finish_ignoreMissing set_cgroupWarrant (hm_Delete (cgroupWarrant m) cgroupID) m.

Definition rule_key (policyID : Z) (f : FileRef) : ruleKey :=
  mkRuleKey policyID (Dev f) (Ino f).

Definition PutExecRule (policyID : Z) (f : FileRef) : M Maps unit :=
  λ m, finish set_ruleExec
         (EWrap ("실행 규칙 (" +:+ fmt_u (Dev f) +:+ ", " +:+ fmt_u (Ino f) +:+ "): "))
         (hm_Put (ruleExec m) (rule_key policyID f) 1) m.

Definition write_val (allow recursive : bool) : writeVal :=
  mkWriteVal (if allow then EffectAllowByte else EffectDenyByte)
             (if recursive then 1 else 0).

Definition PutWriteRule (policyID : Z) (f : FileRef) (allow recursive : bool)
    : M Maps unit :=
  λ m, finish set_ruleWrite
         (EWrap ("쓰기 규칙 (" +:+ fmt_u (Dev f) +:+ ", " +:+ fmt_u (Ino f) +:+ "): "))
         (hm_Put (ruleWrite m) (rule_key policyID f) (write_val allow recursive)) m.

Definition swap32 (v : Z) : Z :=
  Z.lor (Z.lor (Z.shiftr v 24) (Z.land (Z.shiftr v 8) 65280))
        (Z.lor (Z.land (u32 (Z.shiftl v 8)) 16711680) (u32 (Z.shiftl v 24))).

Definition netKeyOf (policyID : Z) (cidr : string) : res netKey :=
  match ParseCIDR cidr with
  | Err e => Err (EWrap ("CIDR " +:+ cidr +:+ ": ") e)
  | Panic p => Panic p
  | Ok ipnet =>
      match To4 (netIP ipnet) with
      | Some ip4 =>
          Ok (mkNetKey (32 + 96 + u32 (netOnes ipnet)) (swap32 policyID)
                       (zeros 10 ++ [255; 255] ++ ip4))
      | None =>
          Ok (mkNetKey (32 + u32 (netOnes ipnet)) (swap32 policyID)
                       (To16 (netIP ipnet)))
      end
  end.

(** The index of [port] among the first [NPorts] ports. *)
Definition portIndex (v : netVal) (port : Z) : option nat :=
  fst <$> list_find (λ p, p = port) (take (Z.to_nat (NPorts v `min` MaxPortsPerRule)) (Ports v)).

(** The ports of the entry after a rule for [port] is merged into it. *)
Definition merge_port (cidr : string) (v : netVal) (found : bool) (port : Z) : res netVal :=
  if port =? 0 then Ok (mkNetVal (nv_Proto v) 0 (Ports v))
  else if found && (NPorts v =? 0) then Ok v
  else match portIndex v port with
       | Some _ => Ok v
       | None =>
           if MaxPortsPerRule <=? NPorts v then
             Err (EMsg (cidr +:+ ": 포트가 " +:+ fmt_u MaxPortsPerRule +:+
                        "개를 넘는다. 대역을 쪼개야 한다"))
           else Ok (mkNetVal (nv_Proto v) (u8 (NPorts v + 1))
                             (<[Z.to_nat (NPorts v) := port]> (Ports v)))
       end.

(** [PutNetRule]'s lookup: the entry to extend, and whether there was one. *)
Definition net_current (k : netKey) (cidr : string) (proto : Z) : M Maps (netVal * bool) :=
  λ m, (m, match lp_Lookup (ruleNet m) k with
           | Ok cur =>
               if negb (nv_Proto cur =? proto) then
                 Err (EMsg (cidr +:+ ": 이미 proto=" +:+ fmt_u (nv_Proto cur) +:+
                            " 로 등록돼 있다 (요청 proto=" +:+ fmt_u proto +:+ ")"))
               else Ok (cur, true)
           | Err e =>
               if isMissing e then Ok (mkNetVal proto 0 (zeros 7), false)
               else Err (EWrap (cidr +:+ " 조회: ") e)
           | Panic p => Panic p
           end).
Definition net_write (k : netKey) (cidr : string) (v : netVal) : M Maps unit :=
  λ m, finish set_ruleNet (EWrap ("네트워크 규칙 " +:+ cidr +:+ ": ")) (lp_Put (ruleNet m) k v) m.
Definition PutNetRule (policyID : Z) (cidr : string) (port proto : Z) : M Maps unit :=
  do k := mres (netKeyOf policyID cidr) in
  do vf := net_current k cidr proto in
  do v := mres (merge_port cidr (fst vf) (snd vf) port) in
  net_write k cidr v.

Definition SetActive (active : bool) : M Maps unit :=
  λ m, finish set_activeFlag (EWrap "active_flag: ")
         (pa_Put (activeFlag m) (replicate (ncpu m) (if active then 1 else 0))) m.
End bpfmap.

(** ** File references and the boot clock *)

Section refs.
Context `{Os}.

Definition FileRefFromStat (st : Stat_t) : FileRef :=
  let major := unix_Major (u64 (st_Dev st)) in
  let minor := unix_Minor (u64 (st_Dev st)) in
  mkFileRef (u32 (Z.lor (u32 (Z.shiftl major 20)) minor)) (st_Ino st).

Definition FileRefOf (t : nat) (path : string) : res FileRef :=
  match unix_Stat t path with
  | Ok st => Ok (FileRefFromStat st)
  | Err e => Err (EWrap ("stat " +:+ path +:+ ": ") e)
  | Panic p => Panic p
  end.

Definition BootNs (t : nat) : res Z :=
  match clock_boottime t with
  | Ok (sec, nsec) => Ok (u64 (u64 (u64 sec * 1000000000) + u64 nsec))
  | Err e => Err (EWrap "clock_gettime(CLOCK_BOOTTIME): " e)
  | Panic p => Panic p
  end.
End refs.
(** * Lemmas

    ** Byte order *)

Lemma u32_bytes v :
  is_u32 v →
  ∃ a b c d, 0 <= a < 256 ∧ 0 <= b < 256 ∧ 0 <= c < 256 ∧ 0 <= d < 256 ∧
             v = a + b * 2 ^ 8 + c * 2 ^ 16 + d * 2 ^ 24.
Proof.
  unfold_widths. intros Hv.
  exists (v mod 256), (v / 256 mod 256), (v / 65536 mod 256), (v / 16777216).
  divmod_lia.
Qed.

Lemma swap32_bytes a b c d :
  0 <= a < 256 → 0 <= b < 256 → 0 <= c < 256 → 0 <= d < 256 →
  swap32 (a + b * 2 ^ 8 + c * 2 ^ 16 + d * 2 ^ 24) =
  d + c * 2 ^ 8 + b * 2 ^ 16 + a * 2 ^ 24.
Proof.
  intros. unfold swap32. set (v := a + _ + _ + _).
  rewrite !Z.shiftr_div_pow2, !Z.shiftl_mul_pow2 by lia.
  change 65280 with (255 * 2 ^ 8). change 16711680 with (255 * 2 ^ 16).
  rewrite !land_byte_at by lia. unfold u32.
  replace (v / 2 ^ 24) with d by (subst v; divmod_lia).
  replace (v / 2 ^ 8 / 2 ^ 8 mod 256) with c by (subst v; divmod_lia).
  replace ((v * 2 ^ 8) mod 2 ^ 32 / 2 ^ 16 mod 256) with b by (subst v; divmod_lia).
  replace ((v * 2 ^ 24) mod 2 ^ 32) with (a * 2 ^ 24) by (subst v; divmod_lia).
  rewrite lor_add_pow2 by lia.
  replace (Z.lor (b * 2 ^ 16) (a * 2 ^ 24)) with ((b + a * 2 ^ 8) * 2 ^ 16).
  - rewrite lor_add_pow2; lia.
  - rewrite <- lor_add_pow2 by lia.
    rewrite <- !Z.shiftl_mul_pow2, Z.shiftl_lor, Z.shiftl_shiftl by lia. done.
Qed.

Lemma swap32_mem v : is_u32 v → u32_mem (swap32 v) = u32_be v.
Proof.
  intros (a & b & c & d & Ha & Hb & Hc & Hd & ->)%u32_bytes.
  rewrite swap32_bytes by done. unfold u32_mem, u32_be.
  repeat (apply (f_equal2 cons); [divmod_lia|]). done.
Qed.
Lemma u32_be_inj v w : is_u32 v → is_u32 w → u32_be v = u32_be w → v = w.
Proof.
  unfold u32_be. unfold_widths. intros Hv Hw [= H1 H2 H3 H4]. divmod_lia.
Qed.

(** ** Bits of keys *)

Lemma length_byte_bits b : length (byte_bits b) = 8%nat.
Proof. done. Qed.
Lemma bits_of_app l1 l2 : bits_of (l1 ++ l2) = bits_of l1 ++ bits_of l2.
Proof. apply bind_app. Qed.
Lemma length_bits_of l : length (bits_of l) = (8 * length l)%nat.
Proof.
  induction l as [|b l IH]; [done|]. change (bits_of (b :: l)) with (byte_bits b ++ bits_of l).
  rewrite length_app, IH, length_byte_bits. simpl. lia.
Qed.
Lemma byte_bits_inj a b : 0 <= a < 256 → 0 <= b < 256 → byte_bits a = byte_bits b → a = b.
Proof.
  intros Ha Hb E. injection E as H7 H6 H5 H4 H3 H2 H1 H0.
  apply Z.bits_inj'. intros n Hn.
  destruct (Z.lt_ge_cases n 8) as [Hlt|Hge].
  - assert (n = 0 ∨ n = 1 ∨ n = 2 ∨ n = 3 ∨ n = 4 ∨ n = 5 ∨ n = 6 ∨ n = 7) as Hc by lia.
    destruct Hc as [->|[->|[->|[->|[->|[->|[->| ->]]]]]]]; done.
  - rewrite <- (Z.mod_small a (2 ^ 8)), <- (Z.mod_small b (2 ^ 8)) by lia.
    by rewrite !Z.mod_pow2_bits_high by lia.
Qed.
Lemma bits_of_inj l1 l2 :
  bytes_ok l1 → bytes_ok l2 → length l1 = length l2 → bits_of l1 = bits_of l2 → l1 = l2.
Proof.
  intros H1. revert l2. induction H1 as [|a l1 Ha Hl1 IH]; intros [|b l2] H2 Hlen E; try done.
  inversion H2; subst. simpl in Hlen.
  change (byte_bits a ++ bits_of l1 = byte_bits b ++ bits_of l2) in E.
  apply app_inj_1 in E as [E1 E2]; [|done].
  f_equal; [by apply byte_bits_inj|]. apply IH; [done|lia|done].
Qed.

Lemma u32_mem_ok v : bytes_ok (u32_mem v).
Proof. repeat constructor; apply Z.mod_pos_bound; lia. Qed.

Lemma u32_be_ok v : bytes_ok (u32_be v).
Proof. repeat constructor; apply Z.mod_pos_bound; lia. Qed.

Lemma addr_field_length a : length (addr_field a) = 16%nat.
Proof. unfold addr_field. rewrite length_take, length_app. unfold zeros. rewrite length_replicate. lia. Qed.
Lemma addr_field_id a : length a = 16%nat → addr_field a = a.
Proof. intros Ha. unfold addr_field. by rewrite <- Ha, take_app_length. Qed.

#[export] Instance netKey_lpm_laws : LpmKeyLaws netKey 160.
Proof.
  split; [|done|done]. intros k.
  change (lk_bits k) with (bits_of (u32_mem (PolicyIDBE k) ++ addr_field (nk_Addr k))).
  rewrite length_bits_of, length_app, addr_field_length. done.
Qed.

(** ** CIDR masks *)

Lemma CIDRMask_length n len : length (CIDRMask n len) = len.
Proof. revert n. induction len as [|l IH]; intros n; simpl; [done|]. by case_match; simpl; rewrite IH. Qed.

Lemma CIDRMask_lookup n len i :
  (i < len)%nat →
  CIDRMask n len !! i = Some (mask_byte (Z.min 8 (Z.max 0 (n - 8 * Z.of_nat i)))).
Proof.
  revert n i. induction len as [|l IH]; intros n i Hi; [lia|]. simpl.
  destruct (Z.leb_spec 8 n); destruct i as [|i]; simpl.
  - f_equal. unfold mask_byte. replace (Z.min 8 (Z.max 0 (n - 8 * Z.of_nat 0))) with 8 by lia. done.
  - rewrite IH by lia. do 2 f_equal. lia.
  - do 2 f_equal. lia.
  - rewrite IH by lia. do 2 f_equal. lia.
Qed.

(** A byte masked to 255 was masked with all eight bits. *)
Lemma mask_byte_full x k : 0 <= k <= 8 → Z.land x (mask_byte k) = 255 → k = 8.
Proof.
  intros Hk E. destruct (Z.eq_dec k 8) as [|Hne]; [done|].
  apply (f_equal (λ z, Z.testbit z 0)) in E. rewrite Z.land_spec in E.
  assert (Z.testbit (mask_byte k) 0 = false) as Hm.
  { rewrite Z.bit0_odd. unfold mask_byte.
    replace (255 - (2 ^ (8 - k) - 1)) with (2 * (128 - 2 ^ (7 - k))).
    - by rewrite Z.odd_mul.
    - replace (8 - k) with (Z.succ (7 - k)) by lia. rewrite Z.pow_succ_r; lia. }
  rewrite Hm, andb_false_r in E. done.
Qed.

Lemma mapped_mask_long ip n :
  length ip = 16%nat → take 12 (zip_with Z.land ip (CIDRMask n 16)) = v4InV6Prefix → 96 <= n.
Proof.
  intros Hl E. destruct (Z.le_gt_cases 96 n) as [|Hlt]; [done|].
  assert (take 12 (zip_with Z.land ip (CIDRMask n 16)) !! 11%nat = Some 255) as Ht by (by rewrite E).
  rewrite lookup_take_lt in Ht by lia.
  apply lookup_zip_with_Some in Ht as (x & y & Exy & _ & Hy).
  rewrite CIDRMask_lookup in Hy by lia. simplify_eq.
  symmetry in Exy. apply mask_byte_full in Exy; lia.
Qed.

(** ** What a CIDR means *)

(** The addresses of a network, in 16-byte form: those that agree with it on
    its prefix.  An IPv4 network is a prefix of the mapped space. *)
Definition cidr_bits (n : IPNet) : nat :=
  if (length (netIP n) =? 4)%nat then Z.to_nat (96 + netOnes n) else Z.to_nat (netOnes n).
Definition cidr_contains (n : IPNet) (addr : list Z) : Prop :=
  take (cidr_bits n) (bits_of (To16 (netIP n))) = take (cidr_bits n) (bits_of addr).

Lemma ParseCIDR_ok s n :
  ParseCIDR s = Ok n →
  (length (netIP n) = 4%nat ∧ 0 <= netOnes n <= 32) ∨
  (∃ ip, length ip = 16%nat ∧ netIP n = zip_with Z.land ip (CIDRMask (netOnes n) 16) ∧
         0 <= netOnes n <= 128).
Proof.
  unfold ParseCIDR. destruct (Cut s SLASH) as [[addr mask]|]; [|done].
  destruct (ParseAddr addr) as [a|e|p] eqn:Ea; [|done|done].
  apply ParseAddr_ok in Ea as (Hl & _ & H4).
  destruct (negb _); [done|]. destruct (dtoi mask) as [k|] eqn:Ek; [|done].
  apply dtoi_nonneg in Ek. destruct (Z.ltb_spec (BitLen a) k); [done|].
  intros [= <-]. unfold BitLen in *. cbn [netIP netOnes]. unfold IPMask.
  destruct (is4 a); [left|right].
  - change (Z.to_nat (32 / 8)) with 4%nat. rewrite CIDRMask_length.
    destruct (H4 eq_refl) as (b & Hb & ->).
    rewrite bool_decide_true; [|split; [done|]; split; [by rewrite length_app, Hb|done]].
    rewrite length_zip_with, length_drop, length_app, CIDRMask_length, Hb.
    change (length v4InV6Prefix) with 12%nat. lia.
  - change (Z.to_nat (128 / 8)) with 16%nat. exists (addr16 a). rewrite CIDRMask_length.
    rewrite bool_decide_false; [done|]. intros [? _]. done.
Qed.

Lemma netKeyOf_ok pid cidr k :
  netKeyOf pid cidr = Ok k →
  ∃ n, ParseCIDR cidr = Ok n ∧ PolicyIDBE k = swap32 pid ∧ length (nk_Addr k) = 16%nat ∧
       32 <= PrefixLen k ∧
       (PrefixLen k <= 160 →
        nk_Addr k = To16 (netIP n) ∧ PrefixLen k = 32 + Z.of_nat (cidr_bits n)).
Proof.
  unfold netKeyOf. destruct (ParseCIDR cidr) as [n|e|p] eqn:E; [|done|done].
  intros Hk. exists n. split; [done|].
  apply ParseCIDR_ok in E as [[Hl Ho]|(ip & Hip & Hnet & Ho)].
  - unfold To4 in Hk. rewrite Hl in Hk. simpl in Hk. injection Hk as <-. simpl.
    rewrite u32_small by (unfold_widths; lia). unfold cidr_bits, To16. rewrite Hl. simpl.
    repeat split; try lia.
  - assert (length (netIP n) = 16%nat) as Hl.
    { rewrite Hnet, length_zip_with, CIDRMask_length. lia. }
    unfold To4 in Hk. rewrite Hl in Hk. simpl in Hk.
    unfold cidr_bits, To16. rewrite Hl. simpl. rewrite u32_small in Hk by (unfold_widths; lia).
    case_bool_decide as Hm; injection Hk as <-; simpl.
    + rewrite length_drop, Hl. split; [done|]. split; [done|]. split; [lia|].
      destruct Hm as [_ Hm]. rewrite Hnet in Hm. apply mapped_mask_long in Hm; [lia|done].
    + unfold To16. rewrite Hl. simpl. repeat split; lia.
Qed.

(** The key the kernel looks up for an outbound address. *)
Definition lookup_key (pid : Z) (addr : list Z) : netKey := mkNetKey (32 + 128) (swap32 pid) addr.

(** An entry whose key was made for policy [pid] and a CIDR matches the lookup
    of an address for policy [pid'] exactly when the policies are the same and
    the address is in the CIDR. *)
Lemma netKeyOf_covers pid pid' cidr n k addr :
  is_u32 pid → is_u32 pid' → length addr = 16%nat →
  ParseCIDR cidr = Ok n → netKeyOf pid cidr = Ok k → PrefixLen k <= 160 →
  lk_covers k (lookup_key pid' addr) = true ↔ pid = pid' ∧ cidr_contains n addr.
Proof.
  intros Hp Hp' Ha Hn Hk Hmax.
  destruct (netKeyOf_ok pid cidr k Hk) as (n' & Hn' & Hbe & Hl & Hmin & Hfin).
  rewrite Hn in Hn'. injection Hn' as <-. destruct (Hfin Hmax) as [Haddr Hlen].
  rewrite lk_covers_spec. unfold lk_prefix. simpl lk_len.
  change (lk_bits k) with (bits_of (u32_mem (PolicyIDBE k) ++ addr_field (nk_Addr k))).
  change (lk_bits (lookup_key pid' addr))
    with (bits_of (u32_mem (swap32 pid') ++ addr_field addr)).
  rewrite Hbe, !swap32_mem, !addr_field_id, !bits_of_app, Haddr by done.
  replace (Z.to_nat (PrefixLen k)) with (length (bits_of (u32_be pid)) + cidr_bits n)%nat
    by (rewrite length_bits_of; simpl length; lia).
  rewrite take_app_add.
  replace (length (bits_of (u32_be pid))) with (length (bits_of (u32_be pid')))
    by (by rewrite !length_bits_of).
  rewrite take_app_add. unfold cidr_contains. split.
  - intros [_ E]. apply app_inj_1 in E as [E1 E2]; [|by rewrite !length_bits_of].
    split; [|done]. apply u32_be_inj; [done|done|].
    apply bits_of_inj; [apply u32_be_ok|apply u32_be_ok|done|done].
  - intros [<- E]. split; [simpl; lia|]. by rewrite E.
Qed.

(** ** Network rules *)

(** Whether an entry admits a port, and a port and protocol: [nports = 0] is
    every port, [proto = 0] every protocol. *)
Definition ports_admit (v : netVal) (port : Z) : bool :=
  (NPorts v =? 0) || bool_decide (port ∈ take (Z.to_nat (NPorts v)) (Ports v)).

Definition netval_wf (v : netVal) : Prop := 0 <= NPorts v <= 7 ∧ length (Ports v) = 7%nat.

Lemma portIndex_Some v port i :
  netval_wf v → portIndex v port = Some i → port ∈ take (Z.to_nat (NPorts v)) (Ports v).
Proof.
  intros [Hn Hl]. unfold portIndex, MaxPortsPerRule. rewrite Z.min_l by lia.
  intros ([j x] & Hf & ->)%fmap_Some. apply list_find_Some in Hf as (Hx & -> & _).
  by apply list_elem_of_lookup_2 in Hx.
Qed.

(** Merging adds exactly the requested port: the result admits what the found
    entry admitted, and the new port (every port for 0). *)
Lemma merge_port_spec cidr v found port v' :
  netval_wf v → (found = false → NPorts v = 0) → merge_port cidr v found port = Ok v' →
  netval_wf v' ∧ nv_Proto v' = nv_Proto v ∧
  ∀ p, ports_admit v' p = true ↔
       port = 0 ∨ p = port ∨ (found = true ∧ ports_admit v p = true).
Proof.
  intros [Hn Hl] Hf. unfold merge_port, ports_admit.
  destruct (Z.eqb_spec port 0) as [->|Hp].
  { intros [= <-]. split; [split; [simpl; lia|done]|]. split; [done|].
    intros p. split; [by left|done]. }
  destruct found; simpl.
  - destruct (Z.eqb_spec (NPorts v) 0) as [H0|H0].
    { intros [= <-]. rewrite H0. split; [done|]. split; [done|].
      intros p. split; [by auto|done]. }
    destruct (portIndex v port) as [i|] eqn:Ei.
    + intros [= <-]. apply portIndex_Some in Ei; [|done].
      split; [done|]. split; [done|]. intros p. apply Z.eqb_neq in H0. rewrite H0. simpl.
      rewrite !bool_decide_eq_true. split; [by auto|]. intros [?|[->|[_ ?]]]; done.
    + unfold MaxPortsPerRule. destruct (Z.leb_spec 7 (NPorts v)); [done|]. intros [= <-].
      unfold netval_wf. simpl. unfold u8. rewrite Z.mod_small, length_insert by lia.
      split; [lia|]. split; [done|]. intros p.
      assert ((NPorts v + 1 =? 0) = false) as -> by lia. simpl.
      replace (Z.to_nat (NPorts v + 1)) with (S (Z.to_nat (NPorts v))) by lia.
      rewrite (take_S_r _ _ port) by (apply list_lookup_insert_eq; lia).
      rewrite take_insert_ge by lia. rewrite !bool_decide_eq_true. set_solver.
  - pose proof (Hf eq_refl) as H0. destruct (portIndex v port) as [i|] eqn:Ei.
    { apply portIndex_Some in Ei; [|done]. rewrite H0 in Ei. by apply not_elem_of_nil in Ei. }
    rewrite H0. simpl. intros [= <-]. unfold netval_wf. simpl. rewrite length_insert.
    split; [by change (u8 1) with 1|]. split; [done|].
    intros p. destruct (Ports v) as [|x l]; [done|]. change (Z.to_nat (u8 1)) with 1%nat.
    simpl. rewrite bool_decide_eq_true. set_solver.
Qed.

Section laws.
Context `{KernelMaps} `{!KernelMapsLaws}.

Definition nets_wf (m : Maps) : Prop :=
  ∀ k v, lp_entry (ruleNet m) k = Some v → netval_wf v.

(** The map a call returns replaces the old one on success and on failure. *)
Lemma finish_fst {T} (set : Maps → T → Maps) wrap r m : fst (finish set wrap r m) = set m (fst r).
Proof. unfold finish. by destruct r as [t [e|]]. Qed.
Lemma finish_ignoreMissing_fst {T} (set : Maps → T → Maps) r m :
  fst (finish_ignoreMissing set r m) = set m (fst r).
Proof. unfold finish_ignoreMissing. destruct r as [t [e|]]; simpl; [by destruct (isMissing e)|done]. Qed.
Lemma finish_inv {T} (set : Maps → T → Maps) wrap r m m' :
  finish set wrap r m = (m', Ok tt) → snd r = None ∧ m' = set m (fst r).
Proof. unfold finish. destruct r as [t [e|]]; naive_solver. Qed.

(** A successful [PutNetRule]: one prefix changes, to the merge of what the
    longest registered prefix around it held (protocol included) and the new
    port. *)
Lemma PutNetRule_ok pid cidr port proto m m' :
  nets_wf m → PutNetRule pid cidr port proto m = (m', Ok tt) →
  ∃ k v,
    netKeyOf pid cidr = Ok k ∧ PrefixLen k <= 160 ∧ netval_wf v ∧ nv_Proto v = proto ∧
    m' = set_ruleNet m (ruleNet m') ∧
    (∀ k', lp_entry (ruleNet m') k' =
           if decide (lk_len k' = lk_len k ∧ lk_prefix k' = lk_prefix k) then Some v
           else lp_entry (ruleNet m) k') ∧
    (∀ v0, lp_find (ruleNet m) k = Some v0 → nv_Proto v0 = proto) ∧
    ∀ p, ports_admit v p = true ↔
         port = 0 ∨ p = port ∨
         ∃ v0, lp_find (ruleNet m) k = Some v0 ∧ ports_admit v0 p = true.
Proof.
  intros Hwf. unfold PutNetRule. intros (m1 & k & Hk & Hr)%mbnd_ok.
  injection Hk as -> Hk. apply mbnd_ok in Hr as (m2 & [v0 found] & Hl & Hr). injection Hl as -> Hl.
  apply mbnd_ok in Hr as (m3 & v & Hm & Hf). injection Hm as -> Hm.
  apply finish_inv in Hf as [Hput ->]. simpl in Hm.
  destruct (lp_Put (ruleNet m3) k v) as [t o] eqn:Ep. simpl in *. subst o.
  apply lp_Put_ok in Ep as [Hlen Hent].
  assert (netval_wf v0 ∧ nv_Proto v0 = proto ∧
          (found = false → NPorts v0 = 0 ∧ lp_find (ruleNet m3) k = None) ∧
          (found = true → lp_find (ruleNet m3) k = Some v0)) as (Hw0 & Hp0 & Hff & Hft).
  { destruct (lp_Lookup (ruleNet m3) k) as [cur|e|s] eqn:El; [| |done].
    - destruct (Z.eqb_spec (nv_Proto cur) proto); [|done]. injection Hl as -> <-.
      apply lp_Lookup_ok in El. pose proof (lp_find_Some _ _ _ El) as (k' & He & _).
      split; [by eapply Hwf|]. done.
    - destruct (isMissing e) eqn:Ee; [|done]. injection Hl as <- <-.
      split; [split; [simpl; lia|done]|]. split; [done|]. split; [|done].
      intros _. split; [done|]. by eapply lp_Lookup_missing. }
  apply merge_port_spec in Hm as (Hwv & Hpv & Hadm); [|done|naive_solver].
  exists k, v. rewrite rn_width in Hlen. split; [done|]. split; [done|]. split; [done|].
  split; [congruence|]. split; [done|]. split; [done|]. split.
  { destruct found; [rewrite (Hft eq_refl)|destruct (Hff eq_refl) as [_ ->]]; naive_solver. }
  intros p. rewrite Hadm.
  destruct found; [rewrite (Hft eq_refl)|destruct (Hff eq_refl) as [_ ->]]; naive_solver.
Qed.
End laws.
