(* ===== verification/Concrete.v ===== *)
(** Concrete environments that satisfy the interfaces: the maps bounded as
    bpf/warrant.bpf.c declares them, and a small file system.  The witnesses
    run the model in them. *)

From Stdlib Require Import ZArith Lia Ascii String.
From stdpp Require Import base tactics numbers list strings gmap.
From S2P Require Import Prelude GoStd GoNet EbpfMap Os BpfMap.

#[export] Instance demo_maps : KernelMaps := {
  af_t := bpercpu Z;
  cw_t := bhash Z Z;
  wa_t := bhash Z KWarrant;
  re_t := bhash ruleKey Z;
  rw_t := bhash ruleKey writeVal;
  rn_t := blpm netKey netVal;
  rn_ops := blpm_trie 160
}.

#[export] Instance demo_maps_laws : KernelMapsLaws.
Proof.
  split; [apply _|apply _|apply _|apply _|apply _| |done].
  exact (blpm_laws 160).
Qed.

(** Freshly created maps on a machine with two CPUs. *)
Definition demo_empty : Maps :=
  mkMaps _ (BPercpu 2 [0; 0]) (BHash 4096 ∅) (BHash 4096 ∅) (BHash 65536 ∅)
         (BHash 65536 ∅) (BLpm 8192 ∅) 2.

Lemma blpm_empty_entry n k :
  @lp_entry _ _ _ (blpm_trie 160) (BLpm n ∅ : blpm netKey netVal) k = None.
Proof. simpl. rewrite lookup_empty. by destruct (lk_wf _). Qed.

(** A file system given by a table; [st_dev] carries major and minor in its
    halves. *)
Definition table_os (files : list (string * Stat_t)) (texts : list (string * string)) : Os := {|
  unix_Stat _ p :=
    match List.find (λ e, String.eqb (fst e) p) files with
    | Some (_, st) => Ok st
    | None => Err (EErrno ENOENT)
    end;
  os_ReadFile _ p :=
    match List.find (λ e, String.eqb (fst e) p) texts with
    | Some (_, s) => Ok s
    | None => Err (EWrap "open: " (EErrno ENOENT))
    end;
  unix_Major d := (d / 2 ^ 32) mod 2 ^ 32;
  unix_Minor d := d mod 2 ^ 32;
  clock_boottime t := Ok (Z.of_nat t, 0)
|}.

Definition dev8_1 : Z := 8 * 2 ^ 32 + 1.
Definition reg (ino : Z) : Stat_t := mkStat dev8_1 ino (32768 + 493).
Definition dir (ino : Z) : Stat_t := mkStat dev8_1 ino (16384 + 493).
Definition chr (ino : Z) : Stat_t := mkStat dev8_1 ino (8192 + 438).
Definition ref (ino : Z) : FileRef := mkFileRef (8 * 2 ^ 20 + 1) ino.

Definition demo_files : list (string * Stat_t) :=
  [("/bin/sh", reg 100); ("/usr/bin/git", reg 101); ("/usr/bin/less", reg 102);
   ("/dev/null", chr 5); ("/tmp", dir 40); ("/tmp/w", dir 41); ("/tmp/w/secret", dir 42);
   ("/var/lib/warrantd", dir 60); ("/etc/warrantd", dir 61); ("/etc", dir 30)].
Definition demo_os : Os := table_os demo_files [("/etc/shells", bytes_str [35; 10] +:+ "/bin/sh")].

#[export] Instance table_os_laws files texts : OsLaws (H := table_os files texts).
Proof.
  split; simpl; unfold_widths.
  - intros d. apply Z.mod_pos_bound. lia.
  - intros d. apply Z.mod_pos_bound. lia.
  - intros d d' Hd Hd' H1 H2. rewrite !(Z.mod_small (_ / _)) in H1 by divmod_lia. divmod_lia.
Qed.

#[export] Instance demo_errno_text : ErrnoText := λ n, "errno " +:+ fmt_u n.
