(* ===== verification/Kernel.v ===== *)
(** The kernel's side of the maps (bpf/warrant.bpf.c): how a hook finds the
    warrant of the current task and decides an exec, a write or an outbound
    connection from the maps the agent fills.  The agent's theorems are stated
    against these decisions. *)

From Stdlib Require Import ZArith Lia Ascii String.
From stdpp Require Import base tactics numbers list strings gmap.
From S2P Require Import Prelude GoStd GoNet EbpfMap Os BpfMap.

Definition TAG_NONE : Z := 0.
Definition TAG_CGROUP : Z := 1.
Definition TAG_TASK : Z := 2.
Definition VERDICT_ALLOW : Z := 0.
Definition VERDICT_DENY : Z := 1.
Definition VERDICT_WOULD_DENY : Z := 2.
Definition ORIGIN_LSM : Z := 1.
Definition ORIGIN_KPROBE : Z := 2.
Definition WALK_MAX : nat := 16.
Definition EPERM : Z := 1.
Definition FMODE_WRITE : Z := 2.

(** The current task: the CPU it runs on, its cgroup id and its task storage. *)
Record task := mkTask { t_cpu : nat; t_cgroup : Z; t_tag : option Z }.

(** [validity]: 0 live, 1 revoked, 2 expired. *)
Definition validity (w : KWarrant) (now : Z) : Z :=
  if negb (Revoked w =? 0) then 1
  else if negb (ExpiresNs w =? 0) && (ExpiresNs w <? now) then 2
  else 0.

Definition verdict_of (w : KWarrant) (denied : bool) : Z :=
  if negb denied then VERDICT_ALLOW
  else if Mode w =? ModeEnforce then VERDICT_DENY else VERDICT_WOULD_DENY.

Definition ret_of (w : KWarrant) (denied : bool) : Z :=
  if denied && (Mode w =? ModeEnforce) then - EPERM else 0.

(** [dentry_write_allowed]: [chain] is the dentry and its ancestors up to the
    root, [None] for a dentry without an inode. *)
Fixpoint write_walk (rules : ruleKey → option writeVal) (pid : Z) (fuel depth : nat)
    (chain : list (option FileRef)) : bool :=
  match fuel, chain with
  | O, _ | _, [] => false
  | S f, d :: up =>
      let hit := match d with
                 | None => None
                 | Some r => rules (rule_key pid r)
                 end in
      match hit with
      | Some v =>
          if (depth =? 0)%nat || negb (wv_Recursive v =? 0) || (depth =? 1)%nat
          then wv_Effect v =? EffectAllowByte
          else write_walk rules pid f (S depth) up
      | None => write_walk rules pid f (S depth) up
      end
  end.
Definition dentry_write_allowed (rules : ruleKey → option writeVal) (pid : Z)
    (chain : list (option FileRef)) : bool :=
  write_walk rules pid WALK_MAX 0 chain.

(** The addresses of [socket_connect]. *)
Inductive sockaddr :=
  | SockInet (addr4 : list Z) (port : Z)
  | SockInet6 (addr : list Z) (port : Z)
  | SockUnix (path : string)
  | SockOther.

Definition v4_mapped (addr4 : list Z) : list Z := zeros 10 ++ [255; 255] ++ addr4.

(** The delegation sockets [connect_verdict] refuses, by the bytes it tests. *)
Definition delegation_socket (path : string) : bool :=
  HasPrefix path "/run/dbus" || HasPrefix path "/run/doc" || HasPrefix path "/run/con" ||
  (HasPrefix path "/run/sys" &&
   match String.get 13 path, String.get 14 path, String.get 15 path with
   | Some a, Some b, Some c => Ascii.eqb a "/" && Ascii.eqb b "p" && Ascii.eqb c "r"
   | _, _, _ => false
   end).

Section kernel.
Context `{KernelMaps}.

Definition lookup_warrant (m : Maps) (t : task) : option (Z * Z * KWarrant) :=
  match pa_get (activeFlag m) (t_cpu t) with
  | None => None
  | Some on =>
      if on =? 0 then None
      else
        let found := match hm_get (cgroupWarrant m) (t_cgroup t) with
                     | Some wid => Some (wid, TAG_CGROUP)
                     | None => match t_tag t with
                               | Some wid => Some (wid, TAG_TASK)
                               | None => None
                               end
                     end in
        match found with
        | None => None
        | Some (wid, tag) =>
            match hm_get (warrants m) wid with
            | Some w => Some (wid, tag, w)
            | None => None
            end
        end
  end.

(** [net_allowed]: one longest-prefix lookup, then protocol and port. *)
Definition net_allowed (m : Maps) (pid : Z) (addr : list Z) (port proto : Z) : bool :=
  match lp_find (ruleNet m) (lookup_key pid addr) with
  | None => false
  | Some v =>
      if negb (nv_Proto v =? 0) && negb (nv_Proto v =? proto) then false
      else if NPorts v =? 0 then true
      else bool_decide (port ∈ take (Z.to_nat (NPorts v `min` 7)) (Ports v))
  end.

(** Each hook: what it returns to the kernel, and the verdict it records (none
    when the task has no warrant or the hook stays silent). *)

Definition bprm_verdict (m : Maps) (t : task) (now : Z) (f : FileRef) : Z * option Z :=
  match lookup_warrant m t with
  | None => (0, None)
  | Some (wid, tag, w) =>
      let val := validity w now in
      let denied :=
        if val =? 1 then true
        else if val =? 2 then false
        else match hm_get (ruleExec m) (rule_key (PolicyID w) f) with
             | Some _ => false
             | None => true
             end in
      (ret_of w denied, Some (verdict_of w denied))
  end.

Definition write_denied (m : Maps) (w : KWarrant) (now : Z)
    (chain : list (option FileRef)) : bool :=
  if negb (validity w now =? 0) then true
  else negb (dentry_write_allowed (hm_get (ruleWrite m)) (PolicyID w) chain).

Definition file_verdict (m : Maps) (t : task) (now fmode : Z) (origin : Z)
    (chain : list (option FileRef)) : Z * option Z :=
  match lookup_warrant m t with
  | None => (0, None)
  | Some (wid, tag, w) =>
      if Z.land fmode FMODE_WRITE =? 0 then (0, None)
      else
        let denied := write_denied m w now chain in
        (if origin =? ORIGIN_KPROBE then 0 else ret_of w denied,
         if denied then Some (verdict_of w denied) else None)
  end.

Definition inode_verdict (m : Maps) (t : task) (now : Z)
    (chain : list (option FileRef)) : Z * option Z :=
  match lookup_warrant m t with
  | None => (0, None)
  | Some (wid, tag, w) =>
      let denied := write_denied m w now chain in
      (ret_of w denied, if denied then Some (verdict_of w denied) else None)
  end.

Definition net_denied (m : Maps) (w : KWarrant) (now : Z) (addr : list Z)
    (port proto : Z) : bool :=
  if negb (validity w now =? 0) then true
  else negb (net_allowed m (PolicyID w) addr port proto).

Definition connect_verdict (m : Maps) (t : task) (now : Z) (a : sockaddr) : Z * option Z :=
  match lookup_warrant m t with
  | None => (0, None)
  | Some (wid, tag, w) =>
      match a with
      | SockInet addr4 port =>
          let denied := net_denied m w now (v4_mapped addr4) port 1 in
          (ret_of w denied, Some (verdict_of w denied))
      | SockInet6 addr port =>
          let denied := net_denied m w now addr port 1 in
          (ret_of w denied, Some (verdict_of w denied))
      | SockUnix path =>
          if delegation_socket path then (ret_of w true, Some (verdict_of w true))
          else (0, None)
      | SockOther => (0, None)
      end
  end.

Definition sendmsg_verdict (m : Maps) (t : task) (now : Z) (a : option sockaddr)
    : Z * option Z :=
  match lookup_warrant m t with
  | None => (0, None)
  | Some (wid, tag, w) =>
      if InspectUDP w =? 0 then (0, None)
      else
        let dst := match a with
                   | Some (SockInet addr4 port) => Some (v4_mapped addr4, port)
                   | Some (SockInet6 addr port) => Some (addr, port)
                   | _ => None
                   end in
        match dst with
        | None => (0, None)
        | Some (addr, port) =>
            if net_denied m w now addr port 2
            then (ret_of w true, Some (verdict_of w true))
            else (0, None)
        end
  end.
End kernel.

(** * Lemmas *)

(** The destination an IPv4 or IPv6 socket address names, in the 16-byte form Go's
    [net.IP] has for it. *)
Inductive inet_dest : sockaddr → list Z → Z → Prop :=
  | DestV4 a4 port : length a4 = 4%nat → inet_dest (SockInet a4 port) (To16 a4) port
  | DestV6 addr port : length addr = 16%nat → inet_dest (SockInet6 addr port) addr port.
Lemma To16_mapped a4 : length a4 = 4%nat → To16 a4 = v4_mapped a4.
Proof. intros Hl. unfold To16, v4_mapped. by rewrite Hl. Qed.
Lemma inet_dest_length a addr port : inet_dest a addr port → length addr = 16%nat.
Proof. intros [a4 p Hl|x p Hl]; [|done]. rewrite To16_mapped by done. unfold v4_mapped. rewrite !length_app, Hl. done. Qed.

(** The walk only looks at the nearest rules: it agrees on rule tables that
    agree on the keys of the chain. *)
Lemma write_walk_ext r1 r2 pid fuel depth chain :
  (∀ f, Some f ∈ chain → r1 (rule_key pid f) = r2 (rule_key pid f)) →
  write_walk r1 pid fuel depth chain = write_walk r2 pid fuel depth chain.
Proof.
  revert depth chain. induction fuel as [|n IH]; intros depth [|d up] He; simpl; try done.
  assert (∀ dp, write_walk r1 pid n dp up = write_walk r2 pid n dp up) as Hup.
  { intros dp. apply IH. intros f Hf. apply He. set_solver. }
  destruct d as [f|]; [|by rewrite Hup].
  rewrite <- (He f) by set_solver. by destruct (r1 (rule_key pid f)); rewrite Hup.
Qed.

(** A rule on the inode itself decides. *)
Lemma dentry_write_self rules pid f up v :
  rules (rule_key pid f) = Some v →
  dentry_write_allowed rules pid (Some f :: up) = (wv_Effect v =? EffectAllowByte).
Proof. intros Hr. unfold dentry_write_allowed, WALK_MAX. simpl. by rewrite Hr. Qed.

(** Without a rule on the chain nothing may be written. *)
Lemma dentry_write_default rules pid chain :
  (∀ f, Some f ∈ chain → rules (rule_key pid f) = None) →
  dentry_write_allowed rules pid chain = false.
Proof.
  unfold dentry_write_allowed. generalize WALK_MAX O. intros fuel depth. revert depth chain.
  induction fuel as [|n IH]; intros depth [|d up] He; simpl; try done.
  destruct d as [f|]; [rewrite He by set_solver|]; apply IH; set_solver.
Qed.
