(* ===== verification/Policy.v ===== *)
(** Package [policy] (agent/internal/policy/policy.go): compiling a policy's
    paths into (dev, ino) rules, writing them to the maps, and watching the
    files behind them. *)

From Stdlib Require Import ZArith Lia Ascii String.
From stdpp Require Import base tactics numbers list strings gmap.
From S2P Require Import Prelude GoStd GoNet EbpfMap Os BpfMap Concrete.

(** * Data *)

Inductive Effect := EffectUnspecified | EffectAllow | EffectDeny | EffectOther (n : Z).
Inductive Kind := KindExec | KindWrite | KindRead.
#[export] Instance Effect_eq_dec : EqDecision Effect.
Proof. solve_decision. Defined.
#[export] Instance Kind_eq_dec : EqDecision Kind.
Proof. solve_decision. Defined.

(** [policy.Effect(r.GetEffect())]: a [uint8] conversion of the wire value. *)
Definition Effect_of_Z (n : Z) : Effect :=
  if u8 n =? 0 then EffectUnspecified
  else if u8 n =? 1 then EffectAllow
  else if u8 n =? 2 then EffectDeny
  else EffectOther (u8 n).

Definition ProtoAny : Z := 0.
Definition ProtoTCP : Z := 1.
Definition ProtoUDP : Z := 2.

Record ExecRule := mkExecRule { er_Path : string }.
Record WriteRule := mkWriteRule { wr_Path : string; wr_Recursive : bool; wr_Effect : Effect }.
Record NetRule := mkNetRule { nr_CIDR : string; nr_Port : Z; nr_Proto : Z }.

Record Spec := mkSpec {
  s_Name : string;
  s_ExecRules : list ExecRule;
  s_WriteRules : list WriteRule;
  s_NetRules : list NetRule;
  s_ReadWatchPaths : list string;
  s_InspectUDP : bool;
  s_NoDefaultExec : bool
}.

(** The [any] argument of [Compile]: a pointer, a value, or something else. *)
Inductive anySpec :=
  | ASpecPtr (p : option Spec)
  | ASpecVal (s : Spec)
  | AOther (type_name : string).

Record Source := mkSource { src_Path : string; src_Ref : FileRef; src_Kind : Kind }.
Record WriteEntry := mkWriteEntry { we_Ref : FileRef; we_Allow : bool; we_Recursive : bool }.
Record NetEntry := mkNetEntry { ne_CIDR : string; ne_Port : Z; ne_Proto : Z }.

Record Compiled := mkCompiled {
  c_PolicyID : Z;
  c_Exec : list FileRef;
  c_Write : list WriteEntry;
  c_Net : list NetEntry;
  c_Read : list FileRef;
  c_Sources : list Source;
  c_Warnings : list string
}.

Definition empty_Compiled (pid : Z) : Compiled := mkCompiled pid [] [] [] [] [] [].

Definition set_Exec (c : Compiled) x :=
  mkCompiled (c_PolicyID c) x (c_Write c) (c_Net c) (c_Read c) (c_Sources c) (c_Warnings c).
Definition set_Write (c : Compiled) x :=
  mkCompiled (c_PolicyID c) (c_Exec c) x (c_Net c) (c_Read c) (c_Sources c) (c_Warnings c).
Definition set_Net (c : Compiled) x :=
  mkCompiled (c_PolicyID c) (c_Exec c) (c_Write c) x (c_Read c) (c_Sources c) (c_Warnings c).
Definition set_Read (c : Compiled) x :=
  mkCompiled (c_PolicyID c) (c_Exec c) (c_Write c) (c_Net c) x (c_Sources c) (c_Warnings c).
Definition set_Sources (c : Compiled) x :=
  mkCompiled (c_PolicyID c) (c_Exec c) (c_Write c) (c_Net c) (c_Read c) x (c_Warnings c).
Definition set_Warnings (c : Compiled) x :=
  mkCompiled (c_PolicyID c) (c_Exec c) (c_Write c) (c_Net c) (c_Read c) (c_Sources c) x.

(** A compilation in progress: the moment of the next file-system query and the
    result so far. *)
Record cstate := mkCstate { cs_now : nat; cs_c : Compiled }.

Definition DefaultAllowWrite : list string :=
  ["/dev/null"; "/dev/zero"; "/dev/full"; "/dev/random"; "/dev/urandom"; "/dev/tty"; "/dev/pts"].
Definition DefaultDenyWrite : list string :=
  ["/var/lib/warrantd"; "/run/warrantd"; "/etc/warrantd"].
Definition LoginShellsPath : string := "/etc/shells".
Definition FallbackLoginShells : list string := ["/bin/sh"].

Definition ErrNoPolicyID : error := ENew "ErrNoPolicyID".
Definition ErrDenyOnFile : error := ENew "ErrDenyOnFile".
Definition ErrNoEffect : error := ENew "ErrNoEffect".
Definition ErrRelPath : error := ENew "ErrRelPath".
Definition ErrExecNotFile : error := ENew "ErrExecNotFile".

(** * Steps of the compiler *)

Definition mod_c (f : Compiled → Compiled) : M cstate unit :=
  mmod (λ s, mkCstate (cs_now s) (f (cs_c s))).

(** [(c *Compiled) warn]. *)
Definition warn (msg : string) : M cstate unit :=
  mod_c (λ c, set_Warnings c (c_Warnings c ++ [msg])).

(** [(c *Compiled) record]. *)
Definition record (path : string) (ref : FileRef) (kind : Kind) : M cstate unit :=
  mod_c (λ c, set_Sources c (c_Sources c ++ [mkSource path ref kind])).

(** Run a file-system query now; the next one happens later. *)
Definition at_now {A} (q : nat → A) : M cstate A :=
  λ s, (mkCstate (S (cs_now s)) (cs_c s), Ok (q (cs_now s))).

Section compile.
Context `{Os}.

Definition resolve (path : string) (kind : Kind) : M cstate FileRef :=
  if negb (IsAbs path) then merr (EWrap (path +:+ ": ") ErrRelPath)
  else
    do r := at_now (λ t, FileRefOf t path) in
    do ref := mres r in
    record path ref kind ;;;
    mok ref.

Definition addExec (path : string) (optional : bool) : M cstate unit :=
  if negb (IsAbs path) then merr (EWrap (path +:+ ": ") ErrRelPath)
  else
    do r := at_now (λ t, unix_Stat t path) in
    match r with
    | Panic p => mres (Panic p)
    | Err e =>
        if optional && errors_Is e (EErrno ENOENT) then mok tt
        else merr (EWrap ("실행 허용 " +:+ path +:+ ": ") e)
    | Ok st =>
        if negb (S_IFTYPE st =? S_IFREG) then
          if optional then mok tt
          else merr (EWrap ("실행 허용 " +:+ path +:+ ": ") ErrExecNotFile)
        else
          let ref := FileRefFromStat st in
          do s := mget in
          if bool_decide (ref ∈ c_Exec (cs_c s)) then mok tt
          else
            record path ref KindExec ;;;
            (if negb (Z.land (st_Mode st) S_ISUID =? 0)
             then warn (path +:+ " 는 setuid 다 — 실행을 허용하면 영장 밖 권한으로 올라갈 수 있다")
             else mok tt) ;;;
            mod_c (λ c, set_Exec c (c_Exec c ++ [ref]))
    end.

Definition addWrite (path : string) (allow recursive optional : bool) : M cstate unit :=
  if negb (IsAbs path) then merr (EWrap (path +:+ ": ") ErrRelPath)
  else
    do r := at_now (λ t, unix_Stat t path) in
    match r with
    | Panic p => mres (Panic p)
    | Err e =>
        if optional && errors_Is e (EErrno ENOENT) then mok tt
        else merr (EWrap ("쓰기 규칙 " +:+ path +:+ ": ") e)
    | Ok st =>
        if negb allow && negb (S_IFTYPE st =? S_IFDIR) then
          merr (EWrap ("쓰기 금지 " +:+ path +:+ ": ") ErrDenyOnFile)
        else
          let ref := FileRefFromStat st in
          record path ref KindWrite ;;;
          mod_c (λ c, set_Write c (c_Write c ++ [mkWriteEntry ref allow recursive]))
    end.

Definition checkCIDR (cidr : string) : res unit :=
  if negb (Contains_byte cidr SLASH)
  then Err (EMsg ("CIDR " +:+ fmt_q cidr +:+ ": 프리픽스 길이가 없다 (예: 10.0.0.0/8)"))
  else Ok tt.

(** [existingRegular]: the first occurrence of each path that is a regular
    file now. *)
Fixpoint existingRegular_loop (seen : list string) (paths : list string)
    : M cstate (list string) :=
  match paths with
  | [] => mok []
  | p :: rest =>
      if bool_decide (p ∈ seen) then existingRegular_loop seen rest
      else
        do r := at_now (λ t, unix_Stat t p) in
        do out := existingRegular_loop (p :: seen) rest in
        match r with
        | Ok st => if IsRegular st then mok (p :: out) else mok out
        | _ => mok out
        end
  end.
Definition existingRegular (paths : list string) : M cstate (list string) :=
  existingRegular_loop [] paths.

(** The candidate lines of [/etc/shells]: absolute paths, no comments. *)
Definition shell_line (ln : string) : option string :=
  let ln := TrimSpace ln in
  if bool_decide (ln = "") || HasPrefix ln "#" || negb (IsAbs ln) then None else Some ln.

Definition LoginShells : M cstate (list string) :=
  do b := at_now (λ t, os_ReadFile t LoginShellsPath) in
  match b with
  | Ok text =>
      do out := existingRegular (omap shell_line (Split text LF)) in
      if bool_decide (out = []) then existingRegular FallbackLoginShells else mok out
  | _ => existingRegular FallbackLoginShells
  end.
End compile.

(** ** Dangerous combinations *)

Record comboRule := mkCombo { cr_exec : list string; cr_write : list string; cr_why : string }.
Definition comboRules : list comboRule := [
  mkCombo ["systemctl"; "systemd-run"]
    ["/etc/systemd/system"; "/usr/lib/systemd/system"; "/lib/systemd/system"; "/run/systemd/system"]
    "unit 파일을 쓰고 systemctl 로 띄우면 임의 코드 실행이다";
  mkCombo ["sudo"] ["/etc/sudoers"; "/etc/sudoers.d"]
    "sudoers 를 고치고 sudo 를 부르면 영장 밖 권한으로 올라간다";
  mkCombo ["mount"; "umount"] ["/etc/fstab"]
    "fstab 을 고치고 mount 하면 임의 경로를 덮어쓸 수 있다"
].

Record riskyRule := mkRisky { rr_write : list string; rr_why : string }.
Definition alwaysRisky : list riskyRule := [
  mkRisky ["/etc/ld.so.preload"; "/etc/ld.so.conf"; "/etc/ld.so.conf.d"]
    "동적 로더 설정이다 — 이후 실행되는 모든 프로세스에 코드가 끼어든다";
  mkRisky ["/etc/cron.d"; "/etc/crontab"; "/var/spool/cron"; "/etc/cron.hourly"; "/etc/cron.daily"]
    "cron 이 다음 주기에 대신 실행해준다. 실행 허용이 없어도 돈다";
  mkRisky ["/etc/profile"; "/etc/profile.d"; "/etc/bash.bashrc"]
    "다음 로그인 셸이 대신 실행해준다";
  mkRisky ["/etc/passwd"; "/etc/shadow"; "/etc/group"]
    "계정을 만들거나 비밀번호를 바꿀 수 있다";
  mkRisky ["/root/.ssh"; "/etc/ssh"]
    "authorized_keys 를 넣으면 영장 밖 경로로 다시 들어올 수 있다"
].

(** [under]: the path is one of the prefixes or below one. *)
Definition under (path : string) (prefixes : list string) : bool :=
  existsb (λ p, bool_decide (path = p) || HasPrefix path (p +:+ "/")) prefixes.

Definition allowed_writes (s : Spec) : list string :=
  omap (λ r, if bool_decide (wr_Effect r = EffectAllow) then Some (Clean (wr_Path r)) else None)
       (s_WriteRules s).

Definition checkCombinations (s : Spec) : M cstate unit :=
  let allowed := allowed_writes s in
  if bool_decide (allowed = []) then mok tt
  else
    let execNames := Base ∘ er_Path <$> s_ExecRules s in
    mfor comboRules (λ combo,
      match List.find (λ n, bool_decide (n ∈ execNames)) (cr_exec combo) with
      | None => mok tt
      | Some hit =>
          mfor allowed (λ w,
            if under w (cr_write combo)
            then warn (hit +:+ " 실행 허용 + " +:+ w +:+ " 쓰기 허용 — " +:+ cr_why combo)
            else mok tt)
      end) ;;;
    mfor alwaysRisky (λ r,
      mfor allowed (λ w,
        if under w (rr_write r) then warn (w +:+ " 쓰기 허용 — " +:+ rr_why r) else mok tt)) ;;;
    mfor (s_ExecRules s) (λ e,
      mfor allowed (λ w,
        if under (Clean (er_Path e)) [w]
        then warn (er_Path e +:+ " 실행 허용 + 그 디렉터리(" +:+ w +:+ ") 쓰기 허용 — " +:+
                   "바이너리를 갈아치우면 실행 허용이 다른 내용에 상속된다")
        else mok tt)).

(** * [Compile] and [Apply] *)

Section compile2.
Context `{Os}.

Definition compile_shells (s : Spec) : M cstate unit :=
  if negb (s_NoDefaultExec s) then
    do shells := LoginShells in
    mfor shells (λ p, addExec p true) ;;;
    (if bool_decide (shells = [])
     then warn ("로그인 셸을 하나도 못 찾았다 (" +:+ LoginShellsPath +:+
                ") — 강제 모드에서 세션이 안 뜬다")
     else mok tt)
  else warn "로그인 셸 기본 허용을 껐다 — 대화형 세션은 뜨지 않는다".

Definition compile_write (r : WriteRule) : M cstate unit :=
  match wr_Effect r with
  | EffectAllow => addWrite (wr_Path r) true (wr_Recursive r) false
  | EffectDeny => addWrite (wr_Path r) false (wr_Recursive r) false
  | _ => merr (EWrap ("쓰기 규칙 " +:+ wr_Path r +:+ ": ") ErrNoEffect)
  end.

Definition compile_net (r : NetRule) : M cstate unit :=
  do _u := mres (checkCIDR (nr_CIDR r)) in
  mod_c (λ c, set_Net c (c_Net c ++ [mkNetEntry (nr_CIDR r) (nr_Port r) (nr_Proto r)])).

Definition warn_udp (s : Spec) : M cstate unit :=
  if negb (s_InspectUDP s) then
    match List.find (λ r, nr_Proto r =? ProtoUDP) (s_NetRules s) with
    | Some r => warn ("UDP 규칙(" +:+ nr_CIDR r +:+ ")이 있는데 inspect_udp 가 꺼져 있다 — " +:+
                      "connect 없는 UDP 는 판정되지 않는다 (§18)")
    | None => mok tt
    end
  else mok tt.

Definition compile_read (p : string) : M cstate unit :=
  do ref := resolve p KindRead in
  mod_c (λ c, set_Read c (c_Read c ++ [ref])).

Definition compile_body (s : Spec) : M cstate unit :=
  compile_shells s ;;;
  mfor (s_ExecRules s) (λ r, addExec (er_Path r) false) ;;;
  mfor DefaultAllowWrite (λ p, addWrite p true true true) ;;;
  mfor DefaultDenyWrite (λ p, addWrite p false true true) ;;;
  mfor (s_WriteRules s) compile_write ;;;
  mfor (s_NetRules s) compile_net ;;;
  (if bool_decide (s_NetRules s = [])
   then warn "네트워크 규칙이 없다 — 아웃바운드가 전면 차단된다 (§15)"
   else mok tt) ;;;
  warn_udp s ;;;
  mfor (s_ReadWatchPaths s) compile_read ;;;
  checkCombinations s.

(** [Compile] at moment [t]: the result and the moment it ends. *)
Definition Compile (policyID : Z) (spec : anySpec) (t : nat) : nat * res Compiled :=
  let go (s : option Spec) :=
    if policyID =? 0 then (t, Err ErrNoPolicyID)
    else match s with
         | None => (t, Panic "nil pointer dereference")
         | Some s =>
             match compile_body s (mkCstate t (empty_Compiled policyID)) with
             | (st, Ok _) => (cs_now st, Ok (cs_c st))
             | (st, Err e) => (cs_now st, Err e)
             | (st, Panic p) => (cs_now st, Panic p)
             end
         end in
  match spec with
  | ASpecPtr p => go p
  | ASpecVal s => go (Some s)
  | AOther ty => (t, Err (EMsg ("policy.Spec 이어야 한다: " +:+ ty)))
  end.
End compile2.

Section apply.
Context `{KernelMaps}.

(** [(c *Compiled) Apply]: denials first, then allowances, exec, net. *)
Definition Apply (c : Compiled) : M Maps unit :=
  mfor (c_Write c) (λ w,
    if negb (we_Allow w)
    then PutWriteRule (c_PolicyID c) (we_Ref w) false (we_Recursive w) else mok tt) ;;;
  mfor (c_Write c) (λ w,
    if we_Allow w
    then PutWriteRule (c_PolicyID c) (we_Ref w) true (we_Recursive w) else mok tt) ;;;
  mfor (c_Exec c) (PutExecRule (c_PolicyID c)) ;;;
  mfor (c_Net c) (λ n, PutNetRule (c_PolicyID c) (ne_CIDR n) (ne_Port n) (ne_Proto n)).
End apply.

(** * The watcher *)

(** The state under [w.mu].  [onChange] is a callback of the owner; here only
    whether one is set. *)
Record Watcher := mkWatcher { watched : gmap Z (list Source); hasOnChange : bool }.

Definition NewWatcherInterval (d : Z) : res Watcher :=
  if d <=? 0 then Err (EMsg "주기가 0 이하다") else Ok (mkWatcher ∅ false).
Definition Watch (c : option Compiled) (w : Watcher) : Watcher * res unit :=
  match c with
  | None => (w, Err ErrNoPolicyID)
  | Some c =>
      if c_PolicyID c =? 0 then (w, Err ErrNoPolicyID)
      else (mkWatcher (<[c_PolicyID c := c_Sources c]> (watched w)) (hasOnChange w), Ok tt)
  end.
Definition Unwatch (pid : Z) (w : Watcher) : Watcher :=
  mkWatcher (delete pid (watched w)) (hasOnChange w).
Definition OnChange (w : Watcher) : Watcher := mkWatcher (watched w) true.

Section watcher.
Context `{Os}.

(** Whether one source changed, at moment [t]. *)
Definition source_changed (t : nat) (s : Source) : bool :=
  match FileRefOf t (src_Path s) with
  | Ok now => negb (bool_decide (now = src_Ref s))
  | _ => true
  end.

(** The sources of one policy, stopping at the first change; the moment after. *)
Fixpoint sources_changed (t : nat) (l : list Source) : nat * bool :=
  match l with
  | [] => (t, false)
  | s :: l' => if source_changed t s then (S t, true) else sources_changed (S t) l'
  end.

(** [changed]: the watched policies in the (unspecified) order Go ranges over the map. *)
Fixpoint changed (t : nat) (order : list (Z * list Source)) : nat * list Z :=
  match order with
  | [] => (t, [])
  | (id, srcs) :: rest =>
      let '(t1, ch) := sources_changed t srcs in
      let '(t2, out) := changed t1 rest in
      (t2, if ch then id :: out else out)
  end.
End watcher.
(** The orders Go may use. *)
Definition range_order (w : Watcher) (order : list (Z * list Source)) : Prop :=
  order ≡ₚ map_to_list (watched w).

(** * Lemmas

    ** Where compiled rules come from *)

Section provenance.
Context `{Os}.

(** A write entry comes from one [stat], made between the moments [t0] and [t1],
    that decided both the directory check and the inode, and the watcher has the
    same inode on record. *)
Definition write_from_stat (t0 t1 : nat) (c : Compiled) (w : WriteEntry) : Prop :=
  ∃ t path st, (t0 <= t < t1)%nat ∧
    IsAbs path = true ∧ unix_Stat t path = Ok st ∧ we_Ref w = FileRefFromStat st ∧
    (we_Allow w = false → S_IFTYPE st = S_IFDIR) ∧
    mkSource path (we_Ref w) KindWrite ∈ c_Sources c.

Definition exec_from_stat (t0 t1 : nat) (c : Compiled) (f : FileRef) : Prop :=
  ∃ t path st, (t0 <= t < t1)%nat ∧
    IsAbs path = true ∧ unix_Stat t path = Ok st ∧ f = FileRefFromStat st ∧
    S_IFTYPE st = S_IFREG ∧ mkSource path f KindExec ∈ c_Sources c.

Definition compiled_ok (t0 t1 : nat) (pid : Z) (c : Compiled) : Prop :=
  c_PolicyID c = pid ∧ NoDup (c_Exec c) ∧
  Forall (write_from_stat t0 t1 c) (c_Write c) ∧ Forall (exec_from_stat t0 t1 c) (c_Exec c).
Definition cs_ok (t0 : nat) (pid : Z) (s : cstate) : Prop :=
  (t0 <= cs_now s)%nat ∧ compiled_ok t0 (cs_now s) pid (cs_c s).

Lemma write_from_stat_mono t0 t1 t1' c c' w :
  (t1 <= t1')%nat → c_Sources c ⊆ c_Sources c' →
  write_from_stat t0 t1 c w → write_from_stat t0 t1' c' w.
Proof.
  intros Hle Hs (t & p & st & Ht & ? & ? & ? & ? & ?). exists t, p, st. split; [lia|]. eauto 10.
Qed.
Lemma exec_from_stat_mono t0 t1 t1' c c' f :
  (t1 <= t1')%nat → c_Sources c ⊆ c_Sources c' →
  exec_from_stat t0 t1 c f → exec_from_stat t0 t1' c' f.
Proof.
  intros Hle Hs (t & p & st & Ht & ? & ? & ? & ? & ?). exists t, p, st. split; [lia|]. eauto 10.
Qed.

(** Later, with more sources, everything recorded still stands. *)
Lemma cs_ok_later t0 pid s now l :
  (cs_now s <= now)%nat → cs_ok t0 pid s →
  cs_ok t0 pid (mkCstate now (set_Sources (cs_c s) (c_Sources (cs_c s) ++ l))).
Proof.
  intros Hle (Ht & Hp & Hn & Hw & He). split; [simpl; lia|]. split; [done|]. split; [done|].
  split; eapply Forall_impl; try done; intros x.
  - apply write_from_stat_mono; simpl; [done|set_solver].
  - apply exec_from_stat_mono; simpl; [done|set_solver].
Qed.
Lemma cs_ok_tick t0 pid s : cs_ok t0 pid s → cs_ok t0 pid (mkCstate (S (cs_now s)) (cs_c s)).
Proof.
  intros Hs. apply (cs_ok_later t0 pid s (S (cs_now s)) []) in Hs; [|lia].
  destruct s as [now [? ? ? ? ? so ?]]. unfold set_Sources in Hs. simpl in *. by rewrite app_nil_r in Hs.
Qed.

Lemma keeps_warn t0 pid msg : keeps (cs_ok t0 pid) (warn msg).
Proof. intros s Hs. exact Hs. Qed.
Lemma keeps_record t0 pid path ref k : keeps (cs_ok t0 pid) (record path ref k).
Proof. intros s Hs. by apply cs_ok_later. Qed.
Lemma keeps_at_now {A} t0 pid (q : nat → A) : keeps (cs_ok t0 pid) (at_now q).
Proof. intros s Hs. by apply cs_ok_tick. Qed.
Lemma keeps_set_Net t0 pid f : keeps (cs_ok t0 pid) (mod_c (λ c, set_Net c (f c))).
Proof. intros s Hs. exact Hs. Qed.
Lemma keeps_set_Read t0 pid f : keeps (cs_ok t0 pid) (mod_c (λ c, set_Read c (f c))).
Proof. intros s Hs. exact Hs. Qed.
#[local] Hint Resolve keeps_warn keeps_record keeps_at_now keeps_set_Net keeps_set_Read : gohints.

Lemma keeps_addExec t0 pid path opt : keeps (cs_ok t0 pid) (addExec path opt).
Proof.
  intros s Hs. pose proof (cs_ok_tick _ _ _ Hs) as Htick. unfold addExec. destruct (IsAbs path) eqn:Ea; [|done]. simpl.
  unfold mbnd, at_now. simpl.
  destruct (unix_Stat (cs_now s) path) as [st|e|p] eqn:Est; [| |done].
  - destruct (Z.eqb_spec (S_IFTYPE st) S_IFREG) as [Ht|]; simpl; [|by destruct opt].
    case_bool_decide as Hd; [done|]. simpl in Hd.
    destruct Hs as (Ht0 & Hp & Hn & Hw & He).
    assert (∀ ws, cs_ok t0 pid (mkCstate (S (cs_now s))
      (set_Exec (set_Warnings (set_Sources (cs_c s)
         (c_Sources (cs_c s) ++ [mkSource path (FileRefFromStat st) KindExec])) ws)
         (c_Exec (cs_c s) ++ [FileRefFromStat st])))) as Hfin.
    { intros ws. split; [simpl; lia|]. split; [done|]. split.
      { simpl. apply NoDup_app. split; [done|]. split; [set_solver|apply NoDup_singleton]. }
      split; simpl.
      - eapply Forall_impl; [done|]. intros x. apply write_from_stat_mono; simpl; [lia|set_solver].
      - apply Forall_app. split.
        + eapply Forall_impl; [done|]. intros x. apply exec_from_stat_mono; simpl; [lia|set_solver].
        + apply Forall_singleton. exists (cs_now s), path, st. split; [lia|].
          repeat split; try done. simpl. set_solver. }
    destruct (negb _); apply Hfin.
  - by destruct (opt && _).
Qed.

Lemma keeps_addWrite t0 pid path allow rec opt : keeps (cs_ok t0 pid) (addWrite path allow rec opt).
Proof.
  intros s Hs. pose proof (cs_ok_tick _ _ _ Hs) as Htick. unfold addWrite. destruct (IsAbs path) eqn:Ea; [|done]. simpl.
  unfold mbnd, at_now. simpl.
  destruct (unix_Stat (cs_now s) path) as [st|e|p] eqn:Est; [| |done].
  - destruct (negb allow && _) eqn:Eb; [done|]. simpl.
    destruct Hs as (Ht0 & Hp & Hn & Hw & He). split; [simpl; lia|].
    split; [done|]. split; [done|]. simpl. split.
    + apply Forall_app. split.
      * eapply Forall_impl; [done|]. intros x. apply write_from_stat_mono; simpl; [lia|set_solver].
      * apply Forall_singleton. exists (cs_now s), path, st. split; [lia|].
        repeat split; try done; simpl; [|set_solver].
        intros ->. simpl in Eb. by apply negb_false_iff, Z.eqb_eq in Eb.
    + eapply Forall_impl; [done|]. intros x. apply exec_from_stat_mono; simpl; [lia|set_solver].
  - by destruct (opt && _).
Qed.
#[local] Hint Resolve keeps_addExec keeps_addWrite : gohints.

Lemma keeps_existingRegular t0 pid seen l : keeps (cs_ok t0 pid) (existingRegular_loop seen l).
Proof.
  revert seen. induction l as [|p l IH]; intros seen; simpl; [auto with gohints|].
  keep_steps.
Qed.
#[local] Hint Resolve keeps_existingRegular : gohints.

Lemma keeps_LoginShells t0 pid : keeps (cs_ok t0 pid) LoginShells.
Proof.
  unfold LoginShells, existingRegular. keep_steps.
Qed.
Lemma keeps_compile_write t0 pid r : keeps (cs_ok t0 pid) (compile_write r).
Proof. unfold compile_write. keep_steps. Qed.
Lemma keeps_compile_read t0 pid p : keeps (cs_ok t0 pid) (compile_read p).
Proof. unfold compile_read, resolve. keep_steps. Qed.
Lemma keeps_compile_net t0 pid r : keeps (cs_ok t0 pid) (compile_net r).
Proof. unfold compile_net. keep_steps. Qed.
Lemma keeps_warn_udp t0 pid s : keeps (cs_ok t0 pid) (warn_udp s).
Proof. unfold warn_udp. keep_steps. Qed.
Lemma keeps_checkCombinations t0 pid s : keeps (cs_ok t0 pid) (checkCombinations s).
Proof.
  unfold checkCombinations. keep_steps.
Qed.
#[local] Hint Resolve keeps_LoginShells keeps_compile_write keeps_compile_read
  keeps_compile_net keeps_warn_udp keeps_checkCombinations : gohints.

Lemma keeps_compile_body t0 pid s : keeps (cs_ok t0 pid) (compile_body s).
Proof. unfold compile_body, compile_shells. keep_steps. Qed.

Lemma compiled_ok_empty t0 t1 pid : compiled_ok t0 t1 pid (empty_Compiled pid).
Proof. repeat split; constructor. Qed.

Lemma Compile_ok_inv pid spec t t' c :
  Compile pid spec t = (t', Ok c) →
  ∃ s st, pid ≠ 0 ∧ (spec = ASpecVal s ∨ spec = ASpecPtr (Some s)) ∧ c = cs_c st ∧ t' = cs_now st ∧
          compile_body s (mkCstate t (empty_Compiled pid)) = (st, Ok tt).
Proof.
  unfold Compile. intros HC.
  assert (∃ s, (spec = ASpecVal s ∨ spec = ASpecPtr (Some s)) ∧ pid ≠ 0 ∧
            match compile_body s (mkCstate t (empty_Compiled pid)) with
             | (st, Ok _) => (cs_now st, Ok (cs_c st))
             | (st, Err e) => (cs_now st, Err e)
             | (st, Panic p) => (cs_now st, Panic p)
             end = (t', Ok c)) as (s & Hs & Hp & Hb).
  { destruct spec as [[s|]|s|ty]; destruct (Z.eqb_spec pid 0); try done; eauto. }
  destruct (compile_body s _) as [st [[]|e|p]] eqn:E; [|done|done].
  exists s, st. naive_solver.
Qed.

(** The clock only moves forward, whatever the outcome. *)
Lemma Compile_time pid spec t t' r : Compile pid spec t = (t', r) → (t <= t')%nat.
Proof.
  assert (∀ s, (t <= cs_now (fst (compile_body s (mkCstate t (empty_Compiled pid)))))%nat) as Hb.
  { intros s. refine (proj1 (keeps_compile_body t pid s _ _)). split; [done|]. apply compiled_ok_empty. }
  unfold Compile. destruct (pid =? 0).
  { destruct spec; by intros [= <- _]. }
  destruct spec as [[s|]|s|ty]; try (by intros [= <- _]); specialize (Hb s);
    destruct (compile_body s _) as [st [[]|e|p]]; simpl in Hb; by intros [= <- _].
Qed.
Lemma Compile_provenance pid spec t t' c :
  Compile pid spec t = (t', Ok c) → compiled_ok t t' pid c.
Proof.
  intros (s & st & _ & _ & -> & -> & E)%Compile_ok_inv.
  apply (keeps_ok (cs_ok t pid) _ _ _ _ (keeps_compile_body t pid s) E).
  split; [done|]. apply compiled_ok_empty.
Qed.
End provenance.

(** ** What [Apply] leaves in the maps *)

Section apply_laws.
Context `{KernelMaps} `{!KernelMapsLaws}.

(** The rule the write map holds for an inode after [Apply]: the last ALLOW
    of the policy on it, else its last DENY, else nothing. *)
Definition write_rule_of (c : Compiled) (ref : FileRef) : option writeVal :=
  match find_last (λ w, we_Allow w && bool_decide (we_Ref w = ref)) (c_Write c) with
  | Some w => Some (write_val true (we_Recursive w))
  | None =>
      match find_last (λ w, negb (we_Allow w) && bool_decide (we_Ref w = ref)) (c_Write c) with
      | Some w => Some (write_val false (we_Recursive w))
      | None => None
      end
  end.

(** The maps only a rule write touches. *)
Definition same_rules (m m' : Maps) : Prop :=
  ruleExec m' = ruleExec m ∧ ruleWrite m' = ruleWrite m ∧ ruleNet m' = ruleNet m.
(** The maps a rule write leaves alone. *)
Definition same_bindings (m m' : Maps) : Prop :=
  activeFlag m' = activeFlag m ∧ cgroupWarrant m' = cgroupWarrant m ∧
  warrants m' = warrants m ∧ ncpu m' = ncpu m.
Lemma same_bindings_refl m : same_bindings m m.
Proof. done. Qed.
Lemma same_bindings_trans m1 m2 m3 :
  same_bindings m1 m2 → same_bindings m2 m3 → same_bindings m1 m3.
Proof. unfold same_bindings. intuition congruence. Qed.

Lemma PutWriteRule_ok pid f a r m m' :
  PutWriteRule pid f a r m = (m', Ok tt) →
  m' = set_ruleWrite m (ruleWrite m') ∧
  ∀ k, hm_get (ruleWrite m') k =
       if decide (k = rule_key pid f) then Some (write_val a r) else hm_get (ruleWrite m) k.
Proof.
  unfold PutWriteRule. intros [Hn ->]%finish_inv.
  destruct (hm_Put _ _ _) as [t o] eqn:E. simpl in *. subst o.
  split; [done|]. by eapply hm_Put_ok.
Qed.
Lemma PutExecRule_ok pid f m m' :
  PutExecRule pid f m = (m', Ok tt) →
  m' = set_ruleExec m (ruleExec m') ∧
  ∀ k, hm_get (ruleExec m') k =
       if decide (k = rule_key pid f) then Some 1 else hm_get (ruleExec m) k.
Proof.
  unfold PutExecRule. intros [Hn ->]%finish_inv.
  destruct (hm_Put _ _ _) as [t o] eqn:E. simpl in *. subst o.
  split; [done|]. by eapply hm_Put_ok.
Qed.

Lemma rule_key_inj pid f g : rule_key pid f = rule_key pid g → f = g.
Proof. destruct f, g. unfold rule_key. simpl. congruence. Qed.

Lemma write_loop pid (b : WriteEntry → bool) allow l m m' :
  mfor l (λ w, if b w then PutWriteRule pid (we_Ref w) allow (we_Recursive w) else mok tt) m
    = (m', Ok tt) →
  m' = set_ruleWrite m (ruleWrite m') ∧
  (∀ k, rk_PolicyID k ≠ pid → hm_get (ruleWrite m') k = hm_get (ruleWrite m) k) ∧
  ∀ ref, hm_get (ruleWrite m') (rule_key pid ref) =
         match find_last (λ w, b w && bool_decide (we_Ref w = ref)) l with
         | Some w => Some (write_val allow (we_Recursive w))
         | None => hm_get (ruleWrite m) (rule_key pid ref)
         end.
Proof.
  apply (mfor_ok_ind (λ l m', m' = set_ruleWrite m (ruleWrite m') ∧
    (∀ k, rk_PolicyID k ≠ pid → hm_get (ruleWrite m') k = hm_get (ruleWrite m) k) ∧
    ∀ ref, hm_get (ruleWrite m') (rule_key pid ref) =
         match find_last (λ w, b w && bool_decide (we_Ref w = ref)) l with
         | Some w => Some (write_val allow (we_Recursive w))
         | None => hm_get (ruleWrite m) (rule_key pid ref)
         end)).
  { destruct m. done. }
  intros dn w s1 s2 (H1 & H2 & H3) _ Hf. destruct (b w) eqn:Eb.
  - apply PutWriteRule_ok in Hf as [-> Hg]. rewrite H1. simpl in *.
    split; [done|]. split.
    + intros k Hk. rewrite Hg, H2 by done. rewrite decide_False; [done|].
      intros ->. done.
    + intros ref. rewrite Hg, find_last_snoc, Eb. simpl. case_bool_decide as Hr.
      * subst. by rewrite decide_True.
      * rewrite decide_False, H3; [done|]. intros E%rule_key_inj. done.
  - injection Hf as ->. split; [done|]. split; [done|].
    intros ref. by rewrite find_last_snoc, Eb, H3.
Qed.

Lemma exec_loop pid l m m' :
  mfor l (PutExecRule pid) m = (m', Ok tt) →
  m' = set_ruleExec m (ruleExec m') ∧
  ∀ k, hm_get (ruleExec m') k =
       if bool_decide (k ∈ rule_key pid <$> l) then Some 1 else hm_get (ruleExec m) k.
Proof.
  intros Hrun. refine (mfor_ok_ind (λ l m', m' = set_ruleExec m (ruleExec m') ∧
    ∀ k, hm_get (ruleExec m') k =
       if bool_decide (k ∈ rule_key pid <$> l) then Some 1 else hm_get (ruleExec m) k)
    l _ m m' _ _ Hrun).
  { by destruct m. }
  intros dn f s1 s2 (H1 & H2) _ [-> Hg]%PutExecRule_ok.
  split; [by rewrite H1|]. intros k. simpl. rewrite Hg, H2, fmap_app.
  case_decide as Hd; repeat case_bool_decide; set_solver.
Qed.

Lemma net_loop pid l m m' :
  nets_wf m →
  mfor l (λ n, PutNetRule pid (ne_CIDR n) (ne_Port n) (ne_Proto n)) m = (m', Ok tt) →
  m' = set_ruleNet m (ruleNet m') ∧ nets_wf m'.
Proof.
  intros Hw. apply (mfor_ok_ind (λ _ m', m' = set_ruleNet m (ruleNet m') ∧ nets_wf m')).
  { destruct m. done. }
  intros dn n s1 s2 (H1 & H2) _ (k & v & Hk & Hlen & Hv & Hp & -> & He & _)%PutNetRule_ok; [|done].
  split; [by rewrite H1|]. intros k' v'. simpl. rewrite He.
  case_decide; [naive_solver|]. apply H2.
Qed.

(** The effect of a successful [Apply], map by map. *)
Lemma Apply_ok c m m' :
  nets_wf m → Apply c m = (m', Ok tt) →
  same_bindings m m' ∧
  (∀ k, rk_PolicyID k ≠ c_PolicyID c → hm_get (ruleWrite m') k = hm_get (ruleWrite m) k) ∧
  (∀ ref, hm_get (ruleWrite m') (rule_key (c_PolicyID c) ref) =
          match write_rule_of c ref with
          | Some v => Some v
          | None => hm_get (ruleWrite m) (rule_key (c_PolicyID c) ref)
          end) ∧
  (∀ k, hm_get (ruleExec m') k =
        if bool_decide (k ∈ rule_key (c_PolicyID c) <$> c_Exec c) then Some 1
        else hm_get (ruleExec m) k) ∧
  nets_wf m'.
Proof.
  intros Hw. unfold Apply.
  intros (m1 & [] & (Ha & Ha1 & Ha2)%write_loop & Hr)%mbnd_ok.
  apply mbnd_ok in Hr as (m2 & [] & (Hb & Hb1 & Hb2)%write_loop & Hr).
  apply mbnd_ok in Hr as (m3 & [] & [Hc Hc1]%exec_loop & Hn).
  apply net_loop in Hn as [Hd Hd1].
  2:{ rewrite Hc, Hb, Ha. exact Hw. }
  assert (ruleWrite m' = ruleWrite m2) as Ew by (rewrite Hd, Hc; done).
  assert (ruleExec m' = ruleExec m3) as Ee by (rewrite Hd; done).
  assert (ruleExec m2 = ruleExec m) as Ex by (rewrite Hb, Ha; done).
  split; [rewrite Hd, Hc, Hb, Ha; done|]. rewrite Ew, Ee. split; [|split; [|split; [|done]]].
  - intros k Hk. by rewrite Hb1, Ha1.
  - intros ref. rewrite Hb2. unfold write_rule_of. destruct (find_last _ _); [done|].
    rewrite Ha2. by destruct (find_last _ _).
  - intros k. by rewrite Hc1, Ex.
Qed.

(** What a change for policy [pid] leaves alone, whether it got to its end or not:
    the tags, the flag, and every rule that is not under [pid]; and it removes
    nothing under [pid] either. *)
Definition net_key_of (pid : Z) (k : netKey) : Prop :=
  ∃ cidr kr, netKeyOf pid cidr = Ok kr ∧ lk_len k = lk_len kr ∧ lk_prefix k = lk_prefix kr.
Record confined (pid : Z) (m m' : Maps) : Prop := mkConfined {
  cn_tags : cgroupWarrant m' = cgroupWarrant m;
  cn_exec k : rk_PolicyID k ≠ pid → hm_get (ruleExec m') k = hm_get (ruleExec m) k;
  cn_write k : rk_PolicyID k ≠ pid → hm_get (ruleWrite m') k = hm_get (ruleWrite m) k;
  cn_net k : ¬ net_key_of pid k → lp_entry (ruleNet m') k = lp_entry (ruleNet m) k;
  cn_exec_kept k : is_Some (hm_get (ruleExec m) k) → is_Some (hm_get (ruleExec m') k);
  cn_write_kept k : is_Some (hm_get (ruleWrite m) k) → is_Some (hm_get (ruleWrite m') k);
  cn_net_kept k : is_Some (lp_entry (ruleNet m) k) → is_Some (lp_entry (ruleNet m') k)
}.
Lemma confined_refl pid m : confined pid m m.
Proof. by split. Qed.
Lemma confined_trans pid m1 m2 m3 : confined pid m1 m2 → confined pid m2 m3 → confined pid m1 m3.
Proof.
  intros [A1 A2 A3 A4 A5 A6 A7] [B1 B2 B3 B4 B5 B6 B7].
  split; [congruence|intros k Hk; rewrite B2 by done; auto|intros k Hk; rewrite B3 by done; auto
    |intros k Hk; rewrite B4 by done; auto|auto..].
Qed.
Lemma keeps_confined {A} pid m0 (f : M Maps A) :
  (∀ m, confined pid m (fst (f m))) → keeps (confined pid m0) f.
Proof. intros Hf m Hm. eapply confined_trans; [exact Hm|apply Hf]. Qed.

Lemma put_kept {K V T} `{EqDecision K} `{HashMap T K V} `{!HashMapLaws T K V} (h : T) k v k' :
  (k' ≠ k → hm_get (fst (hm_Put h k v)) k' = hm_get h k') ∧
  (is_Some (hm_get h k') → is_Some (hm_get (fst (hm_Put h k v)) k')).
Proof.
  destruct (hm_Put h k v) as [h' [e|]] eqn:E; simpl.
  - by rewrite (hm_Put_err _ _ _ _ _ E).
  - rewrite (hm_Put_ok _ _ _ _ E). case_decide; by split.
Qed.
Lemma PutExecRule_confined pid f m : confined pid m (fst (PutExecRule pid f m)).
Proof.
  unfold PutExecRule. rewrite finish_fst. split; try done; simpl; intros k; [|apply put_kept].
  intros Hk. apply put_kept. by intros ->.
Qed.
Lemma PutWriteRule_confined pid f a r m : confined pid m (fst (PutWriteRule pid f a r m)).
Proof.
  unfold PutWriteRule. rewrite finish_fst. split; try done; simpl; intros k; [|apply put_kept].
  intros Hk. apply put_kept. by intros ->.
Qed.
Lemma PutNetRule_confined pid cidr port proto m : confined pid m (fst (PutNetRule pid cidr port proto m)).
Proof.
  unfold PutNetRule. unfold mbnd at 1. cbn [mres]. destruct (netKeyOf pid cidr) as [k|e|x] eqn:Ek; [|done|done].
  refine (keeps_mbnd (confined pid m) _ _ _ _ m (confined_refl _ _)); [by apply keeps_confined|].
  intros vf. apply keeps_mbnd; [by apply keeps_confined|]. intros v. apply keeps_confined. intros m1.
  unfold net_write. rewrite finish_fst. destruct (lp_Put (ruleNet m1) k v) as [t [e|]] eqn:E.
  - pose proof (lp_Put_err _ _ _ _ _ E) as He. split; try done; intros k'; simpl; by rewrite He.
  - apply lp_Put_ok in E as [_ He]. split; try done; intros k'; simpl; rewrite He; (case_decide as Hd; [|done]).
    + intros Hn. destruct Hn. by exists cidr, k.
    + by eexists.
Qed.
Lemma Apply_confined c m : confined (c_PolicyID c) m (fst (Apply c m)).
Proof.
  refine ((_ : keeps (confined (c_PolicyID c) m) (Apply c)) m (confined_refl _ _)). unfold Apply.
  repeat (apply keeps_mbnd; [apply keeps_mfor; intros x _|intros _]); [| | |apply keeps_mfor; intros x _].
  1,2: destruct (we_Allow x); [|]; try done.
  all: apply keeps_confined; intros m1; first
    [apply confined_refl|apply PutWriteRule_confined|apply PutExecRule_confined|apply PutNetRule_confined].
Qed.
End apply_laws.

(** ** What [Compile] produces *)

Section complete.
Context `{Os}.

(** The allow flag a write rule compiles to. *)
Definition effect_allow (e : Effect) : option bool :=
  match e with EffectAllow => Some true | EffectDeny => Some false | _ => None end.

(** The entry of one write rule: its flags, and the inode its path had at a
    moment from [t0] to [t1]. *)
Definition write_compiles (t0 t1 : nat) (r : WriteRule) (w : WriteEntry) : Prop :=
  effect_allow (wr_Effect r) = Some (we_Allow w) ∧ we_Recursive w = wr_Recursive r ∧
  IsAbs (wr_Path r) = true ∧
  ∃ t st, (t0 <= t < t1)%nat ∧ unix_Stat t (wr_Path r) = Ok st ∧ we_Ref w = FileRefFromStat st.

Definition exec_compiles (t0 t1 : nat) (c : Compiled) (r : ExecRule) : Prop :=
  IsAbs (er_Path r) = true ∧
  ∃ t st, (t0 <= t < t1)%nat ∧ unix_Stat t (er_Path r) = Ok st ∧ S_IFTYPE st = S_IFREG ∧
          FileRefFromStat st ∈ c_Exec c.

Lemma write_compiles_mono t0 t1 t0' t1' r w :
  (t0' <= t0)%nat → (t1 <= t1')%nat → write_compiles t0 t1 r w → write_compiles t0' t1' r w.
Proof.
  intros H0 H1 (? & ? & ? & t & st & Ht & ? & ?). split; [done|]. split; [done|]. split; [done|].
  exists t, st. split; [lia|done].
Qed.
Lemma exec_compiles_mono t0 t1 t0' t1' c c' r :
  (t0' <= t0)%nat → (t1 <= t1')%nat → c_Exec c ⊆ c_Exec c' →
  exec_compiles t0 t1 c r → exec_compiles t0' t1' c' r.
Proof.
  intros H0 H1 Hs (? & t & st & Ht & ? & ? & ?). split; [done|]. exists t, st.
  split; [lia|]. by eauto.
Qed.

#[local] Hint Extern 0 (keeps _ (mod_c _)) => (intros ? Hs; exact Hs) : gohints.
#[local] Hint Extern 0 (keeps _ (warn _)) => (intros ? Hs; exact Hs) : gohints.
#[local] Hint Extern 0 (keeps _ (record _ _ _)) => (intros ? Hs; exact Hs) : gohints.
#[local] Hint Extern 0 (keeps _ (at_now _)) => (intros ? Hs; exact Hs) : gohints.

Lemma addWrite_ok path allow rec opt s s' :
  addWrite path allow rec opt s = (s', Ok tt) →
  cs_now s' = S (cs_now s) ∧ IsAbs path = true ∧ c_Exec (cs_c s') = c_Exec (cs_c s) ∧
  ((opt = true ∧ c_Write (cs_c s') = c_Write (cs_c s) ∧
    ∃ e, unix_Stat (cs_now s) path = Err e) ∨
   ∃ st, unix_Stat (cs_now s) path = Ok st ∧
         c_Write (cs_c s') = c_Write (cs_c s) ++ [mkWriteEntry (FileRefFromStat st) allow rec]).
Proof.
  unfold addWrite. destruct (IsAbs path); [|done]. simpl. unfold mbnd, at_now. simpl.
  destruct (unix_Stat (cs_now s) path) as [st|e|p] eqn:E; [| |done].
  - destruct (negb allow && _); [done|]. simpl. intros [= <-]. simpl. eauto 10.
  - destruct opt; simpl; [|done]. destruct (errors_Is _ _); [|done].
    intros [= <-]. simpl. eauto 10.
Qed.

Lemma addExec_ok path opt s s' :
  addExec path opt s = (s', Ok tt) →
  cs_now s' = S (cs_now s) ∧
  c_Write (cs_c s') = c_Write (cs_c s) ∧ c_Exec (cs_c s) ⊆ c_Exec (cs_c s') ∧
  (opt = false → exec_compiles (cs_now s) (cs_now s') (cs_c s') (mkExecRule path)).
Proof.
  unfold addExec, exec_compiles. destruct (IsAbs path) eqn:Ea; [|done]. simpl.
  unfold mbnd, at_now. simpl.
  destruct (unix_Stat (cs_now s) path) as [st|e|p] eqn:E; [| |done].
  - destruct (Z.eqb_spec (S_IFTYPE st) S_IFREG); simpl; [|by destruct opt; [intros [= <-]|]].
    case_bool_decide as Hd.
    + intros [= <-]. split; [done|]. split; [done|]. split; [done|]. intros _. split; [done|].
      exists (cs_now s), st. split; [simpl; lia|done].
    + assert (FileRefFromStat st ∈ c_Exec (cs_c s) ++ [FileRefFromStat st])
        by (apply elem_of_app; right; by apply list_elem_of_singleton).
      assert (c_Exec (cs_c s) ⊆ c_Exec (cs_c s) ++ [FileRefFromStat st])
        by (intros x Hx; apply elem_of_app; by left).
      destruct (negb _); simpl; intros [= <-]; simpl;
        (split; [done|]); (split; [done|]); (split; [done|]); intros _; (split; [done|]);
        exists (cs_now s), st; (split; [simpl; lia|done]).
  - destruct opt; simpl; [|done]. destruct (errors_Is _ _); [|done]. by intros [= <-].
Qed.

Lemma exec_rules_loop l s s' :
  mfor l (λ r, addExec (er_Path r) false) s = (s', Ok tt) →
  (cs_now s <= cs_now s')%nat ∧ c_Write (cs_c s') = c_Write (cs_c s) ∧
  Forall (exec_compiles (cs_now s) (cs_now s') (cs_c s')) l.
Proof.
  intros Hrun. refine (mfor_ok_ind (λ l s',
    (cs_now s <= cs_now s')%nat ∧ c_Write (cs_c s') = c_Write (cs_c s) ∧
    Forall (exec_compiles (cs_now s) (cs_now s') (cs_c s')) l) l _ s s' _ _ Hrun).
  { split; [done|]. split; [done|constructor]. }
  intros dn r s1 s2 (H0 & H1 & H2) _ (Ht & Hw & Hsub & He)%addExec_ok.
  split; [lia|]. split; [congruence|]. apply Forall_app. split.
  - eapply Forall_impl; [done|]. intros x. apply exec_compiles_mono; [lia|lia|done].
  - apply Forall_singleton. destruct r as [path].
    apply (exec_compiles_mono (cs_now s1) (cs_now s2) _ _ (cs_c s2)); [lia|done|done|by apply He].
Qed.

(** The forced denials: a protected directory that exists throughout is in the
    write rules, recursively denied. *)
Lemma default_deny_loop l s s' :
  mfor l (λ p, addWrite p false true true) s = (s', Ok tt) →
  (cs_now s <= cs_now s')%nat ∧
  (∀ w, w ∈ c_Write (cs_c s) → w ∈ c_Write (cs_c s')) ∧
  c_Exec (cs_c s') = c_Exec (cs_c s) ∧
  ∀ p st, p ∈ l → (∀ t, (cs_now s <= t < cs_now s')%nat → unix_Stat t p = Ok st) →
          mkWriteEntry (FileRefFromStat st) false true ∈ c_Write (cs_c s').
Proof.
  intros Hrun. refine (mfor_ok_ind (λ l s', (cs_now s <= cs_now s')%nat ∧
    (∀ w, w ∈ c_Write (cs_c s) → w ∈ c_Write (cs_c s')) ∧
    c_Exec (cs_c s') = c_Exec (cs_c s) ∧
    ∀ p st, p ∈ l → (∀ t, (cs_now s <= t < cs_now s')%nat → unix_Stat t p = Ok st) →
          mkWriteEntry (FileRefFromStat st) false true ∈ c_Write (cs_c s')) l _ s s' _ _ Hrun).
  { split; [done|]. set_solver. }
  intros dn p s1 s2 (H0 & H1 & H2 & H3) _ (Ht & _ & He & Hw)%addWrite_ok.
  assert (∀ w, w ∈ c_Write (cs_c s1) → w ∈ c_Write (cs_c s2)) as Hsub.
  { destruct Hw as [(_ & -> & _)|(st & _ & ->)]; set_solver. }
  split; [lia|]. split; [by auto|]. split; [congruence|]. intros q st [Hq| ->]%elem_of_snoc Hst.
  { apply Hsub, (H3 q); [done|]. intros t ?. apply Hst. lia. }
  rewrite Hst in Hw by lia.
  destruct Hw as [(_ & _ & e & ?)|(st' & [= <-] & ->)]; [done|set_solver].
Qed.

Lemma default_allow_loop l s s' :
  mfor l (λ p, addWrite p true true true) s = (s', Ok tt) →
  (cs_now s <= cs_now s')%nat ∧ c_Exec (cs_c s') = c_Exec (cs_c s).
Proof.
  intros Hrun. refine (mfor_ok_ind (λ _ s', (cs_now s <= cs_now s')%nat ∧
    c_Exec (cs_c s') = c_Exec (cs_c s)) l _ s s' _ _ Hrun); [done|].
  intros dn p s1 s2 [H0 H1] _ (Ht & _ & He & _)%addWrite_ok. split; [lia|congruence].
Qed.

Lemma write_rules_loop l s s' :
  mfor l compile_write s = (s', Ok tt) →
  (cs_now s <= cs_now s')%nat ∧ c_Exec (cs_c s') = c_Exec (cs_c s) ∧
  ∃ ws, c_Write (cs_c s') = c_Write (cs_c s) ++ ws ∧
        Forall2 (write_compiles (cs_now s) (cs_now s')) l ws.
Proof.
  intros Hrun. refine (mfor_ok_ind (λ l s', (cs_now s <= cs_now s')%nat ∧
    c_Exec (cs_c s') = c_Exec (cs_c s) ∧
    ∃ ws, c_Write (cs_c s') = c_Write (cs_c s) ++ ws ∧
          Forall2 (write_compiles (cs_now s) (cs_now s')) l ws) l _ s s' _ _ Hrun).
  { split; [done|]. split; [done|]. exists []. split; [by rewrite app_nil_r|constructor]. }
  intros dn r s1 s2 (H0 & H1 & ws & H2 & H3) _ Hf. unfold compile_write in Hf.
  assert (∃ a, effect_allow (wr_Effect r) = Some a ∧
               addWrite (wr_Path r) a (wr_Recursive r) false s1 = (s2, Ok tt)) as (a & Ea & Hf').
  { destruct (wr_Effect r); try done; eauto. }
  apply addWrite_ok in Hf' as (Ht & Ha & He & [(? & _)|(st & Hst & Hw)]); [done|].
  split; [lia|]. split; [congruence|]. eexists (ws ++ [_]). split; [by rewrite Hw, H2, app_assoc|].
  apply Forall2_app.
  - eapply Forall2_impl; [done|]. intros x y. apply write_compiles_mono; lia.
  - constructor; [|constructor]. split; [done|]. split; [done|]. split; [done|].
    exists (cs_now s1), st. split; [lia|done].
Qed.

Definition net_entry (r : NetRule) : NetEntry := mkNetEntry (nr_CIDR r) (nr_Port r) (nr_Proto r).

Lemma net_rules_loop l s s' :
  mfor l compile_net s = (s', Ok tt) →
  cs_now s' = cs_now s ∧ c_Exec (cs_c s') = c_Exec (cs_c s) ∧ c_Write (cs_c s') = c_Write (cs_c s) ∧
  c_Net (cs_c s') = c_Net (cs_c s) ++ (net_entry <$> l).
Proof.
  intros Hrun. refine (mfor_ok_ind (λ l s',
    cs_now s' = cs_now s ∧ c_Exec (cs_c s') = c_Exec (cs_c s) ∧
    c_Write (cs_c s') = c_Write (cs_c s) ∧
    c_Net (cs_c s') = c_Net (cs_c s) ++ (net_entry <$> l)) l _ s s' _ _ Hrun).
  { by rewrite app_nil_r. }
  intros dn r s1 s2 (H0 & H1 & H2 & H3) _ Hf. unfold compile_net in Hf.
  apply mbnd_ok in Hf as (s3 & [] & [= -> _] & [= <-]). simpl.
  split; [done|]. split; [done|]. split; [done|]. by rewrite H3, fmap_app, app_assoc.
Qed.

(** The part of a compilation in progress that the later steps leave alone. *)
Definition rules_are (e : list FileRef) (w : list WriteEntry) (n : list NetEntry) (s : cstate) : Prop :=
  c_Exec (cs_c s) = e ∧ c_Write (cs_c s) = w ∧ c_Net (cs_c s) = n.

Lemma keeps_rules_tail e w n s :
  keeps (rules_are e w n)
    ((if bool_decide (s_NetRules s = [])
      then warn "네트워크 규칙이 없다 — 아웃바운드가 전면 차단된다 (§15)" else mok tt) ;;;
     warn_udp s ;;; mfor (s_ReadWatchPaths s) compile_read ;;; checkCombinations s).
Proof. unfold warn_udp, compile_read, resolve, checkCombinations. keep_steps. Qed.

(** Time only advances. *)
Definition later (t : nat) (s : cstate) : Prop := (t <= cs_now s)%nat.
#[local] Hint Extern 1 (keeps (later _) (at_now _)) =>
  (intros ? ?; unfold later in *; simpl; lia) : gohints.
Lemma later_existing t seen l : keeps (later t) (existingRegular_loop seen l).
Proof. revert seen. induction l; intros seen; simpl; keep_steps. Qed.
Lemma later_shells t s : keeps (later t) (compile_shells s).
Proof.
  pose proof later_existing.
  unfold compile_shells, LoginShells, existingRegular, addExec. keep_steps.
Qed.
Lemma later_tail t s :
  keeps (later t)
    ((if bool_decide (s_NetRules s = [])
      then warn "네트워크 규칙이 없다 — 아웃바운드가 전면 차단된다 (§15)" else mok tt) ;;;
     warn_udp s ;;; mfor (s_ReadWatchPaths s) compile_read ;;; checkCombinations s).
Proof. unfold warn_udp, compile_read, resolve, checkCombinations. keep_steps. Qed.

Lemma keeps_net_existing n seen l :
  keeps (λ s, c_Net (cs_c s) = n) (existingRegular_loop seen l).
Proof. revert seen. induction l; intros seen; simpl; keep_steps. Qed.
Lemma keeps_net_shells n s : keeps (λ st, c_Net (cs_c st) = n) (compile_shells s).
Proof.
  pose proof keeps_net_existing.
  unfold compile_shells, LoginShells, existingRegular, addExec. keep_steps.
Qed.
Lemma keeps_net_addExec n p o : keeps (λ st, c_Net (cs_c st) = n) (addExec p o).
Proof. unfold addExec. keep_steps. Qed.
Lemma keeps_net_addWrite n p a r o : keeps (λ st, c_Net (cs_c st) = n) (addWrite p a r o).
Proof. unfold addWrite. keep_steps. Qed.
#[local] Hint Resolve keeps_net_addExec keeps_net_addWrite : gohints.

(** A successful compilation, rule list by rule list. *)
Lemma compile_body_ok s st st' :
  c_Net (cs_c st) = [] → compile_body s st = (st', Ok tt) →
  let c := cs_c st' in
  Forall (exec_compiles (cs_now st) (cs_now st') c) (s_ExecRules s) ∧
  (∃ defs ws, c_Write c = defs ++ ws ∧
     Forall2 (write_compiles (cs_now st) (cs_now st')) (s_WriteRules s) ws ∧
     ∀ p d, p ∈ DefaultDenyWrite →
            (∀ t, (cs_now st <= t < cs_now st')%nat → unix_Stat t p = Ok d) →
            mkWriteEntry (FileRefFromStat d) false true ∈ defs) ∧
  c_Net c = net_entry <$> s_NetRules s.
Proof.
  intros Hn0. unfold compile_body.
  intros (s1 & [] & R1 & Hr)%mbnd_ok. apply mbnd_ok in Hr as (s2 & [] & R2 & Hr).
  apply mbnd_ok in Hr as (s3 & [] & R3 & Hr). apply mbnd_ok in Hr as (s4 & [] & R4 & Hr).
  apply mbnd_ok in Hr as (s5 & [] & R5 & Hr). apply mbnd_ok in Hr as (s6 & [] & R6 & Hr).
  pose proof (keeps_ok _ _ _ _ _ (keeps_net_shells [] s) R1 Hn0) as N1. simpl in N1.
  assert (c_Net (cs_c s5) = []) as N5.
  { eapply (keeps_ok (λ st, c_Net (cs_c st) = []) _ _ _ _) in R2; [|keep_steps|done].
    eapply (keeps_ok (λ st, c_Net (cs_c st) = []) _ _ _ _) in R3; [|keep_steps|done].
    eapply (keeps_ok (λ st, c_Net (cs_c st) = []) _ _ _ _) in R4; [|keep_steps|done].
    eapply (keeps_ok (λ st, c_Net (cs_c st) = []) _ _ _ _) in R5;
      [done|unfold compile_write; keep_steps|done]. }
  pose proof (keeps_ok _ _ _ _ _ (later_shells (cs_now st) s) R1 (le_n _)) as T1.
  apply exec_rules_loop in R2 as (T2 & _ & He). apply default_allow_loop in R3 as [T3 R3].
  apply default_deny_loop in R4 as (T4 & _ & E4 & Hd).
  apply write_rules_loop in R5 as (T5 & E5 & ws & Hw & Hws).
  apply net_rules_loop in R6 as (T6 & E6 & W6 & N6).
  pose proof (keeps_ok _ _ _ _ _ (later_tail (cs_now s6) s) Hr (le_n _)) as T7.
  unfold later in T1, T7.
  pose proof (keeps_ok _ _ _ _ _ (keeps_rules_tail (c_Exec (cs_c s6)) (c_Write (cs_c s6))
                (c_Net (cs_c s6)) s) Hr ltac:(done)) as (Te & Tw & Tn).
  split; [|split].
  - assert (c_Exec (cs_c st') = c_Exec (cs_c s2)) as Ee by congruence.
    eapply Forall_impl; [exact He|]. intros r. apply exec_compiles_mono; [lia|lia|by rewrite Ee].
  - exists (c_Write (cs_c s4)), ws. split; [congruence|]. split.
    + eapply Forall2_impl; [exact Hws|]. intros r w. apply write_compiles_mono; lia.
    + intros p d Hp Hst. apply (Hd p); [done|]. intros t ?. apply Hst. lia.
  - by rewrite Tn, N6, N5.
Qed.
End complete.

(** ** What the watcher reports *)

Section watch.
Context `{Os}.

Definition seen_same (t t' : nat) (s : Source) : Prop :=
  ∃ u, (t <= u < t')%nat ∧ FileRefOf u (src_Path s) = Ok (src_Ref s).
Definition seen_changed (t t' : nat) (s : Source) : Prop :=
  ∃ u, (t <= u < t')%nat ∧ FileRefOf u (src_Path s) ≠ Ok (src_Ref s).

Lemma source_changed_spec t s :
  source_changed t s = false ↔ FileRefOf t (src_Path s) = Ok (src_Ref s).
Proof.
  unfold source_changed. destruct (FileRefOf t (src_Path s)) as [r|e|p]; [|naive_solver|naive_solver].
  rewrite negb_false_iff, bool_decide_eq_true. naive_solver.
Qed.

Lemma sources_changed_spec l t t' b :
  sources_changed t l = (t', b) →
  (t <= t')%nat ∧
  if b then ∃ s, s ∈ l ∧ seen_changed t t' s else ∀ s, s ∈ l → seen_same t t' s.
Proof.
  revert t. induction l as [|s l IH]; intros t; simpl.
  { intros [= <- <-]. split; [done|]. by intros s ?%elem_of_nil. }
  destruct (source_changed t s) eqn:E.
  - intros [= <- <-]. split; [lia|]. exists s. split; [by left|]. exists t. split; [lia|].
    rewrite <- source_changed_spec. by rewrite E.
  - intros [Hle Hb]%IH. split; [lia|]. apply source_changed_spec in E. destruct b.
    + destruct Hb as (s' & Hs & u & Hu & Hne). exists s'. split; [by right|]. exists u. split; [lia|done].
    + intros s' [->|Hs]%elem_of_cons; [exists t; split; [lia|done]|].
      destruct (Hb s' Hs) as (u & Hu & He). exists u. split; [lia|done].
Qed.

Lemma changed_spec order t t' ids :
  NoDup order.*1 → changed t order = (t', ids) →
  (t <= t')%nat ∧ ids ⊆ order.*1 ∧
  ∀ id srcs, (id, srcs) ∈ order →
    (id ∈ ids → ∃ s, s ∈ srcs ∧ seen_changed t t' s) ∧
    (id ∉ ids → ∀ s, s ∈ srcs → seen_same t t' s).
Proof.
  revert t ids. induction order as [|[id0 srcs0] rest IH]; intros t ids Hnd; simpl.
  { intros [= <- <-]. split; [done|]. split; [done|]. by intros id srcs ?%elem_of_nil. }
  apply NoDup_cons in Hnd as [Hni Hnd].
  destruct (sources_changed t srcs0) as [t1 ch] eqn:E1.
  destruct (changed t1 rest) as [t2 out] eqn:E2. intros [= <- <-].
  apply sources_changed_spec in E1 as [Hl1 Hb1].
  destruct (IH t1 out Hnd E2) as (Hl2 & Hsub & Hall).
  split; [lia|]. split; [destruct ch; simpl in *; set_solver|].
  intros id srcs [[= -> ->]|Hin]%elem_of_cons.
  - assert (id0 ∉ out) as Hno by (intros ?; by apply Hni, Hsub).
    destruct ch; split; intros Hid.
    + destruct Hb1 as (s & Hs & u & Hu & Hne). exists s. split; [done|]. exists u. split; [lia|done].
    + exfalso. apply Hid. by left.
    + done.
    + intros s Hs. destruct (Hb1 s Hs) as (u & Hu & He). exists u. split; [lia|done].
  - assert (id ≠ id0) as Hne.
    { intros ->. apply Hni. apply (list_elem_of_fmap_2 fst) in Hin. done. }
    assert (id ∈ (if ch then id0 :: out else out) ↔ id ∈ out) as Hiff.
    { destruct ch; [|done]. rewrite elem_of_cons. naive_solver. }
    rewrite Hiff. destruct (Hall id srcs Hin) as [H1 H2]. split.
    + intros Hid. destruct (H1 Hid) as (s & Hs & u & Hu & Hx). exists s. split; [done|]. exists u. split; [lia|done].
    + intros Hid s Hs. destruct (H2 Hid s Hs) as (u & Hu & Hx). exists u. split; [lia|done].
Qed.
End watch.

(** ** Which combinations are warned about *)

Definition warned (msg : string) (s : cstate) : Prop := msg ∈ c_Warnings (cs_c s).
Lemma keeps_warned_warn msg msg' : keeps (warned msg) (warn msg').
Proof. intros s Hs. unfold warned. simpl. apply elem_of_app. by left. Qed.

#[export] Hint Resolve keeps_warned_warn : gohints.
Lemma always_warn msg : always (warned msg) (warn msg).
Proof.
  intros s. split; [|by exists tt]. unfold warned. simpl. apply elem_of_app. right.
  by apply list_elem_of_singleton.
Qed.
Lemma total_warn msg : total (warn msg).
Proof. apply total_mmod. Qed.
#[export] Hint Resolve total_warn : gohints.

(** * A demonstration policy *)

Definition demo_spec : Spec :=
  mkSpec "demo" [mkExecRule "/usr/bin/git"]
    [mkWriteRule "/tmp/w" true EffectAllow; mkWriteRule "/tmp/w/secret" true EffectDeny]
    [mkNetRule "10.0.0.0/8" 443 ProtoTCP; mkNetRule "10.1.0.0/16" 80 ProtoTCP] [] false false.
Definition demo_compiled : Compiled :=
  match @Compile demo_os 7 (ASpecVal demo_spec) 0 with
  | (_, Ok c) => c
  | _ => empty_Compiled 7
  end.
Lemma demo_compiles : @Compile demo_os 7 (ASpecVal demo_spec) 0 = (16%nat, Ok demo_compiled).
Proof. vm_compute. reflexivity. Qed.

(** * Properties *)

(** C26: a policy that compiles is compiled as it is written.  Its id is not
    zero; every exec rule's absolute path was, at a moment of the compilation, a
    regular file whose inode is in the exec list; the write rules are, after the
    built-in ones and in order, one entry per rule with the rule's effect and
    recursion and the inode its path had at such a moment; the network rules are copied in order.  So a rule with a relative
    path or no effect never compiles. *)
Theorem Compile_faithful `{Os} (pid : Z) (s : Spec) (t t' : nat) (c : Compiled) :
  Compile pid (ASpecVal s) t = (t', Ok c) →
  pid ≠ 0 ∧ c_PolicyID c = pid ∧
  Forall (exec_compiles t t' c) (s_ExecRules s) ∧
  (∃ defs ws, c_Write c = defs ++ ws ∧ Forall2 (write_compiles t t') (s_WriteRules s) ws) ∧
  c_Net c = net_entry <$> s_NetRules s.
Proof.
  intros HC. pose proof (Compile_provenance _ _ _ _ _ HC) as (Hpid & _).
  apply Compile_ok_inv in HC as (s' & st & Hp & [[= <-]|?] & -> & -> & E); [|done].
  apply compile_body_ok in E as (He & (defs & ws & Hw & Hws & _) & Hn); [|done].
  eauto 10.
Qed.

Lemma Compile_faithful_witness :
  c_Net demo_compiled =
    [mkNetEntry "10.0.0.0/8" 443 ProtoTCP; mkNetEntry "10.1.0.0/16" 80 ProtoTCP].
Proof.
  destruct (@Compile_faithful demo_os 7 demo_spec 0 16 _ demo_compiles) as (_ & _ & _ & _ & ->).
  reflexivity.
Defined.

(** Every compiled rule comes from a single [stat].  For each write entry
    there is one query of the compilation whose answer gave the inode in the map, passed the
    directory check when the entry is a denial, and is the inode the watcher
    re-checks; for each exec entry one query showed a regular file; and no
    inode is in the exec list twice.  The file system may change between any
    two queries. *)
Theorem Compile_rules_from_one_stat `{Os} (pid : Z) (spec : anySpec) (t t' : nat) (c : Compiled) :
  Compile pid spec t = (t', Ok c) →
  Forall (write_from_stat t t' c) (c_Write c) ∧ Forall (exec_from_stat t t' c) (c_Exec c) ∧
  NoDup (c_Exec c).
Proof. intros (_ & Hn & Hw & He)%Compile_provenance. done. Qed.

Lemma Compile_rules_from_one_stat_witness :
  c_Exec demo_compiled = [ref 100; ref 101] ∧
  Forall (@exec_from_stat demo_os 0 16 demo_compiled) (c_Exec demo_compiled).
Proof.
  split; [vm_compute; reflexivity|].
  apply (@Compile_rules_from_one_stat demo_os 7 (ASpecVal demo_spec) 0 16 _ demo_compiles).
Defined.

(** The agent's own directories are denied in every policy: a protected
    directory that exists while the policy compiles gets a recursive DENY
    entry, whatever the policy says. *)
Theorem Compile_selfprotect `{Os} (pid : Z) (s : Spec) (t t' : nat) (c : Compiled) p d :
  Compile pid (ASpecVal s) t = (t', Ok c) →
  p ∈ DefaultDenyWrite → (∀ u, (t <= u < t')%nat → unix_Stat u p = Ok d) →
  mkWriteEntry (FileRefFromStat d) false true ∈ c_Write c.
Proof.
  intros (s' & st & Hp & [[= <-]|?] & -> & -> & E)%Compile_ok_inv; [|done].
  apply compile_body_ok in E as (_ & (defs & ws & -> & _ & Hd) & _); [|done].
  intros Hin Hst. apply elem_of_app. left. by eapply Hd.
Qed.

Lemma Compile_selfprotect_witness :
  mkWriteEntry (ref 60) false true ∈ c_Write demo_compiled.
Proof.
  apply (@Compile_selfprotect demo_os 7 demo_spec 0 16 _ "/var/lib/warrantd" (dir 60) demo_compiles);
    [left|reflexivity].
Defined.

(** What [Apply] leaves for an inode of the policy: its last ALLOW entry if
    it has one, else its last DENY entry, else what was there before; the rules
    of other policies and every binding stay as they are; exactly the exec
    list's inodes are added to the exec rules.  An ALLOW on an inode therefore
    beats a DENY on the same inode. *)
Theorem Apply_effect `{KernelMaps} `{!KernelMapsLaws} (c : Compiled) (m m' : Maps) :
  nets_wf m → Apply c m = (m', Ok tt) →
  same_bindings m m' ∧
  (∀ k, rk_PolicyID k ≠ c_PolicyID c →
        hm_get (ruleWrite m') k = hm_get (ruleWrite m) k ∧
        hm_get (ruleExec m') k = hm_get (ruleExec m) k) ∧
  (∀ ref, hm_get (ruleWrite m') (rule_key (c_PolicyID c) ref) =
          match write_rule_of c ref with
          | Some v => Some v
          | None => hm_get (ruleWrite m) (rule_key (c_PolicyID c) ref)
          end) ∧
  (∀ ref, ref ∈ c_Exec c → hm_get (ruleExec m') (rule_key (c_PolicyID c) ref) = Some 1) ∧
  (∀ ref, ref ∉ c_Exec c → hm_get (ruleExec m') (rule_key (c_PolicyID c) ref) =
                           hm_get (ruleExec m) (rule_key (c_PolicyID c) ref)).
Proof.
  intros Hw (Hs & Ho & Hwr & Hex & _)%Apply_ok; [|done].
  split; [done|]. split; [|split; [done|split]].
  - intros k Hk. split; [by apply Ho|]. rewrite Hex, bool_decide_false; [done|].
    intros (f & -> & _)%list_elem_of_fmap. done.
  - intros ref Hr. rewrite Hex, bool_decide_true; [done|]. by apply list_elem_of_fmap_2.
  - intros ref Hr. rewrite Hex, bool_decide_false; [done|].
    intros (f & Hf%rule_key_inj & Hin)%list_elem_of_fmap. by subst.
Qed.

Lemma Apply_effect_witness :
  hm_get (ruleWrite (fst (Apply demo_compiled demo_empty))) (rule_key 7 (ref 41))
  = Some (write_val true true).
Proof.
  destruct (Apply_effect demo_compiled demo_empty (fst (Apply demo_compiled demo_empty)))
    as (_ & _ & Hw & _).
  - intros k v He. pose proof (eq_trans (eq_sym (blpm_empty_entry 8192 k)) He). done.
  - rewrite <- (run_named (Apply demo_compiled) demo_empty (Ok tt)); [done|]. vm_compute. reflexivity.
  - specialize (Hw (ref 41)). change (c_PolicyID demo_compiled) with 7 in Hw. rewrite Hw.
    vm_compute. reflexivity.
Defined.

(** The watcher reports a policy exactly when it saw a difference.  In one
    pass over the watched policies, in whatever order the map is ranged over, a
    policy that is reported had a source whose path, at a moment of the pass,
    no longer led to the recorded inode (or could not be read); for a policy
    that is not reported every source was seen at its recorded inode. *)
Theorem watcher_reports `{Os} (w : Watcher) order t t' ids :
  range_order w order → changed t order = (t', ids) →
  (∀ id, id ∈ ids → is_Some (watched w !! id)) ∧
  ∀ id srcs, watched w !! id = Some srcs →
    (id ∈ ids → ∃ s, s ∈ srcs ∧ seen_changed t t' s) ∧
    (id ∉ ids → ∀ s, s ∈ srcs → seen_same t t' s).
Proof.
  unfold range_order. intros Hp Hc.
  assert (NoDup order.*1) as Hnd by (rewrite Hp; apply NoDup_fst_map_to_list).
  apply changed_spec in Hc as (_ & Hsub & Hall); [|done]. split.
  - intros id ([i srcs] & -> & Hin)%Hsub%list_elem_of_fmap. rewrite Hp in Hin.
    apply elem_of_map_to_list in Hin. by exists srcs.
  - intros id srcs Hw. apply Hall. rewrite Hp. by apply elem_of_map_to_list.
Qed.
Definition replaced_git : Source := mkSource "/usr/bin/git" (ref 99) KindExec.
Definition unchanged_sh : Source := mkSource "/bin/sh" (ref 100) KindExec.
Lemma watcher_reports_witness :
  let w := mkWatcher {[ 7 := [unchanged_sh; replaced_git] ]} true in
  7 ∈ snd (@changed demo_os 0 [(7, [unchanged_sh; replaced_git])]) ∧
  ∃ s, s ∈ [unchanged_sh; replaced_git] ∧ @seen_changed demo_os 0 2 s.
Proof.
  intros w. split; [vm_compute; left|].
  apply (@watcher_reports demo_os w [(7, [unchanged_sh; replaced_git])] 0 2 [7]) with (id := 7).
  - unfold range_order, w. simpl. by rewrite map_to_list_singleton.
  - vm_compute. reflexivity.
  - reflexivity.
  - left.
Defined.

(** An allowed write under a risky prefix is always warned about: whenever
    the check runs on a policy that allows writing at or below a path of the
    list, the warning naming the path and the reason is among the warnings. *)
Theorem risky_write_warned (s : Spec) (st : cstate) (rk : riskyRule) (w : string) :
  rk ∈ alwaysRisky → w ∈ allowed_writes s → under w (rr_write rk) = true →
  snd (checkCombinations s st) = Ok tt ∧
  w +:+ " 쓰기 허용 — " +:+ rr_why rk ∈ c_Warnings (cs_c (fst (checkCombinations s st))).
Proof.
  intros Hr Hw Hu. set (msg := w +:+ _).
  assert (always (warned msg) (checkCombinations s)) as Ha.
  { unfold checkCombinations. rewrite bool_decide_false.
    2:{ intros E. rewrite E in Hw. by apply elem_of_nil in Hw. }
    apply always_snd; [total_steps|intros _]. apply always_fst; [|intros _; total_steps|intros _; keep_steps].
    eapply always_mfor; [exact Hr| |intros ?; total_steps|intros ?; keep_steps].
    eapply always_mfor; [exact Hw| |intros ?; total_steps|intros ?; keep_steps].
    rewrite Hu. apply always_warn. }
  destruct (Ha st) as [Hm [[] Hok]]. done.
Qed.
Lemma risky_write_warned_witness :
  "/etc/cron.d/job" +:+ " 쓰기 허용 — " +:+ "cron 이 다음 주기에 대신 실행해준다. 실행 허용이 없어도 돈다" ∈
  c_Warnings (cs_c (fst (checkCombinations
    (mkSpec "c" [] [mkWriteRule "/etc/cron.d/job" false EffectAllow] [] [] false false)
    (mkCstate 0 (empty_Compiled 1))))).
Proof.
  apply (risky_write_warned _ _ (mkRisky ["/etc/cron.d"; "/etc/crontab"; "/var/spool/cron"; "/etc/cron.hourly"; "/etc/cron.daily"]
    "cron 이 다음 주기에 대신 실행해준다. 실행 허용이 없어도 돈다") "/etc/cron.d/job").
  - right. left.
  - vm_compute. left.
  - reflexivity.
Defined.

(** A write allowance above the risky paths is not warned about.  A policy
    that allows writing all of /etc recursively, and one that allows writing /
    recursively together with running a program, leave the warnings exactly as
    they were. *)
Theorem risky_parent_unwarned (st : cstate) :
  checkCombinations
    (mkSpec "p" [] [mkWriteRule "/etc" true EffectAllow] [] [] false false) st = (st, Ok tt) ∧
  checkCombinations
    (mkSpec "p" [mkExecRule "/usr/bin/git"] [mkWriteRule "/" true EffectAllow] [] [] false false) st
  = (st, Ok tt).
Proof. split; reflexivity. Qed.
