(* ===== verification/Typed.v ===== *)
(** The values in the kernel's maps are well typed: each fits the C struct the
    BPF programs read (bpf/warrant.bpf.c, agent/internal/bpfmap/layout.go), and
    every operation of [bpfmap] and [Compiled.Apply] keeps it so, whether it
    succeeds or fails half way. *)

From Stdlib Require Import ZArith Lia Ascii String.
From stdpp Require Import base tactics numbers list strings gmap.
From S2P Require Import Prelude GoStd GoNet EbpfMap Os BpfMap Kernel Policy.

(** * Well-typed values *)

(** [struct warrant]. *)
Record kwarrant_typed (w : KWarrant) : Prop := mkKwarrantTyped {
  kt_expires : is_u64 (ExpiresNs w);
  kt_grace : is_u64 (GraceNs w);
  kt_subject : is_u32 (SubjectID w);
  kt_policy : is_u32 (PolicyID w);
  kt_revoked : Revoked w = 0 ∨ Revoked w = 1;
  kt_mode : is_u8 (Mode w);
  kt_expiry : is_u8 (OnExpiry w);
  kt_break : BreakGlass w = 0 ∨ BreakGlass w = 1;
  kt_udp : InspectUDP w = 0 ∨ InspectUDP w = 1
}.
(** [struct warrant_write_val]. *)
Definition writeval_typed (v : writeVal) : Prop :=
  (wv_Effect v = EffectAllowByte ∨ wv_Effect v = EffectDenyByte) ∧
  (wv_Recursive v = 0 ∨ wv_Recursive v = 1).
(** [struct warrant_net_val]. *)
Definition netval_typed (v : netVal) : Prop :=
  is_u8 (nv_Proto v) ∧ netval_wf v ∧ Forall is_u16 (Ports v).

(** What a compiled policy must satisfy: its ports and protocols fit. *)
Definition compiled_typed (c : Compiled) : Prop :=
  Forall (λ n, is_u16 (ne_Port n) ∧ is_u8 (ne_Proto n)) (c_Net c).

Section typed.
Context `{KernelMaps} `{!KernelMapsLaws}.

Record maps_typed (m : Maps) : Prop := mkMapsTyped {
  mt_flag cpu b : pa_get (activeFlag m) cpu = Some b → b = 0 ∨ b = 1;
  mt_cgroup cg id : hm_get (cgroupWarrant m) cg = Some id → is_u64 id;
  mt_warrant id w : hm_get (warrants m) id = Some w → kwarrant_typed w;
  mt_exec k v : hm_get (ruleExec m) k = Some v → v = 1;
  mt_write k v : hm_get (ruleWrite m) k = Some v → writeval_typed v;
  mt_net k v : lp_entry (ruleNet m) k = Some v → netval_typed v
}.

Lemma typed_nets m : maps_typed m → nets_wf m.
Proof. intros Hm k v Hv. apply (mt_net _ Hm) in Hv. apply Hv. Qed.

(** * The operations keep it *)

(** A put, of a value of the right type, that succeeds or fails. *)
Lemma hm_Put_typed {T K V} `{HashMapLaws T K V} (Q : V → Prop) (h : T) (k : K) (v : V) :
  Q v → (∀ k' v', hm_get h k' = Some v' → Q v') →
  ∀ k' v', hm_get (fst (hm_Put h k v)) k' = Some v' → Q v'.
Proof.
  intros Hv Hh k' v'. destruct (hm_Put h k v) as [h' [e|]] eqn:E; simpl.
  - rewrite (hm_Put_err _ _ _ _ _ E). by apply Hh.
  - rewrite (hm_Put_ok _ _ _ _ E). case_decide; [by intros [= <-]|by apply Hh].
Qed.
Lemma hm_Delete_typed {T K V} `{HashMapLaws T K V} (Q : V → Prop) (h : T) (k : K) :
  (∀ k' v', hm_get h k' = Some v' → Q v') →
  ∀ k' v', hm_get (fst (hm_Delete h k)) k' = Some v' → Q v'.
Proof.
  intros Hh k' v'. destruct (hm_Delete h k) as [h' [e|]] eqn:E; simpl.
  - apply hm_Delete_err in E as [-> _]. by apply Hh.
  - rewrite (hm_Delete_ok _ _ _ E). case_decide; [done|by apply Hh].
Qed.

Lemma PutWarrant_typed id w : kwarrant_typed w → keeps maps_typed (PutWarrant id w).
Proof.
  intros Hw m [? ? Hm ? ? ?]. unfold PutWarrant. rewrite finish_fst. split; try done. simpl.
  by apply hm_Put_typed.
Qed.
Lemma revoke_read_typed id m w : maps_typed m → snd (revoke_read id m) = Ok w → kwarrant_typed w.
Proof.
  intros Hm. unfold revoke_read. simpl. destruct (hm_Lookup (warrants m) id) as [w'|e|p] eqn:E; [|done|done].
  intros [= <-]. by apply hm_Lookup_ok, (mt_warrant _ Hm) in E.
Qed.
Lemma revoke_write_typed id w : kwarrant_typed w → keeps maps_typed (revoke_write id w).
Proof.
  intros Hw m [? ? Hm ? ? ?]. unfold revoke_write. rewrite finish_fst. split; try done. simpl.
  apply hm_Put_typed; [|done]. destruct Hw. split; simpl; try done. by right.
Qed.
Lemma Revoke_typed id : keeps maps_typed (Revoke id).
Proof.
  intros m Hm. unfold Revoke, mbnd. destruct (revoke_read id m) as [m1 r] eqn:E.
  injection E as <- E. subst r.
  pose proof (revoke_read_typed id m) as Hr. unfold revoke_read in Hr. simpl in Hr.
  destruct (match hm_Lookup _ _ with Ok _ => _ | Err _ => _ | Panic _ => _ end) as [w|e|p]; [|done|done].
  apply revoke_write_typed; [by apply Hr|done].
Qed.
Lemma DeleteWarrant_typed id : keeps maps_typed (DeleteWarrant id).
Proof.
  intros m [? ? Hm ? ? ?]. unfold DeleteWarrant. rewrite finish_ignoreMissing_fst. split; try done. simpl.
  by apply hm_Delete_typed.
Qed.
Lemma TagCgroup_typed cg id : is_u64 id → keeps maps_typed (TagCgroup cg id).
Proof.
  intros Hid m [? Hm ? ? ? ?]. unfold TagCgroup. rewrite finish_fst. split; try done. simpl.
  by apply hm_Put_typed.
Qed.
Lemma UntagCgroup_typed cg : keeps maps_typed (UntagCgroup cg).
Proof.
  intros m [? Hm ? ? ? ?]. unfold UntagCgroup. rewrite finish_ignoreMissing_fst. split; try done. simpl.
  by apply hm_Delete_typed.
Qed.
Lemma PutExecRule_typed pid f : keeps maps_typed (PutExecRule pid f).
Proof.
  intros m [? ? ? Hm ? ?]. unfold PutExecRule. rewrite finish_fst. split; try done. simpl.
  by apply (hm_Put_typed (λ v, v = 1)).
Qed.
Lemma PutWriteRule_typed pid f allow recursive : keeps maps_typed (PutWriteRule pid f allow recursive).
Proof.
  intros m [? ? ? ? Hm ?]. unfold PutWriteRule. rewrite finish_fst. split; try done. simpl.
  apply (hm_Put_typed writeval_typed); [|done].
  unfold write_val, writeval_typed. destruct allow, recursive; simpl; auto.
Qed.
Lemma SetActive_typed b : keeps maps_typed (SetActive b).
Proof.
  intros m [Hm ? ? ? ? ?]. unfold SetActive. rewrite finish_fst. split; try done. simpl.
  intros cpu v. destruct (pa_Put _ _) as [t [e|]] eqn:E; simpl.
  - rewrite (pa_Put_err _ _ _ _ E). apply Hm.
  - rewrite (pa_Put_ok _ _ _ E). intros [-> _]%lookup_replicate. destruct b; auto.
Qed.

Lemma merge_port_typed cidr v found port v' :
  is_u16 port → netval_typed v → (found = false → NPorts v = 0) →
  merge_port cidr v found port = Ok v' → netval_typed v'.
Proof.
  intros Hport (Hproto & Hwf & Hports) Hf E.
  destruct (merge_port_spec _ _ _ _ _ Hwf Hf E) as (Hwf' & Hp & _).
  split; [by rewrite Hp|]. split; [done|]. unfold merge_port in E.
  repeat case_match; simplify_eq/=; try done. by apply Forall_insert.
Qed.
Lemma net_current_typed k cidr proto m v found :
  is_u8 proto → maps_typed m → snd (net_current k cidr proto m) = Ok (v, found) →
  netval_typed v ∧ (found = false → NPorts v = 0).
Proof.
  intros Hproto Hm. unfold net_current. simpl. destruct (lp_Lookup (ruleNet m) k) as [cur|e|s] eqn:Ek; [| |done].
  - destruct (nv_Proto cur =? proto); [|done]. intros [= <- <-]. split; [|done].
    apply lp_Lookup_ok, lp_find_Some in Ek as (k' & He & _). by apply (mt_net _ Hm) in He.
  - destruct (isMissing e); [|done]. intros [= <- <-]. split; [|done].
    split; [done|]. split; [split; [simpl; lia|done]|]. simpl.
    apply Forall_forall. intros x Hx. unfold zeros in Hx. apply elem_of_replicate in Hx as [-> _].
    unfold_widths. lia.
Qed.
Lemma net_write_typed k cidr v : netval_typed v → keeps maps_typed (net_write k cidr v).
Proof.
  intros Hv m [? ? ? ? ? Hm]. unfold net_write. rewrite finish_fst. split; try done. simpl.
  intros k' v'. destruct (lp_Put _ _ _) as [t [e|]] eqn:E; simpl.
  - rewrite (lp_Put_err _ _ _ _ _ E). apply Hm.
  - apply lp_Put_ok in E as [_ E]. rewrite E. case_decide; [by intros [= <-]|apply Hm].
Qed.
Lemma PutNetRule_typed pid cidr port proto :
  is_u16 port → is_u8 proto → keeps maps_typed (PutNetRule pid cidr port proto).
Proof.
  intros Hport Hproto m Hm. unfold PutNetRule. unfold mbnd at 1, mres at 1.
  destruct (netKeyOf pid cidr) as [k|e|p]; [|done|done]. unfold mbnd at 1.
  destruct (net_current k cidr proto m) as [m1 [[v0 found]|e|p]] eqn:El;
    pose proof El as [= <- _]; [|done|done].
  destruct (net_current_typed k cidr proto m v0 found) as [Hv0 Hf]; [done|done|by rewrite El|].
  unfold mbnd, mres. simpl. destruct (merge_port cidr v0 found port) as [v|e|p] eqn:Em; [|done|done].
  apply merge_port_typed in Em; [|done|done|done]. by apply net_write_typed.
Qed.
Hint Resolve PutWarrant_typed Revoke_typed DeleteWarrant_typed TagCgroup_typed UntagCgroup_typed
  PutExecRule_typed PutWriteRule_typed SetActive_typed : gohints.

Lemma Apply_typed c : compiled_typed c → keeps maps_typed (Policy.Apply c).
Proof.
  intros Hc. unfold compiled_typed in Hc. rewrite Forall_forall in Hc.
  assert (∀ n, n ∈ c_Net c →
    keeps maps_typed (PutNetRule (c_PolicyID c) (ne_CIDR n) (ne_Port n) (ne_Proto n))) as Hn.
  { intros n [? ?]%Hc. by apply PutNetRule_typed. }
  unfold Policy.Apply. keep_steps.
Qed.

(** An exec rule, once there, stays: the operations of a policy never remove one. *)
Lemma Apply_keeps_exec c k : keeps (λ m, is_Some (hm_get (ruleExec m) k)) (Policy.Apply c).
Proof.
  unfold Policy.Apply, PutNetRule, net_current, net_write. keep_steps.
  - intros m Hm. unfold PutWriteRule. by rewrite finish_fst.
  - intros m Hm. unfold PutWriteRule. by rewrite finish_fst.
  - intros m [v Hm]. unfold PutExecRule. rewrite finish_fst. simpl.
    destruct (hm_Put _ _ _) as [t [e|]] eqn:E; simpl.
    + rewrite (hm_Put_err _ _ _ _ _ E). by exists v.
    + rewrite (hm_Put_ok _ _ _ _ E). case_decide; by eauto.
  - by intros m Hm.
  - intros m Hm. by rewrite finish_fst.
Qed.
End typed.
#[export] Hint Resolve PutWarrant_typed Revoke_typed DeleteWarrant_typed TagCgroup_typed UntagCgroup_typed
  PutExecRule_typed PutWriteRule_typed SetActive_typed : gohints.

(** * What the compiler hands to [Apply] *)

(** The ports and protocols of a specification are a [uint16] and a [uint8]. *)
Definition spec_typed (s : Spec) : Prop :=
  Forall (λ r, is_u16 (nr_Port r) ∧ is_u8 (nr_Proto r)) (s_NetRules s).

Lemma Compile_typed `{Os} id s t t' c :
  spec_typed s → Compile id (ASpecVal s) t = (t', Ok c) → compiled_typed c.
Proof.
  intros Hs (s' & st & _ & [[= <-]|?] & -> & _ & E)%Compile_ok_inv; [|done].
  apply compile_body_ok in E as (_ & _ & Hn); [|done].
  unfold compiled_typed. rewrite Hn. apply Forall_fmap.
  eapply Forall_impl; [exact Hs|]. by intros r.
Qed.
