(* ===== verification/Session.v ===== *)
(** The life of a warrant in the maps: writing it, binding a session to it,
    revoking it and switching enforcement on and off (bpfmap.go), with what the
    hooks of Kernel.v then answer. *)

From Stdlib Require Import ZArith Lia Ascii String.
From stdpp Require Import base tactics numbers list strings gmap.
From S2P Require Import Prelude GoStd GoNet EbpfMap Os BpfMap Concrete Kernel.

(** * What a successful map call leaves *)

Section calls.
Context `{KernelMaps} `{!KernelMapsLaws}.

Lemma PutWarrant_ok id w m m' :
  PutWarrant id w m = (m', Ok tt) →
  m' = set_warrants m (warrants m') ∧
  ∀ k, hm_get (warrants m') k = if decide (k = id) then Some w else hm_get (warrants m) k.
Proof.
  unfold PutWarrant. intros [Hn ->]%finish_inv.
  destruct (hm_Put _ _ _) as [t o] eqn:E. simpl in *. subst o.
  split; [done|]. by eapply hm_Put_ok.
Qed.

Lemma TagCgroup_ok cg id m m' :
  TagCgroup cg id m = (m', Ok tt) →
  m' = set_cgroupWarrant m (cgroupWarrant m') ∧
  ∀ k, hm_get (cgroupWarrant m') k = if decide (k = cg) then Some id else hm_get (cgroupWarrant m) k.
Proof.
  unfold TagCgroup. intros [Hn ->]%finish_inv.
  destruct (hm_Put _ _ _) as [t o] eqn:E. simpl in *. subst o.
  split; [done|]. by eapply hm_Put_ok.
Qed.

Lemma Revoke_ok id m m' :
  Revoke id m = (m', Ok tt) →
  m' = set_warrants m (warrants m') ∧
  ∃ w, hm_get (warrants m) id = Some w ∧
       ∀ k, hm_get (warrants m') k =
            if decide (k = id) then Some (set_Revoked w 1) else hm_get (warrants m) k.
Proof.
  unfold Revoke, mbnd, revoke_read, revoke_write. destruct (hm_Lookup (warrants m) id) as [w|e|p] eqn:El; [|done|done].
  intros [Hn ->]%finish_inv. destruct (hm_Put _ _ _) as [t o] eqn:E. simpl in *. subst o.
  split; [done|]. exists w. split; [by apply hm_Lookup_ok|]. by eapply hm_Put_ok.
Qed.

Lemma finish_ignoreMissing_ok {T} (set : Maps → T → Maps) r m m' :
  finish_ignoreMissing set r m = (m', Ok tt) →
  m' = set m (fst r) ∧ (snd r = None ∨ ∃ e, snd r = Some e ∧ errors_Is e ErrKeyNotExist = true).
Proof.
  unfold finish_ignoreMissing, isMissing. destruct r as [t [e|]]; simpl; [|naive_solver].
  destruct (errors_Is e ErrKeyNotExist) eqn:E; naive_solver.
Qed.

Lemma delete_get {T K V} `{HashMapLaws T K V} (h : T) (k : K) :
  (snd (hm_Delete h k) = None ∨
   ∃ e, snd (hm_Delete h k) = Some e ∧ errors_Is e ErrKeyNotExist = true) →
  ∀ k', hm_get (fst (hm_Delete h k)) k' = if decide (k' = k) then None else hm_get h k'.
Proof.
  destruct (hm_Delete h k) as [t o] eqn:E. simpl. intros [->|(e & -> & He)] k'.
  - by eapply hm_Delete_ok.
  - apply hm_Delete_err in E as [Hk Hn]. rewrite Hk. case_decide; [subst; auto|done].
Qed.

Lemma UntagCgroup_ok cg m m' :
  UntagCgroup cg m = (m', Ok tt) →
  m' = set_cgroupWarrant m (cgroupWarrant m') ∧
  ∀ k, hm_get (cgroupWarrant m') k = if decide (k = cg) then None else hm_get (cgroupWarrant m) k.
Proof.
  unfold UntagCgroup. intros [-> Hr]%finish_ignoreMissing_ok.
  split; [done|]. simpl. by apply delete_get.
Qed.

Lemma DeleteWarrant_ok id m m' :
  DeleteWarrant id m = (m', Ok tt) →
  m' = set_warrants m (warrants m') ∧
  ∀ k, hm_get (warrants m') k = if decide (k = id) then None else hm_get (warrants m) k.
Proof.
  unfold DeleteWarrant. intros [-> Hr]%finish_ignoreMissing_ok.
  split; [done|]. simpl. by apply delete_get.
Qed.

Lemma SetActive_ok b m m' :
  SetActive b m = (m', Ok tt) →
  m' = set_activeFlag m (activeFlag m') ∧
  ∀ cpu, pa_get (activeFlag m') cpu = replicate (ncpu m) (if b then 1 else 0) !! cpu.
Proof.
  unfold SetActive. intros [Hn ->]%finish_inv.
  destruct (pa_Put _ _) as [t o] eqn:E. simpl in *. subst o.
  split; [done|]. by eapply pa_Put_ok.
Qed.

(** With the flag cleared no task is judged. *)
Lemma SetActive_false_lookup m m' t : SetActive false m = (m', Ok tt) → lookup_warrant m' t = None.
Proof.
  intros [-> Ha]%SetActive_ok. unfold lookup_warrant. simpl in *. rewrite Ha.
  destruct (replicate _ _ !! _) as [on|] eqn:E; [|done]. by apply lookup_replicate in E as [-> _].
Qed.

(** The lookup only reads the flag, the tag and the warrant it names. *)
Lemma lookup_warrant_wid m t wid tag w :
  lookup_warrant m t = Some (wid, tag, w) → hm_get (warrants m) wid = Some w.
Proof. unfold lookup_warrant. intros. repeat case_match; by simplify_eq. Qed.

Lemma lookup_warrant_update m m' t f :
  m' = set_warrants m (warrants m') →
  (∀ k, hm_get (warrants m') k = f k (hm_get (warrants m) k)) →
  (∀ k, f k None = None) →
  lookup_warrant m' t =
  match lookup_warrant m t with
  | Some (wid, tag, w) => (λ w', (wid, tag, w')) <$> f wid (Some w)
  | None => None
  end.
Proof.
  intros -> Hg Hf. simpl in Hg. unfold lookup_warrant. simpl.
  destruct (pa_get _ _) as [on|]; [|done]. destruct (on =? 0); [done|].
  assert (∀ wid tag,
    match hm_get (warrants m') wid with Some w => Some (wid, tag, w) | None => None end =
    match (match hm_get (warrants m) wid with Some w => Some (wid, tag, w) | None => None end)
      : option (Z * Z * KWarrant) with
    | Some (wid, tag, w) => (λ w', (wid, tag, w')) <$> f wid (Some w)
    | None => None
    end) as Hstep.
  { intros wid tag. rewrite Hg. destruct (hm_get (warrants m) wid); [|by rewrite Hf].
    by destruct (f wid _). }
  destruct (hm_get (cgroupWarrant m) (t_cgroup t)); [apply Hstep|].
  destruct (t_tag t); [apply Hstep|done].
Qed.
End calls.

(** * Properties *)

Definition live_kw : KWarrant := mkKWarrant 1000 0 1 7 0 ModeEnforce 0 0 0.
Definition one_session : Maps :=
  mkMaps _ (BPercpu 2 [1; 1]) (BHash 4096 {[ 77 := 9 ]}) (BHash 4096 {[ 9 := live_kw ]})
         (BHash 65536 ∅) (BHash 65536 ∅) (BLpm 8192 ∅) 2.
Definition session_task : task := mkTask 1 77 None.

(** Binding a session works.  After a warrant is written, a cgroup tagged
    with it and enforcement switched on, every task of the cgroup on every CPU
    finds exactly that warrant. *)
Theorem bound_session_found `{KernelMaps} `{!KernelMapsLaws} id w cg (m m1 m2 m3 : Maps) t :
  PutWarrant id w m = (m1, Ok tt) → TagCgroup cg id m1 = (m2, Ok tt) →
  SetActive true m2 = (m3, Ok tt) → t_cgroup t = cg → (t_cpu t < ncpu m)%nat →
  lookup_warrant m3 t = Some (id, TAG_CGROUP, w).
Proof.
  intros [-> H1]%PutWarrant_ok [-> H2]%TagCgroup_ok [-> H3]%SetActive_ok Hc Hcpu.
  simpl in *. unfold lookup_warrant. simpl.
  rewrite H3, lookup_replicate_2 by done. simpl.
  by rewrite Hc, H2, decide_True, H1, decide_True by done.
Qed.
Lemma bound_session_found_witness :
  ∃ m1 m2 m3, PutWarrant 9 live_kw demo_empty = (m1, Ok tt) ∧ TagCgroup 77 9 m1 = (m2, Ok tt) ∧
    SetActive true m2 = (m3, Ok tt) ∧
    lookup_warrant m3 session_task = Some (9, TAG_CGROUP, live_kw).
Proof.
  eexists _, _, _. split; [|split; [|split]].
  4: eapply (bound_session_found 9 live_kw 77 demo_empty _ _ _ session_task); simpl; try reflexivity; lia.
  all: reflexivity.
Defined.

(** C8: revocation is a kill switch.  After a successful [Revoke], a task bound
    to the warrant in enforce mode is refused every exec, every opening for
    writing, every change to a directory and every connection to an IPv4 or IPv6
    address (and every datagram to one, where datagrams are inspected), whatever the
    rules and the clock say.  A UNIX socket is judged by its path as before: only the
    delegation sockets are refused.  A task bound to another warrant sees what it saw
    before. *)
Theorem revoke_denies `{KernelMaps} `{!KernelMapsLaws} id (m m' : Maps) t wid tag w :
  Revoke id m = (m', Ok tt) → lookup_warrant m t = Some (wid, tag, w) →
  (wid ≠ id → lookup_warrant m' t = lookup_warrant m t) ∧
  (wid = id → Mode w = ModeEnforce → ∀ now,
   (∀ f, bprm_verdict m' t now f = (- EPERM, Some VERDICT_DENY)) ∧
   (∀ fmode chain, Z.land fmode FMODE_WRITE ≠ 0 →
      file_verdict m' t now fmode ORIGIN_LSM chain = (- EPERM, Some VERDICT_DENY)) ∧
   (∀ chain, inode_verdict m' t now chain = (- EPERM, Some VERDICT_DENY)) ∧
   (∀ a addr port, inet_dest a addr port → connect_verdict m' t now a = (- EPERM, Some VERDICT_DENY)) ∧
   (∀ a addr port, inet_dest a addr port → InspectUDP w ≠ 0 →
      sendmsg_verdict m' t now (Some a) = (- EPERM, Some VERDICT_DENY)) ∧
   ∀ path, connect_verdict m' t now (SockUnix path) =
           if delegation_socket path then (- EPERM, Some VERDICT_DENY) else (0, None)).
Proof.
  intros (Hm & w0 & Hw0 & Hg)%Revoke_ok Hl.
  pose proof (lookup_warrant_wid _ _ _ _ _ Hl) as Hw.
  rewrite (lookup_warrant_update m m' t
    (λ k o, if decide (k = id) then (λ _, set_Revoked w0 1) <$> o else o)), Hl; [|done| |].
  2:{ intros k. rewrite Hg. case_decide; [subst; by rewrite Hw0|done]. }
  2:{ intros k. by case_decide. }
  split; [intros Hne; by rewrite decide_False|]. intros -> Hmode now.
  rewrite Hw in Hw0. injection Hw0 as <-.
  assert (lookup_warrant m' t = Some (id, tag, set_Revoked w 1)) as Hl'.
  { rewrite (lookup_warrant_update m m' t
      (λ k o, if decide (k = id) then (λ _, set_Revoked w 1) <$> o else o)), Hl; [|done| |].
    - by rewrite decide_True.
    - intros k. rewrite Hg. case_decide; [subst; by rewrite Hw|done].
    - intros k. by case_decide. }
  unfold bprm_verdict, file_verdict, inode_verdict, connect_verdict, sendmsg_verdict, write_denied, net_denied,
    ret_of, verdict_of. rewrite Hl'. simpl. rewrite Hmode. simpl. split; [done|]. split; [|split; [done|split; [|split; [|done]]]].
  - intros fmode chain Hf%Z.eqb_neq. by rewrite Hf.
  - by intros a addr port [].
  - intros a addr port Ha Hu%Z.eqb_neq. rewrite Hu. by destruct Ha.
Qed.
Lemma revoke_denies_witness :
  bprm_verdict (fst (Revoke 9 one_session)) session_task 500 (ref 1) = (-1, Some VERDICT_DENY) ∧
  connect_verdict (fst (Revoke 9 one_session)) session_task 500 (SockInet [10; 1; 2; 3] 443) = (-1, Some VERDICT_DENY).
Proof.
  destruct (revoke_denies 9 one_session (fst (Revoke 9 one_session)) session_task 9 TAG_CGROUP live_kw)
    as [_ H]; [reflexivity|reflexivity|].
  destruct (H eq_refl eq_refl 500) as (He & _ & _ & Hc & _). split; [apply He|]. by eapply Hc, DestV4.
Defined.

(** The switch works on every CPU.  After [SetActive false] succeeds no task
    has a warrant, so every hook lets everything pass; after [SetActive true]
    every CPU of the machine sees the flag set. *)
Theorem set_active_everywhere `{KernelMaps} `{!KernelMapsLaws} b (m m' : Maps) :
  SetActive b m = (m', Ok tt) →
  (b = false → ∀ t now f, lookup_warrant m' t = None ∧ bprm_verdict m' t now f = (0, None)) ∧
  (b = true → ∀ cpu, (cpu < ncpu m)%nat → pa_get (activeFlag m') cpu = Some 1).
Proof.
  intros Hset. split; intros ->.
  - intros t now f. pose proof (SetActive_false_lookup _ _ t Hset) as Hn.
    split; [done|]. unfold bprm_verdict. by rewrite Hn.
  - apply SetActive_ok in Hset as [_ Ha]. intros cpu Hc. by rewrite Ha, lookup_replicate_2.
Qed.
Lemma set_active_everywhere_witness :
  lookup_warrant one_session session_task = Some (9, TAG_CGROUP, live_kw) ∧
  lookup_warrant (fst (SetActive false one_session)) session_task = None.
Proof.
  split; [reflexivity|].
  apply (set_active_everywhere false one_session _ eq_refl); [reflexivity|exact 0|exact (ref 1)].
Defined.

(** An IPv4-mapped IPv6 network can never be written.  For a CIDR that
    parses to a network of the mapped space the key's prefix length is computed
    as 128 plus the 96 to 128 bits of the mask, beyond the trie's 160, so the
    rule is refused by the kernel and the maps stay as they were. *)
Theorem mapped_cidr_refused `{KernelMaps} `{!KernelMapsLaws} pid cidr port proto n (m m' : Maps) :
  nets_wf m → ParseCIDR cidr = Ok n → length (netIP n) = 16%nat → take 12 (netIP n) = v4InV6Prefix →
  PutNetRule pid cidr port proto m ≠ (m', Ok tt) ∧
  ∃ k, netKeyOf pid cidr = Ok k ∧ 224 <= PrefixLen k.
Proof.
  intros Hw Hn Hl Hpre.
  assert (∃ k, netKeyOf pid cidr = Ok k ∧ 224 <= PrefixLen k) as (k & Hk & Hlong).
  { unfold netKeyOf. rewrite Hn. unfold To4. rewrite Hl. simpl.
    rewrite bool_decide_true by done. eexists. split; [done|]. simpl.
    apply ParseCIDR_ok in Hn as [[? _]|(ip & Hip & Hnet & Ho)]; [congruence|].
    rewrite Hnet in Hpre. apply mapped_mask_long in Hpre; [|done].
    rewrite u32_small by (unfold_widths; lia). lia. }
  split; [|by exists k]. intros (k' & v & Hk' & Hlen & _)%PutNetRule_ok; [|done].
  rewrite Hk in Hk'. injection Hk' as <-. lia.
Qed.
Lemma mapped_cidr_refused_witness :
  ∃ n, ParseCIDR "::ffff:10.0.0.0/104" = Ok n ∧
       PutNetRule 7 "::ffff:10.0.0.0/104" 443 1 demo_empty ≠ (demo_empty, Ok tt).
Proof.
  eexists. split; [vm_compute; reflexivity|].
  apply (mapped_cidr_refused 7 "::ffff:10.0.0.0/104" 443 1
           (mkIPNet (v4InV6Prefix ++ [10; 0; 0; 0]) 104) demo_empty demo_empty).
  - intros k v He. pose proof (eq_trans (eq_sym (blpm_empty_entry 8192 k)) He). done.
  - vm_compute. reflexivity.
  - reflexivity.
  - reflexivity.
Defined.

(** A file reference identifies its file.  For device numbers within the
    kernel's 12-bit major and 20-bit minor, two files with the same reference
    have the same device and inode; the reference's device is the kernel's own
    [major << 20 | minor]. *)
Theorem FileRefFromStat_inj `{Os} `{!OsLaws} (a b : Stat_t) :
  is_u64 (st_Dev a) → is_u64 (st_Dev b) →
  unix_Major (st_Dev a) < 2 ^ 12 → unix_Minor (st_Dev a) < 2 ^ 20 →
  unix_Major (st_Dev b) < 2 ^ 12 → unix_Minor (st_Dev b) < 2 ^ 20 →
  Dev (FileRefFromStat a) = unix_Major (st_Dev a) * 2 ^ 20 + unix_Minor (st_Dev a) ∧
  (FileRefFromStat a = FileRefFromStat b → st_Dev a = st_Dev b ∧ st_Ino a = st_Ino b).
Proof.
  intros Ha Hb Ha1 Ha2 Hb1 Hb2.
  assert (∀ st, is_u64 (st_Dev st) → unix_Major (st_Dev st) < 2 ^ 12 →
            unix_Minor (st_Dev st) < 2 ^ 20 →
            Dev (FileRefFromStat st) = unix_Major (st_Dev st) * 2 ^ 20 + unix_Minor (st_Dev st))
    as Hdev.
  { intros st Hst H1 H2. unfold FileRefFromStat. simpl. rewrite u64_small by done.
    pose proof (unix_Major_range (st_Dev st)). pose proof (unix_Minor_range (st_Dev st)).
    unfold_widths. rewrite Z.shiftl_mul_pow2 by lia.
    rewrite (Z.mod_small (unix_Major _ * _)) by lia.
    rewrite Z.lor_comm, lor_add_pow2 by lia. rewrite Z.mod_small; lia. }
  split; [by apply Hdev|]. intros E.
  pose proof (f_equal Dev E) as Ed. pose proof (f_equal Ino E) as Ei. simpl in Ei.
  rewrite !Hdev in Ed by done. split; [|done].
  pose proof (unix_Minor_range (st_Dev a)). pose proof (unix_Minor_range (st_Dev b)).
  unfold_widths. apply unix_dev_inj; unfold_widths; lia.
Qed.
Lemma FileRefFromStat_inj_witness :
  Dev (@FileRefFromStat demo_os (reg 5)) = 8 * 2 ^ 20 + 1.
Proof.
  apply (@FileRefFromStat_inj demo_os _ (reg 5) (reg 5)); vm_compute; auto; split; discriminate || done.
Defined.
