(* ===== verification/Tasks.v ===== *)
(** Tasks in the kernel (bpf/warrant.bpf.c): the tag a task inherits at fork
    ([warrant_fork]), and the hooks that protect the agent itself
    ([selfprotect] and the five hooks that call it).  A step relation on the
    process table says what tasks may do between the agent's changes to the
    maps. *)

From Stdlib Require Import ZArith Lia Ascii String.
From stdpp Require Import base tactics numbers list strings gmap relations.
From S2P Require Import Prelude GoStd GoNet EbpfMap Os BpfMap Concrete Kernel Session.

(** * [warrant_fork] *)

Section hooks.
Context `{KernelMaps}.

(** The parent's own tag goes first, then its cgroup's. *)
Definition fork_tag (m : Maps) (parent : task) : option (Z * Z) :=
  match t_tag parent with
  | Some wid => Some (wid, TAG_TASK)
  | None => match hm_get (cgroupWarrant m) (t_cgroup parent) with
            | Some wid => Some (wid, TAG_CGROUP)
            | None => None
            end
  end.
(** The child's task storage ([stored]: [bpf_task_storage_get] found memory for
    it), and the tag source and warrant of the record. *)
Definition warrant_fork (m : Maps) (parent : task) (stored : bool) : option Z * option (Z * Z) :=
  match fork_tag m parent with
  | Some (wid, tag) => (if stored then Some wid else None, Some (tag, wid))
  | None => (None, None)
  end.

(** * Self-protection *)

(** Whether the other task is outside the current one's warrant; only its cgroup
    is looked at. *)
Definition peer_outside_warrant (m : Maps) (t : task) (peer_cgroup : Z) : bool :=
  match lookup_warrant m t with
  | None => false
  | Some (self, _, _) =>
      match hm_get (cgroupWarrant m) peer_cgroup with
      | Some wid => negb (wid =? self)
      | None => true
      end
  end.

(** What a hook answers and the verdict it records, if any.  [last] is the
    [sp_seen] entry of the process and hook, when the LRU map still has it. *)
Definition selfprotect (m : Maps) (t : task) (now : Z) (last : option Z) : Z * option Z :=
  match lookup_warrant m t with
  | None => (0, None)
  | Some (_, _, w) =>
      if negb (BreakGlass w =? 0) then (0, None)
      else
        let quiet := match last with
                     | Some l => u64 (now - l) <? 1000000000
                     | None => false
                     end in
        (ret_of w true, if quiet then None else Some (verdict_of w true))
  end.

(** [lsm/bpf], [lsm/sb_umount] and [lsm/kernel_module_request]; [prior] is what an
    earlier LSM answered. *)
Definition sp_plain (m : Maps) (t : task) (now : Z) (last : option Z) (prior : Z) : Z * option Z :=
  if negb (prior =? 0) then (- EPERM, None) else selfprotect m t now last.
(** [lsm/task_kill] and [lsm/ptrace_access_check]. *)
Definition sp_peer (m : Maps) (t : task) (now : Z) (last : option Z) (prior peer_cgroup : Z) : Z * option Z :=
  if negb (prior =? 0) then (- EPERM, None)
  else if negb (peer_outside_warrant m t peer_cgroup) then (0, None)
  else selfprotect m t now last.

(** * The process table *)

(** The maps, the live tasks by id, and the family that is followed: a task and
    whatever it and its children forked, through forks that found memory for the
    child's tag. *)
Record kstate := mkKstate { k_maps : Maps; k_tasks : gmap Z task; k_family : gset Z }.

Inductive kstep : kstate → kstate → Prop :=
  | KFork m ts fam pid parent child cg cpu stored :
      ts !! pid = Some parent → ts !! child = None →
      kstep (mkKstate m ts fam)
            (mkKstate m (<[child := mkTask cpu cg (fst (warrant_fork m parent stored))]> ts)
                      (if stored && bool_decide (pid ∈ fam) then {[child]} ∪ fam else fam))
  | KMove m ts fam pid t cg :
      ts !! pid = Some t →
      kstep (mkKstate m ts fam) (mkKstate m (<[pid := mkTask (t_cpu t) cg (t_tag t)]> ts) fam)
  | KSchedule m ts fam pid t cpu :
      ts !! pid = Some t →
      kstep (mkKstate m ts fam) (mkKstate m (<[pid := mkTask cpu (t_cgroup t) (t_tag t)]> ts) fam)
  | KExit m ts fam pid :
      kstep (mkKstate m ts fam) (mkKstate m (base.delete pid ts) (fam ∖ {[pid]}))
  | KAgent m m' ts fam :
      kstep (mkKstate m ts fam) (mkKstate m' ts fam).

(** Every member of the family is alive and carries the tag. *)
Definition family_tagged (wid : Z) (s : kstate) : Prop :=
  ∀ pid, pid ∈ k_family s → ∃ t, k_tasks s !! pid = Some t ∧ t_tag t = Some wid.

Lemma kstep_family wid s s' : kstep s s' → family_tagged wid s → family_tagged wid s'.
Proof.
  unfold family_tagged.
  intros [m ts fam pid parent child cg cpu stored Hp Hc|m ts fam pid t cg Ht|m ts fam pid t cpu Ht|
          m ts fam pid|m m' ts fam] Hf x; simpl in *.
  - intros Hx. assert (x = child ∧ pid ∈ fam ∧ stored = true ∨ x ∈ fam) as [(-> & Hin & ->)|Hin].
    { destruct stored; [case_bool_decide|]; set_solver. }
    + rewrite lookup_insert_eq. eexists. split; [done|]. simpl.
      destruct (Hf _ Hin) as (t & Ht & Htag). simplify_eq.
      unfold warrant_fork, fork_tag. by rewrite Htag.
    + destruct (Hf _ Hin) as (t & Ht & Htag). exists t. rewrite lookup_insert_ne; [done|]. congruence.
  - intros (tx & Hx & Htag)%Hf. destruct (decide (x = pid)) as [->|Hne].
    + rewrite lookup_insert_eq. eexists. split; [done|]. simpl. congruence.
    + rewrite lookup_insert_ne by done. by exists tx.
  - intros (tx & Hx & Htag)%Hf. destruct (decide (x = pid)) as [->|Hne].
    + rewrite lookup_insert_eq. eexists. split; [done|]. simpl. congruence.
    + rewrite lookup_insert_ne by done. by exists tx.
  - intros [Hx Hne]%elem_of_difference. rewrite lookup_delete_ne by set_solver. by apply Hf.
  - apply Hf.
Qed.
Lemma ksteps_family wid s s' : rtc kstep s s' → family_tagged wid s → family_tagged wid s'.
Proof. induction 1; eauto using kstep_family. Qed.

(** A task's answer, from its cgroup's tag and its own. *)
Lemma lookup_tagged m t on wid w :
  pa_get (activeFlag m) (t_cpu t) = Some on → on ≠ 0 → t_tag t = Some wid →
  hm_get (warrants m) wid = Some w →
  lookup_warrant m t =
  match hm_get (cgroupWarrant m) (t_cgroup t) with
  | Some wid' => (λ w', (wid', TAG_CGROUP, w')) <$> hm_get (warrants m) wid'
  | None => Some (wid, TAG_TASK, w)
  end.
Proof.
  intros Hon Hne Ht Hw. unfold lookup_warrant. rewrite Hon, (proj2 (Z.eqb_neq _ _)) by done.
  destruct (hm_get (cgroupWarrant m) (t_cgroup t)) as [wid'|].
  - by destruct (hm_get (warrants m) wid').
  - by rewrite Ht, Hw.
Qed.
End hooks.

(** * Properties *)

Section properties.
Context `{KernelMaps} `{!KernelMapsLaws}.


(** A task that was running before its session was bound has no tag of its
    own, and leaves the warrant by leaving the cgroup: moved to a cgroup that is
    not bound it is not judged any more, and neither is anything it forks there. *)
Theorem unforked_task_escapes (m : Maps) (t : task) cg cpu :
  t_tag t = None → hm_get (cgroupWarrant m) cg = None →
  let t' := mkTask (t_cpu t) cg (t_tag t) in
  lookup_warrant m t' = None ∧ warrant_fork m t' true = (None, None) ∧
  lookup_warrant m (mkTask cpu cg (fst (warrant_fork m t' true))) = None.
Proof.
  intros Ht Hcg. cbv zeta.
  assert (warrant_fork m (mkTask (t_cpu t) cg (t_tag t)) true = (None, None)) as Hf.
  { unfold warrant_fork, fork_tag. simpl. by rewrite Ht, Hcg. }
  rewrite Hf. unfold lookup_warrant. simpl. rewrite Hcg, Ht.
  split; [|split; [done|]]; destruct (pa_get _ _) as [on|]; try done; by destruct (on =? 0).
Qed.

(** C11: the agent's protection cannot be opened by a policy.  In a session under an
    enforcing warrant without break-glass, the hooks on bpf(2), umount and module
    requests always refuse, whatever the rules, the validity of the warrant and
    the rate limit say; the hooks on kill and ptrace refuse exactly if the other
    task's cgroup is not bound to the same warrant.  The rate limit only drops
    records: a refusal is recorded unless the same process hit the same hook
    within the last second.  A task without a warrant, and one with break-glass,
    is never refused. *)
Theorem selfprotect_absolute (m : Maps) (t : task) now last cg :
  match lookup_warrant m t with
  | None => sp_plain m t now last 0 = (0, None) ∧ sp_peer m t now last 0 cg = (0, None)
  | Some (wid, _, w) =>
      (BreakGlass w ≠ 0 → fst (sp_plain m t now last 0) = 0 ∧ fst (sp_peer m t now last 0 cg) = 0) ∧
      (BreakGlass w = 0 → Mode w = ModeEnforce →
       fst (sp_plain m t now last 0) = - EPERM ∧
       (fst (sp_peer m t now last 0 cg) = - EPERM ↔ hm_get (cgroupWarrant m) cg ≠ Some wid) ∧
       (snd (sp_plain m t now last 0) = None →
        ∃ l, last = Some l ∧ u64 (now - l) < 1000000000) ∧
       (∀ v, snd (sp_plain m t now last 0) = Some v → v = VERDICT_DENY))
  end ∧
  ∀ prior, prior ≠ 0 → fst (sp_plain m t now last prior) = - EPERM ∧
                       fst (sp_peer m t now last prior cg) = - EPERM.
Proof.
  split.
  2:{ intros prior Hp. unfold sp_plain, sp_peer. by rewrite (proj2 (Z.eqb_neq _ _)). }
  unfold sp_plain, sp_peer, peer_outside_warrant, selfprotect. simpl.
  destruct (lookup_warrant m t) as [[[wid tag] w]|]; [|done]. split.
  - intros Hb. rewrite (proj2 (Z.eqb_neq _ _)) by done. simpl. split; [done|].
    by destruct (negb _).
  - intros Hb Hm. rewrite Hb. simpl.
    assert (ret_of w true = - EPERM) as Hret by (unfold ret_of; by rewrite Hm).
    assert (verdict_of w true = VERDICT_DENY) as Hv by (unfold verdict_of; by rewrite Hm).
    rewrite Hret, Hv. split; [done|]. split; [|split].
    + destruct (hm_get (cgroupWarrant m) cg) as [wid'|]; simpl; [|by split].
      destruct (Z.eqb_spec wid' wid) as [->|Hne]; simpl; [by split|]. split; [congruence|done].
    + destruct last as [l|]; [|done]. destruct (Z.ltb_spec (u64 (now - l)) 1000000000); [|done].
      intros _. by exists l.
    + destruct last as [l|]; [|by intros v [= <-]].
      destruct (_ <? _); [done|]. by intros v [= <-].
Qed.
End properties.

(** The session's child moves to another cgroup and forks there; the session is
    unbound meanwhile. *)
Definition demo_tasks : gmap Z task := {[ 50 := session_task ]}.
Definition demo_unbound : Maps := fst (UntagCgroup 77 one_session).
Definition demo_child : task := mkTask 0 77 (Some 9).

Lemma unforked_task_escapes_witness :
  lookup_warrant one_session session_task = Some (9, TAG_CGROUP, live_kw) ∧
  lookup_warrant one_session (mkTask 1 78 None) = None.
Proof.
  split; [vm_compute; reflexivity|].
  exact (proj1 (unforked_task_escapes one_session session_task 78 0 eq_refl eq_refl)).
Defined.

Lemma selfprotect_absolute_witness :
  fst (sp_plain one_session session_task 500 (Some 400) 0) = - EPERM ∧
  (fst (sp_peer one_session session_task 500 None 0 77) = - EPERM ↔
   hm_get (cgroupWarrant one_session) 77 ≠ Some 9).
Proof.
  destruct (selfprotect_absolute one_session session_task 500 (Some 400) 77) as [H1 _].
  destruct (selfprotect_absolute one_session session_task 500 None 77) as [H2 _].
  assert (lookup_warrant one_session session_task = Some (9, TAG_CGROUP, live_kw)) as Hl
    by (vm_compute; reflexivity).
  rewrite Hl in H1, H2. split; [apply H1; reflexivity|]. apply H2; reflexivity.
Defined.
