(* ===== verification/Enforcement.v ===== *)
(** From policy to verdict: what the kernel decides (Kernel.v) about exec,
    write and outbound calls once a compiled policy (Policy.v) is in the maps
    (BpfMap.v). *)

From Stdlib Require Import ZArith Lia Ascii String.
From stdpp Require Import base tactics numbers list strings gmap.
From S2P Require Import Prelude GoStd GoNet EbpfMap Os BpfMap Concrete Kernel Policy.

(** * Policies that have no rules yet *)

Section fresh.
Context `{KernelMaps}.

(** No rule of policy [pid] is in the maps: its id was never used. *)
Definition exec_fresh (pid : Z) (m : Maps) : Prop :=
  ∀ ref, hm_get (ruleExec m) (rule_key pid ref) = None.
Definition write_fresh (pid : Z) (m : Maps) : Prop :=
  ∀ ref, hm_get (ruleWrite m) (rule_key pid ref) = None.
Definition net_fresh (pid : Z) (m : Maps) : Prop :=
  ∀ k v addr, length addr = 16%nat → lp_entry (ruleNet m) k = Some v →
              lk_covers k (lookup_key pid addr) = false.
End fresh.

Lemma lookup_warrant_same `{KernelMaps} m m' t :
  same_bindings m m' → lookup_warrant m' t = lookup_warrant m t.
Proof. unfold lookup_warrant. by intros (-> & -> & -> & _). Qed.

(** * Network rules: what is in the trie while [Apply] runs *)

Section net.
Context `{KernelMaps} `{!KernelMapsLaws}.

Lemma lk_covers_trans (a b c : netKey) :
  0 <= lk_len a → lk_covers a b = true → lk_covers b c = true → lk_covers a c = true.
Proof.
  rewrite !lk_covers_spec. unfold lk_prefix. intros Ha [H1 H2] [H3 H4]. split; [lia|].
  rewrite H2. apply (f_equal (take (Z.to_nat (lk_len a)))) in H4.
  rewrite !take_take in H4. by rewrite !Nat.min_l in H4 by lia.
Qed.

Lemma lk_covers_at (a b : netKey) :
  lk_len b = lk_len a → lk_prefix b = lk_prefix a → lk_covers a b = true.
Proof.
  intros H1 H2. apply lk_covers_spec. split; [lia|]. rewrite <- H2. unfold lk_prefix.
  by rewrite H1.
Qed.

(** A rule's key matches the lookup of its own network address. *)
Lemma netKeyOf_self pid cidr k :
  netKeyOf pid cidr = Ok k → PrefixLen k <= 160 →
  length (nk_Addr k) = 16%nat ∧ lk_covers k (lookup_key pid (nk_Addr k)) = true.
Proof.
  intros (n & _ & Hbe & Hl & Hmin & _)%netKeyOf_ok Hmax. split; [done|].
  apply lk_covers_spec. split; [exact Hmax|]. unfold lk_prefix.
  change (lk_bits k) with (bits_of (u32_mem (PolicyIDBE k) ++ addr_field (nk_Addr k))).
  by rewrite Hbe.
Qed.

Definition entry_covers (r : NetEntry) (pid : Z) (k : netKey) : Prop :=
  ∃ kr, netKeyOf pid (ne_CIDR r) = Ok kr ∧ PrefixLen kr <= 160 ∧ lk_covers kr k = true.
Definition entry_at (r : NetEntry) (pid : Z) (k : netKey) : Prop :=
  ∃ kr, netKeyOf pid (ne_CIDR r) = Ok kr ∧ PrefixLen kr <= 160 ∧
        lk_len k = lk_len kr ∧ lk_prefix k = lk_prefix kr.
Definition entry_port (r : NetEntry) (p : Z) : Prop := ne_Port r = 0 ∨ p = ne_Port r.

Lemma entry_at_pos r pid k : entry_at r pid k → 32 <= lk_len k.
Proof.
  intros (kr & (_ & _ & _ & _ & Hm & _)%netKeyOf_ok & _ & -> & _). exact Hm.
Qed.
Lemma entry_at_covers r pid k : entry_at r pid k → entry_covers r pid k.
Proof. intros (kr & Hk & Hl & H1 & H2). exists kr. eauto using lk_covers_at. Qed.
Lemma entry_covers_trans r pid k k' :
  entry_covers r pid k → lk_covers k k' = true → entry_covers r pid k'.
Proof.
  intros (kr & Hk & Hl & Hc) Hc'. exists kr. split; [done|]. split; [done|].
  apply netKeyOf_ok in Hk as (_ & _ & _ & _ & ? & _).
  eapply lk_covers_trans; [simpl; lia|done|done].
Qed.

(** What the entries a lookup can reach hold: they sit at a rule's prefix, and
    every port they admit is the port of a rule whose network is around. *)
Definition net_sound (pid : Z) (rules : list NetEntry) (m : Maps) : Prop :=
  ∀ k v a, length a = 16%nat → lp_entry (ruleNet m) k = Some v →
    lk_covers k (lookup_key pid a) = true →
    (∃ r, r ∈ rules ∧ entry_at r pid k) ∧
    ∀ p, ports_admit v p = true →
         ∃ r, r ∈ rules ∧ entry_covers r pid k ∧ ne_Proto r = nv_Proto v ∧ entry_port r p.
Definition net_complete (pid : Z) (rules : list NetEntry) (m : Maps) : Prop :=
  ∀ r, r ∈ rules →
    ∃ kr v, netKeyOf pid (ne_CIDR r) = Ok kr ∧ PrefixLen kr <= 160 ∧
            lp_entry (ruleNet m) kr = Some v ∧ nv_Proto v = ne_Proto r ∧
            ∀ p, entry_port r p → ports_admit v p = true.

(** The state of the trie after the rules [rules] of policy [pid]. *)
Record net_state (pid : Z) (rules : list NetEntry) (m : Maps) : Prop := {
  ns_wf : nets_wf m;
  ns_sound : net_sound pid rules m;
  ns_complete : net_complete pid rules m
}.

Lemma net_state_nil pid m : nets_wf m → net_fresh pid m → net_state pid [] m.
Proof.
  intros Hw Hf. split; [done| |by intros r ?%elem_of_nil].
  intros k v a Ha He Hc. by rewrite (Hf k v a Ha He) in Hc.
Qed.

(** Ports found by looking up a rule's key come from rules around the key. *)
Lemma net_sound_find pid rules m cidr k v0 p :
  net_sound pid rules m → netKeyOf pid cidr = Ok k → PrefixLen k <= 160 →
  lp_find (ruleNet m) k = Some v0 → ports_admit v0 p = true →
  ∃ r, r ∈ rules ∧ entry_covers r pid k ∧ ne_Proto r = nv_Proto v0 ∧ entry_port r p.
Proof.
  intros Hs Hk Hlen (k0 & He0 & Hc0 & _)%lp_find_Some Hadm.
  destruct (netKeyOf_self pid cidr k Hk Hlen) as [Hal Hself].
  assert (lk_covers k0 (lookup_key pid (nk_Addr k)) = true) as Hc1.
  { destruct (Z.le_gt_cases 0 (lk_len k0)); [by eapply lk_covers_trans|].
    apply lk_covers_spec. split; [simpl in *; lia|]. unfold lk_prefix.
    by rewrite !Z2Nat.nonpos by lia. }
  destruct (Hs k0 v0 (nk_Addr k) Hal He0 Hc1) as [_ Hs0].
  destruct (Hs0 p Hadm) as (r & Hr & Hcov & Hrp & Hrq).
  exists r. eauto using entry_covers_trans.
Qed.

Lemma net_sound_step pid rules n m m' :
  nets_wf m → net_sound pid rules m →
  PutNetRule pid (ne_CIDR n) (ne_Port n) (ne_Proto n) m = (m', Ok tt) →
  net_sound pid (rules ++ [n]) m'.
Proof.
  intros Hw Hs (k & v & Hk & Hlen & Hv & Hp & Hm & He & Hpf & Ha)%PutNetRule_ok; [|done].
  intros k' v' a Hla. rewrite He. case_decide as Hd.
  - intros [= <-] Hcov. assert (entry_at n pid k') as Hat by (exists k; tauto).
    assert (n ∈ rules ++ [n]) as Hin by set_solver.
    split; [by exists n|]. intros p Hadm. apply Ha in Hadm as [Hz|[->|(v0 & Hf & Hadm)]].
    + exists n. split; [done|]. split; [by apply entry_at_covers|]. split; [done|by left].
    + exists n. split; [done|]. split; [by apply entry_at_covers|]. split; [done|by right].
    + destruct (net_sound_find pid rules m _ k v0 p Hs Hk Hlen Hf Hadm)
        as (r & Hr & Hc & Hrp & Hrq).
      exists r. split; [set_solver|]. split; [|split; [rewrite Hrp, Hp; by apply Hpf|done]].
      eapply entry_covers_trans; [done|]. by apply lk_covers_at; destruct Hd.
  - intros He' Hcov. destruct (Hs k' v' a Hla He' Hcov) as [(r & Hr & Hat) Hadm].
    split; [exists r; split; [set_solver|done]|].
    intros p Hpp. destruct (Hadm p Hpp) as (r' & Hr' & Hrest). exists r'. split; [set_solver|done].
Qed.

Lemma net_complete_step pid rules n m m' :
  nets_wf m → net_complete pid rules m →
  PutNetRule pid (ne_CIDR n) (ne_Port n) (ne_Proto n) m = (m', Ok tt) →
  net_complete pid (rules ++ [n]) m'.
Proof.
  intros Hw Hc (k & v & Hk & Hlen & Hv & Hp & Hm & He & Hpf & Ha)%PutNetRule_ok r; [|done].
  assert (lp_entry (ruleNet m') k = Some v) as Hkv by (rewrite He; by rewrite decide_True).
  intros [Hr| ->%list_elem_of_singleton]%elem_of_app.
  2:{ exists k, v. repeat split; try done. intros p Hpp. apply Ha.
      destruct Hpp as [?|?]; [by left|by right; left]. }
  destruct (Hc r Hr) as (kr & vr & Hkr & Hlr & Her & Hpr & Har).
  exists kr. rewrite He. case_decide as Hd; [|by exists vr].
  exists v. split; [done|]. split; [done|]. split; [done|].
  pose proof (netKeyOf_ok _ _ _ Hkr) as (_ & _ & _ & _ & Hmin & _).
  assert (lp_find (ruleNet m) k = Some vr) as Hf.
  { destruct Hd as [Hd1 Hd2]. apply (lp_find_unique _ _ kr); try done.
    - simpl; lia.
    - rewrite rn_width. exact Hlen.
    - by apply lk_covers_at.
    - intros k2 v2 _ [Hl2 _]%lk_covers_spec. lia. }
  split; [rewrite Hp; symmetry; rewrite <- Hpr; by apply Hpf|].
  intros p Hpp. apply Ha. right; right. exists vr. eauto.
Qed.

Lemma net_state_apply pid rules m m' :
  nets_wf m → net_fresh pid m →
  mfor rules (λ n, PutNetRule pid (ne_CIDR n) (ne_Port n) (ne_Proto n)) m = (m', Ok tt) →
  net_state pid rules m'.
Proof.
  intros Hw Hf Hrun. refine (mfor_ok_ind (net_state pid) rules _ m m' _ _ Hrun).
  { by apply net_state_nil. }
  intros dn n s1 s2 [Hw1 Hs Hc] _ Hput. split.
  - pose proof (PutNetRule_ok _ _ _ _ _ _ Hw1 Hput) as (k & v & _ & _ & Hv & _ & _ & He & _).
    intros k' v'. rewrite He. case_decide; [naive_solver|]. apply Hw1.
  - by eapply net_sound_step.
  - by eapply net_complete_step.
Qed.
End net.

(** The rules of a fresh policy after [Apply], network rules included. *)
Lemma Apply_net `{KernelMaps} `{!KernelMapsLaws} c m m' :
  nets_wf m → net_fresh (c_PolicyID c) m → Apply c m = (m', Ok tt) →
  net_state (c_PolicyID c) (c_Net c) m'.
Proof.
  intros Hw Hf. unfold Apply.
  intros (m1 & [] & (Ha & _)%write_loop & Hr)%mbnd_ok.
  apply mbnd_ok in Hr as (m2 & [] & (Hb & _)%write_loop & Hr).
  apply mbnd_ok in Hr as (m3 & [] & [Hc _]%exec_loop & Hn).
  assert (ruleNet m3 = ruleNet m) as En by (rewrite Hc, Hb, Ha; done).
  eapply net_state_apply; [| |exact Hn].
  - intros k v. rewrite En. apply Hw.
  - intros k v a. rewrite En. apply Hf.
Qed.

(** A nearest-first walk that meets only denials before a recursive one. *)
Lemma write_walk_denied rules pid fuel depth chain i f v :
  chain !! i = Some (Some f) →
  (∀ j g u, (j < i)%nat → chain !! j = Some (Some g) → rules (rule_key pid g) = Some u →
            wv_Effect u ≠ EffectAllowByte) →
  rules (rule_key pid f) = Some v → wv_Effect v ≠ EffectAllowByte → wv_Recursive v ≠ 0 →
  write_walk rules pid fuel depth chain = false.
Proof.
  intros Hi Hnear Hf Hv Hrec. revert depth chain i Hi Hnear.
  induction fuel as [|n IH]; intros depth chain i Hi Hnear; [done|].
  destruct chain as [|d up]; [done|]. destruct i as [|i]; simpl in *.
  - injection Hi as ->. rewrite Hf. apply Z.eqb_neq in Hv, Hrec. by rewrite Hv, Hrec, orb_true_r.
  - assert (write_walk rules pid n (S depth) up = false) as Hup.
    { apply (IH _ _ i); [done|]. intros j g u Hj. apply (Hnear (S j)). lia. }
    destruct (match d with Some r => rules (rule_key pid r) | None => None end) as [u|] eqn:Ed;
      [|done].
    destruct d as [g|]; [|done].
    rewrite Hup. specialize (Hnear O g u ltac:(lia) eq_refl Ed). apply Z.eqb_neq in Hnear.
    rewrite Hnear. by destruct (_ || _).
Qed.

Section verdicts.
Context `{KernelMaps} `{!KernelMapsLaws}.

(** A task under a live, enforced warrant on policy [pid]. *)
Definition enforced (m : Maps) (t : task) (now pid : Z) : Prop :=
  ∃ wid tag w, lookup_warrant m t = Some (wid, tag, w) ∧ validity w now = 0 ∧
               Mode w = ModeEnforce ∧ PolicyID w = pid.

Lemma enforced_same m m' t now pid :
  same_bindings m m' → enforced m t now pid → enforced m' t now pid.
Proof.
  intros Hs (wid & tag & w & Hl & Hrest). exists wid, tag, w.
  by rewrite (lookup_warrant_same _ _ _ Hs).
Qed.

(** A task under a live warrant, in any mode. *)
Definition judged (m : Maps) (t : task) (now : Z) (w : KWarrant) : Prop :=
  ∃ wid tag, lookup_warrant m t = Some (wid, tag, w) ∧ validity w now = 0.

Lemma judged_exec m t now w f :
  judged m t now w →
  bprm_verdict m t now f =
  let denied := negb (bool_decide (is_Some (hm_get (ruleExec m) (rule_key (PolicyID w) f)))) in
  (ret_of w denied, Some (verdict_of w denied)).
Proof. intros (wid & tag & Hl & Hv). unfold bprm_verdict. rewrite Hl, Hv. simpl. by destruct (hm_get _ _). Qed.
Lemma judged_write m t now w fmode chain :
  judged m t now w → Z.land fmode FMODE_WRITE ≠ 0 →
  file_verdict m t now fmode ORIGIN_LSM chain =
  let denied := negb (dentry_write_allowed (hm_get (ruleWrite m)) (PolicyID w) chain) in
  (ret_of w denied, if denied then Some (verdict_of w denied) else None).
Proof.
  intros (wid & tag & Hl & Hv) Hfm. unfold file_verdict, write_denied.
  apply Z.eqb_neq in Hfm. by rewrite Hl, Hv, Hfm.
Qed.
Lemma judged_connect m t now w a addr port :
  judged m t now w → inet_dest a addr port →
  connect_verdict m t now a =
  let denied := negb (net_allowed m (PolicyID w) addr port ProtoTCP) in
  (ret_of w denied, Some (verdict_of w denied)).
Proof.
  intros (wid & tag & Hl & Hv) Ha. unfold connect_verdict, net_denied. rewrite Hl, Hv.
  destruct Ha as [a4 p Hlen|x p _]; [|done]. by rewrite To16_mapped.
Qed.

(** The enforcing mode turns the verdict into the return value. *)
Lemma enforced_judged m t now pid :
  enforced m t now pid → ∃ w, judged m t now w ∧ Mode w = ModeEnforce ∧ PolicyID w = pid.
Proof. intros (wid & tag & w & Hl & Hv & Hm). exists w. split; [by exists wid, tag|done]. Qed.
Lemma enforced_exec m t now pid f :
  enforced m t now pid →
  bprm_verdict m t now f =
  match hm_get (ruleExec m) (rule_key pid f) with
  | Some _ => (0, Some VERDICT_ALLOW)
  | None => (- EPERM, Some VERDICT_DENY)
  end.
Proof.
  intros (w & Hj & Hm & <-)%enforced_judged. rewrite (judged_exec _ _ _ w) by done.
  unfold ret_of, verdict_of. rewrite Hm. by destruct (hm_get _ _).
Qed.
Lemma enforced_write m t now pid fmode chain :
  enforced m t now pid → Z.land fmode FMODE_WRITE ≠ 0 →
  file_verdict m t now fmode ORIGIN_LSM chain =
  (if dentry_write_allowed (hm_get (ruleWrite m)) pid chain then (0, None)
   else (- EPERM, Some VERDICT_DENY)).
Proof.
  intros (w & Hj & Hm & <-)%enforced_judged Hfm. rewrite (judged_write _ _ _ w) by done.
  unfold ret_of, verdict_of. rewrite Hm. by destruct (dentry_write_allowed _ _ _).
Qed.
Lemma enforced_connect m t now pid a addr port :
  enforced m t now pid → inet_dest a addr port →
  connect_verdict m t now a =
  (if net_allowed m pid addr port ProtoTCP then (0, Some VERDICT_ALLOW)
   else (- EPERM, Some VERDICT_DENY)).
Proof.
  intros (w & Hj & Hm & <-)%enforced_judged Ha. rewrite (judged_connect _ _ _ w _ addr port) by done.
  unfold ret_of, verdict_of. rewrite Hm. by destruct (net_allowed _ _ _ _ _).
Qed.

(** The kernel's decision on a well-formed entry is [ports_admit] and the
    protocol test. *)
Lemma net_allowed_find m pid addr port proto v :
  nets_wf m → lp_find (ruleNet m) (lookup_key pid addr) = Some v →
  net_allowed m pid addr port proto =
  ((nv_Proto v =? 0) || (nv_Proto v =? proto)) && ports_admit v port.
Proof.
  intros Hw Hf. unfold net_allowed. rewrite Hf.
  pose proof (lp_find_Some _ _ _ Hf) as (k & He & _). destruct (Hw k v He) as [Hn _].
  unfold ports_admit. rewrite Z.min_l by lia.
  destruct (nv_Proto v =? 0), (nv_Proto v =? proto), (NPorts v =? 0); done.
Qed.
(** An admitted connection has its entry. *)
Lemma net_allowed_entry m pid addr port proto :
  nets_wf m → net_allowed m pid addr port proto = true →
  ∃ k v, lp_entry (ruleNet m) k = Some v ∧ lk_covers k (lookup_key pid addr) = true ∧
         ports_admit v port = true ∧ (nv_Proto v = ProtoAny ∨ nv_Proto v = proto).
Proof.
  intros Hw Hn. destruct (lp_find (ruleNet m) (lookup_key pid addr)) as [v|] eqn:Ef.
  2:{ unfold net_allowed in Hn. by rewrite Ef in Hn. }
  rewrite (net_allowed_find _ _ _ _ _ v) in Hn by done. apply andb_true_iff in Hn as [Hpr Hadm].
  pose proof (lp_find_Some _ _ _ Ef) as (k & He & Hc & _). exists k, v.
  apply orb_true_iff in Hpr as [?%Z.eqb_eq|?%Z.eqb_eq]; auto.
Qed.
End verdicts.

(** In fresh maps the write rules after [Apply] are the policy's. *)
Lemma write_rules_exact `{KernelMaps} c m m' :
  write_fresh (c_PolicyID c) m →
  (∀ f, hm_get (ruleWrite m') (rule_key (c_PolicyID c) f) =
        match write_rule_of c f with
        | Some v => Some v
        | None => hm_get (ruleWrite m) (rule_key (c_PolicyID c) f)
        end) →
  ∀ f, hm_get (ruleWrite m') (rule_key (c_PolicyID c) f) = write_rule_of c f.
Proof. intros Hf Hwr f. rewrite Hwr, Hf. by destruct (write_rule_of c f). Qed.

(** A rule that covers the lookup of an address is one of the looked-up policy,
    and its network contains the address. *)
Lemma entry_covers_lookup r pid pid' addr :
  is_u32 pid → is_u32 pid' → length addr = 16%nat → entry_covers r pid (lookup_key pid' addr) →
  pid = pid' ∧ ∃ n, ParseCIDR (ne_CIDR r) = Ok n ∧ cidr_contains n addr.
Proof.
  intros Hp Hp' Hl (k & Hk & Hlen & Hc). destruct (netKeyOf_ok _ _ _ Hk) as (n & Hn & _).
  destruct (proj1 (netKeyOf_covers pid pid' (ne_CIDR r) n k addr Hp Hp' Hl Hn Hk Hlen) Hc) as [-> Hcon].
  split; [done|]. by exists n.
Qed.

(** A trie that holds the rules of a policy, and the kernel's decision. *)
Section decision.
Context `{KernelMaps} `{!KernelMapsLaws} (pid : Z) (rules : list NetEntry) (m : Maps) (addr : list Z).
Hypothesis Hpid : is_u32 pid.
Hypothesis Hst : net_state pid rules m.
Hypothesis Hl : length addr = 16%nat.

Lemma net_state_sound port proto :
  net_allowed m pid addr port proto = true →
  ∃ r n, r ∈ rules ∧ ParseCIDR (ne_CIDR r) = Ok n ∧ cidr_contains n addr ∧
         (ne_Port r = 0 ∨ port = ne_Port r) ∧ (ne_Proto r = ProtoAny ∨ ne_Proto r = proto).
Proof.
  destruct Hst as [Hw Hs _]. intros Hn.
  destruct (net_allowed_entry _ _ _ _ _ Hw Hn) as (k & v & Hent & Hc & Hadm & Hpr).
  destruct (Hs k v addr Hl Hent Hc) as [_ Hall].
  destruct (Hall port Hadm) as (r & Hr & Hcov & Hrp & Hrq).
  destruct (entry_covers_lookup _ _ _ _ Hpid Hpid Hl (entry_covers_trans _ _ _ _ Hcov Hc)) as (_ & n & Hn' & Hcon).
  exists r, n. rewrite Hrp. by repeat split.
Qed.

(** The rule with the longest network is the one found. *)
Definition longest (n : IPNet) : Prop :=
  ∀ r' n', r' ∈ rules → ParseCIDR (ne_CIDR r') = Ok n' → cidr_contains n' addr → (cidr_bits n' <= cidr_bits n)%nat.
Lemma net_state_find r n :
  r ∈ rules → ParseCIDR (ne_CIDR r) = Ok n → cidr_contains n addr → longest n →
  ∃ v, lp_find (ruleNet m) (lookup_key pid addr) = Some v ∧ nv_Proto v = ne_Proto r ∧
       ∀ p, entry_port r p → ports_admit v p = true.
Proof.
  destruct Hst as [_ Hs Hc]. intros Hr Hn Hcon Hlong.
  destruct (Hc r Hr) as (kr & v & Hk & Hlen & Hent & Hvp & Hadm). exists v. split; [|done].
  destruct (netKeyOf_ok _ _ _ Hk) as (n0 & Hn0 & _ & _ & Hmin & Hfin).
  rewrite Hn in Hn0. injection Hn0 as <-. destruct (Hfin Hlen) as [_ Hkl].
  apply (lp_find_unique _ _ kr); [simpl; lia|by rewrite rn_width|done| |]; [by eapply netKeyOf_covers|].
  intros k' v' He' Hc'. destruct (Hs k' v' addr Hl He' Hc') as [(r' & Hr' & Hat) _].
  pose proof (entry_at_covers _ _ _ Hat) as Hcov'.
  destruct (entry_covers_lookup _ _ _ _ Hpid Hpid Hl (entry_covers_trans _ _ _ _ Hcov' Hc')) as (_ & n' & Hn' & Hcon').
  destruct Hat as (kr' & Hk' & Hlen' & Hll & _).
  destruct (netKeyOf_ok _ _ _ Hk') as (n2 & Hn2 & _ & _ & _ & Hfin'). destruct (Hfin' Hlen') as [_ Hkl'].
  specialize (Hlong r' n' Hr' Hn' Hcon'). rewrite Hn' in Hn2. injection Hn2 as <-. rewrite Hll. simpl. lia.
Qed.
Lemma net_state_longest r n port proto :
  r ∈ rules → ParseCIDR (ne_CIDR r) = Ok n → cidr_contains n addr → longest n →
  (ne_Port r = 0 ∨ port = ne_Port r) → (ne_Proto r = ProtoAny ∨ ne_Proto r = proto) →
  net_allowed m pid addr port proto = true.
Proof.
  intros Hr Hn Hcon Hlong Hport Hproto. destruct (net_state_find r n Hr Hn Hcon Hlong) as (v & Hf & Hvp & Hadm).
  rewrite (net_allowed_find _ _ _ _ _ v) by (done || apply Hst). rewrite (Hadm port Hport), Hvp, andb_true_r.
  apply orb_true_iff. rewrite !Z.eqb_eq. exact Hproto.
Qed.
End decision.

(** ** The walk, declaratively *)

(** A rule counts for the file itself, for its parent's children, and below when
    it is recursive. *)
Definition reaches (depth : nat) (v : writeVal) : Prop := (depth <= 1)%nat ∨ wv_Recursive v ≠ 0.
Lemma reaches_spec depth v :
  reflect (reaches depth v) ((depth =? 0)%nat || negb (wv_Recursive v =? 0) || (depth =? 1)%nat).
Proof.
  apply iff_reflect. unfold reaches. rewrite !orb_true_iff, negb_true_iff, Z.eqb_neq, !Nat.eqb_eq. lia.
Qed.
(** The rule [v] of place [i] decides: no nearer one counts. *)
Definition decides (rule : FileRef → option writeVal) (depth : nat) (chain : list (option FileRef))
    (i : nat) (v : writeVal) : Prop :=
  (∃ f, chain !! i = Some (Some f) ∧ rule f = Some v) ∧ reaches (depth + i) v ∧
  ∀ j g u, (j < i)%nat → chain !! j = Some (Some g) → rule g = Some u → ¬ reaches (depth + j) u.
Definition may_write (rule : FileRef → option writeVal) (depth fuel : nat) (chain : list (option FileRef)) : Prop :=
  ∃ i v, (i < fuel)%nat ∧ decides rule depth chain i v ∧ wv_Effect v = EffectAllowByte.

Lemma may_write_here rule depth n f up v :
  rule f = Some v → reaches depth v →
  may_write rule depth (S n) (Some f :: up) ↔ wv_Effect v = EffectAllowByte.
Proof.
  intros Hf Hr. split.
  - intros ([|i] & u & _ & ((g & Hg & Hu) & _ & Hn) & He); simpl in *; [congruence|].
    destruct (Hn 0%nat f v); [lia|done|done|by rewrite Nat.add_0_r].
  - intros He. exists 0%nat, v. split; [lia|]. split; [|done]. split; [by exists f|].
    split; [by rewrite Nat.add_0_r|]. intros j g u Hj. lia.
Qed.
Lemma may_write_up rule depth n d up :
  (∀ f v, d = Some f → rule f = Some v → ¬ reaches depth v) →
  may_write rule depth (S n) (d :: up) ↔ may_write rule (S depth) n up.
Proof.
  intros Hd. split.
  - intros ([|i] & v & Hi & ((f & Hf & Hv) & Hr & Hn) & He); simpl in *.
    { injection Hf as ->. rewrite Nat.add_0_r in Hr. by destruct (Hd f v). }
    exists i, v. split; [lia|]. split; [|done]. split; [by exists f|]. split; [by rewrite Nat.add_succ_r in Hr|].
    intros j g u Hj Hg Hu Hru. apply (Hn (S j) g u); [lia|done|done|]. by rewrite Nat.add_succ_r.
  - intros (i & v & Hi & ((f & Hf & Hv) & Hr & Hn) & He). exists (S i), v. split; [lia|]. split; [|done].
    split; [by exists f|]. split; [by rewrite Nat.add_succ_r|]. intros [|j] g u Hj Hg Hu; simpl in Hg.
    + injection Hg as ->. rewrite Nat.add_0_r. by eapply Hd.
    + rewrite Nat.add_succ_r. apply (Hn j g u); [lia|done|done].
Qed.
(** The walk admits exactly the writes whose deciding rule allows them. *)
Lemma write_walk_iff rules pid fuel depth chain :
  write_walk rules pid fuel depth chain = true ↔ may_write (λ f, rules (rule_key pid f)) depth fuel chain.
Proof.
  revert depth chain. induction fuel as [|n IH]; intros depth chain.
  { simpl. split; [done|]. intros (i & v & Hi & _). lia. }
  destruct chain as [|d up]; simpl.
  { split; [done|]. intros (i & v & _ & ((f & Hf & _) & _) & _). by rewrite lookup_nil in Hf. }
  destruct d as [f|]; [destruct (rules (rule_key pid f)) as [v|] eqn:E|].
  - destruct (reaches_spec depth v) as [Hr|Hr].
    + rewrite (may_write_here _ _ _ _ _ v) by done. by rewrite Z.eqb_eq.
    + rewrite IH, may_write_up; [done|]. intros g u [= <-] Hu. simpl in Hu. rewrite E in Hu. by injection Hu as <-.
  - rewrite IH, may_write_up; [done|]. intros g u [= <-] Hu. simpl in Hu. congruence.
  - rewrite IH, may_write_up; [done|]. done.
Qed.
Lemma may_write_ext rule rule' depth fuel chain :
  (∀ f, rule f = rule' f) → may_write rule depth fuel chain → may_write rule' depth fuel chain.
Proof.
  intros He (i & v & Hi & ((f & Hf & Hv) & Hr & Hn) & Ha). exists i, v. split; [done|]. split; [|done].
  split; [exists f; by rewrite <- He|]. split; [done|]. intros j g u. rewrite <- He. apply Hn.
Qed.
Lemma dentry_may_write rules pid rule chain :
  (∀ f, rules (rule_key pid f) = rule f) →
  dentry_write_allowed rules pid chain = true ↔ may_write rule 0 WALK_MAX chain.
Proof. intros He. unfold dentry_write_allowed. rewrite write_walk_iff. split; by apply may_write_ext. Qed.

(** * A demonstration warrant and task *)

Definition demo_kwarrant : KWarrant := mkKWarrant 1000 0 1 7 0 ModeEnforce 0 0 0.
(** Maps with one bound session and no rules. *)
Definition demo_bound : Maps :=
  mkMaps _ (BPercpu 2 [1; 1]) (BHash 4096 {[ 77 := 9 ]}) (BHash 4096 {[ 9 := demo_kwarrant ]})
         (BHash 65536 ∅) (BHash 65536 ∅) (BLpm 8192 ∅) 2.
Definition demo_applied : Maps := fst (Apply demo_compiled demo_bound).
Definition demo_task : task := mkTask 1 77 None.

Lemma demo_applies : Apply demo_compiled demo_bound = (demo_applied, Ok tt).
Proof.
  unfold demo_applied. rewrite <- (run_named (Apply demo_compiled) demo_bound (Ok tt)); [done|].
  vm_compute. reflexivity.
Qed.
Lemma demo_enforced : enforced demo_bound demo_task 500 7.
Proof. exists 9, TAG_CGROUP, demo_kwarrant. repeat split. Qed.
Lemma demo_fresh :
  nets_wf demo_bound ∧ exec_fresh 7 demo_bound ∧ write_fresh 7 demo_bound ∧ net_fresh 7 demo_bound.
Proof.
  split; [|split; [|split]].
  - intros k v He. pose proof (eq_trans (eq_sym (blpm_empty_entry 8192 k)) He). done.
  - intros k. apply lookup_empty.
  - intros k. apply lookup_empty.
  - intros k v a _ He. pose proof (eq_trans (eq_sym (blpm_empty_entry 8192 k)) He). done.
Qed.

(** * Properties *)

(** C3: exec is decided by the policy as written.  Once a policy compiles and is
    applied under an id with no older rules, a task of a live, enforced warrant
    on it may run exactly the files of the compiled exec list, every other exec
    is refused with EPERM, and the file every exec rule named at a moment of the
    compilation can be run. *)
Theorem exec_enforced `{Os} `{KernelMaps} `{!KernelMapsLaws}
    pid s t0 t1 c (m m' : Maps) t now :
  Compile pid (ASpecVal s) t0 = (t1, Ok c) →
  nets_wf m → exec_fresh pid m → Apply c m = (m', Ok tt) → enforced m t now pid →
  (∀ f, bprm_verdict m' t now f = if bool_decide (f ∈ c_Exec c) then (0, Some VERDICT_ALLOW)
                                  else (- EPERM, Some VERDICT_DENY)) ∧
  Forall (λ r, ∃ u st, (t0 <= u < t1)%nat ∧ unix_Stat u (er_Path r) = Ok st ∧
                       bprm_verdict m' t now (FileRefFromStat st) = (0, Some VERDICT_ALLOW))
         (s_ExecRules s).
Proof.
  intros HC Hw Hf Ha He. pose proof (Compile_provenance _ _ _ _ _ HC) as (Hpid & _).
  apply Compile_ok_inv in HC as (s' & st & _ & [[= <-]|?] & -> & -> & E); [|done].
  apply compile_body_ok in E as (Hexec & _); [|done].
  apply Apply_ok in Ha as (Hs & _ & _ & Hex & _); [|done].
  assert (∀ f, bprm_verdict m' t now f =
     if bool_decide (f ∈ c_Exec (cs_c st)) then (0, Some VERDICT_ALLOW)
     else (- EPERM, Some VERDICT_DENY)) as Hv.
  { intros f. rewrite (enforced_exec _ _ _ pid) by (by eapply enforced_same).
    rewrite Hex, Hpid, Hf. rewrite (bool_decide_ext (rule_key pid f ∈ _) (f ∈ c_Exec (cs_c st))).
    - by case_bool_decide.
    - rewrite list_elem_of_fmap. split; [|by exists f]. by intros (g & ->%rule_key_inj & Hg). }
  split; [done|]. eapply Forall_impl; [exact Hexec|].
  intros r (_ & u & d & Hwin & Hu & _ & Hd). exists u, d. split; [done|]. split; [done|].
  by rewrite Hv, bool_decide_true.
Qed.
Lemma exec_enforced_witness :
  bprm_verdict demo_applied demo_task 500 (ref 101) = (0, Some VERDICT_ALLOW) ∧
  bprm_verdict demo_applied demo_task 500 (ref 102) = (-1, Some VERDICT_DENY).
Proof.
  destruct demo_fresh as (H1 & H2 & _).
  destruct (@exec_enforced demo_os _ _ 7 demo_spec 0 16 _ _ _ _ 500 demo_compiles H1 H2
              demo_applies demo_enforced) as [Hv _].
  split; rewrite Hv; vm_compute; reflexivity.
Defined.

(** No inode has rules of the policy with both effects. *)
Definition unambiguous (c : Compiled) : Prop :=
  ∀ w w', w ∈ c_Write c → w' ∈ c_Write c → we_Ref w = we_Ref w' → we_Allow w = we_Allow w'.
(** The last rule the policy has on a file. *)
Definition rule_on (c : Compiled) (f : FileRef) : option writeVal :=
  (λ w, write_val (we_Allow w) (we_Recursive w)) <$> find_last (λ w, bool_decide (we_Ref w = f)) (c_Write c).
Lemma unambiguous_rule c f : unambiguous c → write_rule_of c f = rule_on c f.
Proof.
  intros Hc. unfold write_rule_of, rule_on.
  destruct (find_last (λ w, bool_decide (we_Ref w = f)) (c_Write c)) as [x|] eqn:Ex; simpl.
  2:{ rewrite find_last_None in Ex. by rewrite !(proj2 (find_last_None _ _)) by (intros y Hy; by rewrite Ex, andb_false_r). }
  pose proof (find_last_Some _ _ _ Ex) as [Hx Hr%bool_decide_eq_true].
  assert (∀ w, w ∈ c_Write c → we_Ref w = f → we_Allow w = we_Allow x) as Hall by (intros w Hw Hf; apply Hc; congruence || done).
  destruct (we_Allow x) eqn:Ea.
  - rewrite (find_last_ext _ (λ w, bool_decide (we_Ref w = f))), Ex; [done|]. intros w Hw.
    case_bool_decide as Hf; [by rewrite Hall|by rewrite andb_false_r].
  - rewrite (proj2 (find_last_None _ _)).
    2:{ intros w Hw. case_bool_decide as Hf; [by rewrite Hall|by rewrite andb_false_r]. }
    rewrite (find_last_ext _ (λ w, bool_decide (we_Ref w = f))), Ex; [done|]. intros w Hw.
    case_bool_decide as Hf; [by rewrite Hall|by rewrite andb_false_r].
Qed.

Definition below_w : list (option FileRef) := [Some (ref 900); Some (ref 800); Some (ref 41); Some (ref 40)].
Definition in_secret : list (option FileRef) := [None; Some (ref 42); Some (ref 41); Some (ref 40)].
Lemma demo_unambiguous : unambiguous demo_compiled.
Proof.
  assert (forallb (λ w, forallb (λ w', negb (bool_decide (we_Ref w = we_Ref w')) || Bool.eqb (we_Allow w) (we_Allow w'))
    (c_Write demo_compiled)) (c_Write demo_compiled) = true) as Hb by (vm_compute; reflexivity).
  rewrite forallb_forall in Hb. intros w w' Hw%list_elem_of_In Hw'%list_elem_of_In Hr.
  specialize (Hb w Hw). rewrite forallb_forall in Hb. specialize (Hb w' Hw').
  rewrite bool_decide_true in Hb by done. by apply eqb_prop in Hb.
Qed.

(** C7: the agent's own directories cannot be written.  Whatever the policy, a
    protected directory that exists while it compiles is closed to enforced
    tasks at any depth, unless the policy itself has a rule on the directory
    or an ALLOW on something below it. *)
Theorem selfprotect_enforced `{Os} `{KernelMaps} `{!KernelMapsLaws}
    pid s t0 t1 c (m m' : Maps) t now fmode chain i p d :
  Compile pid (ASpecVal s) t0 = (t1, Ok c) →
  p ∈ DefaultDenyWrite → (∀ u, (t0 <= u < t1)%nat → unix_Stat u p = Ok d) →
  nets_wf m → write_fresh pid m → Apply c m = (m', Ok tt) →
  enforced m t now pid → Z.land fmode FMODE_WRITE ≠ 0 →
  chain !! i = Some (Some (FileRefFromStat d)) →
  (∀ w, w ∈ c_Write c → we_Ref w = FileRefFromStat d → we_Recursive w = true) →
  (∀ w j, w ∈ c_Write c → we_Allow w = true → (j <= i)%nat → chain !! j ≠ Some (Some (we_Ref w))) →
  file_verdict m' t now fmode ORIGIN_LSM chain = (- EPERM, Some VERDICT_DENY).
Proof.
  intros HC Hp Hst Hw Hf Ha He Hfm Hi Hrec Hno.
  pose proof (Compile_provenance _ _ _ _ _ HC) as (Hpid & _).
  apply Compile_ok_inv in HC as (s' & st & _ & [[= <-]|?] & -> & -> & E); [|done].
  apply compile_body_ok in E as (_ & (defs & ws & Hcw & _ & Hd) & _); [|done].
  specialize (Hd p d Hp Hst). rewrite <- Hpid in Hf, He.
  apply Apply_ok in Ha as (Hs & _ & Hwr & _); [|done].
  rewrite (enforced_write _ _ _ (c_PolicyID (cs_c st))) by (done || by eapply enforced_same).
  assert (∀ j g, (j <= i)%nat → chain !! j = Some (Some g) →
            find_last (λ w, we_Allow w && bool_decide (we_Ref w = g)) (c_Write (cs_c st)) = None) as Hnone.
  { intros j g Hj Hg. apply find_last_None. intros w Hin.
    destruct (we_Allow w) eqn:Ew; [|done]. apply bool_decide_eq_false. intros <-.
    by apply (Hno w j). }
  destruct (find_last (λ w, negb (we_Allow w) && bool_decide (we_Ref w = FileRefFromStat d))
              (c_Write (cs_c st))) as [w|] eqn:Ed.
  2:{ rewrite find_last_None in Ed. specialize (Ed (mkWriteEntry (FileRefFromStat d) false true)).
      simpl in Ed. rewrite bool_decide_true in Ed by done. discriminate Ed.
      rewrite Hcw. apply elem_of_app. by left. }
  unfold dentry_write_allowed.
  rewrite (write_walk_denied _ _ _ _ _ i (FileRefFromStat d) (write_val false (we_Recursive w)));
    [done|done| | |done|].
  - intros j g u Hj Hg. rewrite Hwr. unfold write_rule_of. rewrite (Hnone j g) by (done || lia).
    rewrite Hf. intros Hu. repeat case_match; by simplify_eq/=.
  - rewrite Hwr. unfold write_rule_of. by rewrite (Hnone i), Ed by (done || lia).
  - apply find_last_Some in Ed as [Hin [_ Hr%bool_decide_eq_true]%andb_true_iff].
    simpl. by rewrite (Hrec w Hin Hr).
Qed.
Lemma selfprotect_enforced_witness :
  file_verdict demo_applied demo_task 500 2 ORIGIN_LSM
    [Some (ref 901); Some (ref 801); Some (ref 60)] = (-1, Some VERDICT_DENY).
Proof.
  destruct demo_fresh as (H1 & _ & H3 & _).
  apply (@selfprotect_enforced demo_os _ _ 7 demo_spec 0 16 demo_compiled demo_bound demo_applied
           demo_task 500 2 _ 2 "/var/lib/warrantd" (dir 60) demo_compiles);
    [|done|done|done|apply demo_applies|apply demo_enforced|vm_compute; done|done| |].
  - apply list_elem_of_here.
  - apply (Forall_forall (λ w, we_Ref w = ref 60 → we_Recursive w = true)). vm_compute.
    repeat constructor; congruence.
  - intros w j Hw. revert w Hw.
    apply (Forall_forall (λ w, we_Allow w = true → (j <= 2)%nat →
      [Some (ref 901); Some (ref 801); Some (ref 60)] !! j ≠ Some (Some (we_Ref w)))).
    vm_compute. repeat constructor; intros; try done; destruct j as [|[|[|j]]]; simpl; try done; lia.
Defined.

(** An ALLOW beats a DENY on the same inode: whenever the policy has an
    ALLOW entry on an inode, the maps allow writing it, whatever DENY entries
    the policy or the built-in self-protection put on it. *)
Theorem allow_overrides_deny `{KernelMaps} `{!KernelMapsLaws}
    c (m m' : Maps) t now fmode up w :
  nets_wf m → Apply c m = (m', Ok tt) → enforced m t now (c_PolicyID c) →
  w ∈ c_Write c → we_Allow w = true →
  file_verdict m' t now fmode ORIGIN_LSM (Some (we_Ref w) :: up) = (0, None).
Proof.
  intros Hw Ha He Hin Hal. apply Apply_ok in Ha as (Hs & _ & Hwr & _); [|done].
  destruct (Z.eq_dec (Z.land fmode FMODE_WRITE) 0) as [Hz|Hnz].
  { destruct (enforced_same _ _ _ _ _ Hs He) as (wid & tag & kw & Hl & _).
    unfold file_verdict. by rewrite Hl, Hz. }
  rewrite (enforced_write _ _ _ (c_PolicyID c)) by (done || by eapply enforced_same).
  destruct (find_last (λ x, we_Allow x && bool_decide (we_Ref x = we_Ref w)) (c_Write c))
    as [x|] eqn:Ex.
  - erewrite dentry_write_self; [|rewrite Hwr; unfold write_rule_of; by rewrite Ex]. done.
  - rewrite find_last_None in Ex. specialize (Ex w Hin). rewrite Hal, bool_decide_true in Ex; done.
Qed.
(** A policy that allows the agent's own state directory. *)
Definition reopen_spec : Spec :=
  mkSpec "reopen" [] [mkWriteRule "/var/lib/warrantd" true EffectAllow] [] [] false false.
Definition reopen_compiled : Compiled :=
  match @Compile demo_os 7 (ASpecVal reopen_spec) 0 with
  | (_, Ok c) => c
  | _ => empty_Compiled 7
  end.
Lemma allow_overrides_deny_witness :
  mkWriteEntry (ref 60) false true ∈ c_Write reopen_compiled ∧
  file_verdict (fst (Apply reopen_compiled demo_bound)) demo_task 500 2 ORIGIN_LSM [Some (ref 60)]
  = (0, None).
Proof.
  split; [vm_compute; repeat constructor|].
  apply (allow_overrides_deny reopen_compiled demo_bound _ demo_task 500 2 []
           (mkWriteEntry (ref 60) true true)).
  - apply demo_fresh.
  - apply run_named. vm_compute. reflexivity.
  - apply demo_enforced.
  - vm_compute. repeat constructor.
  - reflexivity.
Defined.

(** C5: no outbound connection beyond the rules.  If an enforced task may
    connect to an IPv4 or IPv6 address, some rule of the policy parses to a network that contains the
    address, names the port (0 is every port) and a protocol that is TCP or
    any. *)
Theorem net_sound_enforced `{KernelMaps} `{!KernelMapsLaws}
    c (m m' : Maps) t now a addr port :
  is_u32 (c_PolicyID c) → nets_wf m → net_fresh (c_PolicyID c) m → Apply c m = (m', Ok tt) →
  enforced m t now (c_PolicyID c) → inet_dest a addr port →
  fst (connect_verdict m' t now a) = 0 →
  ∃ r n, r ∈ c_Net c ∧ ParseCIDR (ne_CIDR r) = Ok n ∧ cidr_contains n addr ∧
         (ne_Port r = 0 ∨ port = ne_Port r) ∧ (ne_Proto r = ProtoAny ∨ ne_Proto r = ProtoTCP).
Proof.
  intros Hpid Hw Hf Ha He Hd Hv. pose proof (Apply_net c m m' Hw Hf Ha) as Hst.
  pose proof (inet_dest_length _ _ _ Hd) as Hl. apply Apply_ok in Ha as (Hsb & _); [|done].
  rewrite (enforced_connect _ _ _ (c_PolicyID c) _ addr port) in Hv by (done || by eapply enforced_same).
  destruct (net_allowed _ _ _ _ _) eqn:Hn; [|done]. exact (net_state_sound _ _ _ _ Hpid Hst Hl _ _ Hn).
Qed.
Definition addr_10_1_2_3 : list Z := To16 [10; 1; 2; 3].
Definition net_10_1 : IPNet := mkIPNet [10; 1; 0; 0] 16.
Lemma net_sound_enforced_witness :
  ∃ r n, r ∈ c_Net demo_compiled ∧ ParseCIDR (ne_CIDR r) = Ok n ∧ cidr_contains n addr_10_1_2_3 ∧
         (ne_Port r = 0 ∨ 443 = ne_Port r) ∧ (ne_Proto r = ProtoAny ∨ ne_Proto r = ProtoTCP).
Proof.
  destruct demo_fresh as (H1 & _ & _ & H4).
  apply (net_sound_enforced demo_compiled demo_bound demo_applied demo_task 500 (SockInet [10; 1; 2; 3] 443)
    addr_10_1_2_3 443); [vm_compute; done|done|done|apply demo_applies|apply demo_enforced|by apply DestV4|].
  vm_compute. reflexivity.
Defined.

(** C6: the rule with the longest network decides.  If a rule's network contains
    an IPv4 or IPv6 address and no rule of the policy with a longer network does, an
    enforced task may connect to the rule's port (any port for 0) when the
    rule's protocol is TCP or any. *)
Theorem net_complete_enforced `{KernelMaps} `{!KernelMapsLaws}
    c (m m' : Maps) t now a addr port r n :
  is_u32 (c_PolicyID c) → nets_wf m → net_fresh (c_PolicyID c) m → Apply c m = (m', Ok tt) →
  enforced m t now (c_PolicyID c) → inet_dest a addr port →
  r ∈ c_Net c → ParseCIDR (ne_CIDR r) = Ok n → cidr_contains n addr →
  (∀ r' n', r' ∈ c_Net c → ParseCIDR (ne_CIDR r') = Ok n' → cidr_contains n' addr →
            (cidr_bits n' <= cidr_bits n)%nat) →
  (ne_Port r = 0 ∨ port = ne_Port r) → (ne_Proto r = ProtoAny ∨ ne_Proto r = ProtoTCP) →
  connect_verdict m' t now a = (0, Some VERDICT_ALLOW).
Proof.
  intros Hpid Hw Hf Ha He Hd Hr Hn Hcon Hlong Hport Hproto. pose proof (Apply_net c m m' Hw Hf Ha) as Hst.
  pose proof (inet_dest_length _ _ _ Hd) as Hl. apply Apply_ok in Ha as (Hsb & _); [|done].
  rewrite (enforced_connect _ _ _ (c_PolicyID c) _ addr port) by (done || by eapply enforced_same).
  by rewrite (net_state_longest _ _ _ _ Hpid Hst Hl r n).
Qed.
Lemma net_complete_enforced_witness :
  connect_verdict demo_applied demo_task 500 (SockInet [10; 1; 2; 3] 80) = (0, Some VERDICT_ALLOW).
Proof.
  destruct demo_fresh as (H1 & _ & _ & H4).
  apply (net_complete_enforced demo_compiled demo_bound demo_applied demo_task 500 (SockInet [10; 1; 2; 3] 80)
           addr_10_1_2_3 80 (mkNetEntry "10.1.0.0/16" 80 ProtoTCP) net_10_1);
    [vm_compute; done|done|done|apply demo_applies|apply demo_enforced|by apply DestV4| | | | |by right|by right].
  - vm_compute. repeat constructor.
  - reflexivity.
  - vm_compute. reflexivity.
  - intros r' n' Hr'. revert r' Hr'.
    apply (Forall_forall (λ r', ParseCIDR (ne_CIDR r') = Ok n' → cidr_contains n' addr_10_1_2_3 →
            (cidr_bits n' <= cidr_bits net_10_1)%nat)).
    change (c_Net demo_compiled) with
      [mkNetEntry "10.0.0.0/8" 443 ProtoTCP; mkNetEntry "10.1.0.0/16" 80 ProtoTCP].
    apply Forall_cons_2; [|apply Forall_cons_2; [|apply Forall_nil_2]];
      intros E _; vm_compute in E; injection E as <-; vm_compute; lia.
Defined.

(** The decision depends on the order of the rules.  The same two rules, a
    wide network with port 443 and a narrow one inside it with port 80, let a
    task connect to the narrow network on 443 when the wide rule comes first
    and refuse it when the narrow one does: writing a rule merges it into
    whatever longest-prefix entry encloses it, not only into its own CIDR. *)
Theorem net_rule_order_matters :
  let wide := mkNetEntry "10.0.0.0/8" 443 ProtoTCP in
  let narrow := mkNetEntry "10.1.0.0/16" 80 ProtoTCP in
  let verdict rules :=
    let '(m, r) := Apply (mkCompiled 7 [] [] rules [] [] []) demo_bound in
    (r, connect_verdict m demo_task 500 (SockInet6 addr_10_1_2_3 443)) in
  verdict [wide; narrow] = (Ok tt, (0, Some VERDICT_ALLOW)) ∧
  verdict [narrow; wide] = (Ok tt, (- EPERM, Some VERDICT_DENY)).
Proof. split; vm_compute; reflexivity. Qed.
