(* ===== verification/Pb.v ===== *)
(** The wire messages (agent/internal/pb, generated from proto/): the fields of
    the structs the agent reads and writes.  A pointer to a message is an
    [option], a repeated message a list, an enum its number (proto3 enums are
    open: any [int32] can arrive).  Unknown fields are not kept. *)

From Stdlib Require Import ZArith Lia Ascii String.
From stdpp Require Import base tactics numbers list strings gmap.
From S2P Require Import Prelude.

Module pb.

(** * warrant.proto *)

Definition Mode_MODE_OBSERVE : Z := 0.
Definition Mode_MODE_DRYRUN : Z := 1.
Definition Mode_MODE_ENFORCE : Z := 2.
Definition OnExpiry_ON_EXPIRY_DEMOTE : Z := 0.
Definition OnExpiry_ON_EXPIRY_KILL : Z := 1.
Definition OnExpiry_ON_EXPIRY_SESSION_ONLY_GRACE : Z := 2.
Definition Proto_PROTO_ANY : Z := 0.
Definition Proto_PROTO_TCP : Z := 1.
Definition Proto_PROTO_UDP : Z := 2.
Definition WriteRule_EFFECT_UNSPECIFIED : Z := 0.
Definition WriteRule_EFFECT_ALLOW : Z := 1.
Definition WriteRule_EFFECT_DENY : Z := 2.

Record SignedWarrant := mkSignedWarrant {
  sw_Warrant : string;
  sw_Signature : string;
  sw_KeyId : string
}.

Record ExecRule := mkExecRule { er_Path : string }.
Record WriteRule := mkWriteRule { wr_Path : string; wr_Recursive : bool; wr_Effect : Z }.
Record NetRule := mkNetRule { nr_Cidr : string; nr_Port : Z; nr_Proto : Z }.

Record Policy := mkPolicy {
  p_Name : string;
  p_ExecRules : list ExecRule;
  p_WriteRules : list WriteRule;
  p_NetRules : list NetRule;
  p_InspectUdp : bool;
  p_ReadWatchPaths : list string
}.

Record Warrant := mkWarrant {
  w_WarrantId : Z;
  w_WarrantUuid : string;
  w_DisplayId : string;
  w_Revision : Z;
  w_SubjectId : Z;
  w_Principal : string;
  w_LoginAccount : string;
  w_SshKeyFingerprints : list string;
  w_TargetHosts : list string;
  w_Reason : string;
  w_IssuedAtUnixNs : Z;
  w_ExpiresAtUnixNs : Z;
  w_GraceWindowNs : Z;
  w_Revoked : bool;
  w_Mode : Z;
  w_OnExpiry : Z;
  w_PolicyId : Z;
  w_Policy : option Policy;
  w_BreakGlass : bool
}.

#[global] Instance ExecRule_eq_dec : EqDecision ExecRule.
Proof. solve_decision. Defined.
#[global] Instance WriteRule_eq_dec : EqDecision WriteRule.
Proof. solve_decision. Defined.
#[global] Instance NetRule_eq_dec : EqDecision NetRule.
Proof. solve_decision. Defined.
#[global] Instance Policy_eq_dec : EqDecision Policy.
Proof. solve_decision. Defined.

(** The fields are the widths the wire has. *)
Definition warrant_wf (w : Warrant) : Prop :=
  is_u64 (w_WarrantId w) ∧ is_u32 (w_Revision w) ∧ is_u32 (w_SubjectId w) ∧
  is_u64 (w_ExpiresAtUnixNs w) ∧ is_u64 (w_GraceWindowNs w) ∧ is_u32 (w_PolicyId w).

(** The zero value that an absent message reads as. *)
Definition empty_Policy : Policy := mkPolicy "" [] [] [] false [].

(** * audit.proto *)

Definition Hook_HOOK_AGENT : Z := 100.
(** The named hooks, by the name [Hook_value] knows them under. *)
Definition Hook_value : list (string * Z) := [
  ("HOOK_UNSPECIFIED", 0); ("HOOK_SCHED_PROCESS_FORK", 1); ("HOOK_BPRM_CHECK_SECURITY", 2);
  ("HOOK_SOCKET_CONNECT", 3); ("HOOK_FILE_OPEN", 4); ("HOOK_INODE_CREATE", 5);
  ("HOOK_INODE_UNLINK", 6); ("HOOK_INODE_RENAME", 7); ("HOOK_INODE_LINK", 8);
  ("HOOK_INODE_SYMLINK", 9); ("HOOK_BPF", 10); ("HOOK_TASK_KILL", 11); ("HOOK_SB_UMOUNT", 12);
  ("HOOK_PTRACE_ACCESS_CHECK", 13); ("HOOK_KERNEL_MODULE_REQUEST", 14);
  ("HOOK_SOCKET_SENDMSG", 15); ("HOOK_AGENT", 100)
].
Definition Verdict_VERDICT_ALLOW : Z := 0.
Definition Verdict_VERDICT_DENY : Z := 1.
Definition Verdict_VERDICT_WOULD_DENY : Z := 2.
Definition Origin_ORIGIN_AGENT : Z := 3.
Definition TagSource_TAG_NONE : Z := 0.
Definition REASON_UNSPECIFIED : Z := 0.
Definition REASON_NO_WARRANT : Z := 1.
Definition REASON_NO_KEY : Z := 5.
Definition REASON_KEY_MISMATCH : Z := 6.
Definition GapReport_CAUSE_LOCAL_STORE_FULL : Z := 3.

Record ProcessIdentity := mkProcessIdentity {
  pi_Pid : Z; pi_Tgid : Z; pi_StartTimeNs : Z; pi_Ppid : Z; pi_Uid : Z; pi_Euid : Z;
  pi_Gid : Z; pi_Comm : string; pi_CgroupId : Z; pi_PidNsInum : Z; pi_MntNsInum : Z
}.

Record UnwarrantedSessionEvent := mkUnwarrantedSessionEvent {
  us_LoginAccount : string;
  us_SourceAddress : string;
  us_CgroupId : Z;
  us_SessionId : string;
  us_Reason : Z;
  us_SshKeyFingerprint : string
}.

(** The oneof payload.  The agent only ever builds the unwarranted-session
    variant; the others are named by their field number. *)
Inductive AuditEvent_Payload :=
  | AuditEvent_UnwarrantedSession (e : UnwarrantedSessionEvent)
  | AuditEvent_Other (field : Z).

Record AuditEvent := mkAuditEvent {
  ae_NodeSeq : Z;
  ae_Cpu : Z;
  ae_CpuSeq : Z;
  ae_Hook : Z;
  ae_Verdict : Z;
  ae_Mode : Z;
  ae_BootTsNs : Z;
  ae_WallTsUnixNs : Z;
  ae_WarrantId : Z;
  ae_SubjectId : Z;
  ae_PolicyId : Z;
  ae_TagSource : Z;
  ae_Process : option ProcessIdentity;
  ae_Payload : option AuditEvent_Payload;
  ae_Origin : Z
}.
Definition set_NodeSeq (e : AuditEvent) (n : Z) : AuditEvent :=
  mkAuditEvent n (ae_Cpu e) (ae_CpuSeq e) (ae_Hook e) (ae_Verdict e) (ae_Mode e) (ae_BootTsNs e)
    (ae_WallTsUnixNs e) (ae_WarrantId e) (ae_SubjectId e) (ae_PolicyId e) (ae_TagSource e)
    (ae_Process e) (ae_Payload e) (ae_Origin e).

Record GapReport := mkGapReport {
  gr_FromUnixNs : Z;
  gr_ToUnixNs : Z;
  gr_DroppedCount : Z;
  gr_DroppedCountKnown : bool;
  gr_Cause : Z
}.

(** * agent.proto *)

Record NodeHello := mkNodeHello {
  nh_Hostname : string;
  nh_KernelVersion : string;
  nh_BpfLsmEnabled : bool;
  nh_BootedAtUnixNs : Z;
  nh_AgentVersion : string;
  nh_AttachedHooks : list Z
}.

Record SubscribeRequest := mkSubscribeRequest {
  sr_Node : option NodeHello;
  sr_CachedRevisions : gmap Z Z
}.

(** [PushMessage.Body]; [None] is a message whose body this version does not
    know. *)
Inductive PushMessage :=
  | PushMessage_Warrant (env : SignedWarrant)
  | PushMessage_ResyncComplete (ActiveCount : Z)
  | PushMessage_None.

Record AuditBatch := mkAuditBatch {
  ab_Node : option NodeHello;
  ab_Events : list AuditEvent;
  ab_Gaps : list GapReport;
  ab_LastNodeSeq : Z;
  ab_SeqEpoch : Z
}.
Definition set_Node (b : AuditBatch) (h : NodeHello) : AuditBatch :=
  mkAuditBatch (Some h) (ab_Events b) (ab_Gaps b) (ab_LastNodeSeq b) (ab_SeqEpoch b).

Record AuditAck := mkAuditAck { ak_SeqEpoch : Z; ak_AckedThroughNodeSeq : Z }.

End pb.
