(* ===== verification/Warrants.v ===== *)
(** Warrant conversion and matching (agent/cmd/warrantd/warrants.go): the checks
    every warrant passes, the kernel's form of it, the policy it carries, and
    the choice of a warrant for a session. *)

From Stdlib Require Import ZArith Lia Ascii String.
From stdpp Require Import base tactics numbers list strings gmap.
From S2P Require Import Prelude GoStd GoNet EbpfMap Os BpfMap Concrete Kernel Policy Pb.

(** * Operations *)

Definition checkWarrant (w : pb.Warrant) (hostname : string) : res unit :=
  if pb.w_WarrantId w =? 0 then Err (ENew "warrant_id is 0")
  else if pb.w_PolicyId w =? 0 then Err (ENew "policy_id is 0")
  else if pb.w_ExpiresAtUnixNs w =? 0 then
    Err (ENew "expires_at_unix_ns is 0: a warrant must expire")
  else if negb (bool_decide (hostname ∈ pb.w_TargetHosts w)) then
    Err (EMsg ("target_hosts [" +:+ Join (pb.w_TargetHosts w) " "%char +:+ "] does not include " +:+ fmt_q hostname))
  else if pb.w_Mode w =? pb.Mode_MODE_ENFORCE then
    Err (ENew "mode MODE_ENFORCE is out of scope: use MODE_OBSERVE or MODE_DRYRUN")
  else if pb.w_BreakGlass w then Err (ENew "break_glass is out of scope")
  else Ok tt.

(** [kernelWarrant]: [now] is [now.UnixNano()], an [int64]; the arithmetic wraps
    as Go's does. *)
Definition kernelWarrant (w : pb.Warrant) (now bootNs : Z) : KWarrant :=
  let exp := i64 (i64 bootNs + i64 (i64 (pb.w_ExpiresAtUnixNs w) - now)) in
  let exp := if exp <? 1 then 1 else exp in
  mkKWarrant (u64 exp) (pb.w_GraceWindowNs w) (pb.w_SubjectId w) (pb.w_PolicyId w)
    (if pb.w_Revoked w then 1 else 0) (u8 (pb.w_Mode w)) (u8 (pb.w_OnExpiry w)) 0 0.

Definition spec_write (r : pb.WriteRule) : WriteRule :=
  mkWriteRule (pb.wr_Path r) (pb.wr_Recursive r) (Effect_of_Z (pb.wr_Effect r)).

Fixpoint spec_nets (l : list pb.NetRule) : res (list NetRule) :=
  match l with
  | [] => Ok []
  | r :: l' =>
      if 65535 <? pb.nr_Port r then
        Err (EMsg ("net rule " +:+ pb.nr_Cidr r +:+ ": port " +:+ fmt_u (pb.nr_Port r)))
      else
        try rest := spec_nets l' in
        Ok (mkNetRule (pb.nr_Cidr r) (u16 (pb.nr_Port r)) (u8 (pb.nr_Proto r)) :: rest)
  end.

(** [policySpec]: the getters of an absent policy read as zero values. *)
Definition policySpec (p : option pb.Policy) : res Spec :=
  let p := default pb.empty_Policy p in
  try nets := spec_nets (pb.p_NetRules p) in
  Ok (mkSpec (pb.p_Name p) ((λ r, mkExecRule (pb.er_Path r)) <$> pb.p_ExecRules p)
        (spec_write <$> pb.p_WriteRules p) nets (pb.p_ReadWatchPaths p) (pb.p_InspectUdp p) false).

(** The accumulator of [matchWarrant]'s loop: the best match so far, and whether
    the account has a live warrant at all. *)
Definition match_step (account fp : string) (now : Z)
    (acc : option pb.Warrant * bool) (w : pb.Warrant) : option pb.Warrant * bool :=
  if pb.w_Revoked w || (pb.w_ExpiresAtUnixNs w <=? u64 now) ||
     negb (bool_decide (pb.w_LoginAccount w = account))
  then acc
  else if negb (bool_decide (fp ∈ pb.w_SshKeyFingerprints w)) then (fst acc, true)
  else match fst acc with
       | None => (Some w, true)
       | Some b => if pb.w_ExpiresAtUnixNs b <? pb.w_ExpiresAtUnixNs w then (Some w, true)
                   else (Some b, true)
       end.

Definition matchWarrant (ws : list pb.Warrant) (account fp : string) (now : Z)
    : option pb.Warrant * Z :=
  if bool_decide (fp = "") then (None, pb.REASON_NO_KEY)
  else
    let '(best, accountHas) := foldl (match_step account fp now) (None, false) ws in
    match best with
    | Some w => (Some w, pb.REASON_UNSPECIFIED)
    | None => if accountHas : bool then (None, pb.REASON_KEY_MISMATCH)
              else (None, pb.REASON_NO_WARRANT)
    end.

(** ** The local file *)

(** Splitting a JSON array and reading one protobuf-JSON message are library
    code. *)
Class WarrantJson := {
  json_raw_array : string → res (list string);
  protojson_Warrant : string → res pb.Warrant
}.

Section file.
Context `{WarrantJson}.

Fixpoint parse_warrants (i : nat) (raw : list string) : res (list pb.Warrant) :=
  match raw with
  | [] => Ok []
  | r :: rest =>
      match protojson_Warrant r with
      | Ok w => try ws := parse_warrants (S i) rest in Ok (w :: ws)
      | Err e => Err (EWrap ("warrant #" +:+ fmt_u (Z.of_nat i) +:+ ": ") e)
      | Panic p => Panic p
      end
  end.

Definition parseWarrantFile (b : string) : res (list pb.Warrant) :=
  match json_raw_array b with
  | Ok raw => parse_warrants 0 raw
  | Err e => Err (EWrap "JSON array of Warrant: " e)
  | Panic p => Panic p
  end.
End file.

(** * Lemmas *)

(** A warrant a session of the account could run under now. *)
Definition eligible (account : string) (now : Z) (w : pb.Warrant) : Prop :=
  pb.w_Revoked w = false ∧ u64 now < pb.w_ExpiresAtUnixNs w ∧ pb.w_LoginAccount w = account.
Definition carries (fp : string) (w : pb.Warrant) : Prop := fp ∈ pb.w_SshKeyFingerprints w.

Lemma match_step_spec account fp now acc w :
  (¬ eligible account now w ∧ match_step account fp now acc w = acc) ∨
  (eligible account now w ∧ ¬ carries fp w ∧ match_step account fp now acc w = (fst acc, true)) ∨
  (eligible account now w ∧ carries fp w ∧ snd (match_step account fp now acc w) = true ∧
   ((fst (match_step account fp now acc w) = Some w ∧
     ∀ b, fst acc = Some b → pb.w_ExpiresAtUnixNs b <= pb.w_ExpiresAtUnixNs w) ∨
    ∃ b, fst acc = Some b ∧ fst (match_step account fp now acc w) = Some b ∧
         pb.w_ExpiresAtUnixNs w <= pb.w_ExpiresAtUnixNs b)).
Proof.
  unfold match_step, eligible, carries.
  destruct (pb.w_Revoked w); simpl; [left; naive_solver|].
  destruct (Z.leb_spec (pb.w_ExpiresAtUnixNs w) (u64 now)); simpl; [left; split; [lia|done]|].
  case_bool_decide as Ha; simpl; [|left; naive_solver].
  case_bool_decide as Hf; simpl; [|naive_solver]. right; right.
  destruct acc as [[b|] h]; simpl; [|naive_solver].
  destruct (Z.ltb_spec (pb.w_ExpiresAtUnixNs b) (pb.w_ExpiresAtUnixNs w)); simpl.
  - split; [done|]. split; [done|]. split; [done|]. left. split; [done|]. intros b' [= <-]. lia.
  - split; [done|]. split; [done|]. split; [done|]. right. exists b. done.
Qed.

(** What the loop has established about the warrants it has read. *)
Definition match_inv (account fp : string) (now : Z) (ws : list pb.Warrant)
    (acc : option pb.Warrant * bool) : Prop :=
  (snd acc = true ↔ ∃ w, w ∈ ws ∧ eligible account now w) ∧
  match fst acc with
  | None => ∀ w, w ∈ ws → eligible account now w → ¬ carries fp w
  | Some b => b ∈ ws ∧ eligible account now b ∧ carries fp b ∧
              ∀ w, w ∈ ws → eligible account now w → carries fp w →
                   pb.w_ExpiresAtUnixNs w <= pb.w_ExpiresAtUnixNs b
  end.

Lemma match_inv_step account fp now ws acc w :
  match_inv account fp now ws acc →
  match_inv account fp now (ws ++ [w]) (match_step account fp now acc w).
Proof.
  intros [Hh Hb].
  destruct (match_step_spec account fp now acc w)
    as [[Hne ->]|[(He & Hc & ->)|(He & Hc & Hs & [[Hf Hle]|(b & Hacc & Hf & Hle)])]];
    unfold match_inv; simpl.
  - split; [rewrite Hh; set_solver|]. destruct (fst acc) as [b|].
    + destruct Hb as (Hin & ? & ? & Hmax). split; [set_solver|]. split; [done|]. split; [done|].
      intros x [Hx| ->]%elem_of_snoc; [by apply Hmax|done].
    + intros x [Hx| ->]%elem_of_snoc; [by apply Hb|done].
  - split; [set_solver|]. destruct (fst acc) as [b|].
    + destruct Hb as (Hin & ? & ? & Hmax). split; [set_solver|]. split; [done|]. split; [done|].
      intros x [Hx| ->]%elem_of_snoc; [by apply Hmax|done].
    + intros x [Hx| ->]%elem_of_snoc; [by apply Hb|done].
  - rewrite Hs, Hf. split; [set_solver|]. split; [set_solver|]. split; [done|]. split; [done|].
    intros x [Hx| ->]%elem_of_snoc Hex Hcx; [|lia]. destruct (fst acc) as [b|].
    + destruct Hb as (_ & _ & _ & Hmax). specialize (Hmax x Hx Hex Hcx).
      specialize (Hle b eq_refl). lia.
    + by destruct (Hb x Hx Hex).
  - rewrite Hs, Hf. rewrite Hacc in Hb. destruct Hb as (Hin & Heb & Hcb & Hmax).
    split; [set_solver|]. split; [set_solver|]. split; [done|]. split; [done|].
    intros x [Hx| ->]%elem_of_snoc Hex Hcx; [by apply Hmax|done].
Qed.

Lemma match_inv_fold account fp now ws :
  match_inv account fp now ws (foldl (match_step account fp now) (None, false) ws).
Proof.
  induction ws as [|w ws IH] using rev_ind.
  - split; [split; [done|]; intros (w & ?%elem_of_nil & _); done|]. simpl. by intros w ?%elem_of_nil.
  - rewrite foldl_app. simpl. by apply match_inv_step.
Qed.

(** ** The expiry on the kernel's clock *)

(** Without overflow the kernel gets the boot time of the expiry, at least 1. *)
Lemma kernelWarrant_expiry w now boot :
  is_i64 boot → is_i64 (pb.w_ExpiresAtUnixNs w) →
  is_i64 (pb.w_ExpiresAtUnixNs w - now) → is_i64 (boot + (pb.w_ExpiresAtUnixNs w - now)) →
  ExpiresNs (kernelWarrant w now boot) = Z.max 1 (boot + (pb.w_ExpiresAtUnixNs w - now)).
Proof.
  intros Hb He Hd Hs. unfold kernelWarrant. simpl.
  rewrite (i64_small boot), (i64_small (pb.w_ExpiresAtUnixNs w)) by done.
  rewrite (i64_small (_ - now)), i64_small by done.
  destruct (Z.ltb_spec (boot + (pb.w_ExpiresAtUnixNs w - now)) 1);
    rewrite u64_small by (unfold_widths; lia); lia.
Qed.

(** ** Policies *)

(** A network rule and what [policySpec] makes of it. *)
Definition net_converts (r : pb.NetRule) (n : NetRule) : Prop :=
  pb.nr_Port r <= 65535 ∧ n = mkNetRule (pb.nr_Cidr r) (u16 (pb.nr_Port r)) (u8 (pb.nr_Proto r)).

Lemma spec_nets_ok l ns : spec_nets l = Ok ns ↔ Forall2 net_converts l ns.
Proof.
  revert ns. induction l as [|r l IH]; intros ns; simpl.
  { split; [intros [= <-]; constructor|]. by intros ->%Forall2_nil_inv_l. }
  destruct (Z.ltb_spec 65535 (pb.nr_Port r)) as [Hgt|Hle].
  { split; [done|]. intros (n & ns' & [? _] & _ & _)%Forall2_cons_inv_l. lia. }
  destruct (spec_nets l) as [rest|e|p]; simpl.
  - split.
    + intros [= <-]. constructor; [by split|]. by apply IH.
    + intros (n & ns' & [_ ->] & Hr & ->)%Forall2_cons_inv_l. apply IH in Hr. by injection Hr as <-.
  - split; [done|]. intros (n & ns' & _ & Hr & _)%Forall2_cons_inv_l. by apply IH in Hr.
  - split; [done|]. intros (n & ns' & _ & Hr & _)%Forall2_cons_inv_l. by apply IH in Hr.
Qed.

(** * Properties *)

Definition demo_pb_policy : pb.Policy :=
  pb.mkPolicy "deploy" [pb.mkExecRule "/usr/bin/git"] [pb.mkWriteRule "/tmp/w" true 1]
    [pb.mkNetRule "10.0.0.0/8" 443 1] true [].
(** A warrant for alice on web-1, with its number, revision, expiry and mode. *)
Definition demo_warrant (id rev expires mode : Z) : pb.Warrant :=
  pb.mkWarrant id "" "" rev 1 "alice@example" "alice" ["SHA256:a"] ["web-1"] "" 0 expires 0 false
    mode 0 7 (Some demo_pb_policy) false.

(** C21: a session gets the right warrant.  A warrant is chosen exactly when the
    session has a key and some unrevoked, unexpired warrant of the account lists
    it; the chosen one is such a warrant, and none of them expires later.  When
    none is chosen the reason says which condition failed: no key, a live
    warrant for the account but not for this key, or no live warrant at all. *)
Theorem matchWarrant_correct ws account fp now :
  match matchWarrant ws account fp now with
  | (Some b, r) =>
      r = pb.REASON_UNSPECIFIED ∧ fp ≠ "" ∧ b ∈ ws ∧ eligible account now b ∧ carries fp b ∧
      ∀ w, w ∈ ws → eligible account now w → carries fp w →
           pb.w_ExpiresAtUnixNs w <= pb.w_ExpiresAtUnixNs b
  | (None, r) =>
      (fp = "" ∧ r = pb.REASON_NO_KEY) ∨
      (fp ≠ "" ∧ r = pb.REASON_KEY_MISMATCH ∧ (∃ w, w ∈ ws ∧ eligible account now w) ∧
       ∀ w, w ∈ ws → eligible account now w → ¬ carries fp w) ∨
      (fp ≠ "" ∧ r = pb.REASON_NO_WARRANT ∧ ∀ w, w ∈ ws → ¬ eligible account now w)
  end.
Proof.
  unfold matchWarrant. case_bool_decide as Hfp; [by auto|].
  pose proof (match_inv_fold account fp now ws) as [Hh Hb].
  destruct (foldl _ _ ws) as [[b|] h]; simpl in *; [by destruct Hb as (? & ? & ? & ?)|].
  destruct h; right; [left|right].
  - split; [done|]. split; [done|]. split; [by apply Hh|done].
  - split; [done|]. split; [done|]. intros w Hw He. destruct Hh as [_ Hh].
    discriminate Hh. by exists w.
Qed.

(** C25: the expiry is translated to the kernel's clock.  With both clocks
    running together and no overflow, at every later boot time the kernel calls
    the warrant expired exactly when its wall-clock expiry has passed; it never
    gets the value 0, which would mean no expiry. *)
Theorem kernelWarrant_expires_on_time w now boot at_boot :
  is_i64 boot → is_i64 (pb.w_ExpiresAtUnixNs w) →
  is_i64 (pb.w_ExpiresAtUnixNs w - now) → is_i64 (boot + (pb.w_ExpiresAtUnixNs w - now)) →
  1 < at_boot → pb.w_Revoked w = false →
  ExpiresNs (kernelWarrant w now boot) ≠ 0 ∧
  (validity (kernelWarrant w now boot) at_boot = 2 ↔
   pb.w_ExpiresAtUnixNs w < now + (at_boot - boot)).
Proof.
  intros Hb He Hd Hs Ha Hr. pose proof (kernelWarrant_expiry w now boot Hb He Hd Hs) as Hx.
  split; [lia|]. unfold validity. rewrite Hx. unfold kernelWarrant. simpl. rewrite Hr. simpl.
  destruct (Z.eqb_spec (Z.max 1 (boot + (pb.w_ExpiresAtUnixNs w - now))) 0); [lia|]. simpl.
  destruct (Z.ltb_spec (Z.max 1 (boot + (pb.w_ExpiresAtUnixNs w - now))) at_boot); split; intros; lia.
Qed.
Lemma kernelWarrant_expires_on_time_witness :
  validity (kernelWarrant (demo_warrant 1 1 2000 0) 1000 50) 1100 = 2.
Proof.
  apply (kernelWarrant_expires_on_time (demo_warrant 1 1 2000 0) 1000 50 1100);
    vm_compute; try done; split; done.
Defined.

(** A far-future expiry is a warrant already expired.  For an expiry beyond
    the signed range (such as the largest value the field holds) the kernel's
    copy says expired at once, while the session matcher, which compares
    unsigned, still binds the session to it. *)
Theorem far_expiry_expired_at_once w now boot account fp :
  0 <= boot <= now → 2 ^ 63 + now <= pb.w_ExpiresAtUnixNs w < 2 ^ 64 →
  pb.w_Revoked w = false → pb.w_LoginAccount w = account → carries fp w → fp ≠ "" →
  ExpiresNs (kernelWarrant w now boot) = 1 ∧ matchWarrant [w] account fp now = (Some w, 0).
Proof.
  intros Hb He Hr Ha Hc Hfp. split.
  - unfold kernelWarrant. simpl.
    assert (i64 (pb.w_ExpiresAtUnixNs w) = pb.w_ExpiresAtUnixNs w - 2 ^ 64) as ->.
    { unfold i64. replace (_ + 2 ^ 63) with (pb.w_ExpiresAtUnixNs w - 2 ^ 63 + 1 * 2 ^ 64) by lia.
      rewrite Z.mod_add, Z.mod_small by lia. lia. }
    rewrite (i64_small boot), (i64_small (_ - now)), i64_small by (unfold_widths; lia).
    destruct (Z.ltb_spec (boot + (pb.w_ExpiresAtUnixNs w - 2 ^ 64 - now)) 1); [done|lia].
  - unfold matchWarrant, match_step. rewrite bool_decide_false by done. simpl.
    rewrite Hr, u64_small by (unfold_widths; lia).
    rewrite (proj2 (Z.leb_gt _ _)) by lia. simpl.
    rewrite (bool_decide_true _ Ha). simpl. by rewrite (bool_decide_true _ Hc).
Qed.
Lemma far_expiry_expired_at_once_witness :
  ExpiresNs (kernelWarrant (demo_warrant 1 1 (2 ^ 64 - 1) 0) 1700000000000000000 5000000000) = 1 ∧
  matchWarrant [demo_warrant 1 1 (2 ^ 64 - 1) 0] "alice" "SHA256:a" 1700000000000000000
  = (Some (demo_warrant 1 1 (2 ^ 64 - 1) 0), 0).
Proof.
  apply far_expiry_expired_at_once; [lia|simpl; lia|done|done|left|done].
Defined.

(** UDP is never inspected.  The kernel's copy of a warrant always has the
    inspection bit off, whatever its policy says, so for a task under a pushed
    or local warrant the sendmsg hook lets every datagram pass unrecorded. *)
Theorem inspect_udp_never_reaches_kernel `{KernelMaps} (m : Maps) t now_ns w now boot wid tag a :
  lookup_warrant m t = Some (wid, tag, kernelWarrant w now boot) →
  sendmsg_verdict m t now_ns a = (0, None).
Proof. intros Hl. unfold sendmsg_verdict. by rewrite Hl. Qed.
Lemma inspect_udp_never_reaches_kernel_witness :
  pb.p_InspectUdp demo_pb_policy = true ∧
  sendmsg_verdict
    (mkMaps _ (BPercpu 1 [1]) (BHash 8 {[ 77 := 9 ]})
       (BHash 8 {[ 9 := kernelWarrant (demo_warrant 9 1 2000 1) 1000 50 ]})
       (BHash 8 ∅) (BHash 8 ∅) (BLpm 8 ∅) 1)
    (mkTask 0 77 None) 100 (Some (SockInet [8; 8; 8; 8] 53)) = (0, None).
Proof.
  split; [done|].
  apply (inspect_udp_never_reaches_kernel _ _ _ (demo_warrant 9 1 2000 1) 1000 50 9 TAG_CGROUP).
  reflexivity.
Defined.

(** What the check keeps out.  A warrant that passes has an id, a policy id
    and an expiry, names this host, and is not a break-glass one; if its mode is
    one a byte can hold, the kernel does not enforce it. *)
Theorem checkWarrant_sound w host now boot :
  checkWarrant w host = Ok tt →
  pb.w_WarrantId w ≠ 0 ∧ pb.w_PolicyId w ≠ 0 ∧ pb.w_ExpiresAtUnixNs w ≠ 0 ∧
  host ∈ pb.w_TargetHosts w ∧ pb.w_BreakGlass w = false ∧
  (0 <= pb.w_Mode w < 256 → Mode (kernelWarrant w now boot) ≠ ModeEnforce).
Proof.
  unfold checkWarrant. intros Hc. repeat case_match; zify_bools; try done.
  split; [done|]. split; [done|]. split; [done|].
  match goal with H : bool_decide _ = true |- _ => apply bool_decide_eq_true in H end.
  split; [done|]. split; [done|]. intros Hm. unfold kernelWarrant. simpl. unfold u8.
  rewrite Z.mod_small by lia. done.
Qed.
Lemma checkWarrant_sound_witness :
  Mode (kernelWarrant (demo_warrant 1 1 2000 1) 1000 50) ≠ ModeEnforce.
Proof.
  apply (checkWarrant_sound (demo_warrant 1 1 2000 1) "web-1" 1000 50); [reflexivity|simpl; lia].
Defined.

Lemma checkWarrant_mode w host : checkWarrant w host = Ok tt → pb.w_Mode w ≠ pb.Mode_MODE_ENFORCE.
Proof. unfold checkWarrant. intros Hc. repeat case_match; zify_bools; done. Qed.

(** Enforcement can be switched on although the check refuses it.  A mode
    number that is 2 modulo 256, such as 258, passes the check, and the byte
    the kernel gets is the enforce mode. *)
Theorem mode_truncation_enforces k :
  0 < k →
  checkWarrant (demo_warrant 1 1 2000 (2 + 256 * k)) "web-1" = Ok tt ∧
  Mode (kernelWarrant (demo_warrant 1 1 2000 (2 + 256 * k)) 1000 50) = ModeEnforce.
Proof.
  intros Hk. split.
  - unfold checkWarrant. cbn -[Z.mul Z.add].
    by rewrite (proj2 (Z.eqb_neq _ _)) by (unfold pb.Mode_MODE_ENFORCE; lia).
  - unfold kernelWarrant. cbn [Mode pb.w_Mode demo_warrant]. unfold u8, ModeEnforce.
    change (2 ^ 8) with 256. rewrite Z.mul_comm, Z.mod_add by lia. done.
Qed.
Lemma mode_truncation_enforces_witness :
  Mode (kernelWarrant (demo_warrant 1 1 2000 258) 1000 50) = ModeEnforce.
Proof. apply (mode_truncation_enforces 1). lia. Defined.

(** The policy is converted rule by rule: the exec, write and read lists in
    order, each network rule with its port (at most 65535, else the whole policy
    is refused); login shells stay allowed by default. *)
Theorem policySpec_faithful p s :
  policySpec (Some p) = Ok s ↔
  ∃ nets, Forall2 net_converts (pb.p_NetRules p) nets ∧
    s = mkSpec (pb.p_Name p) ((λ r, mkExecRule (pb.er_Path r)) <$> pb.p_ExecRules p)
          (spec_write <$> pb.p_WriteRules p) nets (pb.p_ReadWatchPaths p) (pb.p_InspectUdp p) false.
Proof.
  unfold policySpec. simpl. split.
  - destruct (spec_nets (pb.p_NetRules p)) as [nets|e|x] eqn:E; [|done|done].
    intros [= <-]. exists nets. split; [by apply spec_nets_ok|done].
  - intros (nets & Hn & ->). apply spec_nets_ok in Hn. by rewrite Hn.
Qed.
