(* ===== verification/Upstream.v ===== *)
(** Package [upstream] (agent/internal/upstream): verifying signed warrants,
    loading the trust keys, the reconnect delays, and one subscription stream
    against the [Applier] interface. *)

From Stdlib Require Import ZArith Lia Ascii String.
From stdpp Require Import base tactics numbers list strings gmap.
From S2P Require Import Prelude GoStd Os Pb.

(** * Verification *)

(** Ed25519, PEM, X.509 and protobuf decoding are library code. *)
Class Crypto := {
  PublicKey : Type;
  ed25519_Verify : PublicKey → string → string → bool;
  proto_Unmarshal : string → res pb.Warrant;
  pem_Decode : string → option (string * string);          (* type, bytes *)
  x509_ParsePKIX : string → res (PublicKey + string);      (* Ed25519, or another type *)
  filepath_Glob : nat → string → res (list string)         (* matches at a moment *)
}.

Definition SignatureSize : nat := 64.
Definition TrustKeys `{Crypto} : Type := gmap string PublicKey.

Section verify.
Context `{Crypto}.

Definition Verify (env : pb.SignedWarrant) (keys : TrustKeys) : res pb.Warrant :=
  match keys !! pb.sw_KeyId env with
  | None => Err (EMsg ("unknown key_id " +:+ fmt_q (pb.sw_KeyId env)))
  | Some key =>
      if negb (String.length (pb.sw_Signature env) =? SignatureSize)%nat then
        Err (EMsg ("signature is " +:+ fmt_u (Z.of_nat (String.length (pb.sw_Signature env)))
                   +:+ " bytes"))
      else if negb (ed25519_Verify key (pb.sw_Warrant env) (pb.sw_Signature env)) then
        Err (ENew "bad signature")
      else match proto_Unmarshal (pb.sw_Warrant env) with
           | Ok w => Ok w
           | Err e => Err (EWrap "signed bytes are not a Warrant: " e)
           | Panic p => Panic p
           end
  end.
End verify.

(** ** Trust keys *)

Section keys.
Context `{Crypto} `{Os}.

(** One file of the directory: the key it holds. *)
Definition load_key (t : nat) (p : string) : res PublicKey :=
  try b := os_ReadFile t p in
  match pem_Decode b with
  | None => Err (EMsg (p +:+ ": not a PEM PUBLIC KEY"))
  | Some (ty, bytes) =>
      if negb (bool_decide (ty = "PUBLIC KEY")) then Err (EMsg (p +:+ ": not a PEM PUBLIC KEY"))
      else match x509_ParsePKIX bytes with
           | Ok (inl k) => Ok k
           | Ok (inr other) => Err (EMsg (p +:+ ": " +:+ other +:+ " is not Ed25519"))
           | Err e => Err (EWrap (p +:+ ": ") e)
           | Panic s => Panic s
           end
  end.

Definition key_id (p : string) : string := TrimSuffix (Base p) ".pem".

Fixpoint load_keys (t : nat) (paths : list string) (keys : TrustKeys) : res TrustKeys :=
  match paths with
  | [] => Ok keys
  | p :: rest =>
      try k := load_key t p in
      load_keys (S t) rest (<[key_id p := k]> keys)
  end.

(** [filepath.Join(dir, "*.pem")]. *)
Definition LoadTrustKeys (t : nat) (dir : string) : res TrustKeys :=
  let pattern := if bool_decide (dir = "") then "*.pem" else Clean (dir +:+ "/*.pem") in
  try paths := filepath_Glob t pattern in
  load_keys (S t) paths ∅.
End keys.

(** * Reconnecting *)

Record Client := mkClient { minBackoff : Z; maxBackoff : Z }.

(** The client [dial] makes: one second, thirty seconds. *)
Definition dialed : Client := mkClient 1000000000 30000000000.

(** [Dial]: certificates are refused, the connection itself is gRPC's. *)
Definition Dial (certPath keyPath caPath : string) : res Client :=
  if negb (bool_decide (certPath = "")) || negb (bool_decide (keyPath = "")) ||
     negb (bool_decide (caPath = ""))
  then Err (ENew "upstream: mTLS is not implemented yet")
  else Ok dialed.

(** One turn of the reconnect loop of [Subscribe] and [StreamAudit]: [healthy]
    says the stream made progress or stayed up for [maxBackoff].  The delay
    before the next stream, and the next backoff. *)
Definition next_backoff (c : Client) (backoff : Z) (healthy : bool) : Z * Z :=
  let b := if healthy then minBackoff c else backoff in
  (b, Z.min (b * 2) (maxBackoff c)).

Fixpoint delays (c : Client) (backoff : Z) (ends : list bool) : list Z :=
  match ends with
  | [] => []
  | h :: rest => let '(d, b) := next_backoff c backoff h in d :: delays c b rest
  end.
(** The delays of a loop that starts fresh and is cancelled after these streams. *)
Definition reconnect_delays (c : Client) (ends : list bool) : list Z := delays c (minBackoff c) ends.

(** * One subscription stream *)

(** [Applier]: the node's side.  [Resync] ranges over a Go map, so it is a
    relation. *)
Class Applier (S : Type) := {
  ap_Apply : pb.SignedWarrant → S → S * (Z * option error);
  ap_Resync : gset Z → S → S → Prop;
  ap_Revisions : S → gmap Z Z
}.

(** The locals of [subscribeOnce]. *)
Record sub := mkSub { seen : gset Z; resynced : bool }.

Section subscribe.
Context {T : Type} `{Applier T}.

Definition subscribe_request (hello : pb.NodeHello) (s : T) : pb.SubscribeRequest :=
  pb.mkSubscribeRequest (Some hello) (ap_Revisions s).

(** [seen] after a push whose [Apply] returned [id]. *)
Definition see (id : Z) (l : sub) : sub :=
  if negb (id =? 0) && negb (resynced l) then mkSub ({[ id ]} ∪ seen l) (resynced l) else l.

(** One message received. *)
Inductive sub_step : pb.PushMessage → sub * T → sub * T → Prop :=
  | SubWarrant env l s s' id err :
      ap_Apply env s = (s', (id, err)) →
      sub_step (pb.PushMessage_Warrant env) (l, s) (see id l, s')
  | SubAgain n l s :
      resynced l = true → sub_step (pb.PushMessage_ResyncComplete n) (l, s) (l, s)
  | SubSkip n l s :
      resynced l = false → u32 (Z.of_nat (size (seen l))) < n →
      sub_step (pb.PushMessage_ResyncComplete n) (l, s) (mkSub (seen l) true, s)
  | SubResync n l s s' :
      resynced l = false → n <= u32 (Z.of_nat (size (seen l))) → ap_Resync (seen l) s s' →
      sub_step (pb.PushMessage_ResyncComplete n) (l, s) (mkSub (seen l) true, s')
  | SubOther l s : sub_step pb.PushMessage_None (l, s) (l, s).

(** [subscribeOnce]: the messages received until [Recv] fails. *)
Inductive sub_run : list pb.PushMessage → sub * T → sub * T → Prop :=
  | SubEnd c : sub_run [] c c
  | SubMore m ms c c1 c2 : sub_step m c c1 → sub_run ms c1 c2 → sub_run (m :: ms) c c2.

Definition fresh_sub : sub := mkSub ∅ false.
End subscribe.

(** * Lemmas *)

Lemma delays_bounds c b ends :
  0 < minBackoff c <= maxBackoff c → minBackoff c <= b <= maxBackoff c →
  Forall (λ d, minBackoff c <= d <= maxBackoff c) (delays c b ends).
Proof.
  intros Hc. revert b. induction ends as [|h rest IH]; intros b Hb; simpl; [constructor|].
  constructor; [destruct h; lia|]. apply IH. destruct h; lia.
Qed.

Lemma delays_unhealthy c b k i :
  0 < minBackoff c <= maxBackoff c → minBackoff c <= b <= maxBackoff c → (i < k)%nat →
  delays c b (replicate k false) !! i = Some (Z.min (b * 2 ^ Z.of_nat i) (maxBackoff c)).
Proof.
  intros Hc. revert b i. induction k as [|k IH]; intros b i Hb Hi; [lia|]. simpl.
  destruct i as [|i]; simpl; [f_equal; lia|]. rewrite IH by lia. f_equal.
  rewrite Nat2Z.inj_succ, Z.pow_succ_r by lia. nia.
Qed.

Section sub_lemmas.
Context {T : Type} `{Applier T}.

(** The pushes of a stream applied in order: the state after, and the ids
    [Apply] returned. *)
Fixpoint apply_all (ms : list pb.PushMessage) (s : T) : T * list Z :=
  match ms with
  | [] => (s, [])
  | pb.PushMessage_Warrant env :: rest =>
      let '(s1, (id, _)) := ap_Apply env s in
      let '(s2, ids) := apply_all rest s1 in (s2, id :: ids)
  | _ :: rest => apply_all rest s
  end.
(** The set a list of returned ids adds up to; 0 is an unverified push. *)
Definition delivered (ids : list Z) : gset Z := list_to_set (List.filter (λ i, negb (i =? 0)) ids).

Definition is_complete (m : pb.PushMessage) : bool :=
  match m with pb.PushMessage_ResyncComplete _ => true | _ => false end.

Lemma see_fresh id l : resynced l = false →
  see id l = mkSub (delivered [id] ∪ seen l) false.
Proof.
  destruct l as [sn r]. simpl. intros ->. unfold see, delivered. simpl.
  destruct (id =? 0); simpl; apply (f_equal (λ x, mkSub x false)); set_solver.
Qed.
Lemma delivered_cons id ids : delivered (id :: ids) = delivered [id] ∪ delivered ids.
Proof. unfold delivered. simpl. destruct (id =? 0); simpl; set_solver. Qed.

(** Before the first ResyncComplete only [Apply] runs. *)
Lemma sub_run_before ms l s c :
  resynced l = false → Forall (λ m, is_complete m = false) ms → sub_run ms (l, s) c →
  c = (mkSub (delivered (snd (apply_all ms s)) ∪ seen l) false, fst (apply_all ms s)).
Proof.
  intros Hr Hall. revert l s Hr. induction Hall as [|m ms Hm Hms IH]; intros l s Hr Hrun.
  { inversion Hrun; subst. destruct l as [sn r]. simpl in *. subst.
    change (delivered []) with (∅ : gset Z). by rewrite (left_id_L ∅ (∪)). }
  inversion Hrun as [|m' ms' c1 c2 c3 Hstep Hrest]; subst.
  inversion Hstep; subst; simpl in *; try done.
  - match goal with H : ap_Apply _ _ = _ |- _ => rewrite H end. simpl.
    rewrite see_fresh in Hrest by done. apply IH in Hrest; [|done]. rewrite Hrest. simpl.
    destruct (apply_all ms s') as [s2 ids]. simpl. rewrite (delivered_cons id ids).
    apply (f_equal (λ x, (mkSub x false, s2))). set_solver.
  - by apply IH.
Qed.

(** After it, too. *)
Lemma sub_run_after ms l s c :
  resynced l = true → sub_run ms (l, s) c → c = (l, fst (apply_all ms s)).
Proof.
  intros Hr. revert s. induction ms as [|m ms IH]; intros s Hrun.
  { by inversion Hrun. }
  inversion Hrun as [|m' ms' c1 c2 c3 Hstep Hrest]; subst.
  inversion Hstep; subst; simpl in *; try congruence.
  - match goal with H : ap_Apply _ _ = _ |- _ => rewrite H end. simpl.
    assert (see id l = l) as El by (unfold see; by rewrite Hr, andb_false_r).
    rewrite El in Hrest. apply IH in Hrest. rewrite Hrest.
    by destruct (apply_all ms s').
  - by apply IH.
  - by apply IH.
Qed.

Lemma sub_run_app ms1 ms2 c c' :
  sub_run (ms1 ++ ms2) c c' → ∃ c1, sub_run ms1 c c1 ∧ sub_run ms2 c1 c'.
Proof.
  revert c. induction ms1 as [|m ms1 IH]; intros c Hrun; simpl in *.
  { exists c. split; [constructor|done]. }
  inversion Hrun as [|m' ms' c1 c2 c3 Hstep Hrest]; subst.
  destruct (IH _ Hrest) as (cm & Ha & Hb). exists cm. split; [by econstructor|done].
Qed.
End sub_lemmas.

Section key_lemmas.
Context `{Crypto} `{Os}.

(** Every entry comes from a file named after it. *)
Definition key_from (t : nat) (paths : list string) (id : string) (k : PublicKey) : Prop :=
  ∃ i p, paths !! i = Some p ∧ key_id p = id ∧ load_key (t + i) p = Ok k.

Lemma load_keys_ok paths t keys0 keys :
  load_keys t paths keys0 = Ok keys →
  (∀ i p, paths !! i = Some p → ∃ k, load_key (t + i) p = Ok k) ∧
  (∀ id k, keys !! id = Some k → key_from t paths id k ∨ keys0 !! id = Some k).
Proof.
  revert t keys0. induction paths as [|p rest IH]; intros t keys0; simpl.
  { intros [= <-]. split; [done|by auto]. }
  destruct (load_key t p) as [k0|e|x] eqn:Ek; [|done|done]. simpl.
  intros [H1 H2]%IH. split.
  - intros [|i] q Hq; simpl in Hq; [injection Hq as <-|].
    + exists k0. by rewrite Nat.add_0_r.
    + destruct (H1 i q Hq) as [k Hk]. exists k. by rewrite <- plus_n_Sm.
  - intros id k [(i & q & Hq & Hid & Hk)|Hin]%H2.
    + left. exists (S i), q. by rewrite <- plus_n_Sm.
    + unfold TrustKeys in *. rewrite lookup_insert_Some in Hin. destruct Hin as [[<- <-]|[_ Hin]]; [|by auto].
      left. exists O, p. by rewrite Nat.add_0_r.
Qed.
End key_lemmas.

(** * Properties *)

(** C24: only signed bytes are accepted, and they are accepted as signed.  A
    pushed warrant is accepted exactly when its key id is a known key, the
    signature has 64 bytes and verifies under that key over the received bytes,
    and those same bytes decode; the result is their decoding. *)
Theorem Verify_authentic `{Crypto} env keys w :
  Verify env keys = Ok w ↔
  ∃ key, keys !! pb.sw_KeyId env = Some key ∧
         String.length (pb.sw_Signature env) = SignatureSize ∧
         ed25519_Verify key (pb.sw_Warrant env) (pb.sw_Signature env) = true ∧
         proto_Unmarshal (pb.sw_Warrant env) = Ok w.
Proof.
  unfold Verify. destruct (keys !! pb.sw_KeyId env) as [key|];
    [|split; [done|by intros (k & ? & _)]].
  destruct (Nat.eqb_spec (String.length (pb.sw_Signature env)) SignatureSize) as [Hl|Hl]; simpl;
    [|split; [done|by intros (k & _ & ? & _)]].
  destruct (ed25519_Verify _ _ _) eqn:Ev; simpl.
  - destruct (proto_Unmarshal _) as [w'|e|p]; split; try done.
    + intros [= <-]. by exists key.
    + intros (k & _ & _ & _ & Hw). by injection Hw as <-.
    + by intros (k & _ & _ & _ & ?).
    + by intros (k & _ & _ & _ & ?).
  - split; [done|]. intros (k & [= <-] & _ & Hv & _). congruence.
Qed.

(** The trust keys are the directory's keys.  When loading succeeds every
    matching file held an Ed25519 key, and every key in the result came from a
    file named after its id; one unreadable or foreign file refuses them all. *)
Theorem LoadTrustKeys_sound `{Crypto} `{Os} t dir keys :
  LoadTrustKeys t dir = Ok keys →
  ∃ pattern paths, filepath_Glob t pattern = Ok paths ∧
    (∀ i p, paths !! i = Some p → ∃ k, load_key (S t + i) p = Ok k) ∧
    ∀ id k, keys !! id = Some k → key_from (S t) paths id k.
Proof.
  unfold LoadTrustKeys. set (pattern := if bool_decide _ then _ else _).
  destruct (filepath_Glob t pattern) as [paths|e|p] eqn:Eg; [|done|done]. simpl.
  intros [H1 H2]%load_keys_ok. exists pattern, paths. split; [done|]. split; [done|].
  intros id k Hk. destruct (H2 id k Hk) as [|Hn]; [done|]. unfold TrustKeys in Hn. by rewrite lookup_empty in Hn.
Qed.
(** A warrant with a policy of its own. *)
Definition demo_grant : pb.Warrant :=
  pb.mkWarrant 2 "" "" 1 1 "" "alice" ["SHA256:a"] ["web-1"] "" 0 2000 0 false 1 0 8
    (Some (pb.mkPolicy "deploy" [pb.mkExecRule "/usr/bin/git"] [pb.mkWriteRule "/tmp/w" true 1]
             [pb.mkNetRule "10.0.0.0/8" 443 1] false [])) false.
(** A directory with one key file; keys are strings here. *)
Definition demo_crypto : Crypto := {|
  PublicKey := string;
  ed25519_Verify k m s := String.eqb (String.substring 0 (String.length k) s) k;
  proto_Unmarshal b :=
    let w rev := pb.mkWarrant 1 "" "" rev 1 "" "alice" ["SHA256:a"] ["web-1"] "" 0 2000 0 false 1 0 7
                   None false in
    if String.eqb b "rev4" then Ok (w 4)
    else if String.eqb b "rev5" then Ok (w 5)
    else if String.eqb b "grant" then Ok demo_grant
    else Err (EMsg "proto");
  pem_Decode b := Some ("PUBLIC KEY", b);
  x509_ParsePKIX b := Ok (inl b);
  filepath_Glob _ p := if String.eqb p "/etc/warrantd/keys/*.pem"
                       then Ok ["/etc/warrantd/keys/k1.pem"] else Ok []
|}.
Definition demo_key_os : Os := {|
  unix_Stat _ _ := Err (EErrno ENOENT);
  os_ReadFile _ p := if String.eqb p "/etc/warrantd/keys/k1.pem" then Ok "KEY" else Err (EErrno ENOENT);
  unix_Major d := d; unix_Minor d := d;
  clock_boottime t := Ok (Z.of_nat t, 0)
|}.
Lemma LoadTrustKeys_sound_witness :
  ∃ keys, @LoadTrustKeys demo_crypto demo_key_os 0 "/etc/warrantd/keys" = Ok keys ∧
          keys !! "k1" = Some "KEY" ∧
          ∃ paths, @key_from demo_crypto demo_key_os 1 paths "k1" "KEY".
Proof.
  eexists. split; [reflexivity|]. split; [reflexivity|].
  destruct (@LoadTrustKeys_sound demo_crypto demo_key_os 0 "/etc/warrantd/keys" _ eq_refl)
    as (pat & paths & _ & _ & Hk).
  exists paths. by apply Hk.
Defined.

(** Reconnecting backs off and recovers.  Every delay between streams lies
    between the client's bounds; a run of [k] unhealthy streams from the start
    waits [min * 2^i] before retry [i], capped at the maximum; a healthy stream
    starts over at the minimum. *)
Theorem backoff_correct c ends k i :
  0 < minBackoff c <= maxBackoff c → (i < k)%nat →
  Forall (λ d, minBackoff c <= d <= maxBackoff c) (reconnect_delays c ends) ∧
  reconnect_delays c (replicate k false) !! i =
    Some (Z.min (minBackoff c * 2 ^ Z.of_nat i) (maxBackoff c)) ∧
  ∀ b rest, delays c b (true :: rest) = minBackoff c :: delays c (snd (next_backoff c b true)) rest.
Proof.
  intros Hc Hi. split; [apply delays_bounds; lia|]. split; [apply delays_unhealthy; lia|done].
Qed.
Lemma backoff_correct_witness :
  reconnect_delays dialed (replicate 7 false) !! 5%nat = Some 30000000000.
Proof.
  destruct (backoff_correct dialed [] 7 5) as (_ & -> & _); [simpl; lia|lia|reflexivity].
Defined.

(** C38: one subscription, exactly.  The pushes before the first ResyncComplete
    are applied in order; then, if at least as many distinct ids were verified as
    the server listed, [Resync] gets exactly the set of verified ids, and
    otherwise nothing is revoked; after that only pushes are applied, and no
    second [Resync] ever happens on the stream. *)
Theorem subscription_run {T : Type} `{Applier T} pre n post (s : T) c :
  Forall (λ m, is_complete m = false) pre →
  sub_run (pre ++ pb.PushMessage_ResyncComplete n :: post) (fresh_sub, s) c →
  let '(s1, ids) := apply_all pre s in
  ∃ s2, (if u32 (Z.of_nat (size (delivered ids))) <? n then s2 = s1
         else ap_Resync (delivered ids) s1 s2) ∧
        snd c = fst (apply_all post s2).
Proof.
  intros Hpre Hrun. apply sub_run_app in Hrun as (c1 & H1 & H2).
  apply sub_run_before in H1; [|done|done].
  destruct (apply_all pre s) as [s1 ids]. simpl in H1. subst c1.
  assert (delivered ids ∪ (∅ : gset Z) = delivered ids) as Eu by set_solver.
  inversion H2 as [|m' ms' c1 c2 c3 Hstep Hrest]; subst.
  inversion Hstep; subst; simpl in *; try done; rewrite Eu in *.
  - apply sub_run_after in Hrest as ->; [|done]. exists s1.
    rewrite (proj2 (Z.ltb_lt _ _)) by done. done.
  - apply sub_run_after in Hrest as ->; [|done]. eexists.
    rewrite (proj2 (Z.ltb_ge _ _)) by done. split; done.
Qed.
(** A node that records what it was told. *)
Definition log_applier : Applier (list (gset Z)) := {|
  ap_Apply env s := (s, (Z.of_nat (String.length (pb.sw_Warrant env)), None));
  ap_Resync active s s' := s' = s ++ [active];
  ap_Revisions _ := ∅
|}.
Lemma subscription_run_witness :
  ∃ c : sub * list (gset Z), snd c = [{[ 2 ]}] ∧
  let '(s1, ids) := @apply_all _ log_applier
    [pb.PushMessage_Warrant (pb.mkSignedWarrant "ab" "" "k")] [] in
  ∃ s2, (if u32 (Z.of_nat (size (delivered ids))) <? 1 then s2 = s1
         else @ap_Resync _ log_applier (delivered ids) s1 s2) ∧
        snd c = fst (@apply_all _ log_applier [] s2).
Proof.
  exists (mkSub {[ 2 ]} true, [{[ 2 ]}]). split; [done|].
  apply (@subscription_run _ log_applier
           [pb.PushMessage_Warrant (pb.mkSignedWarrant "ab" "" "k")] 1 [] [] (mkSub {[ 2 ]} true, [{[ 2 ]}]));
    [repeat constructor|].
  eapply SubMore; [by eapply SubWarrant|]. eapply SubMore; [|constructor].
  assert (see 2 fresh_sub = mkSub {[ 2 ]} false) as E by (unfold see; simpl; apply (f_equal (λ x, mkSub x false)); set_solver).
  change (Z.of_nat (String.length (pb.sw_Warrant (pb.mkSignedWarrant "ab" "" "k")))) with 2.
  rewrite E. refine (@SubResync _ log_applier 1 (mkSub {[ 2 ]} false) [] [{[ 2 ]}] _ _ _); done.
Defined.
