(* ===== verification/Registry.v ===== *)
(** The registry of installed warrants (agent/cmd/warrantd/registry.go) and the
    policy installer, with the local warrant file (warrants.go).  The registry is
    proved against what it needs of the kernel maps, the policy installer and the
    clocks; the node that provides them is at the end. *)

From Stdlib Require Import ZArith Lia Ascii String.
From stdpp Require Import base tactics numbers list strings gmap.
From S2P Require Import Prelude GoStd GoNet EbpfMap Os BpfMap Concrete Kernel.
From S2P Require Import Policy Session Pb Warrants Upstream.

(** * What the registry needs *)

(** [kernelWarrants], [installPolicy], [now] and [bootNs]: computations on the
    node's state.  [kw_get] is what the kernel finds for a warrant id. *)
Class KernelWarrants (N : Type) := {
  kw_PutWarrant : Z → KWarrant → M N unit;
  kw_Revoke : Z → M N unit;
  kw_SetActive : bool → M N unit;
  kw_installPolicy : Z → option pb.Policy → M N unit;
  kw_now : M N Z;
  kw_bootNs : M N Z;
  kw_get : N → Z → option KWarrant
}.

Class KernelWarrantsLaws (N : Type) `{KernelWarrants N} : Prop := {
  kw_Put_get id w s s' r :
    kw_PutWarrant id w s = (s', r) →
    ∀ k, kw_get s' k = if decide (r = Ok tt ∧ k = id) then Some w else kw_get s k;
  kw_Revoke_get id s s' r :
    kw_Revoke id s = (s', r) →
    (r = Ok tt → is_Some (kw_get s id)) ∧
    ∀ k, kw_get s' k = if decide (r = Ok tt ∧ k = id)
                       then (λ w, set_Revoked w 1) <$> kw_get s k else kw_get s k;
  kw_SetActive_get b s s' r : kw_SetActive b s = (s', r) → ∀ k, kw_get s' k = kw_get s k;
  kw_install_get id p s s' r : kw_installPolicy id p s = (s', r) → ∀ k, kw_get s' k = kw_get s k;
  kw_now_get s s' r : kw_now s = (s', r) → ∀ k, kw_get s' k = kw_get s k;
  kw_bootNs_get s s' r : kw_bootNs s = (s', r) → ∀ k, kw_get s' k = kw_get s k
}.

(** * The registry *)

Inductive source := fromFile | fromCentral.
#[export] Instance source_eq_dec : EqDecision source.
Proof. solve_decision. Defined.

Record entry := mkEntry { e_w : pb.Warrant; e_src : source }.

Record registry `{Crypto} := mkRegistry {
  host : string;
  keys : TrustKeys;
  byID : gmap Z entry;
  policies : gmap Z (option pb.Policy);
  active : bool
}.

Definition newRegistry `{Crypto} (h : string) (ks : TrustKeys) : registry :=
  mkRegistry _ h ks ∅ ∅ false.

Section registry.
Context `{Crypto} {N : Type} `{KernelWarrants N}.

(** The registry and the node it runs on. *)
Record rstate := mkRstate { rg : registry; nd : N }.

Definition lift {A} (m : M N A) : M rstate A :=
  λ st, let '(n', r) := m (nd st) in (mkRstate (rg st) n', r).
Definition mod_r (f : registry → registry) : M rstate unit :=
  mmod (λ st, mkRstate (f (rg st)) (nd st)).

Definition set_byID (r : registry) x := mkRegistry _ (host r) (keys r) x (policies r) (active r).
Definition set_policies (r : registry) x := mkRegistry _ (host r) (keys r) (byID r) x (active r).
Definition set_active (r : registry) x := mkRegistry _ (host r) (keys r) (byID r) (policies r) x.

(** The policy of a warrant: installed on first sight, equal afterwards. *)
Definition install_policy (pid : Z) (p : option pb.Policy) : M rstate unit :=
  do st := mget in
  match policies (rg st) !! pid with
  | None =>
      (λ st, match lift (kw_installPolicy pid p) st with
             | (st', Err e) => (st', Err (EWrap ("policy " +:+ fmt_u pid +:+ ": ") e))
             | out => out
             end) ;;;
      mod_r (λ r, set_policies r (<[pid := p]> (policies r)))
  | Some q =>
      if bool_decide (q = p) then mok tt
      else merr (EMsg ("policy " +:+ fmt_u pid +:+
                       " arrived with different rules: a policy_id is never reused"))
  end.

(** Switching enforcement on; a failure is logged. *)
Definition activate : M rstate unit :=
  do st := mget in
  if active (rg st) then mok tt
  else λ st, match lift (kw_SetActive true) st with
             | (st', Ok _) => (mkRstate (set_active (rg st') true) (nd st'), Ok tt)
             | (st', Err _) => (st', Ok tt)
             | (st', Panic p) => (st', Panic p)
             end.

(** A warrant replaces only an older revision of itself. *)
Definition newer_revision (w : pb.Warrant) : M rstate unit :=
  do st := mget in
  match byID (rg st) !! pb.w_WarrantId w with
  | Some old =>
      if pb.w_Revision w <=? pb.w_Revision (e_w old) then
        merr (EMsg ("revision " +:+ fmt_u (pb.w_Revision w) +:+ " is not newer than installed " +:+
                    fmt_u (pb.w_Revision (e_w old))))
      else mok tt
  | None => mok tt
  end.
(** The host check and the revision check, before anything is written. *)
Definition admissible (w : pb.Warrant) : M rstate unit :=
  (do st := mget in mres (checkWarrant w (host (rg st)))) ;;; newer_revision w.

(** Both clocks are read and the kernel's copy is written. *)
Definition put_kernel (w : pb.Warrant) : M rstate unit :=
  do boot := lift kw_bootNs in
  do now := lift kw_now in
  lift (kw_PutWarrant (pb.w_WarrantId w) (kernelWarrant w now boot)).

Definition install (w : pb.Warrant) (src : source) : M rstate unit :=
  let id := pb.w_WarrantId w in
  let pid := pb.w_PolicyId w in
  admissible w ;;;
  install_policy pid (pb.w_Policy w) ;;;
  put_kernel w ;;;
  mod_r (λ r, set_byID r (<[id := mkEntry w src]> (byID r))) ;;;
  activate.

(** [Apply]: the id once the signature checked out, and [install]'s error. *)
Definition Apply (env : pb.SignedWarrant) (st : rstate) : rstate * (Z * option error) :=
  match Verify env (keys (rg st)) with
  | Ok w =>
      match install w fromCentral st with
      | (st', Ok _) => (st', (pb.w_WarrantId w, None))
      | (st', Err e) => (st', (pb.w_WarrantId w, Some e))
      | (st', Panic p) => (st', (pb.w_WarrantId w, Some (EMsg p)))
      end
  | Err e => (st, (0, Some e))
  | Panic p => (st, (0, Some (EMsg p)))
  end.

(** One entry of [Resync]'s loop. *)
Definition resync_one (keep : gset Z) (st : rstate) (x : Z * entry) : rstate :=
  let '(id, e) := x in
  if bool_decide (id ∈ keep) || negb (bool_decide (e_src e = fromCentral)) then st
  else match lift (kw_Revoke id) st with
       | (st', Ok _) => mkRstate (set_byID (rg st') (base.delete id (byID (rg st')))) (nd st')
       | (st', _) => st'
       end.
(** [Resync], ranging over the entries in some order. *)
Definition Resync (keep : gset Z) (st st' : rstate) : Prop :=
  ∃ order, order ≡ₚ map_to_list (byID (rg st)) ∧ st' = foldl (resync_one keep) st order.

Definition Revisions (st : rstate) : gmap Z Z :=
  omap (λ e, if bool_decide (e_src e = fromCentral) then Some (pb.w_Revision (e_w e)) else None)
       (byID (rg st)).

(** [match], over the entries in the order Go hands them out. *)
Definition reg_match (order : list (Z * entry)) (account fp : string) (now : Z)
    : option pb.Warrant * Z :=
  matchWarrant (e_w ∘ snd <$> order) account fp now.

Definition reg_len (st : rstate) : nat := size (byID (rg st)).

#[export] Instance registry_applier : Applier rstate := {
  ap_Apply := Apply;
  ap_Resync := Resync;
  ap_Revisions := Revisions
}.
End registry.
Arguments rstate {_} N.

(** [loadLocalWarrants]: bad entries are skipped, a missing or bad file ignored. *)
Section local_file.
Context `{Crypto} {N : Type} `{KernelWarrants N} `{WarrantJson}.

Definition install_all (ws : list pb.Warrant) (st : rstate N) : rstate N :=
  foldl (λ st w, fst (install w fromFile st)) st ws.

Definition loadLocalWarrants (file : res string) (st : rstate N) : rstate N :=
  match file with
  | Ok b => match parseWarrantFile b with
            | Ok ws => install_all ws st
            | _ => st
            end
  | _ => st
  end.
End local_file.

(** * Lemmas *)

Section lemmas.
Context `{Crypto} {N : Type} `{KernelWarrants N} `{!KernelWarrantsLaws N}.
Implicit Types st : rstate N.

(** What every step of the registry keeps: its host and keys, and the policies
    it has. *)
Definition grows st st' : Prop :=
  host (rg st') = host (rg st) ∧ keys (rg st') = keys (rg st) ∧
  policies (rg st) ⊆ policies (rg st').
Definition unchanged st st' : Prop :=
  grows st st' ∧ byID (rg st') = byID (rg st) ∧ ∀ k, kw_get (nd st') k = kw_get (nd st) k.
Definition installed (w : pb.Warrant) (src : source) st st' : Prop :=
  grows st st' ∧ checkWarrant w (host (rg st)) = Ok tt ∧
  (∀ old, byID (rg st) !! pb.w_WarrantId w = Some old →
          pb.w_Revision (e_w old) < pb.w_Revision w) ∧
  byID (rg st') = <[pb.w_WarrantId w := mkEntry w src]> (byID (rg st)) ∧
  policies (rg st') !! pb.w_PolicyId w = Some (pb.w_Policy w) ∧
  ∃ now boot, ∀ k, kw_get (nd st') k =
    if decide (k = pb.w_WarrantId w) then Some (kernelWarrant w now boot) else kw_get (nd st) k.

Lemma grows_refl st : grows st st.
Proof. done. Qed.
Lemma grows_trans st1 st2 st3 : grows st1 st2 → grows st2 st3 → grows st1 st3.
Proof.
  intros (H1 & H2 & H3) (H4 & H5 & H6). split; [congruence|]. split; [congruence|].
  by etrans.
Qed.
Lemma unchanged_refl st : unchanged st st.
Proof. done. Qed.
Lemma unchanged_trans st1 st2 st3 : unchanged st1 st2 → unchanged st2 st3 → unchanged st1 st3.
Proof.
  intros (H1 & H2 & H3) (H4 & H5 & H6). split; [by eapply grows_trans|].
  split; [congruence|]. intros k. by rewrite H6.
Qed.

Lemma lift_unchanged {A} (m : M N A) st :
  (∀ s s' r, m s = (s', r) → ∀ k, kw_get s' k = kw_get s k) → unchanged st (fst (lift m st)).
Proof.
  intros Hm. unfold lift. destruct (m (nd st)) as [n' r] eqn:E. simpl.
  split; [done|]. split; [done|]. by eapply Hm.
Qed.

Lemma install_policy_spec pid p st st' r :
  install_policy pid p st = (st', r) →
  unchanged st st' ∧ (r = Ok tt → policies (rg st') !! pid = Some p).
Proof.
  unfold install_policy. unfold mbnd at 1. simpl.
  destruct (policies (rg st) !! pid) as [q|] eqn:Eq.
  { case_bool_decide as Hq; intros [= <- <-]; (split; [done|]); [by subst|done]. }
  unfold mbnd, lift. destruct (kw_installPolicy pid p (nd st)) as [n' [[]|e|x]] eqn:Ei;
    intros [= <- <-]; simpl.
  - pose proof (kw_install_get _ _ _ _ _ Ei) as Hg. split; [|by rewrite lookup_insert_eq].
    split; [|done]. split; [done|]. split; [done|]. simpl. by apply insert_subseteq.
  - split; [|done]. split; [done|]. split; [done|]. by eapply kw_install_get.
  - split; [|done]. split; [done|]. split; [done|]. by eapply kw_install_get.
Qed.

(** The policies afterwards: as before, or with this one, which was not there. *)
Definition recorded (pid : Z) (p : option pb.Policy) st st' : Prop :=
  policies (rg st') = policies (rg st) ∨
  (policies (rg st) !! pid = None ∧ policies (rg st') = <[pid := p]> (policies (rg st))).
Lemma install_policy_records pid p st : recorded pid p st (fst (install_policy pid p st)).
Proof.
  destruct (install_policy pid p st) as [st' r] eqn:E. revert E. unfold install_policy. unfold mbnd at 1. simpl.
  destruct (policies (rg st) !! pid) as [q|] eqn:Eq.
  { left. revert E. case_bool_decide; by intros [= <- _]. }
  unfold mbnd, lift. destruct (kw_installPolicy pid p (nd st)) as [n' [[]|e|x]]; intros [= <- _];
    [right; by split|by left|by left].
Qed.

Lemma activate_spec st st' r :
  activate st = (st', r) → unchanged st st' ∧ ¬ (∃ e, r = Err e).
Proof.
  unfold activate, mbnd. simpl. destruct (active (rg st)).
  { intros [= <- <-]. split; [done|]. by intros [e He]. }
  unfold lift. destruct (kw_SetActive true (nd st)) as [n' [[]|e|x]] eqn:Es; intros [= <- <-];
    pose proof (kw_SetActive_get _ _ _ _ Es); (split; [done|]); by intros [e' He].
Qed.

Lemma admissible_spec w st :
  ∃ r, admissible w st = (st, r) ∧
       (r = Ok tt → checkWarrant w (host (rg st)) = Ok tt ∧
          ∀ old, byID (rg st) !! pb.w_WarrantId w = Some old →
                 pb.w_Revision (e_w old) < pb.w_Revision w).
Proof.
  unfold admissible, newer_revision, mbnd, mres. simpl.
  destruct (checkWarrant w (host (rg st))) as [[]|e|x]; [|by eexists|by eexists].
  destruct (byID (rg st) !! pb.w_WarrantId w) as [old|]; [|by eexists].
  destruct (Z.leb_spec (pb.w_Revision w) (pb.w_Revision (e_w old))); [by eexists|].
  eexists. split; [done|]. intros _. split; [done|]. by intros old' [= <-].
Qed.

Lemma put_kernel_spec w st st' r :
  put_kernel w st = (st', r) →
  grows st st' ∧ byID (rg st') = byID (rg st) ∧
  ∃ now boot, ∀ k, kw_get (nd st') k =
    if decide (r = Ok tt ∧ k = pb.w_WarrantId w) then Some (kernelWarrant w now boot)
    else kw_get (nd st) k.
Proof.
  unfold put_kernel. unfold mbnd at 1.
  pose proof (lift_unchanged kw_bootNs st kw_bootNs_get) as Hu1.
  destruct (lift kw_bootNs st) as [st1 [boot|e|x]]; simpl in Hu1.
  2,3: intros [= <- <-]; destruct Hu1 as (? & ? & Hk); split; [done|]; split; [done|];
       exists 0, 0; intros k; rewrite decide_False by naive_solver; apply Hk.
  unfold mbnd at 1. pose proof (lift_unchanged kw_now st1 kw_now_get) as Hu2.
  pose proof (unchanged_trans _ _ _ Hu1 Hu2) as Hu.
  destruct (lift kw_now st1) as [st2 [now|e|x]]; simpl in Hu.
  2,3: intros [= <- <-]; destruct Hu as (? & ? & Hk); split; [done|]; split; [done|];
       exists 0, 0; intros k; rewrite decide_False by naive_solver; apply Hk.
  destruct Hu as (Hg & Hb & Hk). unfold lift.
  destruct (kw_PutWarrant _ _ (nd st2)) as [n3 r3] eqn:E3. intros [= <- <-].
  split; [done|]. split; [done|]. exists now, boot. intros k. simpl.
  rewrite (kw_Put_get _ _ _ _ _ E3). case_decide; [done|apply Hk].
Qed.

(** [install] either changes nothing the kernel or the table shows, or installs
    the warrant completely; with an error it is the former. *)
Lemma install_cases w src st st' r :
  install w src st = (st', r) →
  (r ≠ Ok tt ∧ unchanged st st') ∨ (¬ (∃ e, r = Err e) ∧ installed w src st st').
Proof.
  unfold install. unfold mbnd at 1. destruct (admissible_spec w st) as (r0 & -> & Hr0).
  destruct r0 as [[]|e|x]; [destruct (Hr0 eq_refl) as [Hc Hrev]
    |intros [= <- <-]; left; split; [done|apply unchanged_refl]
    |intros [= <- <-]; left; split; [done|apply unchanged_refl]].
  unfold mbnd at 1. destruct (install_policy _ _ st) as [st1 r1] eqn:E1.
  apply install_policy_spec in E1 as [(Hg1 & Hb1 & Hk1) Hp1].
  destruct r1 as [[]|e|x]; [|intros [= <- <-]; left; done|intros [= <- <-]; left; done].
  unfold mbnd at 1. destruct (put_kernel w st1) as [st2 r2] eqn:E2.
  apply put_kernel_spec in E2 as (Hg2 & Hb2 & now & boot & Hk2).
  assert (grows st st2) as Hg by (by eapply grows_trans).
  destruct r2 as [[]|e|x].
  2,3: intros [= <- <-]; left; split; [done|]; split; [done|]; split; [congruence|];
       intros k; rewrite Hk2, decide_False by naive_solver; apply Hk1.
  unfold mbnd at 1. cbn [mod_r mmod]. intros [(Hag & Hab & Hak) Hne]%activate_spec.
  right. split; [done|]. simpl in *.
  split; [eapply grows_trans; [exact Hg|done]|]. split; [done|]. split; [done|].
  split; [by rewrite Hab, Hb2, Hb1|]. split.
  { destruct Hag as (_ & _ & Hag), Hg2 as (_ & _ & Hg2). simpl in Hag.
    eapply lookup_weaken; [|done]. eapply lookup_weaken; [|done]. by apply Hp1. }
  exists now, boot. intros k. rewrite Hak, Hk2, Hk1.
  case_decide as Hd; case_decide as Hd'; naive_solver.
Qed.

(** Whatever [install] returns, it records at most the warrant's own policy. *)
Lemma put_kernel_policies x w : keeps (λ st, policies (rg st) = x) (put_kernel w).
Proof.
  assert (∀ A (m : M N A), keeps (λ st, policies (rg st) = x) (lift m)) as Hl.
  { intros A m st Hst. unfold lift. by destruct (m (nd st)). }
  unfold put_kernel. do 2 (apply keeps_mbnd; [apply Hl|intros ?]). apply Hl.
Qed.
Lemma activate_policies x : keeps (λ st, policies (rg st) = x) activate.
Proof.
  unfold activate. apply keeps_mbnd; [by intros s|]. intros st0. destruct (active _); [by intros s|].
  intros st Hst. unfold lift. by destruct (kw_SetActive _ _) as [n' [[]|e|y]].
Qed.
Lemma install_records w src st :
  recorded (pb.w_PolicyId w) (pb.w_Policy w) st (fst (install w src st)).
Proof.
  unfold install. unfold mbnd at 1. destruct (admissible_spec w st) as (r0 & -> & _).
  destruct r0 as [[]|e|x]; [|by left|by left]. unfold mbnd at 1.
  pose proof (install_policy_records (pb.w_PolicyId w) (pb.w_Policy w) st) as Hr.
  destruct (install_policy _ _ st) as [st1 [[]|e|x]]; [|done|done].
  unfold recorded. assert (∀ y : gmap Z (option pb.Policy), policies (rg st1) = y →
    policies (rg (fst ((put_kernel w ;;;
      mod_r (λ r, set_byID r (<[pb.w_WarrantId w := mkEntry w src]> (byID r))) ;;; activate) st1))) = y) as Hk.
  { intros y. apply (keeps_mbnd (λ st, policies (rg st) = y)); [apply put_kernel_policies|]. intros _.
    apply keeps_mbnd; [by intros s|intros _; apply activate_policies]. }
  destruct Hr as [Hr|[Hn Hr]]; [left|right; split; [done|]]; by apply Hk.
Qed.

(** ** The invariant: the table mirrors the kernel *)

Definition entry_ok st (id : Z) (e : entry) : Prop :=
  id = pb.w_WarrantId (e_w e) ∧ checkWarrant (e_w e) (host (rg st)) = Ok tt ∧
  policies (rg st) !! pb.w_PolicyId (e_w e) = Some (pb.w_Policy (e_w e)) ∧
  ∃ now boot, kw_get (nd st) id = Some (kernelWarrant (e_w e) now boot).
Definition reg_inv st : Prop := ∀ id e, byID (rg st) !! id = Some e → entry_ok st id e.

Lemma entry_ok_grows st st' id e :
  grows st st' → kw_get (nd st') id = kw_get (nd st) id → entry_ok st id e → entry_ok st' id e.
Proof.
  intros (Hh & _ & Hp) Hk (H1 & H2 & H3 & now & boot & H4).
  split; [done|]. split; [by rewrite Hh|]. split; [by eapply lookup_weaken|].
  exists now, boot. by rewrite Hk.
Qed.
Lemma reg_inv_unchanged st st' : unchanged st st' → reg_inv st → reg_inv st'.
Proof.
  intros (Hg & Hb & Hk) Hi id e He. rewrite Hb in He. eapply entry_ok_grows; [done|done|]. by apply Hi.
Qed.
Lemma reg_inv_installed w src st st' : installed w src st st' → reg_inv st → reg_inv st'.
Proof.
  intros (Hg & Hc & _ & Hb & Hp & now & boot & Hk) Hi id e He. rewrite Hb in He.
  apply lookup_insert_Some in He as [[<- <-]|[Hne He]].
  - split; [done|]. split; [by destruct Hg as [-> _]|]. split; [done|].
    exists now, boot. by rewrite Hk, decide_True.
  - eapply entry_ok_grows; [done| |by apply Hi]. by rewrite Hk, decide_False.
Qed.
Lemma install_inv w src st : reg_inv st → reg_inv (fst (install w src st)).
Proof.
  intros Hi. destruct (install w src st) as [st' r] eqn:E.
  apply install_cases in E as [[_ Hu]|[_ Hu]]; simpl;
    eauto using reg_inv_unchanged, reg_inv_installed.
Qed.

Lemma Apply_fst env st :
  fst (Apply env st) = st ∨
  ∃ w, Verify env (keys (rg st)) = Ok w ∧ fst (Apply env st) = fst (install w fromCentral st).
Proof.
  unfold Apply. destruct (Verify env (keys (rg st))) as [w|e|p]; [|by left|by left].
  right. exists w. split; [done|]. by destruct (install w fromCentral st) as [st' []].
Qed.

(** ** [Resync] *)

(** What one id looks like before and after. *)
Definition same_at (id : Z) st st' : Prop :=
  byID (rg st') !! id = byID (rg st) !! id ∧ kw_get (nd st') id = kw_get (nd st) id.
Definition cut_at (id : Z) st st' : Prop :=
  byID (rg st') !! id = None ∧ is_Some (kw_get (nd st) id) ∧
  kw_get (nd st') id = (λ w, set_Revoked w 1) <$> kw_get (nd st) id.

(** The node as [Resync] finds it when, ranging in [order] from [st], it comes to
    [id]; and what the kernel's answer there makes of the entry. *)
Definition turn keep st (order : list (Z * entry)) (id : Z) (n : N) : Prop :=
  ∃ pre e post, order = pre ++ (id, e) :: post ∧ n = nd (foldl (resync_one keep) st pre).
Definition revoked_at (id : Z) (n : N) st st' : Prop :=
  (snd (kw_Revoke id n) = Ok tt ∧ cut_at id st st') ∨
  (snd (kw_Revoke id n) ≠ Ok tt ∧ same_at id st st').

Lemma turn_cons keep st x order id n :
  turn keep (resync_one keep st x) order id n → turn keep st (x :: order) id n.
Proof. intros (pre & e & post & -> & ->). by exists (x :: pre), e, post. Qed.

Lemma resync_one_spec keep st x :
  let st' := resync_one keep st x in
  grows st st' ∧ (∀ id, id ≠ fst x → same_at id st st') ∧
  (if bool_decide (fst x ∈ keep) || negb (bool_decide (e_src (snd x) = fromCentral))
   then same_at (fst x) st st'
   else revoked_at (fst x) (nd st) st st').
Proof.
  destruct x as [id e]. unfold resync_one. simpl.
  case_bool_decide as Hk; simpl; [split; [done|]; split; done|].
  case_bool_decide as Hs; simpl; [|split; [done|]; split; done].
  unfold lift. destruct (kw_Revoke id (nd st)) as [n' r] eqn:Er.
  pose proof (kw_Revoke_get _ _ _ _ Er) as [Hsome Hg].
  assert (∀ k, k ≠ id → kw_get n' k = kw_get (nd st) k) as Hother.
  { intros k Hk'. rewrite Hg, decide_False by naive_solver. done. }
  assert (r ≠ Ok tt → kw_get n' id = kw_get (nd st) id) as Hfail.
  { intros Hr. by rewrite Hg, decide_False by naive_solver. }
  destruct r as [[]|er|p]; (split; [done|]); (split;
    [intros k Hk'; split; simpl; [by rewrite ?lookup_delete_ne|by apply Hother]|]).
  all: unfold revoked_at; rewrite Er; cbn [snd].
  - left. split; [done|]. split; simpl; [by rewrite lookup_delete_eq|].
    split; [by apply Hsome|]. by rewrite Hg, decide_True.
  - right. split; [done|]. split; [done|]. by apply Hfail.
  - right. split; [done|]. split; [done|]. by apply Hfail.
Qed.

Lemma resync_fold keep order st :
  NoDup order.*1 →
  let st' := foldl (resync_one keep) st order in
  grows st st' ∧ (∀ id, id ∉ order.*1 → same_at id st st') ∧
  ∀ id e, (id, e) ∈ order →
    if bool_decide (id ∈ keep) || negb (bool_decide (e_src e = fromCentral))
    then same_at id st st' else ∃ n, turn keep st order id n ∧ revoked_at id n st st'.
Proof.
  revert st. induction order as [|[id0 e0] rest IH]; intros st Hnd; simpl.
  { split; [done|]. split; [done|]. by intros id e ?%elem_of_nil. }
  apply NoDup_cons in Hnd as [Hni Hnd].
  destruct (resync_one_spec keep st (id0, e0)) as (Hg1 & Ho1 & Hc1). cbn [fst snd] in *.
  set (st1 := resync_one keep st (id0, e0)) in *.
  destruct (IH st1 Hnd) as (Hg2 & Ho2 & Hc2).
  set (st2 := foldl _ _ _) in *.
  assert (same_at id0 st1 st2) as [H02 H02'] by (by apply Ho2).
  split; [by eapply grows_trans|]. split.
  - intros id Hid. apply not_elem_of_cons in Hid as [Hne Hid].
    destruct (Ho1 id Hne) as [A1 A2], (Ho2 id Hid) as [B1 B2]. split; congruence.
  - intros id e [[= -> ->]|Hin]%elem_of_cons.
    + destruct (bool_decide (id0 ∈ keep) || _).
      { destruct Hc1 as [A1 A2]. split; congruence. }
      exists (nd st). split; [by exists [], e0, rest|].
      destruct Hc1 as [(A0 & A1 & A2 & A3)|(A0 & A1 & A2)]; [left|right]; (split; [exact A0|]).
      * split; [congruence|]. split; [done|congruence].
      * split; congruence.
    + assert (id ≠ id0) as Hne.
      { intros ->. apply Hni. by apply (list_elem_of_fmap_2 fst) in Hin. }
      destruct (Ho1 id Hne) as [A1 A2]. specialize (Hc2 id e Hin).
      destruct (bool_decide (id ∈ keep) || _).
      { destruct Hc2 as [B1 B2]. split; congruence. }
      destruct Hc2 as (n & Ht & Hout). exists n. split; [by apply turn_cons|].
      destruct Hout as [(B0 & B1 & B2 & B3)|(B0 & B1 & B2)]; [left|right]; (split; [exact B0|]).
      * split; [done|]. rewrite A2 in B2, B3. done.
      * split; congruence.
Qed.

Lemma Resync_spec keep st st' :
  Resync keep st st' →
  ∃ order, order ≡ₚ map_to_list (byID (rg st)) ∧
  grows st st' ∧ (∀ id, byID (rg st) !! id = None → same_at id st st') ∧
  ∀ id e, byID (rg st) !! id = Some e →
    if bool_decide (id ∈ keep) || negb (bool_decide (e_src e = fromCentral))
    then same_at id st st' else ∃ n, turn keep st order id n ∧ revoked_at id n st st'.
Proof.
  intros (order & Hp & ->). exists order. split; [done|].
  assert (NoDup order.*1) as Hnd by (rewrite Hp; apply NoDup_fst_map_to_list).
  destruct (resync_fold keep order st Hnd) as (Hg & Ho & Hc). split; [done|]. split.
  - intros id Hid. apply Ho. intros ([i e] & -> & Hin)%list_elem_of_fmap. rewrite Hp in Hin.
    apply elem_of_map_to_list in Hin. simpl in Hid. congruence.
  - intros id e He. apply Hc. rewrite Hp. by apply elem_of_map_to_list.
Qed.

Lemma Resync_inv keep st st' : Resync keep st st' → reg_inv st → reg_inv st'.
Proof.
  intros (order & _ & Hg & Hn & Hs)%Resync_spec Hi id e He.
  destruct (byID (rg st) !! id) as [e0|] eqn:E0.
  - specialize (Hs id e0 E0).
    assert (same_at id st st') as [H1 H2].
    { destruct (bool_decide (id ∈ keep) || _); [done|].
      destruct Hs as (n & _ & [(_ & Hx & _)|[_ ?]]); [congruence|done]. }
    eapply entry_ok_grows; [done|done|]. apply Hi. congruence.
  - destruct (Hn id E0) as [H1 _]. congruence.
Qed.
End lemmas.
