(* ===== verification/Node.v ===== *)
(** The node under the registry: the maps, the policy installer with its watcher
    (registry.go) and the clocks, as an implementation of what the registry
    needs; and the registry's properties. *)

From Stdlib Require Import ZArith Lia Ascii String.
From stdpp Require Import base tactics numbers list strings gmap relations.
From S2P Require Import Prelude GoStd GoNet EbpfMap Os BpfMap Concrete Kernel.
From S2P Require Import Policy Typed Session Pb Warrants Upstream Registry.

(** * The policy installer *)

(** [time.Now().UnixNano()] at a moment. *)
Class WallClock := wall_clock : nat → Z.

(** [policyInstaller] with the maps it writes, and the moment. *)
Record node `{KernelMaps} := mkNode {
  n_maps : Maps;
  n_specs : gmap Z Spec;
  n_watcher : option Watcher;
  n_time : nat
}.

Section node.
Context `{Os} `{WallClock} `{KernelMaps}.

Definition set_time (n : node) t := mkNode _ (n_maps n) (n_specs n) (n_watcher n) t.
Definition on_maps {A} (m : M Maps A) : M node A :=
  λ n, let '(m', r) := m (n_maps n) in (mkNode _ m' (n_specs n) (n_watcher n) (n_time n), r).

(** [policyInstaller.install]'s compilation: it takes time. *)
Definition compile_now (id : Z) (s : Spec) : M node Compiled :=
  λ n, let '(t', r) := Compile id (ASpecVal s) (n_time n) in (set_time n t', r).

Definition watch_compiled (c : Compiled) : M node unit :=
  mmod (λ n, mkNode _ (n_maps n) (n_specs n)
                    ((λ w, fst (Watch (Some c) w)) <$> n_watcher n) (n_time n)).
Definition remember_spec (id : Z) (s : Spec) : M node unit :=
  mmod (λ n, mkNode _ (n_maps n) (<[id := s]> (n_specs n)) (n_watcher n) (n_time n)).

Definition installer_install (id : Z) (pp : option pb.Policy) : M node unit :=
  do s := mres (policySpec pp) in
  do c := compile_now id s in
  on_maps (Policy.Apply c) ;;;
  remember_spec id s ;;;
  watch_compiled c.

(** The zero [policy.Spec]: what a Go map yields for an unknown key. *)
Definition zero_Spec : Spec := mkSpec "" [] [] [] [] false false.

(** [recompile]: an error is logged and the old rules stay watched. *)
Definition recompile (id : Z) (n : node) : node :=
  let s := default zero_Spec (n_specs n !! id) in
  fst ((do c := compile_now id s in
        on_maps (Policy.Apply c) ;;;
        watch_compiled c) n).

Definition tick {A} (q : nat → res A) : M node A := λ n, (set_time n (S (n_time n)), q (n_time n)).

#[export] Instance node_kernel : KernelWarrants node := {
  kw_PutWarrant id w := on_maps (PutWarrant id w);
  kw_Revoke id := on_maps (Revoke id);
  kw_SetActive b := on_maps (SetActive b);
  kw_installPolicy := installer_install;
  kw_now := tick (λ t, Ok (wall_clock t));
  kw_bootNs := tick BootNs;
  kw_get n id := hm_get (warrants (n_maps n)) id
}.
End node.

(** ** It keeps the promises *)

Section laws.
Context `{Os} `{WallClock} `{KernelMaps} `{!KernelMapsLaws}.

Lemma keeps_on_maps {A} x (m : M Maps A) :
  keeps (λ s, warrants s = x) m → keeps (λ n, warrants (n_maps n) = x) (on_maps m).
Proof.
  intros Hm n Hn. unfold on_maps. specialize (Hm (n_maps n) Hn).
  by destruct (m (n_maps n)) as [m' r].
Qed.
Lemma keeps_Apply_warrants x c : keeps (λ s, warrants s = x) (Policy.Apply c).
Proof.
  unfold Policy.Apply, PutNetRule, net_current, net_write. keep_steps.
  all: intros m Hm; unfold PutWriteRule, PutExecRule; rewrite ?finish_fst; exact Hm.
Qed.

Lemma installer_keeps x id pp :
  keeps (λ n, warrants (n_maps n) = x) (installer_install id pp).
Proof.
  unfold installer_install, compile_now. keep_steps.
  - intros n Hn. by destruct (Compile _ _ _).
  - apply keeps_on_maps, keeps_Apply_warrants.
  - by intros n Hn.
  - by intros n Hn.
Qed.

#[export] Instance node_kernel_laws : KernelWarrantsLaws node.
Proof.
  split; simpl.
  - intros id w n n' r. unfold on_maps, PutWarrant, finish.
    destruct (hm_Put _ _ _) as [t [e|]] eqn:Ep; simpl; intros [= <- <-] k; simpl.
    + rewrite (hm_Put_err _ _ _ _ _ Ep). repeat case_decide; naive_solver.
    + rewrite (hm_Put_ok _ _ _ _ Ep). repeat case_decide; naive_solver.
  - intros id n n' r. unfold on_maps, Revoke, mbnd, revoke_read, revoke_write, finish.
    destruct (hm_Lookup _ _) as [w|e|p] eqn:El.
    + apply hm_Lookup_ok in El.
      destruct (hm_Put _ _ _) as [t [e|]] eqn:Ep; simpl; intros [= <- <-]; (split; [by eauto|]); intros k; cbn [n_maps warrants set_warrants].
      * rewrite (hm_Put_err _ _ _ _ _ Ep). repeat case_decide; naive_solver.
      * rewrite (hm_Put_ok _ _ _ _ Ep). destruct (decide (k = id)) as [->|Hne].
        -- rewrite El. by rewrite decide_True.
        -- rewrite decide_False; [done|]. by intros [_ ?].
    + intros [= <- <-]. split; [done|]. intros k. repeat case_decide; naive_solver.
    + intros [= <- <-]. split; [done|]. intros k. repeat case_decide; naive_solver.
  - intros b n n' r. unfold on_maps, SetActive, finish.
    destruct (pa_Put _ _) as [t [e|]]; simpl; by intros [= <- <-].
  - intros id p n n' r E k.
    by rewrite (keeps_ok _ _ _ _ _ (installer_keeps (warrants (n_maps n)) id p) E eq_refl).
  - unfold tick. by intros n n' r [= <- <-].
  - unfold tick. by intros n n' r [= <- <-].
Qed.
End laws.

(** ** Installing a policy of a new id *)

Section fresh_install.
Context `{Os} `{WallClock} `{KernelMaps} `{!KernelMapsLaws} `{Crypto}.
Implicit Types st : rstate node.

(** A call that leaves the rule maps alone. *)
Definition rules_kept st st' : Prop := same_rules (n_maps (nd st)) (n_maps (nd st')).
Definition keeps_rules {A} (m : M (rstate node) A) : Prop := ∀ st, rules_kept st (fst (m st)).
Lemma keeps_rules_maps {A} (m : M Maps A) :
  (∀ s, same_rules s (fst (m s))) → keeps_rules (lift (on_maps m)).
Proof.
  intros Hm st. specialize (Hm (n_maps (nd st))). unfold rules_kept, lift, on_maps.
  by destruct (m (n_maps (nd st))).
Qed.
Lemma keeps_rules_bind {A B} (m : M (rstate node) A) (f : A → M (rstate node) B) :
  keeps_rules m → (∀ a, keeps_rules (f a)) → keeps_rules (mbnd m f).
Proof.
  intros Hm Hf st. unfold mbnd. specialize (Hm st). destruct (m st) as [st1 [a|e|x]]; simpl in *; [|done|done].
  specialize (Hf a st1). destruct Hm as (E1 & E2 & E3), Hf as (F1 & F2 & F3).
  split; [congruence|]. split; congruence.
Qed.
Lemma put_kernel_rules w : keeps_rules (put_kernel w).
Proof.
  unfold put_kernel. do 2 (apply keeps_rules_bind; [by intros st|intros ?]).
  apply keeps_rules_maps. intros s. unfold PutWarrant. by rewrite finish_fst.
Qed.
Lemma activate_rules : keeps_rules activate.
Proof.
  unfold activate. apply keeps_rules_bind; [by intros st|]. intros st0. destruct (active _); [by intros st|].
  intros st. assert (keeps_rules (lift (kw_SetActive true))) as Hk.
  { apply keeps_rules_maps. intros s. unfold SetActive. by rewrite finish_fst. }
  specialize (Hk st). by destruct (lift _ st) as [st' [[]|e|x]].
Qed.

(** Installing a policy, whether it gets to its end or not, touches no rule of
    another policy. *)
Lemma installer_confined id pp n : confined id (n_maps n) (n_maps (fst (installer_install id pp n))).
Proof.
  unfold installer_install. unfold mbnd at 1. cbn [mres]. destruct (policySpec pp) as [s|e|x]; [|done|done].
  unfold mbnd at 1, compile_now. destruct (Compile id (ASpecVal s) (n_time n)) as [t' [c|e|x]] eqn:EC; [|done|done].
  apply Compile_provenance in EC as (Hpid & _). unfold mbnd at 1, on_maps.
  pose proof (Apply_confined c (n_maps n)) as Hc. rewrite Hpid in Hc. simpl.
  by destruct (Policy.Apply c (n_maps n)) as [m' [[]|e|x]].
Qed.
Lemma install_policy_confined pid p st :
  confined pid (n_maps (nd st)) (n_maps (nd (fst (install_policy pid p st)))).
Proof.
  destruct (install_policy pid p st) as [st' r] eqn:E. revert E. unfold install_policy. unfold mbnd at 1. simpl.
  destruct (policies (rg st) !! pid) as [q|].
  { case_bool_decide; by intros [= <- _]. }
  pose proof (installer_confined pid p (nd st)) as Hc. unfold mbnd, lift. simpl.
  destruct (installer_install pid p (nd st)) as [n' [[]|e|x]]; by intros [= <- _].
Qed.
Lemma put_kernel_confined pid m0 w : keeps (λ st, confined pid m0 (n_maps (nd st))) (put_kernel w).
Proof.
  unfold put_kernel. do 2 (apply keeps_mbnd; [by intros st|intros ?]).
  intros st Hst. unfold lift. simpl. unfold on_maps. unfold PutWarrant.
  set (out := finish _ _ _ _). pose proof (finish_fst set_warrants (EWrap ("영장 " +:+ fmt_u (pb.w_WarrantId w) +:+ " 쓰기: "))
    (hm_Put (warrants (n_maps (nd st))) (pb.w_WarrantId w) (kernelWarrant w a0 a)) (n_maps (nd st))) as Ho.
  fold out in Ho. destruct out as [m' r]. simpl in Ho. subst m'. by destruct Hst; split.
Qed.
(** A failed installation leaves the rules of other policies and the tags. *)
Lemma install_err_confined w src st st' e :
  install w src st = (st', Err e) → confined (pb.w_PolicyId w) (n_maps (nd st)) (n_maps (nd st')).
Proof.
  unfold install. destruct (admissible_spec w st) as (r0 & E0 & _). unfold mbnd at 1. rewrite E0.
  destruct r0 as [[]|e0|x]; [|by intros [= <- _]|done]. unfold mbnd at 1.
  pose proof (install_policy_confined (pb.w_PolicyId w) (pb.w_Policy w) st) as Hp.
  destruct (install_policy _ _ st) as [st1 [[]|e1|x]]; [|by intros [= <- _]|done]. unfold mbnd at 1.
  pose proof (put_kernel_confined _ _ w st1 Hp) as Hk.
  destruct (put_kernel w st1) as [st2 [[]|e2|x]]; [|by intros [= <- _]|done].
  unfold mbnd, mod_r, mmod. intros E%activate_spec. destruct E as [_ []]. by eexists.
Qed.
(** With a recorded policy, no rule at all is touched. *)
Lemma install_recorded_rules w src st :
  is_Some (policies (rg st) !! pb.w_PolicyId w) → rules_kept st (fst (install w src st)).
Proof.
  intros [q Hq]. unfold install. destruct (admissible_spec w st) as (r0 & E0 & _). unfold mbnd at 1. rewrite E0.
  destruct r0 as [[]|e0|x]; [|done|done]. unfold mbnd at 1, install_policy, mbnd at 1. cbn [mget]. rewrite Hq.
  case_bool_decide; [|done]. cbn [mok].
  apply (keeps_rules_bind (put_kernel w)); [apply put_kernel_rules|]. intros _.
  apply keeps_rules_bind; [by intros s|]. intros _. apply activate_rules.
Qed.

(** A warrant whose policy id is new: its policy was compiled and applied to the
    maps as they were, and nothing touched the rules afterwards. *)
Lemma install_fresh w src st st' :
  install w src st = (st', Ok tt) → policies (rg st) !! pb.w_PolicyId w = None →
  ∃ s t1 c m1, policySpec (pb.w_Policy w) = Ok s ∧
    Compile (pb.w_PolicyId w) (ASpecVal s) (n_time (nd st)) = (t1, Ok c) ∧
    Policy.Apply c (n_maps (nd st)) = (m1, Ok tt) ∧ same_rules m1 (n_maps (nd st')).
Proof.
  unfold install. destruct (admissible_spec w st) as (r0 & E0 & _). unfold mbnd at 1. rewrite E0.
  destruct r0 as [[]|e|x]; [|done|done]. intros (st1 & [] & Hp & Hr)%mbnd_ok Hnew.
  assert (rules_kept st1 st') as Hkept.
  { pose proof (keeps_rules_bind (put_kernel w) (λ _,
      mod_r (λ r, set_byID r (<[pb.w_WarrantId w := mkEntry w src]> (byID r))) ;;; activate)
      (put_kernel_rules w)) as Hk.
    rewrite <- (f_equal fst Hr : _ = st'). apply Hk. intros _. apply keeps_rules_bind; [by intros s|].
    intros _. apply activate_rules. }
  clear Hr. revert Hp. unfold install_policy, mbnd at 1. cbn [mget]. rewrite Hnew.
  intros (st2 & [] & Hp & [= <-])%mbnd_ok. unfold lift in Hp. simpl in Hp.
  destruct (installer_install _ _ (nd st)) as [n' [[]|e|x]] eqn:E; [|done|done]. injection Hp as <-.
  revert E. unfold installer_install. intros (n1 & s & [= <- Hs] & E)%mbnd_ok.
  apply mbnd_ok in E as (n2 & c & Hc & E). unfold compile_now in Hc.
  destruct (Compile _ _ _) as [t1 rc] eqn:EC. injection Hc as <- ->.
  apply mbnd_ok in E as (n3 & [] & Ha & E). unfold on_maps in Ha. simpl in Ha.
  destruct (Policy.Apply c (n_maps (nd st))) as [m1 ra] eqn:EA. injection Ha as <- ->.
  apply mbnd_ok in E as (n4 & [] & [= <-] & [= <-]). by exists s, t1, c, m1.
Qed.
End fresh_install.

(** * Steps of the registry *)

Section steps.
Context `{Crypto} {N : Type} `{KernelWarrants N} `{!KernelWarrantsLaws N}.

(** A push, a warrant of the local file, a resync. *)
Inductive reg_step : rstate N → rstate N → Prop :=
  | RegApply env st : reg_step st (fst (Apply env st))
  | RegLocal w st : reg_step st (fst (install w fromFile st))
  | RegResync keep st st' : Resync keep st st' → reg_step st st'.

Lemma reg_step_inv st st' : reg_step st st' → reg_inv st → reg_inv st'.
Proof.
  intros [env s|w s|keep s s' Hr] Hi; [|by apply install_inv|by eapply Resync_inv].
  destruct (Apply_fst env s) as [->|(w & _ & ->)]; [done|by apply install_inv].
Qed.

(** A step leaves an entry alone, removes it, or replaces it with a newer one. *)
Definition newer_at (st st' : rstate N) (id : Z) : Prop :=
  ∀ e e', byID (rg st) !! id = Some e → byID (rg st') !! id = Some e' →
          e' = e ∨ pb.w_Revision (e_w e) < pb.w_Revision (e_w e').

Lemma install_newer w src st id : newer_at st (fst (install w src st)) id.
Proof.
  destruct (install w src st) as [st' r] eqn:E. simpl. intros e e' He He'.
  apply install_cases in E as [[_ (_ & Hb & _)]|[_ (_ & _ & Hrev & Hb & _)]]; rewrite Hb in He'.
  - left. congruence.
  - apply lookup_insert_Some in He' as [[<- <-]|[_ He']]; [right|left; congruence]. by apply Hrev.
Qed.
Lemma reg_step_newer st st' id : reg_step st st' → newer_at st st' id.
Proof.
  intros [env s|w s|keep s s' Hr]; [|by apply install_newer|].
  - destruct (Apply_fst env s) as [->|(w & _ & ->)]; [|by apply install_newer].
    intros e e' He He'. left. congruence.
  - intros e e' He He'. left. apply Resync_spec in Hr as (order & _ & _ & _ & Hc). specialize (Hc id e He).
    destruct (bool_decide (id ∈ keep) || _); [by destruct Hc; congruence|].
    destruct Hc as (n & _ & [(_ & Hn & _)|(_ & Hs & _)]); congruence.
Qed.
Lemma install_grows w src st : grows st (fst (install w src st)).
Proof.
  destruct (install w src st) as [st' r] eqn:E. simpl.
  by apply install_cases in E as [[_ [Hg _]]|[_ [Hg _]]].
Qed.
Lemma reg_step_grows st st' : reg_step st st' → grows st st'.
Proof.
  intros [env s|w s|keep s s' Hr]; [|by apply install_grows|by apply Resync_spec in Hr as (? & _ & ? & _)].
  destruct (Apply_fst env s) as [->|(w & _ & ->)]; [done|by apply install_grows].
Qed.
End steps.

(** * Following replaced files *)

Section follow.
Context `{Os} `{WallClock} `{KernelMaps} `{!KernelMapsLaws}.

(** The write rules of what compiled. *)
Lemma Compile_writes pid s t t' c :
  Compile pid (ASpecVal s) t = (t', Ok c) →
  ∃ defs ws, c_Write c = defs ++ ws ∧ Forall2 (write_compiles t t') (s_WriteRules s) ws.
Proof.
  intros (s' & st & Hp & [[= <-]|?] & -> & -> & E)%Compile_ok_inv; [|done].
  apply compile_body_ok in E as (_ & (defs & ws & Hw & Hws & _) & _); [|done]. eauto.
Qed.
(** A recompilation that compiles and applies. *)
Lemma recompile_run id s (n : node) t' c m' :
  nets_wf (n_maps n) → n_specs n !! id = Some s →
  Compile id (ASpecVal s) (n_time n) = (t', Ok c) → Policy.Apply c (n_maps n) = (m', Ok tt) →
  id ≠ 0 ∧ c_PolicyID c = id ∧
  recompile id n = mkNode _ m' (n_specs n) ((λ w, fst (Watch (Some c) w)) <$> n_watcher n) t' ∧
  Forall (λ x, ∃ u st, (n_time n <= u < t')%nat ∧ unix_Stat u (er_Path x) = Ok st ∧
                       hm_get (ruleExec m') (rule_key id (FileRefFromStat st)) = Some 1)
         (s_ExecRules s) ∧
  (∀ k, is_Some (hm_get (ruleExec (n_maps n)) k) → is_Some (hm_get (ruleExec m') k)).
Proof.
  intros Hw Hs HC Ha. pose proof (Compile_provenance _ _ _ _ _ HC) as (Hpid & _).
  assert (recompile id n = mkNode _ m' (n_specs n) ((λ w, fst (Watch (Some c) w)) <$> n_watcher n) t') as Hr.
  { unfold recompile, mbnd, compile_now. rewrite Hs. unfold default, Datatypes.id. rewrite HC.
    unfold on_maps. simpl. by rewrite Ha. }
  apply Compile_ok_inv in HC as (s' & st & Hne & [[= <-]|?] & -> & -> & E); [|done].
  apply compile_body_ok in E as (Hexec & _); [|done].
  apply Apply_ok in Ha as (_ & _ & _ & Hx & _); [|done]. rewrite Hpid in Hx.
  split; [done|]. split; [done|]. split; [done|]. split.
  - eapply Forall_impl; [exact Hexec|]. intros x (_ & u & d & Hu & Hd & _ & Hin).
    exists u, d. split; [done|]. split; [done|]. rewrite Hx, bool_decide_true; [done|].
    by apply list_elem_of_fmap_2.
  - intros k [v Hk]. rewrite Hx, Hk. case_bool_decide; by eauto.
Qed.

(** One whose [Apply] fails half way. *)
Lemma recompile_failed id s (n : node) t' c m' e :
  n_specs n !! id = Some s → Compile id (ASpecVal s) (n_time n) = (t', Ok c) →
  Policy.Apply c (n_maps n) = (m', Err e) →
  recompile id n = mkNode _ m' (n_specs n) (n_watcher n) t' ∧ confined id (n_maps n) m'.
Proof.
  intros Hs HC Ha. pose proof (Compile_provenance _ _ _ _ _ HC) as (Hpid & _). split.
  - unfold recompile, mbnd, compile_now. rewrite Hs. unfold default, Datatypes.id. rewrite HC.
    unfold on_maps. simpl. by rewrite Ha.
  - pose proof (Apply_confined c (n_maps n)) as Hc. by rewrite Ha, Hpid in Hc.
Qed.

End follow.

(** * A demonstration node *)

#[export] Instance demo_wall : WallClock := λ _, 1000.
#[local] Existing Instance demo_os.
#[local] Existing Instance demo_crypto.

Definition demo_node : node := mkNode _ demo_empty ∅ (Some (mkWatcher ∅ true)) 0.
Definition demo_keys : TrustKeys := {[ "k1" := "KEY" ]}.
Definition demo_state : rstate node := mkRstate (newRegistry "web-1" demo_keys) demo_node.
(** A 64-byte signature under the demonstration key. *)
Definition demo_sig : string :=
  "KEY0000000000000000000000000000000000000000000000000000000000000".
Definition signed (b : string) : pb.SignedWarrant := pb.mkSignedWarrant b demo_sig "k1".
Definition push (b : string) (st : rstate node) : rstate node := fst (Apply (signed b) st).
Definition demo_pushed : pb.Warrant :=
  pb.mkWarrant 1 "" "" 5 1 "" "alice" ["SHA256:a"] ["web-1"] "" 0 2000 0 false 1 0 7 None false.

Lemma demo_push_result : snd (Apply (signed "rev5") demo_state) = (1, None).
Proof. vm_compute. reflexivity. Qed.

(** * Properties *)

(** C22: a warrant is installed whole or not at all.  When [install] returns an
    error, the table, every warrant the kernel holds, the tags and every rule of
    another policy are as before; what may stay is that the warrant's own policy is
    recorded and rules under its id were added, none of which is removed.  When it
    succeeds, the warrant passed the checks, its revision is larger than the
    installed one's, its policy is the recorded one, the table holds it, and the
    kernel holds its converted form and no other warrant has changed.  Either way
    no other policy is recorded, and with a policy that was recorded before no rule
    of any policy is touched. *)
Theorem install_all_or_nothing `{Os} `{WallClock} `{KernelMaps} `{!KernelMapsLaws} `{Crypto}
    (w : pb.Warrant) (src : source) (st st' : rstate node) r :
  install w src st = (st', r) →
  ((∃ e, r = Err e) →
     unchanged st st' ∧ confined (pb.w_PolicyId w) (n_maps (nd st)) (n_maps (nd st'))) ∧
  (r = Ok tt → installed w src st st') ∧
  recorded (pb.w_PolicyId w) (pb.w_Policy w) st st' ∧
  (is_Some (policies (rg st) !! pb.w_PolicyId w) → same_rules (n_maps (nd st)) (n_maps (nd st'))).
Proof.
  intros E. pose proof (install_records w src st) as Hrec. pose proof (install_recorded_rules w src st) as Hrk.
  rewrite E in Hrec, Hrk. split; [|split; [|by split]].
  - intros [e ->]. split; [|by eapply install_err_confined].
    apply install_cases in E as [[_ Hu]|[Hr _]]; [done|]. destruct Hr. by eexists.
  - intros ->. by apply install_cases in E as [[? _]|[_ Hi]].
Qed.

Section properties.
Context `{Crypto} {N : Type} `{KernelWarrants N} `{!KernelWarrantsLaws N}.

(** The table mirrors the kernel.  In every reachable state each entry of
    the registry passed the checks for this host, its policy is recorded with
    exactly its rules, and the kernel holds the converted form of that very
    warrant; so a warrant is never listed without its rules and its kernel
    entry. *)
Theorem registry_mirrors_kernel h ks (n : N) (st : rstate N) :
  rtc reg_step (mkRstate (newRegistry h ks) n) st → reg_inv st.
Proof.
  intros Hr. remember (mkRstate (newRegistry h ks) n) as st0 eqn:E0.
  assert (reg_inv st0) as Hi by (subst; intros id e; simpl; by rewrite lookup_empty).
  clear E0. induction Hr; [done|]. eauto using reg_step_inv.
Qed.

(** Revisions only grow and policies never change.  Across any step an id
    that stays in the table keeps its warrant or gets one with a larger
    revision; across any run a policy id keeps the rules it was first seen
    with, and the host and the trusted keys stay. *)
Theorem revisions_and_policies_stable (st st' st'' : rstate N) id pid p :
  reg_step st st' → rtc reg_step st' st'' →
  newer_at st st' id ∧
  (policies (rg st) !! pid = Some p → policies (rg st'') !! pid = Some p) ∧
  host (rg st'') = host (rg st) ∧ keys (rg st'') = keys (rg st).
Proof.
  intros Hs Hr. split; [by apply reg_step_newer|].
  assert (grows st st'') as (Hh & Hk & Hp).
  { apply reg_step_grows in Hs. eapply grows_trans; [exact Hs|].
    induction Hr as [|x y z Hxy _ IH]; [apply grows_refl|].
    eapply grows_trans; [by apply reg_step_grows|]. apply IH.
    eapply grows_trans; [exact Hs|]. by apply reg_step_grows. }
  split; [|done]. intros Hpid. by eapply lookup_weaken.
Qed.

(** C23: a resync cuts exactly the warrants the server dropped.  Entries that
    are still active or came from the local file stay in the table and in the
    kernel as they are, and nothing appears.  For a central entry that is not active,
    the call to the kernel in the state the loop has reached by then decides: when it
    returns nil the entry leaves the table and the kernel's warrant, which was there,
    is marked revoked and kept; when it returns an error both stay as they were. *)
Theorem resync_cuts_exactly keep (st st' : rstate N) :
  Resync keep st st' →
  ∃ order, order ≡ₚ map_to_list (byID (rg st)) ∧
  (∀ id, byID (rg st) !! id = None → same_at id st st') ∧
  (∀ id e, byID (rg st) !! id = Some e → id ∈ keep ∨ e_src e = fromFile → same_at id st st') ∧
  (∀ id e, byID (rg st) !! id = Some e → id ∉ keep → e_src e = fromCentral →
           ∃ n, turn keep st order id n ∧ revoked_at id n st st').
Proof.
  intros (order & Hp & _ & Hn & Hs)%Resync_spec. exists order. split; [done|].
  split; [done|]. split; intros id e He.
  - intros Hk. specialize (Hs id e He).
    destruct (bool_decide_reflect (id ∈ keep)); [done|].
    destruct Hk as [|Hf]; [done|]. by rewrite Hf in Hs.
  - intros Hk Hc. specialize (Hs id e He). by rewrite bool_decide_false, Hc in Hs.
Qed.
End properties.

Lemma install_all_or_nothing_witness :
  installed demo_pushed fromCentral demo_state (fst (install demo_pushed fromCentral demo_state)).
Proof.
  destruct (install_all_or_nothing demo_pushed fromCentral demo_state _
           (snd (install demo_pushed fromCentral demo_state)) (surjective_pairing _)) as (_ & Hok & _).
  apply Hok. vm_compute. reflexivity.
Defined.

Lemma registry_mirrors_kernel_witness : reg_inv (push "rev5" demo_state).
Proof.
  apply (registry_mirrors_kernel "web-1" demo_keys demo_node).
  eapply rtc_l; [|apply rtc_refl]. apply RegApply.
Defined.

Lemma revisions_and_policies_stable_witness :
  policies (rg (push "rev5" demo_state)) !! 7 = Some None ∧
  policies (rg (push "rev4" (push "rev5" demo_state))) !! 7 = Some None.
Proof.
  assert (policies (rg (push "rev5" demo_state)) !! 7 = Some None) as Hp by (vm_compute; reflexivity).
  split; [exact Hp|].
  apply (revisions_and_policies_stable (push "rev5" demo_state) (push "rev4" (push "rev5" demo_state))
           (push "rev4" (push "rev5" demo_state)) 1 7 None); [apply RegApply|apply rtc_refl|exact Hp].
Defined.

(** The resync of one pushed warrant with an empty active set. *)
Definition resync_all (st : rstate node) : rstate node :=
  foldl (resync_one ∅) st (map_to_list (byID (rg st))).
Lemma resync_cuts_exactly_witness :
  cut_at 1 (push "rev5" demo_state) (resync_all (push "rev5" demo_state)).
Proof.
  destruct (resync_cuts_exactly ∅ (push "rev5" demo_state) (resync_all (push "rev5" demo_state)))
    as (order & Hp & _ & _ & Hc); [by exists (map_to_list (byID (rg (push "rev5" demo_state))))|].
  destruct (Hc 1 (mkEntry demo_pushed fromCentral)) as (n & _ & [[_ Hcut]|[_ [Hsame _]]]);
    [vm_compute; reflexivity|set_solver|reflexivity|exact Hcut|].
  exfalso. revert Hsame. vm_compute. discriminate.
Defined.

(** A revoked warrant can be replayed after a resync.  Revision 5 of a
    warrant is pushed, a resync drops and revokes it, and then the older
    revision 4 of the same warrant is pushed again: it is accepted, and the
    kernel's entry is live again, because dropping the entry forgot its
    revision. *)
Theorem replay_after_resync :
  let st1 := push "rev5" demo_state in
  let st2 := resync_all st1 in
  Resync ∅ st1 st2 ∧ snd (Apply (signed "rev4") st1) ≠ (1, None) ∧
  (Revoked <$> kw_get (nd st2) 1) = Some 1 ∧
  snd (Apply (signed "rev4") st2) = (1, None) ∧
  (Revoked <$> kw_get (nd (push "rev4" st2)) 1) = Some 0.
Proof.
  intros st1 st2. split; [by exists (map_to_list (byID (rg st1)))|].
  repeat split; try (vm_compute; reflexivity). vm_compute. discriminate.
Qed.

(** The demonstration node with a policy it remembers. *)
Definition demo_watching : node :=
  mkNode _ demo_empty {[ 7 := demo_spec ]} (Some (mkWatcher ∅ true)) 0.
Lemma demo_watching_wf : nets_wf (n_maps demo_watching).
Proof. intros k v. unfold demo_watching, demo_empty. cbn [n_maps ruleNet]. by rewrite blpm_empty_entry. Qed.
