(* ===== verification/WatchLoop.v ===== *)
(** The watcher's goroutine ([Watcher.loop], [Close], agent/internal/policy) with
    its owner, the policy installer (agent/cmd/warrantd/registry.go): a step
    relation in which ticks, passes, installations and [Close] interleave. *)

From Stdlib Require Import ZArith Lia Ascii String.
From stdpp Require Import base tactics numbers list strings gmap relations.
From S2P Require Import Prelude GoStd GoNet EbpfMap Os BpfMap Concrete Kernel.
From S2P Require Import Policy Typed Session Pb Warrants Upstream Registry Node.

Definition DefaultInterval : Z := 10 * 1000000000.
Definition NewWatcher : res Watcher := NewWatcherInterval DefaultInterval.

(** * The machine *)

(** Where [loop] is: at its [select], in the middle of a pass over the changed
    policies, or returned (which closes [done]). *)
Inductive loop_pc := AtSelect | InPass (ids : list Z) | Exited.
(** [w.once]: not called, the first call waits for [done], it has returned. *)
Inductive close_pc := NeverCalled | Closing | Closed.

(** [ws_tick]: the ticker's channel holds a tick (it has room for one).
    [ws_stop] and [ws_done]: the channel is closed. *)
Record wsys `{KernelMaps} := mkWsys {
  ws_node : node; ws_pc : loop_pc; ws_tick : bool; ws_stop : bool; ws_done : bool; ws_close : close_pc
}.

Section machine.
Context `{Os} `{WallClock} `{KernelMaps}.

(** [newPolicyInstaller]: the watcher with [recompile] as its callback; without a
    watcher, rules do not follow replaced files. *)
Definition newPolicyInstaller (m : Maps) (t : nat) : node :=
  mkNode _ m ∅ (match NewWatcher with Ok w => Some (OnChange w) | _ => None end) t.

(** [policyInstaller.Close]: the watcher's [Close], when there is a watcher. *)
Definition installer_Close (n : node) (watcher_Close : res unit) : res unit :=
  match n_watcher n with None => Ok tt | Some _ => watcher_Close end.

(** The callback, when one is set. *)
Definition call_back (n : node) (id : Z) : node :=
  match n_watcher n with
  | Some w => if hasOnChange w then recompile id n else n
  | None => n
  end.

(** A whole pass: the policies whose files changed, then the callback on each. *)
Definition watcher_pass (order : list (Z * list Source)) (n : node) : node :=
  let '(t', ids) := changed (n_time n) order in foldl call_back (set_time n t') ids.

(** The goroutine's own steps. *)
Inductive loop_step : wsys → wsys → Prop :=
  | LStop n tick dn cl :
      loop_step (mkWsys _ n AtSelect tick true dn cl) (mkWsys _ n Exited tick true true cl)
  | LTick n w order t' ids st dn cl :
      n_watcher n = Some w → range_order w order → changed (n_time n) order = (t', ids) →
      loop_step (mkWsys _ n AtSelect true st dn cl) (mkWsys _ (set_time n t') (InPass ids) false st dn cl)
  | LCall n id ids tick st dn cl :
      loop_step (mkWsys _ n (InPass (id :: ids)) tick st dn cl)
                (mkWsys _ (call_back n id) (InPass ids) tick st dn cl)
  | LEnd n tick st dn cl :
      loop_step (mkWsys _ n (InPass []) tick st dn cl) (mkWsys _ n AtSelect tick st dn cl).

(** Everything else: a tick arrives, a policy is installed, [Close] is called and
    returns once [done] is closed. *)
Inductive owner_step : wsys → wsys → Prop :=
  | OTick n pc tick st dn cl :
      owner_step (mkWsys _ n pc tick st dn cl) (mkWsys _ n pc true st dn cl)
  | OInstall n id pp pc tick st dn cl :
      owner_step (mkWsys _ n pc tick st dn cl)
                 (mkWsys _ (fst (installer_install id pp n)) pc tick st dn cl)
  | OClose n pc tick st dn :
      owner_step (mkWsys _ n pc tick st dn NeverCalled) (mkWsys _ n pc tick true dn Closing)
  | OCloseReturn n pc tick st :
      owner_step (mkWsys _ n pc tick st true Closing) (mkWsys _ n pc tick st true Closed).

Definition wstep (s s' : wsys) : Prop := loop_step s s' ∨ owner_step s s'.

(** [NewWatcherInterval] starts the goroutine. *)
Definition wstart (m : Maps) (t : nat) : wsys :=
  mkWsys _ (newPolicyInstaller m t) AtSelect false false false NeverCalled.

(** * Lemmas *)

Record winv (s : wsys) : Prop := mkWinv {
  wi_done : ws_done s = true ↔ ws_pc s = Exited;
  wi_stop : ws_pc s = Exited → ws_stop s = true;
  wi_closing : ws_stop s = true ↔ ws_close s ≠ NeverCalled;
  wi_closed : ws_close s = Closed → ws_done s = true
}.
Lemma wstart_inv m t : winv (wstart m t).
Proof. split; simpl; naive_solver. Qed.
Lemma wstep_inv s s' : wstep s s' → winv s → winv s'.
Proof.
  intros [Hs|Hs] Hi; destruct Hs; destruct Hi; split; simpl in *; naive_solver.
Qed.
Lemma wsteps_inv m t s : rtc wstep (wstart m t) s → winv s.
Proof.
  intros Hr. pose proof (wstart_inv m t) as Hi. induction Hr; eauto using wstep_inv.
Qed.

(** A goroutine that has returned takes no step, and nothing restarts it. *)
Lemma exited_stays s s' : rtc wstep s s' → ws_pc s = Exited → ws_pc s' = Exited.
Proof.
  induction 1 as [|s s1 s' [Hs|Hs] _ IH]; intros Hx; [done| |]; apply IH; destruct Hs; simpl in *; done.
Qed.
Lemma exited_no_step s s' : ws_pc s = Exited → ¬ loop_step s s'.
Proof. intros Hx Hs. by destruct Hs. Qed.

(** Ticks first, then the place in the loop. *)
Definition loop_rank (pc : loop_pc) : nat :=
  match pc with Exited => 0 | AtSelect => 1 | InPass ids => length ids + 2 end.
Lemma loop_step_rank s s' :
  loop_step s s' →
  ws_tick s = true ∧ ws_tick s' = false ∨
  ws_tick s = ws_tick s' ∧ (loop_rank (ws_pc s') < loop_rank (ws_pc s))%nat.
Proof. intros []; simpl; [right; split; [done|lia]|by left|right; split; [done|lia]..]. Qed.

(** Between two ticks the goroutine takes finitely many steps. *)
Lemma loop_sn s : sn loop_step s.
Proof.
  assert (∀ n s, ws_tick s = false → (loop_rank (ws_pc s) < n)%nat → sn loop_step s) as Hf.
  { intros n. induction n as [|n IH]; intros s0 Ht Hr; [lia|]. constructor. intros s' Hs.
    apply loop_step_rank in Hs as [[? _]|[Htick Hlt]]; [congruence|]. apply IH; [congruence|lia]. }
  assert (∀ n s, (loop_rank (ws_pc s) < n)%nat → sn loop_step s) as Ha.
  { intros n. induction n as [|n IH]; intros s0 Hr; [lia|]. constructor. intros s' Hs.
    apply loop_step_rank in Hs as [[_ Ht]|[_ Hlt]].
    - by apply (Hf (S (loop_rank (ws_pc s')))); [|lia].
    - apply IH. lia. }
  apply (Ha (S (loop_rank (ws_pc s)))). lia.
Qed.

(** Told to stop, it can always go on until it returns. *)
Lemma stopping_progress s : ws_stop s = true → ws_pc s ≠ Exited → ∃ s', loop_step s s'.
Proof.
  destruct s as [n [|[|id ids]|] tick st dn cl]; simpl; intros Hst Hp; [subst; eexists; constructor..|done].
Qed.
Lemma stopping_returns s :
  ws_stop s = true → ws_pc s ≠ Exited → ∃ s', loop_step s s' ∧ (ws_pc s = AtSelect → ws_pc s' = Exited).
Proof.
  destruct s as [n [|[|id ids]|] tick st dn cl]; simpl; intros Hst Hp; [subst|..|done];
    eexists; (split; [constructor|done]).
Qed.

(** An interleaving in which the goroutine never picks a tick, with the number of
    its own steps. *)
Inductive without_ticks : nat → wsys → wsys → Prop :=
  | NoTickNil s : without_ticks 0 s s
  | NoTickOwner k s s1 s' : owner_step s s1 → without_ticks k s1 s' → without_ticks k s s'
  | NoTickLoop k s s1 s' :
      loop_step s s1 → (ws_pc s = AtSelect → ws_pc s1 = Exited) → without_ticks k s1 s' →
      without_ticks (S k) s s'.

Lemma loop_step_stop s s' : loop_step s s' → ws_stop s' = ws_stop s.
Proof. by intros []. Qed.
Lemma without_ticks_rank k s s' :
  without_ticks k s s' → ws_stop s = true → (k <= loop_rank (ws_pc s))%nat ∧ ws_stop s' = true.
Proof.
  induction 1 as [s|k s s1 s' Ho _ IH|k s s1 s' Hl Hsel _ IH]; intros Hst; [split; [lia|done]|..].
  - destruct Ho; simpl in *; auto.
  - rewrite <- (loop_step_stop _ _ Hl) in Hst. destruct (IH Hst) as [Hk Hst']. split; [|done].
    destruct Hl; simpl in *; try lia. by discriminate (Hsel eq_refl).
Qed.

(** A pass of the machine is [watcher_pass]. *)
Lemma pass_calls n ids tick st dn cl :
  rtc loop_step (mkWsys _ n (InPass ids) tick st dn cl)
                (mkWsys _ (foldl call_back n ids) AtSelect tick st dn cl).
Proof.
  revert n. induction ids as [|id ids IH]; intros n; simpl.
  - eapply rtc_l; [constructor|]. apply rtc_refl.
  - eapply rtc_l; [constructor|]. apply IH.
Qed.
Lemma pass_steps n w order st dn cl :
  n_watcher n = Some w → range_order w order →
  rtc loop_step (mkWsys _ n AtSelect true st dn cl)
                (mkWsys _ (watcher_pass order n) AtSelect false st dn cl).
Proof.
  intros Hw Ho. unfold watcher_pass. destruct (changed (n_time n) order) as [t' ids] eqn:E.
  eapply rtc_l; [by eapply LTick|]. apply pass_calls.
Qed.
End machine.

(** ** What a pass does to the rules *)

Section pass.
Context `{Os} `{WallClock} `{KernelMaps} `{!KernelMapsLaws}.
Implicit Types n : node.

Definition node_typed n : Prop :=
  maps_typed (n_maps n) ∧ ∀ id s, n_specs n !! id = Some s → spec_typed s.

(** [recompile] on every branch: the clock moves on, the maps are as before or
    what [Apply] made of them, the specs stay. *)
Lemma recompile_cases id n :
  ∃ m' w' t', recompile id n = mkNode _ m' (n_specs n) w' t' ∧ (n_time n <= t')%nat ∧
    (m' = n_maps n ∨ ∃ c t, Compile id (ASpecVal (default zero_Spec (n_specs n !! id))) (n_time n) = (t, Ok c) ∧
                            m' = fst (Policy.Apply c (n_maps n))) ∧
    (∃ ws, w' = (λ w, mkWatcher (ws w) (hasOnChange w)) <$> n_watcher n).
Proof.
  unfold recompile, mbnd, compile_now.
  destruct (Compile id _ (n_time n)) as [t r] eqn:E.
  pose proof (Compile_time _ _ _ _ _ E) as Ht.
  assert (∃ ws, n_watcher n = (λ w, mkWatcher (ws w) (hasOnChange w)) <$> n_watcher n) as Hsame.
  { exists watched. destruct (n_watcher n) as [[? ?]|]; done. }
  destruct r as [c|e|p].
  2, 3: exists (n_maps n), (n_watcher n), t; by repeat (split; [by eauto|]).
  unfold on_maps. simpl. destruct (Policy.Apply c (n_maps n)) as [m' [[]|e|p]] eqn:Ea; simpl.
  - eexists m', _, t. split; [done|]. split; [done|]. split; [right; exists c, t; by rewrite Ea|].
    unfold Watch. destruct (c_PolicyID c =? 0).
    + destruct Hsame as [ws Hsame]. exists ws. rewrite <- Hsame. by destruct (n_watcher n).
    + exists (λ w, <[c_PolicyID c := c_Sources c]> (watched w)). by destruct (n_watcher n).
  - exists m', (n_watcher n), t. split; [done|]. split; [done|]. split; [right; exists c, t; by rewrite Ea|done].
  - exists m', (n_watcher n), t. split; [done|]. split; [done|]. split; [right; exists c, t; by rewrite Ea|done].
Qed.

Lemma call_back_mono n id :
  n_specs (call_back n id) = n_specs n ∧ (n_time n <= n_time (call_back n id))%nat ∧
  hasOnChange <$> n_watcher (call_back n id) = hasOnChange <$> n_watcher n ∧
  (node_typed n → node_typed (call_back n id)) ∧
  (∀ k, is_Some (hm_get (ruleExec (n_maps n)) k) → is_Some (hm_get (ruleExec (n_maps (call_back n id))) k)).
Proof.
  unfold call_back. destruct (n_watcher n) as [w|] eqn:Ew; [|by simpl; rewrite ?Ew; split; [|split; [|split; [|split]]]].
  destruct (hasOnChange w); [|by simpl; rewrite ?Ew; split; [|split; [|split; [|split]]]].
  destruct (recompile_cases id n) as (m' & w' & t' & -> & Ht & Hm & ws & Hw). simpl.
  split; [done|]. split; [done|]. split; [by rewrite Hw, Ew|]. split.
  - intros [Hty Hsp]. split; [|done]. simpl. destruct Hm as [->|(c & t & HC & ->)]; [done|].
    apply Apply_typed; [|done]. eapply Compile_typed; [|exact HC].
    destruct (n_specs n !! id) as [s|] eqn:Es; [by eapply Hsp|]. constructor.
  - intros k Hk. destruct Hm as [->|(c & t & HC & ->)]; [done|]. by apply Apply_keeps_exec.
Qed.
Lemma call_backs_mono ids n :
  n_specs (foldl call_back n ids) = n_specs n ∧ (n_time n <= n_time (foldl call_back n ids))%nat ∧
  hasOnChange <$> n_watcher (foldl call_back n ids) = hasOnChange <$> n_watcher n ∧
  (node_typed n → node_typed (foldl call_back n ids)) ∧
  (∀ k, is_Some (hm_get (ruleExec (n_maps n)) k) →
        is_Some (hm_get (ruleExec (n_maps (foldl call_back n ids))) k)).
Proof.
  revert n. induction ids as [|id ids IH]; intros n; simpl; [by split; [|split; [|split; [|split]]]|].
  destruct (IH (call_back n id)) as (F1 & F2 & F3 & F4 & F5).
  destruct (call_back_mono n id) as (G1 & G2 & G3 & G4 & G5).
  split; [congruence|]. split; [lia|]. split; [congruence|]. split; auto.
Qed.

(** Callbacks for other policies leave a policy's rules. *)
Lemma call_back_confined n id : confined id (n_maps n) (n_maps (call_back n id)).
Proof.
  unfold call_back. destruct (n_watcher n) as [w|]; [|done]. destruct (hasOnChange w); [|done].
  destruct (recompile_cases id n) as (m' & w' & t' & -> & _ & Hm & _). simpl.
  destruct Hm as [->|(c & t & HC & ->)]; [done|]. apply Compile_provenance in HC as (Hpid & _).
  rewrite <- Hpid. apply Apply_confined.
Qed.
Lemma call_backs_others id f ids n :
  id ∉ ids →
  hm_get (ruleExec (n_maps (foldl call_back n ids))) (rule_key id f) = hm_get (ruleExec (n_maps n)) (rule_key id f) ∧
  hm_get (ruleWrite (n_maps (foldl call_back n ids))) (rule_key id f) = hm_get (ruleWrite (n_maps n)) (rule_key id f).
Proof.
  revert n. induction ids as [|id' ids IH]; intros n; [done|]. intros [Hne Hni]%not_elem_of_cons. simpl.
  destruct (IH (call_back n id') Hni) as [-> ->]. pose proof (call_back_confined n id') as Hc.
  by rewrite (cn_exec _ _ _ Hc), (cn_write _ _ _ Hc).
Qed.
Lemma changed_sublist order t t' ids : changed t order = (t', ids) → ids `sublist_of` order.*1.
Proof.
  revert t t' ids. induction order as [|[id srcs] rest IH]; intros t t' ids; simpl; [by intros [= _ <-]|].
  destruct (sources_changed t srcs) as [t1 ch]. destruct (changed t1 rest) as [t2 out] eqn:E.
  apply IH in E. intros [= _ <-]. destruct ch; by constructor.
Qed.

(** The rules of policy [id] in [n'] are those of its spec, compiled at a moment
    after [n]; an inode the compiled policy does not mention has what it had. *)
Definition restored id s n n' : Prop :=
  ∃ t0 t1 c, (n_time n <= t0)%nat ∧ (t1 <= n_time n')%nat ∧ Compile id (ASpecVal s) t0 = (t1, Ok c) ∧
    (∀ f, hm_get (ruleExec (n_maps n')) (rule_key id f) =
          if bool_decide (f ∈ c_Exec c) then Some 1 else hm_get (ruleExec (n_maps n)) (rule_key id f)) ∧
    (∀ f, hm_get (ruleWrite (n_maps n')) (rule_key id f) =
          match write_rule_of c f with
          | Some v => Some v
          | None => hm_get (ruleWrite (n_maps n)) (rule_key id f)
          end).

(** The policy's turn in a pass comes in state [n], and its recompilation works. *)
Definition recompiles id n : bool :=
  match Compile id (ASpecVal (default zero_Spec (n_specs n !! id))) (n_time n) with
  | (_, Ok c) => match snd (Policy.Apply c (n_maps n)) with Ok _ => true | _ => false end
  | _ => false
  end.
Lemma recompiles_run id s n :
  node_typed n → n_specs n !! id = Some s → recompiles id n = true → restored id s n (recompile id n).
Proof.
  intros [Hty _] Hs. unfold recompiles. rewrite Hs. unfold default, Datatypes.id.
  destruct (Compile id (ASpecVal s) (n_time n)) as [t' [c|e|p]] eqn:HC; [|done|done].
  destruct (Policy.Apply c (n_maps n)) as [m' r] eqn:Ha. simpl. destruct r as [[]|e|p]; [|done|done]. intros _.
  destruct (recompile_run _ _ _ _ _ _ (typed_nets _ Hty) Hs HC Ha) as (_ & Hpid & -> & _).
  exists (n_time n), t', c. simpl. split; [done|]. split; [done|]. split; [done|].
  apply Apply_ok in Ha as (_ & _ & Hw & Hx & _); [|by apply typed_nets]. rewrite Hpid in Hw, Hx. split; [|done].
  intros f. rewrite Hx. repeat case_bool_decide; try done; exfalso.
  - match goal with Hin : rule_key id f ∈ _ |- _ => apply list_elem_of_fmap in Hin as (g & Eg%rule_key_inj & Hg) end.
    by subst g.
  - match goal with Hn : rule_key id f ∉ _ |- _ => apply Hn end. by apply list_elem_of_fmap_2.
Qed.

(** * Properties *)

(** C29: the watcher stops when it is told to, and only then.  Once [Close] was
    called, and however ticks and installations interleave, returning is one of the
    choices each time the goroutine is at its [select]; until it picks a tick there
    instead (Go chooses at random among the ready cases), it takes at most the rest
    of the pass it is in and two steps more before it has returned, and it can always
    take the next one.  A picked tick costs one finite pass: the goroutine's own steps
    always come to an end.  Once it has no step left [Close] returns; after that no
    callback and no file check ever happens again.  Without [Close] it never
    returns. *)
Theorem watcher_close_terminates (m : Maps) t0 (s : wsys) :
  rtc wstep (wstart m t0) s →
  sn loop_step s ∧
  (ws_stop s = false → ws_pc s ≠ Exited) ∧
  (ws_stop s = true → ∀ k s', without_ticks k s s' →
     (k <= loop_rank (ws_pc s))%nat ∧
     (ws_pc s' ≠ Exited → ∃ s'', loop_step s' s'' ∧ (ws_pc s' = AtSelect → ws_pc s'' = Exited))) ∧
  (ws_close s = Closing → ∀ s', rtc loop_step s s' → (∀ s'', ¬ loop_step s' s'') →
     ∃ s'', owner_step s' s'' ∧ ws_close s'' = Closed) ∧
  (ws_close s = Closed → ∀ s', rtc wstep s s' → ∀ s'', ¬ loop_step s' s'').
Proof.
  intros Hr%wsteps_inv. split; [apply loop_sn|]. split; [|split; [|split]].
  - intros Hst Hx. apply (wi_stop _ Hr) in Hx. congruence.
  - intros Hst k s' Hrun. apply without_ticks_rank in Hrun as [Hk Hst']; [|done]. split; [done|].
    by apply stopping_returns.
  - intros Hcl s' Hs Hno.
    assert (ws_stop s = true) as Hst by (apply (wi_closing _ Hr); by rewrite Hcl).
    assert (winv s' ∧ ws_stop s' = true ∧ ws_close s' = Closing) as (Hi & Hst' & Hcl').
    { clear Hno. induction Hs as [|s s1 s' Hst1 _ IH]; [done|]. apply IH.
      - by eapply wstep_inv; [left|].
      - by destruct Hst1.
      - by rewrite (loop_step_stop _ _ Hst1). }
    destruct (decide (ws_done s' = true)) as [Hd|Hd].
    + destruct s' as [n pc tick st dn cl]. simpl in *. subst. eexists. split; [constructor|done].
    + exfalso. destruct (stopping_progress s' Hst') as [s'' Hss]; [|by eapply Hno].
      intros Hx. by apply Hd, (wi_done _ Hi).
  - intros Hcl s' Hs s''. apply exited_no_step. eapply exited_stays; [exact Hs|].
    apply (wi_done _ Hr), (wi_closed _ Hr), Hcl.
Qed.

End pass.

#[local] Existing Instance demo_os.

(** The goroutine is told to stop in the middle of a pass. *)
Definition demo_stopping : wsys :=
  mkWsys _ (newPolicyInstaller demo_empty 0) (InPass []) false true false Closing.
Lemma watcher_close_terminates_witness :
  rtc wstep (wstart demo_empty 0) demo_stopping ∧
  ∃ s', rtc loop_step demo_stopping s' ∧ ∃ s'', owner_step s' s'' ∧ ws_close s'' = Closed.
Proof.
  assert (rtc wstep (wstart demo_empty 0) demo_stopping) as Hr.
  { eapply rtc_l; [right; apply OTick|].
    eapply rtc_l; [left; eapply (LTick _ (OnChange (mkWatcher ∅ false)) [] 0 []); [reflexivity| |reflexivity]; unfold range_order; simpl; by rewrite map_to_list_empty|].
    eapply rtc_l; [right; apply OClose|]. apply rtc_refl. }
  split; [exact Hr|].
  set (n := newPolicyInstaller demo_empty 0).
  assert (rtc loop_step demo_stopping (mkWsys _ n Exited false true true Closing)) as Hl.
  { eapply rtc_l; [apply LEnd|]. eapply rtc_l; [apply LStop|]. apply rtc_refl. }
  eexists. split; [exact Hl|].
  destruct (watcher_close_terminates demo_empty 0 demo_stopping Hr) as (_ & _ & _ & Hc & _).
  apply (Hc eq_refl _ Hl).
  intros s'' Hs. inversion Hs.
Defined.

(** A policy of which one file was replaced since it was compiled. *)
Definition demo_replaced : node :=
  mkNode _ demo_empty {[ 7 := demo_spec ]}
    (Some (mkWatcher {[ 7 := [unchanged_sh; replaced_git] ]} true)) 0.
Lemma demo_empty_typed : maps_typed demo_empty.
Proof.
  split.
  - intros [|[|cpu]] b; simpl; intros; simplify_eq; auto.
  - intros cg id. simpl. by rewrite lookup_empty.
  - intros id w. simpl. by rewrite lookup_empty.
  - intros k v. simpl. by rewrite lookup_empty.
  - intros k v. simpl. by rewrite lookup_empty.
  - intros k v. unfold demo_empty. cbn [ruleNet]. by rewrite blpm_empty_entry.
Qed.
