(* ===== verification/AuditQueue.v ===== *)
(** [store.AuditQueue] (agent/internal/store/auditqueue.go): audit events kept in
    memory until the server acknowledges them, with losses reported as gaps; and
    what a stream that drains the queue (upstream/audit.go) can lose. *)

From Stdlib Require Import ZArith Lia Ascii String.
From stdpp Require Import base tactics numbers list strings gmap.
From S2P Require Import Prelude GoStd Pb.
Import pb.

(** * Data and operations *)

Record queuedGap := mkQueuedGap { beforeSeq : Z; gap : GapReport }.

(** The fields under [q.mu].  The [changed] channel only wakes [Next]; see
    [Next] below. *)
Record AuditQueue := mkAuditQueue {
  epoch : Z;
  nextSeq : Z;
  events : list AuditEvent;
  gaps : list queuedGap;
  maxEvents : Z;
  maxBatch : Z
}.

Definition set_events (q : AuditQueue) l :=
  mkAuditQueue (epoch q) (nextSeq q) l (gaps q) (maxEvents q) (maxBatch q).
Definition set_gaps (q : AuditQueue) g :=
  mkAuditQueue (epoch q) (nextSeq q) (events q) g (maxEvents q) (maxBatch q).

(** [randomEpoch]: the first draw that is not zero. *)
Fixpoint randomEpoch (draws : list Z) : option Z :=
  match draws with
  | [] => None
  | e :: rest => if e =? 0 then randomEpoch rest else Some e
  end.

Definition NewAuditQueue (ep maxE maxB : Z) : AuditQueue := mkAuditQueue ep 1 [] [] maxE maxB.

Definition SeqEpoch (q : AuditQueue) : Z := epoch q.

Definition dropOldest (q : AuditQueue) : res AuditQueue :=
  match events q with
  | [] => Panic "index out of range"
  | lost :: rest =>
      match rest with
      | [] => Panic "index out of range"
      | h :: _ =>
          let head := ae_NodeSeq h in
          let fresh := mkQueuedGap head
            (mkGapReport (ae_WallTsUnixNs lost) (ae_WallTsUnixNs lost) 1 true
                         GapReport_CAUSE_LOCAL_STORE_FULL) in
          let q' := set_events q rest in
          match last (gaps q) with
          | Some g =>
              if beforeSeq g =? ae_NodeSeq lost then
                let r := gap g in
                Ok (set_gaps q' (removelast (gaps q) ++
                  [mkQueuedGap head (mkGapReport (gr_FromUnixNs r) (ae_WallTsUnixNs lost)
                     (u64 (gr_DroppedCount r + 1)) (gr_DroppedCountKnown r) (gr_Cause r))]))
              else Ok (set_gaps q' (gaps q ++ [fresh]))
          | None => Ok (set_gaps q' (gaps q ++ [fresh]))
          end
      end
  end.

(** [Append]: the queue after, and the number the event got. *)
Definition Append (e : AuditEvent) (q : AuditQueue) : res (AuditQueue * Z) :=
  let n := nextSeq q in
  let q1 := mkAuditQueue (epoch q) (u64 (n + 1)) (events q ++ [set_NodeSeq e n]) (gaps q)
                         (maxEvents q) (maxBatch q) in
  if maxEvents q <? Z.of_nat (length (events q1))
  then try q2 := dropOldest q1 in Ok (q2, n)
  else Ok (q1, n).

Definition seq_after (l : list AuditEvent) (after : Z) (i : nat) : bool :=
  match l !! i with Some e => after <? ae_NodeSeq e | None => true end.
Definition search_after (l : list AuditEvent) (after : Z) : nat :=
  sort_Search (length l) (seq_after l after).

Definition gap_between (after last : Z) (g : queuedGap) : bool :=
  (after <? beforeSeq g) && (beforeSeq g <=? last).

(** [batch], with [q.mu] held: slicing and indexing panic out of range. *)
Definition batch (from : nat) (after : Z) (q : AuditQueue) : res AuditBatch :=
  let n := Z.of_nat (length (events q)) in
  let to := Z.min (Z.of_nat from + maxBatch q) n in
  if to - 1 <? 0 then Panic "index out of range"
  else match events q !! Z.to_nat (to - 1) with
       | None => Panic "index out of range"
       | Some e =>
           if to <? Z.of_nat from then Panic "slice bounds out of range"
           else
             let lastSeq := ae_NodeSeq e in
             Ok (mkAuditBatch None (take (Z.to_nat to - from) (drop from (events q)))
                   (gap <$> List.filter (gap_between after lastSeq) (gaps q))
                   lastSeq (epoch q))
       end.

(** One turn of [Next]'s loop under the lock; [None] is the wait. *)
Definition next_pass (after : Z) (q : AuditQueue) : option (res AuditBatch) :=
  let i := search_after (events q) after in
  if (i <? length (events q))%nat then Some (batch i after q) else None.

Definition ErrCanceled : error := ENew "context canceled".

(** [Next]: the states of the queue at each turn, one per wake-up; when the list
    ends the context does. *)
Fixpoint Next (turns : list AuditQueue) (after : Z) : res AuditBatch :=
  match turns with
  | [] => Err ErrCanceled
  | q :: rest => match next_pass after q with
                 | Some r => r
                 | None => Next rest after
                 end
  end.

Definition Ack (seqEpoch nodeSeq : Z) (q : AuditQueue) : AuditQueue :=
  if negb (seqEpoch =? epoch q) then q
  else
    let i := search_after (events q) nodeSeq in
    set_gaps (set_events q (drop i (events q)))
             (List.filter (λ g, nodeSeq <? beforeSeq g) (gaps q)).

(** * The invariant *)

(** The number of the oldest event held (of the next one when none is). *)
Definition headSeq (q : AuditQueue) : Z := nextSeq q - Z.of_nat (length (events q)).

(** At most one gap is held: it ends just before the oldest event. *)
Definition gaps_ok (q : AuditQueue) : Prop :=
  gaps q = [] ∨
  ∃ g, gaps q = [g] ∧ events q ≠ [] ∧ beforeSeq g = headSeq q ∧
       1 <= gr_DroppedCount (gap g) < headSeq q ∧
       gr_DroppedCountKnown (gap g) = true ∧ gr_Cause (gap g) = GapReport_CAUSE_LOCAL_STORE_FULL.

Record queue_inv (q : AuditQueue) : Prop := {
  qi_next : 1 <= headSeq q ∧ nextSeq q < 2 ^ 64;
  qi_seqs : ∀ i e, events q !! i = Some e → ae_NodeSeq e = headSeq q + Z.of_nat i;
  qi_max : Z.of_nat (length (events q)) <= maxEvents q;
  qi_conf : 1 <= maxEvents q ∧ 1 <= maxBatch q;
  qi_gaps : gaps_ok q
}.

Lemma NewAuditQueue_inv ep maxE maxB :
  1 <= maxE → 1 <= maxB → queue_inv (NewAuditQueue ep maxE maxB).
Proof.
  intros. split; [unfold headSeq; simpl; lia| |simpl; lia|done|by left].
  intros [|i] e He; done.
Qed.

(** Where the bisection lands. *)
Lemma search_after_pos q after :
  queue_inv q →
  Z.of_nat (search_after (events q) after) =
  Z.min (Z.of_nat (length (events q))) (Z.max 0 (after + 1 - headSeq q)).
Proof.
  intros [_ Hs _ _ _]. unfold search_after.
  assert (∀ k, (k < length (events q))%nat →
            seq_after (events q) after k = (after <? headSeq q + Z.of_nat k)) as Hf.
  { intros k Hk. unfold seq_after.
    destruct (lookup_lt_is_Some_2 _ _ Hk) as [e He]. by rewrite He, (Hs k e). }
  destruct (sort_Search_spec (length (events q)) (seq_after (events q) after)) as (H1 & H2 & H3).
  { intros a b Hab. destruct (Nat.lt_ge_cases b (length (events q))).
    - rewrite !Hf by lia. lia.
    - unfold seq_after. rewrite (lookup_ge_None_2 _ b) by lia. done. }
  set (r := sort_Search _ _) in *.
  destruct (Nat.eq_dec r O) as [H0|H0].
  - destruct (Nat.eq_dec (length (events q)) O); [lia|].
    specialize (H3 0%nat ltac:(lia)). rewrite Hf in H3 by lia. zify_bools. lia.
  - specialize (H2 (r - 1)%nat ltac:(lia)). rewrite Hf in H2 by lia. zify_bools.
    destruct (Nat.eq_dec r (length (events q))); [lia|].
    specialize (H3 r ltac:(lia)). rewrite Hf in H3 by lia. zify_bools. lia.
Qed.

(** ** What each operation does to a queue that satisfies the invariant *)

(** The numbers a gap stands for: the [DroppedCount] just before [beforeSeq]. *)
Definition gap_covers (g : queuedGap) (s : Z) : Prop :=
  beforeSeq g - gr_DroppedCount (gap g) <= s < beforeSeq g.
Definition gaps_cover (l : list queuedGap) (s : Z) : Prop := ∃ g, g ∈ l ∧ gap_covers g s.
Definition holds_seq (l : list AuditEvent) (s : Z) : Prop := ∃ e, e ∈ l ∧ ae_NodeSeq e = s.

Lemma holds_seq_iff q s : queue_inv q → holds_seq (events q) s ↔ headSeq q <= s < nextSeq q.
Proof.
  intros [_ Hs _ _ _]. split.
  - intros (e & [i Hi]%list_elem_of_lookup & <-). rewrite (Hs i e Hi).
    apply lookup_lt_Some in Hi. unfold headSeq. lia.
  - intros Hr. unfold headSeq in Hr.
    destruct (lookup_lt_is_Some_2 (events q) (Z.to_nat (s - headSeq q))) as [e He].
    { unfold headSeq. lia. }
    exists e. split; [by eapply list_elem_of_lookup_2|]. rewrite (Hs _ e He).
    unfold headSeq. lia.
Qed.

Definition same_conf (q q' : AuditQueue) : Prop :=
  epoch q' = epoch q ∧ maxEvents q' = maxEvents q ∧ maxBatch q' = maxBatch q.

(** Dropping when the queue is one over its bound. *)
Lemma dropOldest_spec q lost rest :
  events q = lost :: rest → rest ≠ [] →
  (∀ i e, events q !! i = Some e → ae_NodeSeq e = headSeq q + Z.of_nat i) →
  1 <= headSeq q → nextSeq q < 2 ^ 64 → gaps_ok q →
  ∃ q', dropOldest q = Ok q' ∧ same_conf q q' ∧ nextSeq q' = nextSeq q ∧ events q' = rest ∧
        gaps_ok q' ∧ ∀ s, gaps_cover (gaps q) s ∨ s = headSeq q → gaps_cover (gaps q') s.
Proof.
  intros He Hne Hs H1 H64 Hg. unfold dropOldest. rewrite He.
  destruct rest as [|h rest]; [done|].
  assert (ae_NodeSeq lost = headSeq q) as Hl by (rewrite (Hs 0%nat); [lia|by rewrite He]).
  assert (ae_NodeSeq h = headSeq q + 1) as Hh by (rewrite (Hs 1%nat); [lia|by rewrite He]).
  assert (∀ g, headSeq (set_gaps (set_events q (h :: rest)) g) = headSeq q + 1) as Hhead.
  { intros g. unfold headSeq. simpl. rewrite He. simpl. lia. }
  assert (headSeq q < nextSeq q) as Hlt by (unfold headSeq; rewrite He; simpl; lia).
  rewrite Hl, Hh. destruct Hg as [Hg|(g & Hg & _ & Hb & Hc & Hk & Hca)]; rewrite Hg; simpl.
  - eexists. split; [done|]. split; [done|]. split; [done|]. split; [done|]. split.
    + right. eexists. split; [done|]. split; [done|]. rewrite Hhead. simpl. split; [done|].
      split; [lia|done].
    + intros s [(g & Hin%elem_of_nil & _)| ->]; [done|]. eexists. split; [by apply list_elem_of_singleton|].
      unfold gap_covers. simpl. lia.
  - rewrite Hb, Z.eqb_refl. eexists. split; [done|]. split; [done|]. split; [done|]. split; [done|].
    assert (u64 (gr_DroppedCount (gap g) + 1) = gr_DroppedCount (gap g) + 1) as Hu.
    { apply u64_small. unfold_widths. lia. }
    split.
    + right. eexists. split; [done|]. split; [done|]. rewrite Hhead. simpl. rewrite Hu.
      split; [done|]. split; [lia|done].
    + intros s Hcov. eexists. split; [by apply list_elem_of_singleton|].
      unfold gap_covers. simpl. rewrite Hu.
      destruct Hcov as [(g' & ->%list_elem_of_singleton & Hin)| ->]; [|lia].
      unfold gap_covers in Hin. lia.
Qed.

(** [Append] numbers the event, keeps the bound, and accounts for what it drops. *)
Lemma Append_spec q e :
  queue_inv q → nextSeq q + 1 < 2 ^ 64 →
  ∃ q', Append e q = Ok (q', nextSeq q) ∧ queue_inv q' ∧ same_conf q q' ∧
        nextSeq q' = nextSeq q + 1 ∧
        (∀ s, holds_seq (events q) s ∨ s = nextSeq q → holds_seq (events q') s ∨ gaps_cover (gaps q') s) ∧
        (∀ s, gaps_cover (gaps q) s → gaps_cover (gaps q') s).
Proof.
  intros Hinv Hn. pose proof Hinv as [[H1 H64] Hs Hm [Hme Hmb] Hg]. unfold Append.
  rewrite u64_small by (unfold_widths; unfold headSeq in H1; lia).
  set (q1 := mkAuditQueue _ _ _ _ _ _).
  assert (headSeq q1 = headSeq q) as Hh1.
  { unfold headSeq, q1. simpl. rewrite length_app. simpl. lia. }
  assert (∀ i x, events q1 !! i = Some x → ae_NodeSeq x = headSeq q1 + Z.of_nat i) as Hs1.
  { intros i x. rewrite Hh1. unfold q1. simpl. rewrite lookup_app_Some.
    intros [Hx|[Hge Hx]]; [by apply Hs|]. apply list_lookup_singleton_Some in Hx as [Hi <-].
    simpl. unfold headSeq. lia. }
  assert (gaps_ok q1) as Hg1.
  { destruct Hg as [Hg|(g & Hg & Hne & Hb & Hc)]; [by left|]. right. exists g. rewrite Hh1.
    split; [done|]. split; [unfold q1; simpl; by intros []%app_nil|]. done. }
  assert (∀ s, headSeq q1 <= s < nextSeq q1 ↔ holds_seq (events q) s ∨ s = nextSeq q) as Hold.
  { intros s. rewrite holds_seq_iff, Hh1 by done. unfold q1, headSeq. simpl. lia. }
  destruct (Z.ltb_spec (maxEvents q) (Z.of_nat (length (events q1)))) as [Hover|Hfit].
  - destruct (events q1) as [|lost rest] eqn:Eq1; [simpl in Hover; lia|].
    assert (length (events q1) = S (length (events q))) as Hlen1.
    { unfold q1. simpl. rewrite length_app. simpl. lia. }
    destruct (dropOldest_spec q1 lost rest) as (q2 & -> & Hc2 & Hn2 & He2 & Hg2 & Hcov2);
      [done| |by rewrite Eq1|lia|simpl; lia|done|].
    { intros ->. rewrite Eq1 in Hlen1. simpl in *. lia. }
    assert (headSeq q2 = headSeq q1 + 1) as Hh2.
    { unfold headSeq. rewrite Hn2, He2, Eq1. simpl. lia. }
    assert (queue_inv q2) as Hi2.
    { destruct Hc2 as (Hc2a & Hc2b & Hc2c). split; [| | |by rewrite Hc2b, Hc2c|done].
      - rewrite Hh2, Hn2. simpl. lia.
      - intros i x Hx. rewrite He2 in Hx. rewrite Hh2, (Hs1 (S i) x); [lia|done].
      - rewrite He2, Hc2b. rewrite Eq1 in Hlen1. simpl in *. lia. }
    exists q2. split; [done|]. split; [done|]. split; [done|]. split; [done|]. split; [|by auto].
    intros s Hsx. apply Hold in Hsx. rewrite (holds_seq_iff q2), Hh2, Hn2 by done.
    destruct (Z.eq_dec s (headSeq q1)) as [->|]; [by auto|left; lia].
  - exists q1. assert (queue_inv q1) as Hi1.
    { split; [rewrite Hh1; simpl; lia|done|done|done|done]. }
    split; [done|]. split; [done|]. split; [done|]. split; [done|]. split; [|done].
    intros s Hsx. left. apply holds_seq_iff; [done|]. by apply Hold.
Qed.

(** [Ack] forgets exactly what is at or below the acknowledged number. *)
Lemma Ack_spec q n :
  queue_inv q →
  let q' := Ack (epoch q) n q in
  queue_inv q' ∧ same_conf q q' ∧ nextSeq q' = nextSeq q ∧
  headSeq q' = Z.min (nextSeq q) (Z.max (headSeq q) (n + 1)) ∧
  (∀ s, holds_seq (events q') s ↔ holds_seq (events q) s ∧ n < s) ∧
  (∀ g, g ∈ gaps q' ↔ g ∈ gaps q ∧ n < beforeSeq g).
Proof.
  intros Hinv q'. pose proof Hinv as [[H1 H64] Hs Hm Hc Hg].
  pose proof (search_after_pos q n Hinv) as Hpos. unfold q', Ack. rewrite Z.eqb_refl. simpl.
  set (i := search_after (events q) n) in *. set (q2 := set_gaps _ _).
  assert (headSeq q2 = headSeq q + Z.of_nat i) as Hh.
  { unfold headSeq, q2. simpl. rewrite length_drop. unfold headSeq in Hpos. lia. }
  assert (∀ g, g ∈ gaps q2 ↔ g ∈ gaps q ∧ n < beforeSeq g) as Hgin.
  { intros g. unfold q2. simpl. rewrite !list_elem_of_In, List.filter_In, Z.ltb_lt. done. }
  assert (queue_inv q2) as Hi2.
  { split; [rewrite Hh; simpl; unfold headSeq in *; lia| | |done|].
    - intros j x. rewrite Hh. unfold q2. simpl. rewrite lookup_drop. intros Hx.
      rewrite (Hs _ x Hx). lia.
    - unfold q2. simpl. rewrite length_drop. lia.
    - destruct Hg as [Hg|(g & Hg & Hne & Hb & Hrest)]; [left; unfold q2; simpl; by rewrite Hg|].
      destruct (Z.ltb_spec n (beforeSeq g)) as [Hlt|Hge].
      + assert (i = O) as Hi0.
        { assert (length (events q) ≠ O) by (by intros ?%nil_length_inv). lia. }
        right. exists g. rewrite Hh, Hi0.
        replace (headSeq q + Z.of_nat 0) with (headSeq q) by lia.
        unfold q2. simpl. rewrite Hg, Hi0. simpl. by rewrite (proj2 (Z.ltb_lt _ _) Hlt).
      + left. unfold q2. simpl. rewrite Hg. simpl. by rewrite (proj2 (Z.ltb_ge _ _) Hge). }
  split; [done|]. split; [done|]. split; [done|].
  split; [change (headSeq q2 = Z.min (nextSeq q) (Z.max (headSeq q) (n + 1)));
          unfold headSeq in *; lia|].
  split; [|done]. intros s. change (holds_seq (events q2) s ↔ holds_seq (events q) s ∧ n < s).
  rewrite !holds_seq_iff, Hh by done. change (nextSeq q2) with (nextSeq q).
  unfold headSeq in *. lia.
Qed.

(** ** The queue without bisection and index arithmetic *)

(** What [Next] and [Ack] compute, said with filters over the events. *)
Definition newer (after : Z) (q : AuditQueue) : list AuditEvent :=
  List.filter (λ e, after <? ae_NodeSeq e) (events q).
Definition linear_Next (after : Z) (q : AuditQueue) : option AuditBatch :=
  let evs := take (Z.to_nat (maxBatch q)) (newer after q) in
  (λ e, mkAuditBatch None evs (gap <$> List.filter (gap_between after (ae_NodeSeq e)) (gaps q))
          (ae_NodeSeq e) (epoch q)) <$> last evs.
Definition linear_Ack (seqEpoch nodeSeq : Z) (q : AuditQueue) : AuditQueue :=
  if negb (seqEpoch =? epoch q) then q
  else set_gaps (set_events q (newer nodeSeq q)) (List.filter (λ g, nodeSeq <? beforeSeq g) (gaps q)).

Lemma drop_newer (l : list AuditEvent) h after :
  (∀ i e, l !! i = Some e → ae_NodeSeq e = h + Z.of_nat i) →
  drop (Z.to_nat (Z.min (Z.of_nat (length l)) (Z.max 0 (after + 1 - h)))) l =
  List.filter (λ e, after <? ae_NodeSeq e) l.
Proof.
  revert h. induction l as [|e l IH]; intros h Hs; [by rewrite drop_nil|].
  pose proof (Hs O e eq_refl) as He. cbn [List.filter length]. rewrite He, Z.add_0_r.
  assert (∀ i x, l !! i = Some x → ae_NodeSeq x = (h + 1) + Z.of_nat i) as Hs'.
  { intros i x Hx. rewrite (Hs (S i) x Hx). lia. }
  rewrite <- (IH (h + 1) Hs'). set (i := Z.to_nat (Z.min (Z.of_nat (length l)) _)).
  set (j := Z.to_nat (Z.min (Z.of_nat (S (length l))) _)).
  destruct (Z.ltb_spec after h) as [Hlt|Hge].
  - assert (i = O ∧ j = O) as [-> ->] by lia. by rewrite !drop_0.
  - assert (j = S i) as -> by lia. done.
Qed.
Lemma search_after_newer q after : queue_inv q → drop (search_after (events q) after) (events q) = newer after q.
Proof.
  intros Hq. unfold newer. rewrite <- (drop_newer (events q) (headSeq q) after (qi_seqs _ Hq)).
  by rewrite <- search_after_pos, Nat2Z.id by done.
Qed.

Lemma next_pass_linear q after :
  queue_inv q → next_pass after q = Ok <$> linear_Next after q.
Proof.
  intros Hq. pose proof (search_after_newer q after Hq) as Hn. pose proof (proj2 (qi_conf _ Hq)) as Hmb.
  pose proof (search_after_pos q after Hq) as Hpos. unfold next_pass, linear_Next. rewrite <- Hn.
  set (i := search_after (events q) after) in *. clearbody i.
  destruct (Nat.ltb_spec i (length (events q))) as [Hlt|Hge].
  2:{ by rewrite drop_ge, take_nil by lia. }
  unfold batch. set (to := Z.min _ _).
  assert (Z.of_nat i < to <= Z.of_nat (length (events q))) as Hto by lia.
  destruct (Z.ltb_spec (to - 1) 0); [lia|].
  destruct (lookup_lt_is_Some_2 (events q) (Z.to_nat (to - 1))) as [e He]; [lia|].
  rewrite He. destruct (Z.ltb_spec to (Z.of_nat i)); [lia|].
  assert (take (Z.to_nat (maxBatch q)) (drop i (events q)) = take (Z.to_nat to - i) (drop i (events q))) as Ht.
  { destruct (Z.le_gt_cases (Z.of_nat i + maxBatch q) (Z.of_nat (length (events q)))).
    - f_equal. lia.
    - rewrite !take_ge; [done|rewrite length_drop; lia..]. }
  rewrite Ht. assert (last (take (Z.to_nat to - i) (drop i (events q))) = Some e) as ->; [|done].
  rewrite last_lookup, length_take, length_drop, lookup_take_lt, lookup_drop by lia.
  rewrite <- He. f_equal. lia.
Qed.
Lemma Ack_linear q ep n : queue_inv q → Ack ep n q = linear_Ack ep n q.
Proof. intros Hq. unfold Ack, linear_Ack. by rewrite search_after_newer. Qed.

(** A batch: what a turn of [Next] hands out. *)
Lemma next_pass_spec q after :
  queue_inv q → 0 <= after →
  match next_pass after q with
  | None => nextSeq q <= after + 1 ∨ events q = []
  | Some r =>
      ∃ b, r = Ok b ∧
        ab_Gaps b = gap <$> List.filter (gap_between after (ab_LastNodeSeq b)) (gaps q) ∧
        ab_SeqEpoch b = epoch q ∧ ab_Node b = None ∧
        ab_Events b ≠ [] ∧ (length (ab_Events b) <= Z.to_nat (maxBatch q))%nat ∧
        (∀ s, holds_seq (ab_Events b) s ↔ Z.max (after + 1) (headSeq q) <= s <= ab_LastNodeSeq b) ∧
        Z.max (after + 1) (headSeq q) <= ab_LastNodeSeq b < nextSeq q
  end.
Proof.
  intros Hinv Ha. pose proof Hinv as [[H1 H64] Hs Hm [_ Hmb] Hg].
  pose proof (search_after_pos q after Hinv) as Hpos. unfold next_pass.
  set (i := search_after (events q) after) in *.
  destruct (Nat.ltb_spec i (length (events q))) as [Hlt|Hge].
  2:{ destruct (decide (events q = [])) as [|Hne]; [by right|]. left.
      assert (length (events q) ≠ O) by (by intros ?%nil_length_inv). unfold headSeq in *. lia. }
  unfold batch. set (to := Z.min _ _).
  assert (Z.of_nat i < to <= Z.of_nat (length (events q))) as Hto by lia.
  assert (to <= Z.of_nat i + maxBatch q) as Htb by lia. clearbody to.
  destruct (Z.ltb_spec (to - 1) 0); [lia|].
  destruct (lookup_lt_is_Some_2 (events q) (Z.to_nat (to - 1))) as [e He]; [lia|].
  rewrite He. destruct (Z.ltb_spec to (Z.of_nat i)); [lia|].
  pose proof (Hs _ e He) as Hlast. eexists. split; [done|]. simpl.
  split; [done|]. split; [done|]. split; [done|].
  set (evs := take _ _).
  assert (length evs = (Z.to_nat to - i)%nat) as Hle.
  { unfold evs. rewrite length_take, length_drop. lia. }
  split; [intros Hn; rewrite Hn in Hle; simpl in Hle; lia|]. split; [lia|].
  rewrite Hlast. split.
  - intros s. split.
    + intros (x & [j Hj]%list_elem_of_lookup & <-). pose proof (lookup_lt_Some _ _ _ Hj).
      unfold evs in Hj. rewrite lookup_take_lt, lookup_drop in Hj by lia.
      rewrite (Hs _ x Hj). lia.
    + intros Hr. destruct (lookup_lt_is_Some_2 evs (Z.to_nat (s - headSeq q) - i)) as [x Hx]; [lia|].
      exists x. split; [by eapply list_elem_of_lookup_2|].
      unfold evs in Hx. rewrite lookup_take_lt, lookup_drop in Hx by lia. rewrite (Hs _ x Hx). lia.
  - unfold headSeq in *. lia.
Qed.

Lemma elem_gap_between q after last g :
  g ∈ List.filter (gap_between after last) (gaps q) ↔ g ∈ gaps q ∧ after < beforeSeq g <= last.
Proof.
  rewrite !list_elem_of_In, List.filter_In. unfold gap_between.
  by rewrite andb_true_iff, Z.ltb_lt, Z.leb_le.
Qed.

Lemma gaps_ok_before q g : queue_inv q → g ∈ gaps q → beforeSeq g = headSeq q.
Proof.
  intros [_ _ _ _ [Hg|(g' & Hg & _ & Hb & _)]] Hin; rewrite Hg in Hin;
    [by apply elem_of_nil in Hin|]. by apply list_elem_of_singleton in Hin as ->.
Qed.
