(* ===== verification/Pamsock.v ===== *)
(** Package [pamsock] (agent/internal/pamsock/pamsock.go): the datagrams the PAM
    module sends (pam/pam_warrant.c), their parser, the dispatch loop, and the
    key fingerprint. *)

From Stdlib Require Import ZArith Lia Ascii String.
From stdpp Require Import base tactics numbers list strings gmap.
From S2P Require Import Prelude GoStd.

(** * Requests *)

Record Request := mkRequest {
  Op : string;
  SessionID : string;
  CgroupID : Z;
  LoginAccount : string;
  RHost : string;
  AuthInfo : string
}.

Definition parseCgroupID (v : string) : res Z :=
  if bool_decide (v = "-") then Ok 0
  else match ParseUint64 v with
       | Ok id => Ok id
       | Err e => Err (EWrap "pamsock: cgroup_id: " e)
       | Panic p => Panic p
       end.

Definition orEmpty (v : string) : string := if bool_decide (v = "-") then "" else v.

Definition parse (b : string) : res Request :=
  let s := TrimSuffix b (String LF "") in
  match Cut s TAB with
  | None => Err (EMsg ("pamsock: no fields (" +:+ fmt_u (Z.of_nat (String.length b)) +:+ " bytes)"))
  | Some (op, rest) =>
      if bool_decide (op = "OPEN") then
        match SplitN rest TAB 5 with
        | [f0; f1; f2; f3; f4] =>
            try cgid := parseCgroupID f1 in
            Ok (mkRequest op (orEmpty f0) cgid (orEmpty f2) (orEmpty f3) (orEmpty f4))
        | f => Err (EMsg ("pamsock: OPEN: want 5 fields, got " +:+ fmt_u (Z.of_nat (length f))))
        end
      else if bool_decide (op = "CLOSE") then
        match Split rest TAB with
        | [f0; f1] =>
            try cgid := parseCgroupID f1 in
            Ok (mkRequest op (orEmpty f0) cgid "" "" "")
        | f => Err (EMsg ("pamsock: CLOSE: want 2 fields, got " +:+ fmt_u (Z.of_nat (length f))))
        end
      else Err (EMsg ("pamsock: unknown op " +:+ fmt_q op))
  end.

(** * The socket *)

(** The file system and the socket calls; [Conn] is a [*net.UnixConn]. *)
Class UnixSockets (K Conn : Type) := {
  os_Remove : string → M K unit;
  ResolveUnixAddr : string → res string;
  ListenUnixgram : string → M K Conn;
  os_Chmod : string → Z → M K unit;
  CloseConn : Conn → M K unit
}.

(** What can be seen: the files, each with its mode and the socket bound to it if
    any, and the open connections with their paths. *)
Record sview (Conn : Type) `{Countable Conn} := mkSview {
  sv_files : gmap string (Z * option Conn);
  sv_conns : gmap Conn string
}.
Arguments mkSview {_ _ _}.
Arguments sv_files {_ _ _}.
Arguments sv_conns {_ _ _}.

Class UnixSocketsLaws (K Conn : Type) `{UnixSockets K Conn} `{Countable Conn} := {
  ssee : K → sview Conn;
  os_Remove_spec p k :
    match os_Remove p k with
    | (k', Ok _) => ssee k' = mkSview (base.delete p (sv_files (ssee k))) (sv_conns (ssee k))
    | (k', Err e) => ssee k' = ssee k ∧
        (errors_Is e ErrNotExist = true → sv_files (ssee k) !! p = None)
    | (_, Panic _) => False
    end;
  ResolveUnixAddr_spec p a : ResolveUnixAddr p = Ok a → a = p;
  ResolveUnixAddr_total p x : ResolveUnixAddr p ≠ Panic x;
  ListenUnixgram_spec p k :
    match ListenUnixgram p k with
    | (k', Ok c) => sv_files (ssee k) !! p = None ∧ sv_conns (ssee k) !! c = None ∧
        ∃ mode, ssee k' = mkSview (<[p := (mode, Some c)]> (sv_files (ssee k)))
                                  (<[c := p]> (sv_conns (ssee k)))
    | (k', Err _) => ssee k' = ssee k
    | (_, Panic _) => False
    end;
  os_Chmod_spec p mode k :
    match os_Chmod p mode k with
    | (k', Ok _) => ∃ old o, sv_files (ssee k) !! p = Some (old, o) ∧
        ssee k' = mkSview (<[p := (mode, o)]> (sv_files (ssee k))) (sv_conns (ssee k))
    | (k', Err _) => ssee k' = ssee k
    | (_, Panic _) => False
    end;
  CloseConn_spec c k :
    ssee (fst (CloseConn c k)) = mkSview (sv_files (ssee k)) (base.delete c (sv_conns (ssee k))) ∧
    ∀ x, snd (CloseConn c k) ≠ Panic x
}.

(** [0o600] *)
Definition socketMode : Z := 384.

Definition Listen {K Conn} `{UnixSockets K Conn} (socketPath : string) : M K Conn :=
  (do r := mtry (os_Remove socketPath) in
   match r with
   | inr e =>
       if negb (errors_Is e ErrNotExist)
       then merr (EWrap ("pamsock: remove " +:+ socketPath +:+ ": ") e) else mok tt
   | inl _ => mok tt
   end) ;;;
  do la := wrapping ("pamsock: resolve " +:+ socketPath +:+ ": ") (mres (ResolveUnixAddr socketPath)) in
  do conn := wrapping ("pamsock: listen " +:+ socketPath +:+ ": ") (ListenUnixgram la) in
  do r := mtry (os_Chmod socketPath socketMode) in
  match r with
  | inr e => mtry (CloseConn conn) ;;; merr (EWrap ("pamsock: chmod " +:+ socketPath +:+ ": ") e)
  | inl _ => mok conn
  end.

(** * The loop *)

(** [Binder]: the two calls, as the node's state sees them. *)
Class Binder (S : Type) := {
  bd_Bind : Request → M S Z;
  bd_Unbind : Z → M S unit
}.

(** The read buffer. *)
Definition BUF : nat := 8192.

Section serve.
Context {T : Type} `{Binder T}.

(** One datagram: a longer one is cut to the buffer; errors are logged. *)
Definition serve_one (s : T) (datagram : string) : T :=
  match parse (String.substring 0 BUF datagram) with
  | Ok req =>
      if bool_decide (Op req = "OPEN") then fst (bd_Bind req s)
      else if bool_decide (Op req = "CLOSE") then
        if CgroupID req =? 0 then s else fst (bd_Unbind (CgroupID req) s)
      else s
  | _ => s
  end.
(** [Serve], until the socket closes. *)
Definition Serve (datagrams : list string) (s : T) : T := foldl serve_one s datagrams.
End serve.

(** * Fingerprints *)

(** [golang.org/x/crypto/ssh]: a parsed line is a plain key or a certificate,
    given by the key inside it. *)
Class SshKeys := {
  ssh_Key : Type;
  ssh_ParseAuthorizedKey : string → res (ssh_Key + ssh_Key);
  ssh_FingerprintSHA256 : ssh_Key → string
}.

Section fingerprint.
Context `{SshKeys}.

Fixpoint fingerprint_lines (lines : list string) : res string :=
  match lines with
  | [] => Ok ""
  | line :: rest =>
      match CutPrefix line "publickey " with
      | None => fingerprint_lines rest
      | Some key =>
          match ssh_ParseAuthorizedKey key with
          | Ok (inl pub) => Ok (ssh_FingerprintSHA256 pub)
          | Ok (inr certKey) => Ok (ssh_FingerprintSHA256 certKey)
          | Err e => Err (EWrap "pamsock: fingerprint: " e)
          | Panic p => Panic p
          end
      end
  end.
Definition Fingerprint (authInfo : string) : res string := fingerprint_lines (Split authInfo LF).
End fingerprint.

(** * The sender *)

(** [snprintf] into a buffer of [size] bytes: what fits before the NUL is kept, and
    the full length is returned. *)
Definition snprintf (size : nat) (text : string) : string * Z :=
  (String.substring 0 (size - 1) text, Z.of_nat (String.length text)).
(** [WR_LINE_MAX], the size of [line]. *)
Definition WR_LINE_MAX : nat := 8192.

(** The two formats. *)
Definition open_text (sid : string) (cgid : Z) (user rhost auth : string) : string :=
  ("OPEN" +:+ String TAB (sid +:+ String TAB (fmt_u cgid +:+ String TAB (user +:+ String TAB
    (rhost +:+ String TAB auth))))) +:+ String LF "".
Definition close_text (sid : string) (cgid : Z) : string :=
  ("CLOSE" +:+ String TAB (sid +:+ String TAB (fmt_u cgid))) +:+ String LF "".

(** [pam_sm_open_session]'s and [pam_sm_close_session]'s lines; an absent value
    is a dash, and so is auth info with which the line does not fit. *)
Definition wr_open (sid : string) (cgid : Z) (user rhost auth : string) : string :=
  let '(line, n) := snprintf WR_LINE_MAX (open_text sid cgid user rhost auth) in
  if Z.of_nat WR_LINE_MAX <=? n
  then fst (snprintf WR_LINE_MAX (open_text sid cgid user rhost "-"))
  else line.
Definition wr_close (sid : string) (cgid : Z) : string :=
  fst (snprintf WR_LINE_MAX (close_text sid cgid)).

(** * Lemmas *)

Lemma parseCgroupID_fmt z : is_u64 z → parseCgroupID (fmt_u z) = Ok z.
Proof.
  intros Hz. unfold parseCgroupID. rewrite ParseUint64_fmt by done.
  case_bool_decide as E; [|done].
  pose proof (ParseUint64_fmt z Hz) as Hp. rewrite E in Hp. vm_compute in Hp. done.
Qed.

Lemma fmt_u_no_tab z : is_u64 z → str_mem TAB (fmt_u z) = false.
Proof. intros Hz. apply fmt_u_mem; [unfold_widths; lia|reflexivity]. Qed.
Lemma str_mem_app c s t : str_mem c (s +:+ t) = str_mem c s || str_mem c t.
Proof. induction s as [|a s IH]; simpl; [done|]. by rewrite IH, orb_assoc. Qed.

Lemma SplitN_app s c r n :
  str_mem c s = false → SplitN (s +:+ String c r) c (S (S n)) = s :: SplitN r c (S n).
Proof. intros Hs. cbn [SplitN]. by rewrite Cut_app. Qed.

Lemma parse_cgroup_u64 v z : parseCgroupID v = Ok z → is_u64 z.
Proof.
  unfold parseCgroupID. case_bool_decide; [intros [= <-]; unfold_widths; lia|].
  destruct (ParseUint64 v) eqn:E; [|done|done]. intros [= <-]. by eapply ParseUint64_range.
Qed.

(** A line that fits is kept by [snprintf] and by the agent's read. *)
Lemma substring_all s n : (String.length s <= n)%nat → String.substring 0 n s = s.
Proof.
  revert n. induction s as [|a s IH]; intros [|n] Hn; simpl in *; try done; [lia|]. by rewrite IH by lia.
Qed.
Lemma BUF_Z : Z.of_nat BUF = 8192.
Proof. vm_compute. reflexivity. Qed.
Lemma WR_LINE_MAX_Z : Z.of_nat WR_LINE_MAX = 8192.
Proof. vm_compute. reflexivity. Qed.
Lemma substring_BUF s : Z.of_nat (String.length s) < 8192 → String.substring 0 BUF s = s.
Proof. intros Hs. apply substring_all. pose proof BUF_Z. lia. Qed.
Lemma snprintf_fits s : Z.of_nat (String.length s) < 8192 → fst (snprintf WR_LINE_MAX s) = s.
Proof. intros Hs. apply substring_all. pose proof WR_LINE_MAX_Z. lia. Qed.
Lemma wr_open_line sid cgid user rhost auth :
  Z.of_nat (String.length (open_text sid cgid user rhost "-")) < 8192 →
  wr_open sid cgid user rhost auth =
    open_text sid cgid user rhost
      (if Z.of_nat (String.length (open_text sid cgid user rhost auth)) <? 8192 then auth else "-").
Proof.
  intros Hfit. unfold wr_open. rewrite (surjective_pairing (snprintf _ _)).
  change (snd (snprintf WR_LINE_MAX (open_text sid cgid user rhost auth)))
    with (Z.of_nat (String.length (open_text sid cgid user rhost auth))).
  rewrite WR_LINE_MAX_Z, Z.ltb_antisym.
  destruct (Z.leb_spec 8192 (Z.of_nat (String.length (open_text sid cgid user rhost auth)))); simpl negb; cbv iota.
  - by apply snprintf_fits.
  - by apply snprintf_fits.
Qed.
Lemma wr_close_line sid cgid :
  Z.of_nat (String.length (close_text sid cgid)) < 8192 → wr_close sid cgid = close_text sid cgid.
Proof. apply snprintf_fits. Qed.
Lemma parse_open_text sid cgid user rhost auth :
  is_u64 cgid → str_mem TAB sid = false → str_mem TAB user = false → str_mem TAB rhost = false →
  parse (open_text sid cgid user rhost auth) =
    Ok (mkRequest "OPEN" (orEmpty sid) cgid (orEmpty user) (orEmpty rhost) (orEmpty auth)).
Proof.
  intros Hc Hs Hu Hr. pose proof (fmt_u_no_tab cgid Hc) as Hn.
  unfold parse, open_text. rewrite TrimSuffix_app, Cut_app by done.
  rewrite bool_decide_true by done. rewrite !SplitN_app by done. cbn [SplitN].
  by rewrite parseCgroupID_fmt.
Qed.
Lemma parse_close_text sid cgid :
  is_u64 cgid → str_mem TAB sid = false →
  parse (close_text sid cgid) = Ok (mkRequest "CLOSE" (orEmpty sid) cgid "" "" "").
Proof.
  intros Hc Hs. pose proof (fmt_u_no_tab cgid Hc) as Hn.
  unfold parse, close_text. rewrite TrimSuffix_app, Cut_app by done.
  rewrite bool_decide_false, bool_decide_true by done. rewrite Split_app, Split_nosep by done.
  by rewrite parseCgroupID_fmt.
Qed.

(** What [Listen] leaves behind, on every path out of it. *)
Lemma Listen_bound {K Conn} `{UnixSockets K Conn} `{Countable Conn} `{!UnixSocketsLaws K Conn}
    path (k k' : K) r :
  Listen path k = (k', r) →
  (∀ x, r ≠ Panic x) ∧
  (∀ c, r = Ok c → sv_conns (ssee k) !! c = None ∧
     sv_conns (ssee k') = <[c := path]> (sv_conns (ssee k)) ∧
     sv_files (ssee k') !! path = Some (socketMode, Some c)) ∧
  (∀ e, r = Err e → sv_conns (ssee k') = sv_conns (ssee k)) ∧
  (∀ p, p ≠ path → sv_files (ssee k') !! p = sv_files (ssee k) !! p).
Proof.
  unfold Listen. intros E.
  assert (∃ k1 r1, (do r := mtry (os_Remove path) in
     match r with
     | inr e => if negb (errors_Is e ErrNotExist)
                then merr (EWrap ("pamsock: remove " +:+ path +:+ ": ") e) else mok tt
     | inl _ => mok tt
     end) k = (k1, r1) ∧ (∀ x, r1 ≠ Panic x) ∧
     sv_conns (ssee k1) = sv_conns (ssee k) ∧
     (∀ p, p ≠ path → sv_files (ssee k1) !! p = sv_files (ssee k) !! p)) as (k1 & r1 & E1 & Hp1 & Hc1 & Hf1).
  { unfold mbnd, mtry. pose proof (os_Remove_spec path k) as Hs.
    destruct (os_Remove path k) as [k1 [[]|e|x]]; [| |done].
    - eexists _, _. split; [done|]. split; [done|]. rewrite Hs. split; [done|]. intros p Hp. simpl.
      by rewrite lookup_delete_ne.
    - destruct Hs as [Hs _]. destruct (errors_Is e ErrNotExist);
        (eexists _, _; split; [done|]; by rewrite Hs). }
  unfold mbnd at 1 in E. rewrite E1 in E. destruct r1 as [[]|e1|x1]; [| |by destruct (Hp1 x1)].
  2:{ injection E as <- <-. split; [done|]. split; [done|]. by split. }
  unfold mbnd at 1, wrapping at 1, mres in E.
  destruct (ResolveUnixAddr path) as [la|e|x] eqn:Er; [| |by apply ResolveUnixAddr_total in Er].
  2:{ injection E as <- <-. split; [done|]. split; [done|]. by split. }
  apply ResolveUnixAddr_spec in Er as ->.
  unfold mbnd at 1, wrapping at 1 in E. pose proof (ListenUnixgram_spec path k1) as Hs.
  destruct (ListenUnixgram path k1) as [k2 [c|e|x]]; [| |done].
  2:{ injection E as <- <-. rewrite Hs. split; [done|]. split; [done|]. by split. }
  destruct Hs as (_ & Hc & mode & Hv2). rewrite Hc1 in Hc, Hv2.
  unfold mbnd at 1, mtry at 1 in E. pose proof (os_Chmod_spec path socketMode k2) as Hs.
  destruct (os_Chmod path socketMode k2) as [k3 [[]|e|x]]; [| |done].
  - injection E as <- <-. destruct Hs as (old & o & Ho & Hv3). rewrite Hv2 in Ho, Hv3. simpl in Ho, Hv3.
    rewrite lookup_insert_eq in Ho. injection Ho as <- <-.
    split; [done|]. split; [|split; [done|]].
    + intros c' [= <-]. rewrite Hv3. simpl. by rewrite lookup_insert_eq.
    + intros p Hp. rewrite Hv3. simpl. rewrite !lookup_insert_ne by done. by apply Hf1.
  - unfold mbnd, mtry in E. destruct (CloseConn_spec c k3) as [Hv4 Hp4].
    assert (E' : (fst (CloseConn c k3), @Err Conn (EWrap ("pamsock: chmod " +:+ path +:+ ": ") e)) = (k', r)).
    { destruct (CloseConn c k3) as [k4 [[]|e4|x4]]; [done|done|by destruct (Hp4 x4)]. }
    injection E' as <- <-. rewrite Hv4, Hs, Hv2. simpl. rewrite delete_insert_id by done.
    split; [done|]. split; [done|]. split; [done|]. intros p Hp. rewrite lookup_insert_ne by done. by apply Hf1.
Qed.

(** * Properties *)

(** C39: what the PAM module writes is what the agent reads, through both buffers of
    8192 bytes.  For a session id, account and remote host without tabs that fit into
    the line with a dash as auth info, and any 64-bit cgroup id, the datagram of an
    OPEN, cut to the agent's buffer and parsed, gives back exactly those values, a
    dash read as empty; the auth info (tabs and line breaks included) comes back whole
    when the line fits the sender's buffer and as absent when it does not, never cut.
    A CLOSE line that fits comes back too. *)
Theorem pam_line_roundtrip sid cgid user rhost auth :
  is_u64 cgid → str_mem TAB sid = false → str_mem TAB user = false → str_mem TAB rhost = false →
  (Z.of_nat (String.length (open_text sid cgid user rhost "-")) < 8192 →
   parse (String.substring 0 BUF (wr_open sid cgid user rhost auth)) =
     Ok (mkRequest "OPEN" (orEmpty sid) cgid (orEmpty user) (orEmpty rhost)
           (if Z.of_nat (String.length (open_text sid cgid user rhost auth)) <? 8192
            then orEmpty auth else ""))) ∧
  (Z.of_nat (String.length (close_text sid cgid)) < 8192 →
   parse (String.substring 0 BUF (wr_close sid cgid)) = Ok (mkRequest "CLOSE" (orEmpty sid) cgid "" "" "")).
Proof.
  intros Hc Hs Hu Hr. split; intros Hfit.
  - rewrite wr_open_line by done.
    destruct (Z.ltb_spec (Z.of_nat (String.length (open_text sid cgid user rhost auth))) 8192).
    + rewrite substring_BUF by lia. by apply parse_open_text.
    + rewrite substring_BUF by lia. by rewrite parse_open_text.
  - rewrite wr_close_line, substring_BUF by lia. by apply parse_close_text.
Qed.
Definition demo_auth : string := "publickey ssh-ed25519 AAAA" +:+ String LF "password".
Lemma pam_line_roundtrip_witness :
  parse (String.substring 0 BUF (wr_open "c1" 4242 "alice" "-" demo_auth)) =
  Ok (mkRequest "OPEN" "c1" 4242 "alice" "" demo_auth).
Proof.
  destruct (pam_line_roundtrip "c1" 4242 "alice" "-" demo_auth) as [Ho _]; [unfold_widths; lia|done|done|done|].
  rewrite Ho by (vm_compute; reflexivity). reflexivity.
Defined.

(** A parsed request is one of the two operations, with a 64-bit cgroup id;
    everything else is refused with an error and leaves the state alone. *)
Theorem parse_sound b r :
  parse b = Ok r → (Op r = "OPEN" ∨ Op r = "CLOSE") ∧ is_u64 (CgroupID r).
Proof.
  unfold parse. destruct (Cut _ TAB) as [[op rest]|]; [|done].
  case_bool_decide as Ho.
  { destruct (SplitN rest TAB 5) as [|f0 [|f1 [|f2 [|f3 [|f4 [|]]]]]]; try done.
    destruct (parseCgroupID f1) as [z|e|p] eqn:Ez; [|done|done].
    intros [= <-]. simpl. split; [by left|]. by eapply parse_cgroup_u64. }
  case_bool_decide as Hc; [|done].
  destruct (Split rest TAB) as [|f0 [|f1 [|]]]; try done.
  destruct (parseCgroupID f1) as [z|e|p] eqn:Ez; [|done|done].
  intros [= <-]. simpl. split; [by right|]. by eapply parse_cgroup_u64.
Qed.
