(* ===== verification/Ringbuf.v ===== *)
(** Package [ringbuf] (agent/internal/ringbuf): decoding the kernel's event
    records, the payloads of each hook, the detection of lost records, and the
    names of the codes. *)

From Stdlib Require Import ZArith Lia Ascii String.
From stdpp Require Import base tactics numbers list strings gmap.
From S2P Require Import Prelude GoStd GoNet.

(** * Little-endian structs

    [encoding/binary] reads a struct field by field, without padding. *)

Fixpoint le_dec (bs : list Z) : Z :=
  match bs with
  | [] => 0
  | b :: rest => b + 256 * le_dec rest
  end.
Fixpoint le_enc (n : nat) (z : Z) : list Z :=
  match n with
  | O => []
  | S n' => z mod 256 :: le_enc n' (z / 256)
  end.

Fixpoint decode_fields (sizes : list nat) (raw : list Z) : list Z :=
  match sizes with
  | [] => []
  | n :: rest => le_dec (take n raw) :: decode_fields rest (drop n raw)
  end.
Fixpoint encode_fields (sizes : list nat) (vals : list Z) : list Z :=
  match sizes, vals with
  | n :: sizes', v :: vals' => le_enc n v ++ encode_fields sizes' vals'
  | _, _ => []
  end.

(** [binary.Size] of a struct of such fields. *)
Definition binary_Size (sizes : list nat) : nat := sum_list sizes.

(** ** The layouts (layout.go), blank fields included *)

(** [evtHeader] up to [Comm]. *)
Definition evtHeader_layout : list nat :=
  [8; 8; 8; 4; 4; 4; 2; 1; 1; 1; 1; 2; 4; (* proc *) 8; 8; 4; 4; 4; 4; 4; 4; 4; 4]%nat.
Definition commSize : nat := 16.
Definition fileRef_layout : list nat := [4; 4; 8]%nat.
Definition plExec_layout : list nat := (fileRef_layout ++ [4; 4; 4; 4])%nat.
Definition plWrite_layout : list nat := (fileRef_layout ++ fileRef_layout ++ [4; 4])%nat.
Definition plInode_layout : list nat := (fileRef_layout ++ fileRef_layout ++ [1; 7])%nat.
(** [plConnect] up to [Addr], and the 16 address bytes. *)
Definition plConnect_layout : list nat := [1; 1; 2; 4]%nat.
Definition addrSize : nat := 16.
Definition plFork_layout : list nat := [4; 4; 8]%nat.

Definition headerSize : nat := binary_Size evtHeader_layout + commSize.

Definition HookSchedProcessFork : Z := 1.
Definition HookBprmCheckSecurity : Z := 2.
Definition HookSocketConnect : Z := 3.
Definition HookFileOpen : Z := 4.
Definition HookInodeCreate : Z := 5.
Definition HookInodeUnlink : Z := 6.
Definition HookInodeRename : Z := 7.
Definition HookInodeLink : Z := 8.
Definition HookInodeSymlink : Z := 9.
Definition HookBPF : Z := 10.
Definition HookTaskKill : Z := 11.
Definition HookSbUmount : Z := 12.
Definition HookPtraceAccessCheck : Z := 13.
Definition HookKernelModuleReq : Z := 14.
Definition HookSocketSendmsg : Z := 15.

(** * Records *)

Record Process := mkProcess {
  PID : Z; TGID : Z; PPID : Z; UID : Z; EUID : Z; GID : Z; PIDNsInum : Z;
  StartTimeNs : Z; p_CgroupID : Z; Comm : string
}.

Record Record_ := mkRecord {
  CPU : Z; CPUSeq : Z; Hook : Z; Verdict : Z; r_Mode : Z; Origin : Z; TagSource : Z;
  BootTsNs : Z; WarrantID : Z; r_SubjectID : Z; r_PolicyID : Z;
  Proc : Process; PayloadRaw : list Z
}.

(** [cstr]: the bytes before the first NUL. *)
Fixpoint cstr (b : list Z) : string :=
  match b with
  | [] => ""
  | x :: rest => if x =? 0 then "" else String (byte_of_Z x) (cstr rest)
  end.

Definition decode (raw : list Z) : res Record_ :=
  if (length raw <? headerSize)%nat then
    Err (EMsg ("레코드가 " +:+ fmt_u (Z.of_nat (length raw)) +:+ "바이트뿐이다"))
  else
    match decode_fields evtHeader_layout raw with
    | [seq; boot; wid; cpu; subj; pol; hook; verdict; mode; origin; tag; plen; _;
       start; cg; pid; tgid; ppid; uid; euid; gid; ns; _] =>
        let comm := take commSize (drop (binary_Size evtHeader_layout) raw) in
        let end_ := (headerSize + Z.to_nat plen)%nat in
        if (length raw <? end_)%nat then
          Err (EMsg ("payload_len=" +:+ fmt_u plen +:+ " 인데 레코드는 " +:+
                     fmt_u (Z.of_nat (length raw)) +:+ "바이트다"))
        else
          Ok (mkRecord cpu seq hook verdict mode origin tag boot wid subj pol
                (mkProcess pid tgid ppid uid euid gid ns start cg (cstr comm))
                (take (Z.to_nat plen) (drop headerSize raw)))
    | _ => Panic "binary.Read"
    end.

(** ** Payloads *)

Record rFileRef := mkRFileRef { f_Dev : Z; f_Ino : Z }.
Record ExecPayload := mkExecPayload { xp_File : rFileRef; IMode : Z; NewUID : Z; NewEUID : Z }.
Record WritePayload := mkWritePayload { wp_File : rFileRef; wp_Parent : rFileRef; FFlags : Z }.
Record InodePayload := mkInodePayload { ip_Dir : rFileRef; ip_Target : rFileRef; ip_Op : Z }.
Record ConnectPayload := mkConnectPayload {
  Family : Z; cp_Proto : Z; cp_Port : Z; cp_Addr : option Addr; UnixPath : string
}.
Record UDPSendPayload := mkUDPSendPayload { Destination : ConnectPayload; ud_Size : Z }.
Record ForkPayload := mkForkPayload { ParentTGID : Z; ChildTGID : Z; ChildCgroupID : Z }.

(** [unpack] into fields followed by [tail] bytes. *)
Definition unpack (raw : list Z) (sizes : list nat) (tail : nat) : option (list Z) :=
  if (length raw <? binary_Size sizes + tail)%nat then None else Some (decode_fields sizes raw).

Definition Exec (r : Record_) : option ExecPayload :=
  if negb (Hook r =? HookBprmCheckSecurity) then None
  else match unpack (PayloadRaw r) plExec_layout 0 with
       | Some [dev; _; ino; imode; nuid; neuid; _] =>
           Some (mkExecPayload (mkRFileRef dev ino) imode nuid neuid)
       | _ => None
       end.

Definition Write (r : Record_) : option WritePayload :=
  if negb (Hook r =? HookFileOpen) then None
  else match unpack (PayloadRaw r) plWrite_layout 0 with
       | Some [dev; _; ino; pdev; _; pino; flags; _] =>
           Some (mkWritePayload (mkRFileRef dev ino) (mkRFileRef pdev pino) flags)
       | _ => None
       end.

Definition is_inode_hook (h : Z) : bool :=
  bool_decide (h ∈ [HookInodeCreate; HookInodeUnlink; HookInodeRename; HookInodeLink; HookInodeSymlink]).
Definition Inode (r : Record_) : option InodePayload :=
  if negb (is_inode_hook (Hook r)) then None
  else match unpack (PayloadRaw r) plInode_layout 0 with
       | Some [dev; _; ino; tdev; _; tino; op; _] =>
           Some (mkInodePayload (mkRFileRef dev ino) (mkRFileRef tdev tino) op)
       | _ => None
       end.

(** [Connect]: the address bytes follow the fields. *)
Definition Connect (r : Record_) : option ConnectPayload :=
  if negb (Hook r =? HookSocketConnect) && negb (Hook r =? HookSocketSendmsg) then None
  else match unpack (PayloadRaw r) plConnect_layout addrSize with
       | Some [family; proto; port; _] =>
           let addr := take addrSize (drop (binary_Size plConnect_layout) (PayloadRaw r)) in
           if family =? 1 then Some (mkConnectPayload family proto port None (cstr addr))
           else if (family =? 2) || (family =? 10) then
             let a := AddrFrom16 addr in
             let a := if Is4In6 a then Unmap a else a in
             Some (mkConnectPayload family proto port (Some a) "")
           else Some (mkConnectPayload family proto port None "")
       | _ => None
       end.

(** [UDPSend]: the size follows the destination. *)
Definition UDPSend (r : Record_) : option UDPSendPayload :=
  if negb (Hook r =? HookSocketSendmsg) then None
  else match unpack (PayloadRaw r) plConnect_layout (addrSize + 8) with
       | Some _ =>
           let size := le_dec (take 8 (drop (binary_Size plConnect_layout + addrSize) (PayloadRaw r))) in
           match Connect r with
           | Some dst => Some (mkUDPSendPayload dst size)
           | None => None
           end
       | None => None
       end.

Definition Fork (r : Record_) : option ForkPayload :=
  if negb (Hook r =? HookSchedProcessFork) then None
  else match unpack (PayloadRaw r) plFork_layout 0 with
       | Some [p; c; cg] => Some (mkForkPayload p c cg)
       | _ => None
       end.

(** * Lost records *)

Record Gap := mkGap { FromBootNs : Z; ToBootNs : Z; DroppedCount : Z; Known : bool; Cause : string }.

(** [Consumer]: the counters under its lock, and the gaps handed to [onGap]. *)
Record Consumer := mkConsumer {
  dropped : Z;
  next : gmap Z Z;
  lastTs : gmap Z Z;
  hasOnGap : bool;
  reported : list Gap
}.
Definition newConsumer (onGap : bool) : Consumer := mkConsumer 0 ∅ ∅ onGap [].

Definition checkGap (r : Record_) (c : Consumer) : Consumer :=
  let want := next c !! CPU r in
  let from := default 0 (lastTs c !! CPU r) in
  let c1 := mkConsumer (dropped c) (<[CPU r := u64 (CPUSeq r + 1)]> (next c))
                       (<[CPU r := BootTsNs r]> (lastTs c)) (hasOnGap c) (reported c) in
  match want with
  | None => c1
  | Some w =>
      if CPUSeq r <? w then c1
      else
        let missing := CPUSeq r - w in
        if missing =? 0 then c1
        else mkConsumer (u64 (dropped c1 + missing)) (next c1) (lastTs c1) (hasOnGap c1)
               (if hasOnGap c1
                then reported c1 ++ [mkGap from (BootTsNs r) missing true "CPU_SEQ_SKIP"]
                else reported c1)
  end.

(** One sample of [Run]: the consumer after, and what the handler gets. *)
Definition run_one (st : Consumer * list Record_) (raw : list Z) : Consumer * list Record_ :=
  let '(c, out) := st in
  match decode raw with
  | Ok r => (checkGap r c, out ++ [r])
  | _ => (mkConsumer (u64 (dropped c + 1)) (next c) (lastTs c) (hasOnGap c) (reported c), out)
  end.
Definition Run (samples : list (list Z)) (c : Consumer) : Consumer * list Record_ :=
  foldl run_one (c, []) samples.
Definition DroppedTotal (c : Consumer) : Z := dropped c.

(** * Names *)

Definition HookName (h : Z) : string :=
  if h =? HookSchedProcessFork then "FORK"
  else if h =? HookBprmCheckSecurity then "EXEC"
  else if h =? HookSocketConnect then "CONNECT"
  else if h =? HookFileOpen then "WRITE"
  else if h =? HookInodeCreate then "CREATE"
  else if h =? HookInodeUnlink then "UNLINK"
  else if h =? HookInodeRename then "RENAME"
  else if h =? HookInodeLink then "LINK"
  else if h =? HookInodeSymlink then "SYMLINK"
  else if h =? HookBPF then "SP:BPF"
  else if h =? HookTaskKill then "SP:KILL"
  else if h =? HookSbUmount then "SP:UMOUNT"
  else if h =? HookPtraceAccessCheck then "SP:PTRACE"
  else if h =? HookKernelModuleReq then "SP:MODULE"
  else if h =? HookSocketSendmsg then "SENDMSG"
  else "HOOK?".

Definition VerdictName (verdict mode : Z) : string :=
  if verdict =? 0 then "ALLOW"
  else if verdict =? 1 then "DENY"
  else if verdict =? 2 then if mode =? 0 then "OBSERVE" else "DRY-DENY"
  else "?".

Definition TagSourceName (t : Z) : string :=
  if t =? 0 then "-" else if t =? 1 then "cg" else if t =? 2 then "task" else "?".

Definition OriginName (o : Z) : string :=
  if o =? 1 then "lsm" else if o =? 2 then "kprobe" else if o =? 3 then "agent" else "?".

Definition OpName (op : Z) : string :=
  if op =? 1 then "create" else if op =? 2 then "unlink" else if op =? 3 then "rename"
  else if op =? 4 then "link" else if op =? 5 then "symlink" else "?".

(** * Lemmas *)

Lemma length_le_enc n z : length (le_enc n z) = n.
Proof. revert z. induction n as [|n IH]; intros z; simpl; [done|]. by rewrite IH. Qed.

Lemma le_dec_enc n z : 0 <= z < 256 ^ Z.of_nat n → le_dec (le_enc n z) = z.
Proof.
  revert z. induction n as [|n IH]; intros z Hz; cbn [le_enc le_dec]; [simpl in Hz; lia|].
  rewrite Nat2Z.inj_succ, Z.pow_succ_r in Hz by lia.
  rewrite IH; [pose proof (Z.div_mod z 256); lia|].
  split; [apply Z.div_pos; lia|apply Z.div_lt_upper_bound; lia].
Qed.

(** Every value fits its field. *)
Definition fits (n : nat) (v : Z) : Prop := 0 <= v < 256 ^ Z.of_nat n.

Lemma decode_encode_fields sizes vals rest :
  Forall2 fits sizes vals → decode_fields sizes (encode_fields sizes vals ++ rest) = vals.
Proof.
  induction 1 as [|n v sizes vals Hf _ IH]; simpl; [done|].
  rewrite <- app_assoc.
  rewrite take_app_length' by (by rewrite length_le_enc).
  rewrite drop_app_length' by (by rewrite length_le_enc).
  by rewrite le_dec_enc, IH.
Qed.
Lemma length_encode_fields sizes vals :
  length sizes = length vals → length (encode_fields sizes vals) = binary_Size sizes.
Proof.
  revert vals. induction sizes as [|n sizes IH]; intros [|v vals] Hl; simpl in *; try done.
  rewrite length_app, length_le_enc, IH by lia. done.
Qed.

Lemma unpack_encode sizes vals more tail :
  Forall2 fits sizes vals → (tail <= length more)%nat →
  unpack (encode_fields sizes vals ++ more) sizes tail = Some vals.
Proof.
  intros Hf Ht. unfold unpack.
  rewrite length_app, length_encode_fields by (by eapply Forall2_length).
  destruct (Nat.ltb_spec (binary_Size sizes + length more) (binary_Size sizes + tail)); [lia|].
  by rewrite decode_encode_fields.
Qed.

(** ** What the kernel writes *)

(** A record as bpf/warrant.bpf.h lays it out: the header with its padding, the
    16 bytes of the command name, the payload. *)
Definition header_fields (r : Record_) (pad1 pad2 : Z) : list Z :=
  let p := Proc r in
  [CPUSeq r; BootTsNs r; WarrantID r; CPU r; r_SubjectID r; r_PolicyID r; Hook r; Verdict r;
   r_Mode r; Origin r; TagSource r; Z.of_nat (length (PayloadRaw r)); pad1;
   StartTimeNs p; p_CgroupID p; PID p; TGID p; PPID p; UID p; EUID p; GID p; PIDNsInum p; pad2].
Definition encode_event (r : Record_) (comm : list Z) (pad1 pad2 : Z) : list Z :=
  encode_fields evtHeader_layout (header_fields r pad1 pad2) ++ comm ++ PayloadRaw r.

(** ** Losses *)

(** The last record before on the same CPU. *)
Definition prev_on (rs : list Record_) (cpu : Z) : option Record_ :=
  find_last (λ p, CPU p =? cpu) rs.
(** The gap between two consecutive records of a CPU, if numbers are missing. *)
Definition skip_between (p r : Record_) : option Gap :=
  if CPUSeq p + 1 <? CPUSeq r
  then Some (mkGap (BootTsNs p) (BootTsNs r) (CPUSeq r - (CPUSeq p + 1)) true "CPU_SEQ_SKIP")
  else None.
(** The gaps of a stream: one for each record that skips numbers on its CPU. *)
Fixpoint gaps_after (before rs : list Record_) : list Gap :=
  match rs with
  | [] => []
  | r :: rest =>
      match (prev_on before (CPU r)) ≫= (λ p, skip_between p r) with
      | Some g => [g]
      | None => []
      end ++ gaps_after (before ++ [r]) rest
  end.
Definition gaps_of (rs : list Record_) : list Gap := gaps_after [] rs.
Definition lost_total (gs : list Gap) : Z := foldr (λ g n, DroppedCount g + n) 0 gs.

Lemma gaps_after_snoc before rs r :
  gaps_after before (rs ++ [r]) =
  gaps_after before rs ++
  match prev_on (before ++ rs) (CPU r) ≫= (λ p, skip_between p r) with
  | Some g => [g]
  | None => []
  end.
Proof.
  revert before. induction rs as [|x rs IH]; intros before; simpl.
  - by rewrite !app_nil_r.
  - rewrite IH, <- !app_assoc. done.
Qed.
Lemma gaps_of_snoc rs r :
  gaps_of (rs ++ [r]) =
  gaps_of rs ++ match prev_on rs (CPU r) ≫= (λ p, skip_between p r) with
                | Some g => [g]
                | None => []
                end.
Proof. apply gaps_after_snoc. Qed.
Lemma lost_total_app g1 g2 : lost_total (g1 ++ g2) = lost_total g1 + lost_total g2.
Proof.
  unfold lost_total. rewrite foldr_app. induction g1 as [|g g1 IH]; simpl; [done|]. lia.
Qed.

Definition seq_ok (r : Record_) : Prop := 0 <= CPUSeq r < 2 ^ 64 - 1.

(** The consumer after the records [rs], having found [bad] broken samples. *)
Record consumer_inv (rs : list Record_) (bad : Z) (c : Consumer) : Prop := {
  ci_next : ∀ cpu, next c !! cpu = (λ p, CPUSeq p + 1) <$> prev_on rs cpu;
  ci_last : ∀ cpu, lastTs c !! cpu = BootTsNs <$> prev_on rs cpu;
  ci_gaps : reported c = gaps_of rs;
  ci_dropped : dropped c = u64 (lost_total (gaps_of rs) + bad);
  ci_on : hasOnGap c = true
}.

Lemma prev_on_snoc rs r cpu :
  prev_on (rs ++ [r]) cpu = if CPU r =? cpu then Some r else prev_on rs cpu.
Proof. unfold prev_on. by rewrite find_last_snoc. Qed.

Lemma u64_add_l a b : u64 (u64 a + b) = u64 (a + b).
Proof. unfold u64. by rewrite Zplus_mod_idemp_l. Qed.

Lemma checkGap_inv rs bad r c :
  seq_ok r → consumer_inv rs bad c → consumer_inv (rs ++ [r]) bad (checkGap r c).
Proof.
  intros Hr [Hn Hl Hg Hd Ho].
  assert (u64 (CPUSeq r + 1) = CPUSeq r + 1) as Hu
    by (apply u64_small; unfold seq_ok in Hr; unfold_widths; lia).
  assert (∀ cpu, (<[CPU r := u64 (CPUSeq r + 1)]> (next c)) !! cpu =
                 (λ p, CPUSeq p + 1) <$> prev_on (rs ++ [r]) cpu) as Hn'.
  { intros cpu. rewrite prev_on_snoc, Hu. destruct (Z.eqb_spec (CPU r) cpu) as [<-|Hne].
    - by rewrite lookup_insert_eq.
    - by rewrite lookup_insert_ne. }
  assert (∀ cpu, (<[CPU r := BootTsNs r]> (lastTs c)) !! cpu = BootTsNs <$> prev_on (rs ++ [r]) cpu) as Hl'.
  { intros cpu. rewrite prev_on_snoc. destruct (Z.eqb_spec (CPU r) cpu) as [<-|Hne].
    - by rewrite lookup_insert_eq.
    - by rewrite lookup_insert_ne. }
  unfold checkGap. rewrite Hn, Hl. pose proof (gaps_of_snoc rs r) as Hgs.
  destruct (prev_on rs (CPU r)) as [p|] eqn:Ep; simpl in *.
  2:{ rewrite app_nil_r in Hgs. split; simpl; rewrite ?Hgs; done. }
  unfold skip_between in Hgs.
  destruct (Z.ltb_spec (CPUSeq r) (CPUSeq p + 1)) as [Hlt|Hge].
  { rewrite (proj2 (Z.ltb_ge _ _)), app_nil_r in Hgs by lia. split; simpl; rewrite ?Hgs; done. }
  destruct (Z.eqb_spec (CPUSeq r - (CPUSeq p + 1)) 0) as [Hz|Hnz].
  { rewrite (proj2 (Z.ltb_ge _ _)), app_nil_r in Hgs by lia. split; simpl; rewrite ?Hgs; done. }
  rewrite (proj2 (Z.ltb_lt _ _)) in Hgs by lia.
  split; simpl; [done|done| | |done]; rewrite Hgs.
  - by rewrite Ho, Hg.
  - rewrite lost_total_app, Hd, u64_add_l. simpl. f_equal. lia.
Qed.

Definition decoded (raw : list Z) : option Record_ := match decode raw with Ok r => Some r | _ => None end.
(** The number of samples that do not decode. *)
Definition broken (samples : list (list Z)) : Z :=
  Z.of_nat (length (List.filter (λ s, match decoded s with Some _ => false | None => true end) samples)).

Lemma Run_snoc samples raw c : Run (samples ++ [raw]) c = run_one (Run samples c) raw.
Proof. unfold Run. by rewrite foldl_app. Qed.
Lemma broken_snoc samples raw :
  broken (samples ++ [raw]) = broken samples + match decoded raw with Some _ => 0 | None => 1 end.
Proof.
  unfold broken. rewrite List.filter_app, length_app. simpl. destruct (decoded raw); simpl; lia.
Qed.

Lemma Run_inv samples :
  Forall seq_ok (omap decoded samples) →
  snd (Run samples (newConsumer true)) = omap decoded samples ∧
  consumer_inv (omap decoded samples) (broken samples) (fst (Run samples (newConsumer true))).
Proof.
  induction samples as [|raw samples IH] using rev_ind.
  - intros _. split; [done|]. split; [| |done|done|done]; intros cpu; apply lookup_empty.
  - rewrite omap_app, Forall_app, Run_snoc, broken_snoc. intros [H1 H2].
    destruct (IH H1) as [Hout Hinv]. cbn [omap list_omap] in *.
    destruct (Run samples (newConsumer true)) as [c out]. cbn [fst snd] in *. subst out.
    assert (∀ x, decode raw = x → decoded raw = match x with Ok r => Some r | _ => None end) as Hd
      by (intros x <-; done).
    unfold run_one. destruct (decode raw) as [r|e|p] eqn:Er; rewrite (Hd _ eq_refl) in *;
      cbn [fst snd] in *.
    + rewrite Forall_singleton in H2. split; [done|]. rewrite Z.add_0_r. apply checkGap_inv; [done|exact Hinv].
    + rewrite app_nil_r. split; [done|]. destruct Hinv as [Hn Hl Hg Hdr Ho].
      split; simpl; [done|done|done| |done]. rewrite Hdr, u64_add_l. f_equal. lia.
    + rewrite app_nil_r. split; [done|]. destruct Hinv as [Hn Hl Hg Hdr Ho].
      split; simpl; [done|done|done| |done]. rewrite Hdr, u64_add_l. f_equal. lia.
Qed.

(** On one CPU with growing numbers the gaps add up to what is missing. *)
Lemma lost_total_increasing rs r0 :
  (∀ r, r ∈ r0 :: rs → CPU r = CPU r0) →
  (∀ i a b, (r0 :: rs) !! i = Some a → (r0 :: rs) !! S i = Some b → CPUSeq a < CPUSeq b) →
  ∃ rl, last (r0 :: rs) = Some rl ∧ prev_on (r0 :: rs) (CPU r0) = Some rl ∧
        lost_total (gaps_of (r0 :: rs)) = CPUSeq rl - CPUSeq r0 - Z.of_nat (length rs).
Proof.
  induction rs as [|r rs IH] using rev_ind; intros Hc Hi.
  { exists r0. split; [done|]. unfold prev_on, find_last. simpl. rewrite Z.eqb_refl.
    split; [done|]. unfold gaps_of. simpl. lia. }
  destruct IH as (rl & Hl & Hp & Ht).
  { intros x Hx. apply Hc. set_solver. }
  { intros i a b Ha Hb. apply (Hi i); rewrite app_comm_cons; by apply lookup_app_l_Some. }
  assert (CPU r = CPU r0) as Hcr by (apply Hc; set_solver).
  assert (CPUSeq rl < CPUSeq r) as Hlt.
  { rewrite last_lookup in Hl. apply (Hi (length rs)); rewrite app_comm_cons.
    - by apply lookup_app_l_Some.
    - rewrite lookup_app_r by (simpl; lia). simpl. by rewrite Nat.sub_diag. }
  exists r. rewrite app_comm_cons. split; [by rewrite last_snoc|].
  split; [by rewrite prev_on_snoc, Hcr, Z.eqb_refl|].
  rewrite gaps_of_snoc, lost_total_app, Ht, Hcr, Hp, length_app. simpl. unfold skip_between.
  destruct (Z.ltb_spec (CPUSeq rl + 1) (CPUSeq r)); simpl; lia.
Qed.

(** The fields of a record are of the widths the header has. *)
Definition record_fits (r : Record_) (pad1 pad2 : Z) : Prop :=
  Forall2 fits evtHeader_layout (header_fields r pad1 pad2).

(** A record and what follows it decode to the record. *)
Lemma decode_event r comm pad1 pad2 rest :
  record_fits r pad1 pad2 → length comm = commSize → cstr comm = Comm (Proc r) →
  decode (encode_event r comm pad1 pad2 ++ rest) = Ok r.
Proof.
  intros Hf Hc Hs. unfold encode_event. rewrite <- !app_assoc.
  set (hdr := encode_fields _ _). set (raw := hdr ++ _).
  assert (length hdr = binary_Size evtHeader_layout) as Hh by (by apply length_encode_fields).
  assert (length raw = (headerSize + length (PayloadRaw r) + length rest)%nat) as Hlen.
  { unfold raw. rewrite !length_app, Hh, Hc. unfold headerSize. lia. }
  assert (decode_fields evtHeader_layout raw = header_fields r pad1 pad2) as Hd
    by (by apply decode_encode_fields).
  assert (take commSize (drop (binary_Size evtHeader_layout) raw) = comm) as Hcomm.
  { unfold raw. rewrite drop_app_length' by done. by rewrite take_app_length'. }
  assert (drop headerSize raw = PayloadRaw r ++ rest) as Hpay.
  { unfold raw, headerSize. rewrite app_assoc, drop_app_length'; [done|].
    by rewrite length_app, Hh, Hc. }
  unfold decode. destruct (Nat.ltb_spec (length raw) headerSize); [lia|].
  rewrite Hd, Hcomm, Hpay. unfold header_fields. cbv zeta.
  rewrite Nat2Z.id. destruct (Nat.ltb_spec (length raw) (headerSize + length (PayloadRaw r))); [lia|].
  rewrite take_app_length, Hs. by destruct r as [? ? ? ? ? ? ? ? ? ? ? []].
Qed.

(** * Properties *)

(** A record arrives as the kernel wrote it.  Decoding the bytes of a record
    whose fields fit their widths gives back every field, the command name up to
    its first NUL and exactly the payload, whatever the padding holds and
    whatever follows the record. *)
Theorem decode_encode_event r comm pad1 pad2 rest :
  record_fits r pad1 pad2 → length comm = commSize → cstr comm = Comm (Proc r) →
  decode (encode_event r comm pad1 pad2 ++ rest) = Ok r.
Proof. apply decode_event. Qed.
Definition demo_record : Record_ :=
  mkRecord 1 7 HookBprmCheckSecurity 2 0 1 1 5000 9 3 7
    (mkProcess 10 10 1 1000 1000 1000 42 4000 77 "sh")
    (encode_fields plExec_layout [8388609; 0; 101; 33261; 1000; 1000; 0]).
Lemma decode_encode_event_witness :
  decode (encode_event demo_record ([115; 104] ++ zeros 14) 1 2 ++ [9; 9]) = Ok demo_record.
Proof.
  apply decode_encode_event; [|reflexivity|reflexivity].
  repeat (constructor; [vm_compute; split; [discriminate|reflexivity]|]). constructor.
Defined.

(** Payloads are read back by hook.  The exec, write, inode and fork
    payloads of a record give back the fields the kernel wrote, for any bytes
    after them, and for IPv4 the destination of a connect record is the IPv4
    address itself, not its mapped form; on any other hook there is no payload
    of that kind. *)
Theorem payloads_roundtrip r rest :
  (∀ dev p0 ino mode uid euid p1,
     Forall2 fits plExec_layout [dev; p0; ino; mode; uid; euid; p1] →
     PayloadRaw r = encode_fields plExec_layout [dev; p0; ino; mode; uid; euid; p1] ++ rest →
     Exec r = if Hook r =? HookBprmCheckSecurity
              then Some (mkExecPayload (mkRFileRef dev ino) mode uid euid) else None) ∧
  (∀ dev p0 ino pdev p1 pino fl p2,
     Forall2 fits plWrite_layout [dev; p0; ino; pdev; p1; pino; fl; p2] →
     PayloadRaw r = encode_fields plWrite_layout [dev; p0; ino; pdev; p1; pino; fl; p2] ++ rest →
     Write r = if Hook r =? HookFileOpen
               then Some (mkWritePayload (mkRFileRef dev ino) (mkRFileRef pdev pino) fl) else None) ∧
  (∀ dev p0 ino tdev p1 tino op p2,
     Forall2 fits plInode_layout [dev; p0; ino; tdev; p1; tino; op; p2] →
     PayloadRaw r = encode_fields plInode_layout [dev; p0; ino; tdev; p1; tino; op; p2] ++ rest →
     Inode r = if is_inode_hook (Hook r)
               then Some (mkInodePayload (mkRFileRef dev ino) (mkRFileRef tdev tino) op) else None) ∧
  (∀ p c cg, Forall2 fits plFork_layout [p; c; cg] →
     PayloadRaw r = encode_fields plFork_layout [p; c; cg] ++ rest →
     Fork r = if Hook r =? HookSchedProcessFork then Some (mkForkPayload p c cg) else None) ∧
  (∀ proto port p0 ip4, Forall2 fits plConnect_layout [2; proto; port; p0] → length ip4 = 4%nat →
     Hook r = HookSocketConnect →
     PayloadRaw r = encode_fields plConnect_layout [2; proto; port; p0] ++ (v4InV6Prefix ++ ip4) ++ rest →
     Connect r = Some (mkConnectPayload 2 proto port (Some (mkAddr (v4InV6Prefix ++ ip4) true "")) "")).
Proof.
  pose proof unpack_encode as Hun.
  split; [|split; [|split; [|split]]].
  - intros * Hf Hp. unfold Exec. rewrite Hp, (Hun _ _ _ 0%nat Hf) by lia. by destruct (_ =? _).
  - intros * Hf Hp. unfold Write. rewrite Hp, (Hun _ _ _ 0%nat Hf) by lia. by destruct (_ =? _).
  - intros * Hf Hp. unfold Inode. rewrite Hp, (Hun _ _ _ 0%nat Hf) by lia. by destruct (is_inode_hook _).
  - intros * Hf Hp. unfold Fork. rewrite Hp, (Hun _ _ _ 0%nat Hf) by lia. by destruct (_ =? _).
  - intros * Hf Hl Hh Hp. unfold Connect. rewrite Hh, Hp.
    rewrite (Hun _ _ _ addrSize Hf) by (rewrite !length_app, Hl; unfold addrSize; simpl; lia).
    rewrite drop_app_length' by (by rewrite length_encode_fields).
    rewrite take_app_length' by (by rewrite length_app, Hl). simpl.
    unfold Is4In6, Unmap, AddrFrom16, Is4In6. simpl.
    rewrite ?bool_decide_true by done. done.
Qed.

(** Every loss the numbering shows is reported, and nothing else.  With a gap
    callback set and sequence numbers below the top of their range, the handler
    gets exactly the samples that decode, in order; the reported gaps are
    exactly the skips between consecutive records of the same CPU, each with the
    times of the two records around it; and the total counts those skips plus
    the broken samples. *)
Theorem run_reports_every_skip samples :
  Forall seq_ok (omap decoded samples) →
  let '(c, out) := Run samples (newConsumer true) in
  out = omap decoded samples ∧ reported c = gaps_of out ∧
  DroppedTotal c = u64 (lost_total (gaps_of out) + broken samples).
Proof.
  intros Hs. destruct (Run_inv samples Hs) as [Hout [_ _ Hg Hd _]].
  destruct (Run samples (newConsumer true)) as [c out]. simpl in *. by subst.
Qed.
Definition demo_sample (seq ts : Z) : list Z :=
  encode_event (mkRecord 0 seq 2 0 0 1 1 ts 9 3 7 (mkProcess 1 1 1 0 0 0 0 0 77 "") []) (zeros 16) 0 0.
Definition demo_samples : list (list Z) := [demo_sample 5 10; [1; 2]; demo_sample 9 30].
Definition demo_out : list Record_ := Eval vm_compute in omap decoded demo_samples.
Lemma run_reports_every_skip_witness :
  reported (fst (Run demo_samples (newConsumer true))) = [mkGap 10 30 3 true "CPU_SEQ_SKIP"].
Proof.
  assert (omap decoded demo_samples = demo_out) as Hd by (vm_compute; reflexivity).
  assert (Forall seq_ok (omap decoded demo_samples)) as Hs.
  { rewrite Hd. repeat constructor; simpl; lia. }
  pose proof (run_reports_every_skip demo_samples Hs) as H.
  destruct (Run demo_samples (newConsumer true)) as [c out].
  destruct H as (Ho & Hg & _). simpl. rewrite Hg, Ho, Hd. vm_compute. reflexivity.
Defined.

(** Nothing is lost unnoticed on a CPU.  For records of one CPU with growing
    numbers the reported losses add up to exactly the numbers missing between
    the first and the last record seen. *)
Theorem losses_add_up r0 rs :
  (∀ r, r ∈ r0 :: rs → CPU r = CPU r0) →
  (∀ i a b, (r0 :: rs) !! i = Some a → (r0 :: rs) !! S i = Some b → CPUSeq a < CPUSeq b) →
  ∃ rl, last (r0 :: rs) = Some rl ∧
        lost_total (gaps_of (r0 :: rs)) = (CPUSeq rl - CPUSeq r0 + 1) - Z.of_nat (length (r0 :: rs)).
Proof.
  intros Hc Hi. destruct (lost_total_increasing rs r0 Hc Hi) as (rl & Hl & _ & Ht).
  exists rl. split; [done|]. rewrite Ht. simpl. lia.
Qed.
Definition seq_record (n : Z) : Record_ :=
  mkRecord 0 n 2 0 0 1 1 n 9 3 7 (mkProcess 1 1 1 0 0 0 0 0 77 "") [].
Lemma losses_add_up_witness :
  ∃ rl, last [seq_record 5; seq_record 9] = Some rl ∧
        lost_total (gaps_of [seq_record 5; seq_record 9]) =
          (CPUSeq rl - 5 + 1) - Z.of_nat (length [seq_record 5; seq_record 9]).
Proof.
  apply (losses_add_up (seq_record 5) [seq_record 9]).
  - intros r [->|[->|?%elem_of_nil]%elem_of_cons]%elem_of_cons; done.
  - intros [|[|i]] a b Ha Hb; simpl in *; simplify_eq; simpl; lia.
Defined.

(** The names of the hooks are distinct, and only the unknown ones are [HOOK?]. *)
Theorem HookName_inj a b :
  1 <= a <= 15 → 1 <= b <= 15 → HookName a = HookName b → a = b.
Proof.
  assert (∀ n, 1 <= n <= 15 → n ∈ [1; 2; 3; 4; 5; 6; 7; 8; 9; 10; 11; 12; 13; 14; 15]) as Hin.
  { intros n Hn. assert (∃ k, (k < 15)%nat ∧ n = Z.of_nat k + 1) as (k & Hk & ->)
      by (exists (Z.to_nat (n - 1)); lia).
    do 15 (destruct k as [|k]; [vm_compute; repeat constructor|]). lia. }
  intros Ha%Hin Hb%Hin.
  assert (Forall (λ a, Forall (λ b, HookName a = HookName b → a = b)
    [1; 2; 3; 4; 5; 6; 7; 8; 9; 10; 11; 12; 13; 14; 15])
    [1; 2; 3; 4; 5; 6; 7; 8; 9; 10; 11; 12; 13; 14; 15]) as Hall.
  { repeat constructor; vm_compute; intros; congruence. }
  rewrite Forall_forall in Hall. specialize (Hall a Ha). rewrite Forall_forall in Hall. by apply Hall.
Qed.
