(* ===== verification/Emit.v ===== *)
(** How records leave the kernel ([emit], bpf/warrant.bpf.c) and reach the
    handler of the consumer (agent/internal/ringbuf): a record that finds no room
    in the ring buffer is lost, but its number is not. *)

From Stdlib Require Import ZArith Lia Ascii String.
From stdpp Require Import base tactics numbers list strings gmap.
From S2P Require Import Prelude GoStd GoNet Ringbuf.

(** * [emit] *)

(** One call: the record ([CPUSeq] is filled in by [emit]), the command name as
    it lies in memory, and whether [bpf_ringbuf_reserve] found room. *)
Record emission := mkEmission { em_rec : Record_; em_comm : list Z; em_reserved : bool }.

(** The [cpu_seq] array and the samples in the ring buffer, oldest first. *)
Record kring := mkKring { kr_seq : gmap Z Z; kr_samples : list (list Z) }.

Definition set_seq (r : Record_) (n : Z) : Record_ :=
  mkRecord (CPU r) n (Hook r) (Verdict r) (r_Mode r) (Origin r) (TagSource r) (BootTsNs r)
    (WarrantID r) (r_SubjectID r) (r_PolicyID r) (Proc r) (PayloadRaw r).

(** The payload area of the reservation: zeroed, then filled if the payload fits. *)
Definition PAYLOAD_MAX : nat := 40.
Definition payload_area (pl : list Z) : list Z :=
  if (length pl <=? PAYLOAD_MAX)%nat then pl ++ zeros (PAYLOAD_MAX - length pl) else zeros PAYLOAD_MAX.
Definition sample_of (r : Record_) (comm : list Z) : list Z :=
  encode_fields evtHeader_layout (header_fields r 0 0) ++ comm ++ payload_area (PayloadRaw r).

(** The number goes up before the reservation. *)
Definition emit (k : kring) (e : emission) : kring :=
  let cpu := CPU (em_rec e) in
  let seq := u64 (default 0 (kr_seq k !! cpu) + 1) in
  mkKring (<[cpu := seq]> (kr_seq k))
    (if em_reserved e
     then kr_samples k ++ [sample_of (set_seq (em_rec e) seq) (em_comm e)]
     else kr_samples k).
Definition emit_all (es : list emission) : kring := foldl emit (mkKring ∅ []) es.

(** * What is lost *)

Definition on_cpu (cpu : Z) (e : emission) : bool := CPU (em_rec e) =? cpu.
Definition through (cpu : Z) (e : emission) : bool := em_reserved e && on_cpu cpu e.

(** The calls that found no room between two records of their CPU that did. *)
Fixpoint lost_between (before es : list emission) : Z :=
  match es with
  | [] => 0
  | e :: rest =>
      let cpu := CPU (em_rec e) in
      (if negb (em_reserved e) && existsb (through cpu) before && existsb (through cpu) rest
       then 1 else 0) + lost_between (before ++ [e]) rest
  end.

(** The calls of a CPU so far, and the records that got through. *)
Definition count_on (es : list emission) (cpu : Z) : Z :=
  Z.of_nat (length (List.filter (on_cpu cpu) es)).
Fixpoint sent_after (before es : list emission) : list Record_ :=
  match es with
  | [] => []
  | e :: rest =>
      (if em_reserved e then [set_seq (em_rec e) (count_on before (CPU (em_rec e)) + 1)] else [])
      ++ sent_after (before ++ [e]) rest
  end.
Definition sent (es : list emission) : list Record_ := sent_after [] es.

(** The record of a call fits the header, its command name is the one recorded. *)
Definition emission_ok (e : emission) : Prop :=
  (∀ n, is_u64 n → record_fits (set_seq (em_rec e) n) 0 0) ∧
  (length (PayloadRaw (em_rec e)) ≤ PAYLOAD_MAX)%nat ∧
  length (em_comm e) = commSize ∧ cstr (em_comm e) = Comm (Proc (em_rec e)).

(** * Lemmas *)

Lemma sent_after_snoc before es e :
  sent_after before (es ++ [e]) =
  sent_after before es ++
  if em_reserved e then [set_seq (em_rec e) (count_on (before ++ es) (CPU (em_rec e)) + 1)] else [].
Proof.
  revert before. induction es as [|x es IH]; intros before; cbn [app sent_after].
  - by rewrite !app_nil_r.
  - by rewrite IH, <- !app_assoc.
Qed.
Lemma sent_snoc es e :
  sent (es ++ [e]) =
  sent es ++ if em_reserved e then [set_seq (em_rec e) (count_on es (CPU (em_rec e)) + 1)] else [].
Proof. apply sent_after_snoc. Qed.
Lemma count_on_snoc es e cpu :
  count_on (es ++ [e]) cpu = count_on es cpu + if on_cpu cpu e then 1 else 0.
Proof.
  unfold count_on. rewrite List.filter_app, length_app. simpl. destruct (on_cpu cpu e); simpl; lia.
Qed.
Lemma count_on_bound es cpu : 0 <= count_on es cpu <= Z.of_nat (length es).
Proof. unfold count_on. pose proof (List.filter_length_le (on_cpu cpu) es). lia. Qed.

(** The calls of a CPU since its last record that got through, when one did. *)
Fixpoint open_lost (before es : list emission) (cpu : Z) : Z :=
  match es with
  | [] => 0
  | e :: rest =>
      (if negb (em_reserved e) && on_cpu cpu e && existsb (through cpu) before &&
          negb (existsb (through cpu) rest)
       then 1 else 0) + open_lost (before ++ [e]) rest cpu
  end.

Lemma existsb_snoc {A} (p : A → bool) l x : existsb p (l ++ [x]) = existsb p l || p x.
Proof. rewrite existsb_app. simpl. by rewrite orb_false_r. Qed.

Lemma lost_between_snoc before es e :
  lost_between before (es ++ [e]) =
  lost_between before es +
  if em_reserved e then open_lost before es (CPU (em_rec e)) else 0.
Proof.
  revert before. induction es as [|x es IH]; intros before; cbn [app lost_between open_lost].
  { cbn [existsb]. rewrite andb_false_r. by destruct (em_reserved e). }
  rewrite IH, existsb_snoc. set (cx := CPU (em_rec x)).
  unfold through at 3, on_cpu at 1. destruct (em_reserved e); simpl; [|by rewrite orb_false_r; lia].
  unfold on_cpu at 1. fold cx. destruct (Z.eqb_spec (CPU (em_rec e)) cx) as [->|Hne].
  - rewrite orb_true_r, Z.eqb_refl. destruct (em_reserved x), (existsb _ before), (existsb _ es); simpl; lia.
  - rewrite orb_false_r. rewrite (proj2 (Z.eqb_neq cx _)) by done.
    rewrite andb_false_r. simpl. lia.
Qed.

Lemma open_lost_snoc before es e cpu :
  open_lost before (es ++ [e]) cpu =
  if through cpu e then 0
  else open_lost before es cpu +
       if negb (em_reserved e) && on_cpu cpu e && existsb (through cpu) (before ++ es) then 1 else 0.
Proof.
  revert before. induction es as [|x es IH]; intros before; cbn [app open_lost].
  { cbn [existsb]. rewrite app_nil_r, andb_true_r. unfold through at 2.
    destruct (em_reserved e), (on_cpu cpu e); simpl; try lia. }
  rewrite IH, existsb_snoc, <- app_assoc. simpl.
  destruct (through cpu e) eqn:Et; [by rewrite orb_true_r, andb_false_r|].
  rewrite orb_false_r. lia.
Qed.

Lemma existsb_through es cpu : existsb (through cpu) es = bool_decide (is_Some (prev_on (sent es) cpu)).
Proof.
  induction es as [|e es IH] using rev_ind; [done|]. rewrite existsb_snoc, IH, sent_snoc. unfold through, on_cpu.
  destruct (em_reserved e); simpl; [|by rewrite app_nil_r, orb_false_r].
  rewrite prev_on_snoc. simpl. destruct (_ =? _).
  - rewrite orb_true_r. symmetry. apply bool_decide_true. by eauto.
  - by rewrite orb_false_r.
Qed.

(** The gap to the next record is the number of calls lost since the last one. *)
Lemma open_lost_prev es cpu :
  open_lost [] es cpu =
  match prev_on (sent es) cpu with Some p => count_on es cpu - CPUSeq p | None => 0 end ∧
  (∀ p, prev_on (sent es) cpu = Some p → 1 <= CPUSeq p <= count_on es cpu).
Proof.
  induction es as [|e es [IH IH2]] using rev_ind; [done|].
  rewrite open_lost_snoc, app_nil_l, existsb_through, sent_snoc, count_on_snoc, IH.
  pose proof (count_on_bound es cpu) as Hb. unfold through, on_cpu.
  destruct (em_reserved e); simpl.
  - rewrite prev_on_snoc. simpl. destruct (Z.eqb_spec (CPU (em_rec e)) cpu) as [->|Hne].
    + split; [simpl; lia|]. intros p [= <-]. simpl. lia.
    + split; [destruct (prev_on _ _); lia|]. intros p Hp%IH2. lia.
  - rewrite app_nil_r. destruct (CPU (em_rec e) =? cpu); simpl.
    + destruct (prev_on (sent es) cpu) as [p|]; simpl.
      * split; [lia|]. intros p' Hp'%IH2. lia.
      * done.
    + split; [destruct (prev_on _ _); lia|]. intros p Hp%IH2. lia.
Qed.

(** The reported losses are the calls lost between two records. *)
Lemma lost_total_sent es : lost_total (gaps_of (sent es)) = lost_between [] es.
Proof.
  induction es as [|e es IH] using rev_ind; [done|].
  rewrite lost_between_snoc, sent_snoc, <- IH. destruct (em_reserved e); [|by rewrite app_nil_r; lia].
  rewrite gaps_of_snoc, lost_total_app. simpl.
  destruct (open_lost_prev es (CPU (em_rec e))) as [-> Hp].
  destruct (prev_on (sent es) (CPU (em_rec e))) as [p|]; simpl; [|lia].
  specialize (Hp p eq_refl). unfold skip_between. simpl.
  destruct (Z.ltb_spec (CPUSeq p + 1) (count_on es (CPU (em_rec e)) + 1)); simpl; lia.
Qed.

Lemma sample_of_decodes r comm :
  record_fits r 0 0 → (length (PayloadRaw r) ≤ PAYLOAD_MAX)%nat → length comm = commSize →
  cstr comm = Comm (Proc r) → decoded (sample_of r comm) = Some r.
Proof.
  intros Hf Hp Hc Hs. unfold decoded, sample_of, payload_area.
  rewrite (proj2 (Nat.leb_le _ _)) by done. rewrite !app_assoc, <- app_assoc.
  rewrite <- (app_assoc (encode_fields _ _)).
  pose proof (decode_event r comm 0 0 (zeros (PAYLOAD_MAX - length (PayloadRaw r))) Hf Hc Hs) as Hd.
  unfold encode_event in Hd. rewrite <- !app_assoc in *. by rewrite Hd.
Qed.

(** The ring after a run: the numbers count the calls, the samples are the
    records that got through. *)
Lemma emit_all_spec es :
  Z.of_nat (length es) < 2 ^ 64 - 1 → Forall emission_ok es →
  (∀ cpu, default 0 (kr_seq (emit_all es) !! cpu) = count_on es cpu) ∧
  omap decoded (kr_samples (emit_all es)) = sent es ∧
  broken (kr_samples (emit_all es)) = 0 ∧ Forall seq_ok (sent es).
Proof.
  induction es as [|e es IH] using rev_ind; intros Hl Hok.
  { split; [|done]. intros cpu. simpl. by rewrite lookup_empty. }
  rewrite length_app in Hl. simpl in Hl. apply Forall_app in Hok as [Hok He].
  destruct (IH ltac:(lia) Hok) as (Hseq & Hom & Hbr & Hso).
  apply Forall_singleton in He as (Hfit & Hpl & Hcomm & Hname).
  unfold emit_all in *. rewrite foldl_app. cbn [foldl]. set (k := foldl emit _ es) in *.
  pose proof (count_on_bound es (CPU (em_rec e))) as Hb.
  assert (u64 (default 0 (kr_seq k !! CPU (em_rec e)) + 1) = count_on es (CPU (em_rec e)) + 1) as Hu.
  { rewrite Hseq. apply u64_small. unfold_widths. lia. }
  unfold emit. rewrite Hu, sent_snoc. cbn [kr_seq kr_samples]. split.
  { intros cpu. rewrite count_on_snoc. unfold on_cpu.
    destruct (Z.eqb_spec (CPU (em_rec e)) cpu) as [->|Hne].
    - by rewrite lookup_insert_eq.
    - rewrite lookup_insert_ne by done. rewrite Hseq. lia. }
  destruct (em_reserved e); [|by rewrite app_nil_r].
  assert (decoded (sample_of (set_seq (em_rec e) (count_on es (CPU (em_rec e)) + 1)) (em_comm e)) =
          Some (set_seq (em_rec e) (count_on es (CPU (em_rec e)) + 1))) as Hd.
  { apply sample_of_decodes; [apply Hfit; unfold_widths; lia|done|done|done]. }
  rewrite omap_app, broken_snoc, Hom, Hbr. simpl. rewrite Hd. split; [done|]. split; [done|].
  apply Forall_app. split; [done|]. apply Forall_singleton. unfold seq_ok. simpl. lia.
Qed.

(** What the consumer makes of the ring. *)
Lemma Run_emitted es :
  Z.of_nat (length es) < 2 ^ 64 - 1 → Forall emission_ok es →
  snd (Run (kr_samples (emit_all es)) (newConsumer true)) = sent es ∧
  lost_total (reported (fst (Run (kr_samples (emit_all es)) (newConsumer true)))) = lost_between [] es ∧
  DroppedTotal (fst (Run (kr_samples (emit_all es)) (newConsumer true))) = u64 (lost_between [] es).
Proof.
  intros Hl Hok. destruct (emit_all_spec es Hl Hok) as (_ & Hom & Hbr & Hso).
  rewrite <- Hom in Hso. destruct (Run_inv _ Hso) as [Hout [_ _ Hg Hd _]].
  destruct (Run _ _) as [c out]. simpl in *. rewrite Hom in *. rewrite Hbr in Hd.
  split; [done|]. rewrite Hg. split; [apply lost_total_sent|].
  unfold DroppedTotal. by rewrite Hd, lost_total_sent, Z.add_0_r.
Qed.
(** The records handed on are those of the calls that found room. *)
Lemma sent_after_elem before es r :
  r ∈ sent_after before es → ∃ e n, e ∈ es ∧ em_reserved e = true ∧ r = set_seq (em_rec e) n.
Proof.
  revert before. induction es as [|e es IH]; intros before; simpl; [by intros ?%elem_of_nil|].
  intros [Hr|(e' & n & He & Hrest)%IH]%elem_of_app; [|exists e', n; split; [by right|done]].
  destruct (em_reserved e) eqn:Er; [|by apply elem_of_nil in Hr].
  apply list_elem_of_singleton in Hr as ->. eexists e, _. split; [by left|done].
Qed.
Lemma sent_after_room before es e :
  e ∈ es → em_reserved e = true → ∃ n, set_seq (em_rec e) n ∈ sent_after before es.
Proof.
  intros He Hr. revert before. induction es as [|x es IH]; intros before; simpl; [by apply elem_of_nil in He|].
  apply elem_of_cons in He as [<-|He].
  - rewrite Hr. eexists. apply elem_of_app. left. by apply list_elem_of_singleton.
  - destruct (IH He (before ++ [x])) as [n Hn]. exists n. apply elem_of_app. by right.
Qed.

(** * Properties *)

(** From the hook to the handler nothing is lost unnoticed.  Whatever calls of
    [emit] find no room in the ring buffer, on any CPUs and in any order, the
    consumer hands on exactly the records that got through, in order and with
    their fields, and the losses it reports add up to exactly the calls that
    found no room between two records of their CPU. *)
Theorem kernel_losses_reported es :
  Z.of_nat (length es) < 2 ^ 64 - 1 → Forall emission_ok es →
  let '(c, out) := Run (kr_samples (emit_all es)) (newConsumer true) in
  out = sent es ∧ lost_total (reported c) = lost_between [] es ∧
  DroppedTotal c = u64 (lost_between [] es).
Proof.
  intros Hl Hok. generalize (Run_emitted es Hl Hok). by destruct (Run _ _) as [c out].
Qed.

(** Two CPUs; the second one loses two records in a row, the first one its last. *)
Definition demo_emission (cpu : Z) (reserved : bool) : emission :=
  mkEmission (mkRecord cpu 0 HookFileOpen 0 2 1 1 5 9 3 7 (mkProcess 1 1 1 0 0 0 0 0 77 "") [1; 2])
    (zeros 16) reserved.
Definition demo_emissions : list emission :=
  [demo_emission 0 true; demo_emission 1 true; demo_emission 1 false; demo_emission 0 true;
   demo_emission 1 false; demo_emission 1 true; demo_emission 0 false].
Lemma demo_emission_ok cpu b : is_u32 cpu → emission_ok (demo_emission cpu b).
Proof.
  intros Hc. split; [|by split; [vm_compute; lia|]]. intros n Hn. unfold_widths.
  do 3 (constructor; [unfold fits; simpl; lia|]). constructor; [unfold fits; simpl; lia|].
  repeat (constructor; [vm_compute; split; [discriminate|reflexivity]|]). constructor.
Qed.
Lemma kernel_losses_reported_witness :
  lost_total (reported (fst (Run (kr_samples (emit_all demo_emissions)) (newConsumer true)))) = 2.
Proof.
  assert (Forall emission_ok demo_emissions) as Hok
    by (repeat (constructor; [apply demo_emission_ok; unfold_widths; lia|]); constructor).
  pose proof (kernel_losses_reported demo_emissions ltac:(simpl; lia) Hok) as H.
  destruct (Run _ _) as [c out]. exact (proj1 (proj2 H)).
Defined.
