(* ===== verification/AuditStream.v ===== *)
(** Draining the audit queue over a stream (upstream/audit.go, [streamOnce] and
    [StreamAudit]): a sender and a receiver goroutine around one queue, a server
    that commits batches and acknowledges them, and connections that break.
    The interleavings are a step relation. *)

From Stdlib Require Import ZArith Lia Ascii String.
From stdpp Require Import base tactics numbers list strings gmap relations.
From S2P Require Import Prelude GoStd Pb AuditQueue.
Import pb.

(** * The system *)

(** A batch on the wire, with the gaps it carries as the queue held them (the
    message has the reports only). *)
Definition parcel : Type := AuditBatch * list queuedGap.

Record sys := mkSys {
  s_q : AuditQueue;
  s_after : Z;               (* the sender's [after] *)
  s_first : bool;            (* the sender's [first] *)
  s_flight : list parcel;    (* sent on this stream, not yet committed *)
  s_db : list parcel         (* committed by the server, over all streams *)
}.

(** The sender: one round of its loop; [None] when it has to wait. *)
Definition send_round (hello : NodeHello) (s : sys) : option sys :=
  match next_pass (s_after s) (s_q s) with
  | Some (Ok b) =>
      let b' := if s_first s then set_Node b hello else b in
      let gs := List.filter (gap_between (s_after s) (ab_LastNodeSeq b)) (gaps (s_q s)) in
      Some (mkSys (s_q s) (ab_LastNodeSeq b') false (s_flight s ++ [(b', gs)]) (s_db s))
  | _ => None
  end.

(** The receiver: one acknowledgement. *)
Definition recv_round (ack : AuditAck) (s : sys) : sys :=
  if negb (ak_SeqEpoch ack =? SeqEpoch (s_q s)) then s
  else mkSys (Ack (ak_SeqEpoch ack) (ak_AckedThroughNodeSeq ack) (s_q s))
             (s_after s) (s_first s) (s_flight s) (s_db s).

(** A stream that ended; the next one starts from the oldest event held. *)
Definition new_stream (s : sys) : sys := mkSys (s_q s) 0 true [] (s_db s).

Definition append_round (e : AuditEvent) (s : sys) : option sys :=
  match Append e (s_q s) with
  | Ok (q', _) => Some (mkSys q' (s_after s) (s_first s) (s_flight s) (s_db s))
  | _ => None
  end.

(** The server acknowledges what it committed: for this queue's epoch, the last
    number of a committed batch. *)
Definition ack_honest (ack : AuditAck) (s : sys) : Prop :=
  ak_SeqEpoch ack = epoch (s_q s) →
  ∃ p, p ∈ s_db s ∧ ak_AckedThroughNodeSeq ack = ab_LastNodeSeq (fst p).

(** Everything but [Append]. *)
Inductive stream_step (hello : NodeHello) : sys → sys → Prop :=
  | StepSend s s' : send_round hello s = Some s' → stream_step hello s s'
  | StepCommit s p rest :
      s_flight s = p :: rest →
      stream_step hello s (mkSys (s_q s) (s_after s) (s_first s) rest (s_db s ++ [p]))
  | StepAck s ack : ack_honest ack s → stream_step hello s (recv_round ack s)
  | StepBreak s : stream_step hello s (new_stream s).

(** The numbers do not run out: fewer than [2^64 - 1] events are appended. *)
Inductive sys_step (hello : NodeHello) : sys → sys → Prop :=
  | StepStream s s' : stream_step hello s s' → sys_step hello s s'
  | StepAppend s e s' :
      nextSeq (s_q s) + 1 < 2 ^ 64 → append_round e s = Some s' → sys_step hello s s'.

Definition init (ep maxE maxB : Z) : sys := mkSys (NewAuditQueue ep maxE maxB) 0 true [] [].

(** * The invariant *)

Definition db_has (db : list parcel) (n : Z) : Prop :=
  ∃ p, p ∈ db ∧ (holds_seq (ab_Events (fst p)) n ∨ gaps_cover (snd p) n).

(** Batches that follow number [a]: each number up to its last one is in the
    batch, in one of its gaps, or already at the server. *)
Fixpoint flight_ok (db : list parcel) (a : Z) (l : list parcel) : Prop :=
  match l with
  | [] => True
  | p :: rest =>
      a < ab_LastNodeSeq (fst p) ∧
      (∀ n, a < n <= ab_LastNodeSeq (fst p) → db_has db n ∨ db_has [p] n) ∧
      flight_ok db (ab_LastNodeSeq (fst p)) rest
  end.
Definition flight_end (a : Z) (l : list parcel) : Z :=
  foldl (λ _ p, ab_LastNodeSeq (fst p)) a l.

Record sys_inv (s : sys) : Prop := {
  si_queue : queue_inv (s_q s);
  si_acc : ∀ n, 1 <= n < nextSeq (s_q s) →
             holds_seq (events (s_q s)) n ∨ gaps_cover (gaps (s_q s)) n ∨ db_has (s_db s) n;
  si_db : ∀ p n, p ∈ s_db s → 1 <= n <= ab_LastNodeSeq (fst p) → db_has (s_db s) n;
  si_flight : ∃ a, 0 <= a ∧ (∀ n, 1 <= n <= a → db_has (s_db s) n) ∧
                   flight_ok (s_db s) a (s_flight s) ∧ s_after s = flight_end a (s_flight s);
  si_ghost : ∀ p, p ∈ s_flight s ∨ p ∈ s_db s → ab_Gaps (fst p) = gap <$> snd p
}.

Lemma db_has_mono db p n : db_has db n → db_has (db ++ [p]) n.
Proof. intros (x & Hx & Hn). exists x. split; [apply elem_of_app; by left|done]. Qed.
Lemma db_has_snoc db p n : db_has [p] n → db_has (db ++ [p]) n.
Proof.
  intros (x & ->%list_elem_of_singleton & Hn). exists p. split; [|done].
  apply elem_of_app. right. by apply list_elem_of_singleton.
Qed.

Lemma flight_ok_mono db p a l : flight_ok db a l → flight_ok (db ++ [p]) a l.
Proof.
  revert a. induction l as [|x l IH]; intros a; [done|]. intros (H1 & H2 & H3).
  split; [done|]. split; [|by apply IH].
  intros n Hn. destruct (H2 n Hn); [left; by apply db_has_mono|by right].
Qed.

Lemma flight_end_ge db a l : flight_ok db a l → a <= flight_end a l.
Proof.
  revert a. induction l as [|x l IH]; intros a; [simpl; lia|]. intros (H1 & _ & H3).
  simpl. apply IH in H3. unfold flight_end in *. lia.
Qed.

Lemma flight_ok_snoc db a l p :
  flight_ok db a l → flight_end a l < ab_LastNodeSeq (fst p) →
  (∀ n, flight_end a l < n <= ab_LastNodeSeq (fst p) → db_has db n ∨ db_has [p] n) →
  flight_ok db a (l ++ [p]).
Proof.
  revert a. induction l as [|x l IH]; intros a; simpl; [by auto|].
  intros (H1 & H2 & H3) Hlt Hn. split; [done|]. split; [done|]. by apply IH.
Qed.
Lemma flight_end_snoc a l p : flight_end a (l ++ [p]) = ab_LastNodeSeq (fst p).
Proof. unfold flight_end. by rewrite foldl_app. Qed.

Lemma init_inv ep maxE maxB : 1 <= maxE → 1 <= maxB → sys_inv (init ep maxE maxB).
Proof.
  intros. split; simpl; [by apply NewAuditQueue_inv|lia|by intros p n ?%elem_of_nil| |].
  - exists 0. split; [lia|]. split; [lia|done].
  - by intros p [?%elem_of_nil|?%elem_of_nil].
Qed.

Lemma db_has_parcel (b b' : AuditBatch) gs n :
  ab_Events b' = ab_Events b →
  holds_seq (ab_Events b) n ∨ gaps_cover gs n → db_has [(b', gs)] n.
Proof.
  intros He Hn. exists (b', gs). split; [by apply list_elem_of_singleton|]. simpl. by rewrite He.
Qed.

Lemma send_round_inv hello s s' : sys_inv s → send_round hello s = Some s' → sys_inv s'.
Proof.
  intros [Hq Hacc Hdb (a & Ha & Hpre & Hfl & Haft) Hgh]. unfold send_round.
  pose proof (flight_end_ge _ _ _ Hfl) as Hge. rewrite <- Haft in Hge.
  pose proof (next_pass_spec (s_q s) (s_after s) Hq ltac:(lia)) as Hn.
  destruct (next_pass (s_after s) (s_q s)) as [r|]; [|done].
  destruct Hn as (b & -> & Egs & _ & _ & _ & _ & Hev & Hlast).
  set (gs := List.filter _ _). set (b' := if s_first s then _ else b).
  assert (ab_Events b' = ab_Events b) as Eev by (unfold b'; by destruct (s_first s)).
  assert (ab_LastNodeSeq b' = ab_LastNodeSeq b) as Ela by (unfold b'; by destruct (s_first s)).
  intros [= <-]. split; simpl; [done|done|done| |].
  - exists a. split; [done|]. split; [done|]. split; [|by rewrite flight_end_snoc].
    apply flight_ok_snoc; [done|simpl; rewrite Ela, <- Haft; lia|].
    simpl. rewrite Ela, <- Haft. intros n Hn.
    destruct (Z.le_gt_cases (headSeq (s_q s)) n) as [Hin|Hout].
    { right. apply (db_has_parcel b); [done|]. left. apply Hev. lia. }
    destruct (Hacc n) as [Hh|[(g & Hg & Hc)|Hd]]; [lia| | |by left].
    { apply holds_seq_iff in Hh; [lia|done]. }
    right. apply (db_has_parcel b); [done|]. right. exists g. split; [|done].
    apply elem_gap_between. split; [done|]. rewrite (gaps_ok_before _ g Hq Hg). lia.
  - intros p [Hp|Hp]; [|by apply Hgh; right].
    apply elem_of_app in Hp as [Hp| ->%list_elem_of_singleton]; [by apply Hgh; left|].
    simpl. unfold b'. by destruct (s_first s).
Qed.

Lemma commit_inv s p rest :
  sys_inv s → s_flight s = p :: rest →
  sys_inv (mkSys (s_q s) (s_after s) (s_first s) rest (s_db s ++ [p])).
Proof.
  intros [Hq Hacc Hdb (a & Ha & Hpre & Hfl & Haft) Hgh] Hp. rewrite Hp in *.
  destruct Hfl as (Hlt & Hcov & Hrest).
  assert (∀ n, 1 <= n <= ab_LastNodeSeq (fst p) → db_has (s_db s ++ [p]) n) as Hall.
  { intros n Hn. destruct (Z.le_gt_cases n a); [apply db_has_mono, Hpre; lia|].
    destruct (Hcov n ltac:(lia)); [by apply db_has_mono|by apply db_has_snoc]. }
  split; simpl; [done| | | |].
  - intros n Hn. destruct (Hacc n Hn) as [?|[?|?]]; auto using db_has_mono.
  - intros x n [Hx| ->%list_elem_of_singleton]%elem_of_app Hn; [|by apply Hall].
    by eapply db_has_mono, Hdb.
  - exists (ab_LastNodeSeq (fst p)). split; [lia|]. split; [done|].
    split; [by apply flight_ok_mono|done].
  - intros x [Hx|Hx]; apply Hgh; [left; by right|].
    apply elem_of_app in Hx as [Hx| ->%list_elem_of_singleton]; [by right|left; by left].
Qed.

Lemma recv_inv s ack : sys_inv s → ack_honest ack s → sys_inv (recv_round ack s).
Proof.
  intros Hi Hh. unfold recv_round, SeqEpoch.
  destruct (Z.eqb_spec (ak_SeqEpoch ack) (epoch (s_q s))) as [He|]; [|done]. simpl.
  destruct (Hh He) as (p & Hp & Hlast). rewrite He, Hlast.
  destruct Hi as [Hq Hacc Hdb Hf Hgh].
  destruct (Ack_spec (s_q s) (ab_LastNodeSeq (fst p)) Hq) as (Hq' & _ & Hn' & _ & Hev & Hg).
  split; simpl; [done| |done|done|done].
  rewrite Hn'. intros n Hn.
  destruct (Z.le_gt_cases n (ab_LastNodeSeq (fst p))) as [Hle|Hgt].
  { right; right. apply (Hdb p); [done|lia]. }
  destruct (Hacc n Hn) as [Hx|[(g & Hgin & Hc)|Hx]]; [left; by apply Hev| |by auto].
  right; left. exists g. split; [|done]. apply Hg. split; [done|]. unfold gap_covers in Hc. lia.
Qed.

Lemma sys_step_inv hello s s' : sys_inv s → sys_step hello s s' → sys_inv s'.
Proof.
  intros Hi Hstep. destruct Hstep as [s1 s2 Hstream|s1 e s2 Hn Ha];
    [destruct Hstream as [s1 s2 Hsend|s1 p rest Hf|s1 ack Hh|s1]|].
  - by eapply send_round_inv.
  - by apply commit_inv.
  - by apply recv_inv.
  - destruct Hi as [Hq Hacc Hdb _ Hgh]. split; simpl; [done|done|done| |].
    + exists 0. split; [lia|]. split; [lia|done].
    + intros p [?%elem_of_nil|Hp]; [done|]. apply Hgh. by right.
  - destruct Hi as [Hq Hacc Hdb Hf Hgh]. unfold append_round in Ha.
    destruct (Append_spec (s_q s1) e Hq Hn) as (q' & HA & Hq' & _ & Hnx & Hev & Hg).
    rewrite HA in Ha. injection Ha as <-. split; simpl; [done| |done|done|done].
    rewrite Hnx. intros n Hr. destruct (Z.eq_dec n (nextSeq (s_q s1))) as [->|Hne].
    { destruct (Hev (nextSeq (s_q s1))); auto. }
    destruct (Hacc n ltac:(lia)) as [Hx|[Hx|Hx]]; [destruct (Hev n); auto|auto|auto].
Qed.

Lemma sys_reach_inv hello s s' : sys_inv s → rtc (sys_step hello) s s' → sys_inv s'.
Proof. intros Hi Hr. induction Hr; [done|]. eauto using sys_step_inv. Qed.

(** ** Draining *)

(** With nothing in flight, one batch sent, committed and acknowledged leaves
    fewer events and nothing in flight. *)
Lemma drain_round hello s :
  sys_inv s → s_flight s = [] → s_after s < headSeq (s_q s) → events (s_q s) ≠ [] →
  ∃ s', rtc (stream_step hello) s s' ∧ sys_inv s' ∧ s_flight s' = [] ∧
        s_after s' < headSeq (s_q s') ∧
        (length (events (s_q s')) < length (events (s_q s)))%nat.
Proof.
  intros Hi Hf Hlt Hne. pose proof Hi as [Hq _ _ (a & Ha & _ & _ & Haft) _].
  rewrite Hf in Haft. simpl in Haft.
  pose proof (next_pass_spec (s_q s) (s_after s) Hq ltac:(lia)) as Hn.
  assert (length (events (s_q s)) ≠ O) as Hl0 by (by intros ?%nil_length_inv).
  destruct (next_pass (s_after s) (s_q s)) as [r|] eqn:En.
  2:{ destruct Hn as [Hn|Hn]; [|done]. unfold headSeq in Hlt. lia. }
  destruct Hn as (b & -> & _ & _ & _ & _ & _ & Hev & Hlast).
  assert (∃ p, send_round hello s = Some (mkSys (s_q s) (ab_LastNodeSeq (fst p)) false [p] (s_db s)) ∧
               ab_LastNodeSeq (fst p) = ab_LastNodeSeq b) as (p & Hs & Hpl).
  { unfold send_round. rewrite En, Hf. simpl. eexists (_, _). split; [done|].
    simpl. by destruct (s_first s). }
  set (s1 := mkSys _ _ _ _ _) in Hs.
  set (s2 := mkSys (s_q s) (ab_LastNodeSeq (fst p)) false [] (s_db s ++ [p])).
  set (ack := mkAuditAck (epoch (s_q s)) (ab_LastNodeSeq (fst p))).
  assert (sys_inv s1) as Hi1 by (by eapply send_round_inv).
  assert (sys_inv s2) as Hi2 by (by apply (commit_inv s1 p [])).
  assert (ack_honest ack s2) as Hh.
  { intros _. exists p. split; [|done]. simpl. apply elem_of_app. right. by apply list_elem_of_singleton. }
  destruct (Ack_spec (s_q s) (ab_LastNodeSeq (fst p)) Hq) as (Hq' & _ & Hn' & Hhd & _).
  assert (recv_round ack s2 = mkSys (Ack (epoch (s_q s)) (ab_LastNodeSeq (fst p)) (s_q s))
            (ab_LastNodeSeq (fst p)) false [] (s_db s ++ [p])) as Hr.
  { unfold recv_round, SeqEpoch. simpl. by rewrite Z.eqb_refl. }
  set (q' := Ack _ _ _) in *.
  assert (headSeq q' = ab_LastNodeSeq b + 1) as Hhead by (rewrite Hhd, Hpl; lia).
  exists (recv_round ack s2). split; [|split; [|split; [|split]]].
  - eapply rtc_l; [by apply StepSend|]. eapply rtc_l; [by apply (StepCommit _ s1 p [])|].
    eapply rtc_l; [by apply StepAck|]. apply rtc_refl.
  - by apply recv_inv.
  - by rewrite Hr.
  - rewrite Hr. simpl. lia.
  - rewrite Hr. simpl. unfold headSeq in *. lia.
Qed.


Lemma drains hello n s :
  (length (events (s_q s)) <= n)%nat → sys_inv s → s_flight s = [] → s_after s < headSeq (s_q s) →
  ∃ s', rtc (stream_step hello) s s' ∧ sys_inv s' ∧ events (s_q s') = [].
Proof.
  revert s. induction n as [|n IH]; intros s Hlen Hi Hf Hlt.
  { exists s. split; [apply rtc_refl|]. split; [done|]. apply nil_length_inv. lia. }
  destruct (decide (events (s_q s) = [])) as [|Hne]; [exists s; split; [apply rtc_refl|done]|].
  destruct (drain_round hello s) as (s1 & Hr & Hi1 & Hf1 & Hlt1 & Hless); try done.
  destruct (IH s1) as (s2 & Hr2 & Hi2 & He2); try done; [lia|].
  exists s2. split; [by etrans|done].
Qed.

(** * Properties *)

Definition demo_hello : NodeHello := mkNodeHello "web-1" "6.8.0" true 0 "warrantd 0.1.0-dev" [2; 3; 4].
Definition demo_event (ts : Z) : AuditEvent :=
  mkAuditEvent 0 0 0 Hook_HOOK_AGENT Verdict_VERDICT_ALLOW 0 0 ts 0 0 0 TagSource_TAG_NONE None None
    Origin_ORIGIN_AGENT.

(** No audit event disappears silently.  However appends, sends, commits,
    acknowledgements and broken streams interleave, every number ever given out
    is still in the queue, is counted by a gap the queue still holds, or is at
    the server, as an event or inside a gap report the server committed (whose
    reports are exactly the ones the queue held). *)
Theorem no_silent_loss hello ep maxE maxB s :
  1 <= maxE → 1 <= maxB → rtc (sys_step hello) (init ep maxE maxB) s →
  (∀ n, 1 <= n < nextSeq (s_q s) →
    holds_seq (events (s_q s)) n ∨ gaps_cover (gaps (s_q s)) n ∨ db_has (s_db s) n) ∧
  (∀ p, p ∈ s_db s → ab_Gaps (fst p) = gap <$> snd p).
Proof.
  intros HE HB Hr. apply sys_reach_inv in Hr as [_ Hacc _ _ Hgh]; [|by apply init_inv].
  split; [done|]. intros p Hp. apply Hgh. by right.
Qed.
(** Three events into a queue of two: the first becomes a gap, and the batch
    that is committed reports it. *)
Definition after_append (e : AuditEvent) (s : sys) : sys :=
  match append_round e s with Some s' => s' | None => s end.
Definition after_send (s : sys) : sys :=
  match send_round demo_hello s with Some s' => s' | None => s end.
Definition after_commit (s : sys) : sys :=
  mkSys (s_q s) (s_after s) (s_first s) (tail (s_flight s)) (s_db s ++ take 1 (s_flight s)).
Definition demo_one : sys := Eval vm_compute in after_append (demo_event 10) (init 5 2 10).
Definition demo_two : sys := Eval vm_compute in after_append (demo_event 20) demo_one.
Definition demo_three : sys := Eval vm_compute in after_append (demo_event 30) demo_two.
Definition demo_sent : sys := Eval vm_compute in after_send demo_three.
Definition demo_run : sys := Eval vm_compute in after_commit demo_sent.
Lemma demo_three_reached : rtc (sys_step demo_hello) (init 5 2 10) demo_three.
Proof.
  apply (rtc_l _ _ demo_one); [apply (StepAppend _ _ (demo_event 10)); reflexivity|].
  apply (rtc_l _ _ demo_two); [apply (StepAppend _ _ (demo_event 20)); reflexivity|].
  apply (rtc_l _ _ demo_three); [apply (StepAppend _ _ (demo_event 30)); reflexivity|apply rtc_refl].
Qed.
Lemma no_silent_loss_witness :
  ab_Gaps (fst (nth 0 (s_db demo_run) (mkAuditBatch None [] [] 0 0, [])))
    = [mkGapReport 10 10 1 true GapReport_CAUSE_LOCAL_STORE_FULL] ∧
  (holds_seq (events (s_q demo_run)) 1 ∨ gaps_cover (gaps (s_q demo_run)) 1 ∨
   db_has (s_db demo_run) 1).
Proof.
  split; [reflexivity|].
  apply (no_silent_loss demo_hello 5 2 10 demo_run); [lia|lia| |vm_compute; split; congruence].
  etrans; [exact demo_three_reached|].
  apply (rtc_l _ _ demo_sent); [apply StepStream, StepSend; reflexivity|].
  apply (rtc_l _ _ demo_run); [|apply rtc_refl].
  apply StepStream, (StepCommit demo_hello demo_sent). reflexivity.
Defined.

(** C32: the backlog can always be delivered.  From every reachable state, a
    reconnect followed by the protocol's own steps (send, commit, acknowledge)
    empties the queue, and then every number given out is at the server. *)
Theorem backlog_drains hello ep maxE maxB s :
  1 <= maxE → 1 <= maxB → rtc (sys_step hello) (init ep maxE maxB) s →
  ∃ s', rtc (stream_step hello) s s' ∧ events (s_q s') = [] ∧ gaps (s_q s') = [] ∧
        ∀ n, 1 <= n < nextSeq (s_q s') → db_has (s_db s') n.
Proof.
  intros HE HB Hr. apply sys_reach_inv in Hr as Hi; [|by apply init_inv].
  assert (sys_inv (new_stream s)) as Hi1.
  { eapply sys_step_inv; [exact Hi|]. apply (StepStream hello), StepBreak. }
  destruct (drains hello (length (events (s_q s))) (new_stream s)) as (s' & Hd & Hi' & He); try done.
  { destruct Hi1 as [[[? _] _ _ _ _] _ _ _ _]. simpl in *. lia. }
  exists s'. split; [eapply rtc_l; [apply StepBreak|done]|]. split; [done|].
  destruct Hi' as [Hq Hacc _ _ _].
  assert (gaps (s_q s') = []) as Hg.
  { destruct (qi_gaps _ Hq) as [|(g & _ & Hne & _)]; done. }
  split; [done|]. intros n Hn.
  destruct (Hacc n Hn) as [(e & Hin & _)|[(g & Hin & _)|]]; [| |done].
  - rewrite He in Hin. by apply elem_of_nil in Hin.
  - rewrite Hg in Hin. by apply elem_of_nil in Hin.
Qed.
(** The queue that overflowed: two events and a gap wait, nothing is at the server. *)
Lemma backlog_drains_witness :
  (ae_NodeSeq <$> events (s_q demo_three) = [2; 3] ∧ gaps (s_q demo_three) ≠ [] ∧ s_db demo_three = []) ∧
  ∃ s', rtc (stream_step demo_hello) demo_three s' ∧ events (s_q s') = [] ∧ gaps (s_q s') = [] ∧
        ∀ n, 1 <= n < nextSeq (s_q s') → db_has (s_db s') n.
Proof.
  split; [by split|]. apply (backlog_drains demo_hello 5 2 10 demo_three); [lia|lia|exact demo_three_reached].
Defined.

(** The queue never holds more than its bound, never panics, and numbers
    events consecutively: in every reachable state an append (while numbers
    last) succeeds and returns the next number, the queue holds at most
    [maxEvents] events, and there is at most one gap, which ends exactly at the
    oldest event held and reports a known count. *)
Theorem queue_bounded hello ep maxE maxB s e :
  1 <= maxE → 1 <= maxB → rtc (sys_step hello) (init ep maxE maxB) s →
  Z.of_nat (length (events (s_q s))) <= maxEvents (s_q s) ∧
  (∀ i x, events (s_q s) !! i = Some x → ae_NodeSeq x = headSeq (s_q s) + Z.of_nat i) ∧
  gaps_ok (s_q s) ∧
  (nextSeq (s_q s) + 1 < 2 ^ 64 → ∃ q', Append e (s_q s) = Ok (q', nextSeq (s_q s))).
Proof.
  intros HE HB Hr. apply sys_reach_inv in Hr as [Hq _ _ _ _]; [|by apply init_inv].
  pose proof Hq as [_ Hs Hm _ Hg]. split; [done|]. split; [done|]. split; [done|].
  intros Hn. destruct (Append_spec (s_q s) e Hq Hn) as (q' & HA & _). by exists q'.
Qed.
Lemma queue_bounded_witness :
  ∃ q', Append (demo_event 1) (NewAuditQueue 5 2 10) = Ok (q', 1).
Proof.
  apply (queue_bounded demo_hello 5 2 10 (init 5 2 10) (demo_event 1)); [lia|lia|apply rtc_refl|].
  vm_compute. reflexivity.
Defined.

(** What the sender hands out next.  A turn of [Next] on a queue in order
    waits exactly when it has nothing newer than [after]; otherwise the batch is
    not empty, has at most [maxBatch] events, is the run of consecutive numbers
    that starts at the first one after [after] (or at the oldest held), carries
    the queue's epoch and the last number, and never panics. *)
Theorem next_batch q after :
  queue_inv q → 0 <= after →
  match next_pass after q with
  | None => ∀ n, holds_seq (events q) n → n <= after
  | Some r =>
      ∃ b, r = Ok b ∧ ab_SeqEpoch b = epoch q ∧ ab_Events b ≠ [] ∧
        (length (ab_Events b) <= Z.to_nat (maxBatch q))%nat ∧
        ∀ n, holds_seq (ab_Events b) n ↔
             Z.max (after + 1) (headSeq q) <= n <= ab_LastNodeSeq b
  end.
Proof.
  intros Hq Ha. pose proof (next_pass_spec q after Hq Ha) as Hn.
  destruct (next_pass after q) as [r|].
  - destruct Hn as (b & -> & _ & He & _ & Hne & Hl & Hev & _). eauto 10.
  - intros n Hh. destruct Hn as [Hn|Hn].
    + apply holds_seq_iff in Hh; [lia|done].
    + destruct Hh as (x & Hin & _). rewrite Hn in Hin. by apply elem_of_nil in Hin.
Qed.
Lemma next_batch_witness :
  match next_pass 0 (NewAuditQueue 5 2 10) with
  | None => ∀ n, holds_seq (events (NewAuditQueue 5 2 10)) n → n <= 0
  | Some _ => False
  end.
Proof.
  pose proof (next_batch (NewAuditQueue 5 2 10) 0) as H.
  apply H; [apply NewAuditQueue_inv; lia|lia].
Defined.

(** C33: bisection and index arithmetic compute what the plain definitions say.  In
    every reachable state a turn of [Next] hands out the first [maxBatch] events
    newer than [after], found by filtering the whole queue, with the gaps that end
    among them, waits exactly when there are none, and never panics; and [Ack]
    keeps exactly the events and gaps beyond its number, or everything when the
    epoch is another one. *)
Theorem queue_linear hello ep maxE maxB s after seqEpoch n :
  1 <= maxE → 1 <= maxB → rtc (sys_step hello) (init ep maxE maxB) s →
  next_pass after (s_q s) = Ok <$> linear_Next after (s_q s) ∧
  Ack seqEpoch n (s_q s) = linear_Ack seqEpoch n (s_q s).
Proof.
  intros HE HB Hr. apply sys_reach_inv in Hr as [Hq _ _ _ _]; [|by apply init_inv].
  split; [by apply next_pass_linear|by apply Ack_linear].
Qed.
Lemma queue_linear_witness :
  (next_pass 2 (s_q demo_three) = Ok <$> linear_Next 2 (s_q demo_three) ∧
   Ack 5 2 (s_q demo_three) = linear_Ack 5 2 (s_q demo_three)) ∧
  ae_NodeSeq <$> events (Ack 5 2 (s_q demo_three)) = [3].
Proof.
  split; [|reflexivity].
  exact (queue_linear demo_hello 5 2 10 demo_three 2 5 2 ltac:(lia) ltac:(lia) demo_three_reached).
Defined.

(** An acknowledgement of another epoch changes nothing; one of the queue's
    own epoch removes exactly the events up to its number and the gaps that end
    at or before it. *)
Theorem ack_exact q ep n :
  queue_inv q →
  (ep ≠ epoch q → Ack ep n q = q) ∧
  (ep = epoch q →
   (∀ s, holds_seq (events (Ack ep n q)) s ↔ holds_seq (events q) s ∧ n < s) ∧
   (∀ g, g ∈ gaps (Ack ep n q) ↔ g ∈ gaps q ∧ n < beforeSeq g)).
Proof.
  intros Hq. split.
  - intros Hne. unfold Ack. by rewrite (proj2 (Z.eqb_neq _ _) Hne).
  - intros ->. destruct (Ack_spec q n Hq) as (_ & _ & _ & _ & H1 & H2). done.
Qed.
Lemma ack_exact_witness : Ack 6 1 (NewAuditQueue 5 2 10) = NewAuditQueue 5 2 10.
Proof. apply (ack_exact (NewAuditQueue 5 2 10) 6 1); [apply NewAuditQueue_inv; lia|done]. Defined.
