(* ===== verification/Reconnect.v ===== *)
(** The goroutines [Client.StreamAudit] and [Client.Subscribe]
    (agent/internal/upstream/audit.go and subscribe.go): the loop both run,
    stream after stream with a growing delay until the context ends; and the
    streams themselves at the level of their contexts and channels.  The upload
    of [streamOnce], with its sender and receiver, refines the steps of
    [AuditStream]. *)

From Stdlib Require Import ZArith Lia Ascii String.
From stdpp Require Import base tactics numbers list strings gmap relations.
From S2P Require Import Prelude GoStd EbpfMap BpfMap Pb Warrants Upstream Registry.
From S2P Require Import AuditQueue AuditStream.
Import pb.

(** * The loop *)

(** A kind of stream, over a state [X] that outlives it: how it starts, the
    client's own steps while the loop's context is done or not, what the other
    end and the transport do, what happens to [X] in any case, and when the
    function returns, with its first result. *)
Class Stream (X B : Type) := {
  sm_open : X → X * B;
  sm_own : bool → X * B → X * B → Prop;
  sm_env : X * B → X * B → Prop;
  sm_out : X → X → Prop;
  sm_result : B → option bool
}.

(** Opening the stream, in it, after it with its first result, in the [select]
    with the delay and the next backoff, returned. *)
Inductive loop_pc (B : Type) :=
  | LConnecting (backoff : Z)
  | LUp (backoff : Z) (b : B)
  | LEnded (backoff : Z) (progress : bool)
  | LSleeping (delay next : Z)
  | LReturned (e : error).
Arguments LConnecting {_}.
Arguments LUp {_}.
Arguments LEnded {_}.
Arguments LSleeping {_}.
Arguments LReturned {_}.

(** [lp_ends] has whether each stream so far was healthy, [lp_slept] the delays. *)
Record loop (X B : Type) := mkLoop {
  lp_ctx : bool; lp_x : X; lp_pc : loop_pc B; lp_ends : list bool; lp_slept : list Z
}.
Arguments mkLoop {_ _}.
Arguments lp_ctx {_ _}.
Arguments lp_x {_ _}.
Arguments lp_pc {_ _}.
Arguments lp_ends {_ _}.
Arguments lp_slept {_ _}.

Section loop.
Context {X B : Type} `{Stream X B} (c : Client).

(** The goroutine's own steps.  Opening a stream fails when the context is done;
    [long] says the stream stayed up for [maxBackoff]. *)
Inductive loop_own : loop X B → loop X B → Prop :=
  | LoOpenDone x bk en sl :
      loop_own (mkLoop true x (LConnecting bk) en sl) (mkLoop true x (LEnded bk false) en sl)
  | LoStream ctx x b x' b' bk en sl :
      sm_own ctx (x, b) (x', b') →
      loop_own (mkLoop ctx x (LUp bk b) en sl) (mkLoop ctx x' (LUp bk b') en sl)
  | LoReturn ctx x b bk h en sl :
      sm_result b = Some h →
      loop_own (mkLoop ctx x (LUp bk b) en sl) (mkLoop ctx x (LEnded bk h) en sl)
  | LoCancelled x bk h en sl :
      loop_own (mkLoop true x (LEnded bk h) en sl) (mkLoop true x (LReturned ErrCanceled) en sl)
  | LoRetry x bk h long d nb en sl :
      next_backoff c bk (h || long) = (d, nb) →
      loop_own (mkLoop false x (LEnded bk h) en sl)
               (mkLoop false x (LSleeping d nb) (en ++ [h || long]) (sl ++ [d]))
  | LoWake ctx x d nb en sl :
      loop_own (mkLoop ctx x (LSleeping d nb) en sl) (mkLoop ctx x (LConnecting nb) en sl)
  | LoStop x d nb en sl :
      loop_own (mkLoop true x (LSleeping d nb) en sl) (mkLoop true x (LReturned ErrCanceled) en sl).

Inductive loop_env : loop X B → loop X B → Prop :=
  | LeSignal x pc en sl : loop_env (mkLoop false x pc en sl) (mkLoop true x pc en sl)
  | LeOpened ctx x x' b bk en sl :
      sm_open x = (x', b) →
      loop_env (mkLoop ctx x (LConnecting bk) en sl) (mkLoop ctx x' (LUp bk b) en sl)
  | LeRefused ctx x bk en sl :
      loop_env (mkLoop ctx x (LConnecting bk) en sl) (mkLoop ctx x (LEnded bk false) en sl)
  | LeStream ctx x b x' b' bk en sl :
      sm_env (x, b) (x', b') →
      loop_env (mkLoop ctx x (LUp bk b) en sl) (mkLoop ctx x' (LUp bk b') en sl)
  | LeOut ctx x x' pc en sl :
      sm_out x x' → loop_env (mkLoop ctx x pc en sl) (mkLoop ctx x' pc en sl).

Definition loop_step (l l' : loop X B) : Prop := loop_own l l' ∨ loop_env l l'.
Definition loop_start (x : X) : loop X B := mkLoop false x (LConnecting (minBackoff c)) [] [].

(** * What the loop needs of its streams *)

Definition live (pc : loop_pc B) : option B := match pc with LUp _ b => Some b | _ => None end.

(** A fact kept by every step, with a stream or without; own steps that come to
    an end; and an own step to take, once the context is done, until the function
    can return. *)
Class StreamLaws (ok : X → option B → Prop) (left : X → B → nat) : Prop := {
  sl_open x x' b : ok x None → sm_open x = (x', b) → ok x' (Some b);
  sl_own ctx x b x' b' : ok x (Some b) → sm_own ctx (x, b) (x', b') →
    ok x' (Some b') ∧ (left x' b' < left x b)%nat;
  sl_env x b x' b' : ok x (Some b) → sm_env (x, b) (x', b') → ok x' (Some b');
  sl_out x x' ob : ok x ob → sm_out x x' → ok x' ob;
  sl_end x b : ok x (Some b) → ok x None;
  sl_progress x b : ok x (Some b) → sm_result b = None → ∃ y, sm_own true (x, b) y
}.

(** The backoff after these streams. *)
Definition backoff_after (ends : list bool) : Z :=
  foldl (λ b h, snd (next_backoff c b h)) (minBackoff c) ends.
Definition pc_backoff (pc : loop_pc B) : option Z :=
  match pc with
  | LConnecting b | LUp b _ | LEnded b _ | LSleeping _ b => Some b
  | LReturned _ => None
  end.

Lemma delays_snoc b ends h :
  delays c b (ends ++ [h]) =
  delays c b ends ++ [fst (next_backoff c (foldl (λ b h, snd (next_backoff c b h)) b ends) h)].
Proof. revert b. induction ends as [|h' ends IH]; intros b; simpl; [done|]. by rewrite IH. Qed.

Section laws.
Context (ok : X → option B → Prop) (left : X → B → nat) `{!StreamLaws ok left}.

Lemma ok_own ctx x b x' b' : ok x (Some b) → sm_own ctx (x, b) (x', b') → ok x' (Some b').
Proof. intros Hx Hs. by apply (sl_own (left := left) _ _ _ _ _ Hx Hs). Qed.
Lemma ok_open x x' b : ok x None → sm_open x = (x', b) → ok x' (Some b).
Proof. apply (sl_open (left := left)). Qed.
Lemma ok_env x b x' b' : ok x (Some b) → sm_env (x, b) (x', b') → ok x' (Some b').
Proof. apply (sl_env (left := left)). Qed.
Lemma ok_out x x' ob : ok x ob → sm_out x x' → ok x' ob.
Proof. apply (sl_out (left := left)). Qed.
Lemma ok_end x b : ok x (Some b) → ok x None.
Proof. apply (sl_end (left := left)). Qed.

Record linv (l : loop X B) : Prop := mkLinv {
  li_ok : ok (lp_x l) (live (lp_pc l));
  li_slept : lp_slept l = reconnect_delays c (lp_ends l);
  li_backoff : ∀ b, pc_backoff (lp_pc l) = Some b → b = backoff_after (lp_ends l);
  li_returned : ∀ e, lp_pc l = LReturned e → e = ErrCanceled ∧ lp_ctx l = true
}.

Lemma loop_start_inv x : ok x None → linv (loop_start x).
Proof. intros Hx. split; simpl; [done|done|by intros ? [= <-]|done]. Qed.

Lemma loop_own_inv l l' : linv l → loop_own l l' → linv l'.
Proof.
  intros [Hok Hsl Hbk Hrt] Hs. destruct Hs as [| | | |x bk h long d nb en sl E| |]; split; simpl in *;
    try done; eauto using ok_end, ok_own; try (by intros ? [= <-]).
  - rewrite Hsl. unfold reconnect_delays. rewrite delays_snoc. rewrite (Hbk bk eq_refl) in E.
    unfold backoff_after in E. by rewrite E.
  - intros ? [= <-]. unfold backoff_after. rewrite foldl_app.
    change (nb = snd (next_backoff c (backoff_after en) (h || long))). by rewrite <- (Hbk bk eq_refl), E.
Qed.
Lemma loop_env_inv l l' : linv l → loop_env l l' → linv l'.
Proof.
  intros [Hok Hsl Hbk Hrt] Hs. destruct Hs; split; simpl in *; try done; eauto using ok_open, ok_env, ok_out.
  intros e ->. by destruct (Hrt e eq_refl).
Qed.
Lemma loop_steps_inv l l' : linv l → rtc loop_step l l' → linv l'.
Proof. intros Hl Hr. induction Hr as [|l l1 l' [Hs|Hs] _ IH]; eauto using loop_own_inv, loop_env_inv. Qed.

(** What is left to do before the goroutine has to wait for something. *)
Definition pc_left (ctx : bool) (x : X) (pc : loop_pc B) : nat :=
  match pc with
  | LReturned _ => 0
  | LEnded _ _ => if ctx then 1 else 3
  | LConnecting _ => if ctx then 2 else 0
  | LSleeping _ _ => if ctx then 3 else 1
  | LUp _ b => 4 + left x b
  end.
Lemma loop_own_less l l' :
  linv l → loop_own l l' →
  (pc_left (lp_ctx l') (lp_x l') (lp_pc l') < pc_left (lp_ctx l) (lp_x l) (lp_pc l))%nat.
Proof.
  intros [Hok _ _ _] Hs. destruct Hs; simpl in *; try lia; try (destruct ctx; simpl; lia).
  match goal with Hs : sm_own _ _ _ |- _ => destruct (sl_own (left := left) _ _ _ _ _ Hok Hs); lia end.
Qed.
Lemma loop_own_sn l : linv l → sn loop_own l.
Proof.
  remember (pc_left (lp_ctx l) (lp_x l) (lp_pc l)) as n eqn:Hn. revert l Hn.
  induction n as [n IH] using lt_wf_ind. intros l -> Hl. constructor. intros l' Hs.
  eapply IH; [by apply loop_own_less|done|by eapply loop_own_inv].
Qed.

Lemma loop_cancelled_progress l :
  linv l → lp_ctx l = true → (∀ e, lp_pc l ≠ LReturned e) → ∃ l', loop_own l l'.
Proof.
  intros [Hok _ _ _] Hc Hp. destruct l as [ctx x pc en sl]. simpl in *. subst ctx.
  destruct pc as [bk|bk b|bk h|d nb|e]; [eexists; constructor| |eexists; constructor|eexists; apply LoStop|].
  - destruct (sm_result b) as [h|] eqn:E; [eexists; by apply LoReturn|].
    destruct (sl_progress (left := left) x b Hok E) as [[x' b'] Hs]. eexists. by apply LoStream.
  - by destruct (Hp e).
Qed.
Lemma loop_own_ctx l l' : loop_own l l' → lp_ctx l' = lp_ctx l.
Proof. by intros []. Qed.
Lemma loop_owns_ctx l l' : rtc loop_own l l' → lp_ctx l' = lp_ctx l.
Proof. induction 1 as [|l l1 l' Hs _ IH]; [done|]. by rewrite IH, (loop_own_ctx _ _ Hs). Qed.

(** The goroutine comes to rest, after a signal only by returning; it returns
    only then; and its delays are those of [reconnect_delays]. *)
Definition stops (l : loop X B) : Prop :=
  sn loop_own l ∧
  (lp_ctx l = true → ∀ l', rtc loop_own l l' → nf loop_own l' → lp_pc l' = LReturned ErrCanceled) ∧
  (∀ e, lp_pc l = LReturned e → lp_ctx l = true) ∧
  lp_slept l = reconnect_delays c (lp_ends l).

Lemma loop_stops x l : ok x None → rtc loop_step (loop_start x) l → stops l.
Proof.
  intros Hx Hr. pose proof (loop_steps_inv _ _ (loop_start_inv x Hx) Hr) as Hl.
  split; [by apply loop_own_sn|]. split; [|split; [apply (λ e E, proj2 (li_returned _ Hl e E))|apply Hl]].
  intros Hc l' Hs Hnf.
  assert (linv l') as Hl'.
  { clear -Hl Hs StreamLaws0. induction Hs; eauto using loop_own_inv. }
  destruct (lp_pc l') as [| | | |e] eqn:E; [..|by destruct (li_returned _ Hl' e E) as [-> _]];
    exfalso; apply Hnf; (eapply loop_cancelled_progress; [done|by rewrite (loop_owns_ctx _ _ Hs)|by rewrite E]).
Qed.
End laws.
End loop.

(** * The upload stream *)

(** The queue, the batches on the wire and the ones the server committed. *)
Record upload := mkUpload { up_q : AuditQueue; up_flight : list parcel; up_db : list parcel }.

(** [streamOnce] itself: in [src.Next], in [st.Send], at [cancel()], reading
    [gotAck], which comes before the wait, and waiting for [recvErr]. *)
Inductive send_pc := SNext | SSend (p : parcel) | SCancel | SLoad | SWait (acked : bool).
(** The goroutine it starts: in [st.Recv], with an acknowledgement, noting it,
    sending its error, at its deferred [cancel()], returned. *)
Inductive recv_pc := RReading | RGot (ack : AuditAck) | RStore | RPost (e : error) | RCancel | RDone.

Record abody := mkBody {
  ab_cancelled : bool;        (* the stream's own context was cancelled *)
  ab_after : Z; ab_first : bool; ab_send : send_pc;
  ab_recv : recv_pc; ab_recvErr : option error; ab_gotAck : bool
}.

(** [Next]'s batch as it is sent: the first one names the node. *)
Definition outgoing (hello : NodeHello) (first : bool) (after : Z) (q : AuditQueue) (b : AuditBatch) : parcel :=
  (if first then set_Node b hello else b, List.filter (gap_between after (ab_LastNodeSeq b)) (gaps q)).

Definition fresh_body : abody := mkBody false 0 true SNext RReading None false.
Definition audit_open (x : upload) : upload * abody := (mkUpload (up_q x) [] (up_db x), fresh_body).

(** [ctx] is the loop's context; the stream's is done with it or by [cancel].
    [Next] looks at the context only when it has nothing to send. *)
Inductive audit_own (hello : NodeHello) (ctx : bool) : upload * abody → upload * abody → Prop :=
  | ANext q fl db cn af fi rc er ga b :
      next_pass af q = Some (Ok b) →
      audit_own hello ctx (mkUpload q fl db, mkBody cn af fi SNext rc er ga)
        (mkUpload q fl db, mkBody cn af fi (SSend (outgoing hello fi af q b)) rc er ga)
  | ANextDone q fl db cn af fi rc er ga :
      ctx || cn = true → next_pass af q = None →
      audit_own hello ctx (mkUpload q fl db, mkBody cn af fi SNext rc er ga)
        (mkUpload q fl db, mkBody cn af fi SCancel rc er ga)
  | ASend q fl db cn af fi rc er ga p :
      audit_own hello ctx (mkUpload q fl db, mkBody cn af fi (SSend p) rc er ga)
        (mkUpload q (fl ++ [p]) db, mkBody cn (ab_LastNodeSeq (fst p)) false SNext rc er ga)
  | ASendDone q fl db cn af fi rc er ga p :
      ctx || cn = true →
      audit_own hello ctx (mkUpload q fl db, mkBody cn af fi (SSend p) rc er ga)
        (mkUpload q fl db, mkBody cn af fi SCancel rc er ga)
  | ACancel x cn af fi rc er ga :
      audit_own hello ctx (x, mkBody cn af fi SCancel rc er ga) (x, mkBody true af fi SLoad rc er ga)
  | ALoad x cn af fi rc er ga :
      audit_own hello ctx (x, mkBody cn af fi SLoad rc er ga) (x, mkBody cn af fi (SWait ga) rc er ga)
  | ARecvDone x cn af fi sd er ga :
      ctx || cn = true →
      audit_own hello ctx (x, mkBody cn af fi sd RReading er ga) (x, mkBody cn af fi sd (RPost ErrCanceled) er ga)
  | AOtherEpoch q fl db cn af fi sd ack er ga :
      ak_SeqEpoch ack ≠ SeqEpoch q →
      audit_own hello ctx (mkUpload q fl db, mkBody cn af fi sd (RGot ack) er ga)
        (mkUpload q fl db, mkBody cn af fi sd RReading er ga)
  | AAck q fl db cn af fi sd ack er ga :
      ak_SeqEpoch ack = SeqEpoch q →
      audit_own hello ctx (mkUpload q fl db, mkBody cn af fi sd (RGot ack) er ga)
        (mkUpload (Ack (ak_SeqEpoch ack) (ak_AckedThroughNodeSeq ack) q) fl db, mkBody cn af fi sd RStore er ga)
  | AStore x cn af fi sd er ga :
      audit_own hello ctx (x, mkBody cn af fi sd RStore er ga) (x, mkBody cn af fi sd RReading er true)
  | APost x cn af fi sd e ga :
      audit_own hello ctx (x, mkBody cn af fi sd (RPost e) None ga) (x, mkBody cn af fi sd RCancel (Some e) ga)
  | ARecvReturn x cn af fi sd er ga :
      audit_own hello ctx (x, mkBody cn af fi sd RCancel er ga) (x, mkBody true af fi sd RDone er ga).

(** The server commits and acknowledges, in the order of the wire; a send or a
    receive fails. *)
Inductive audit_env : upload * abody → upload * abody → Prop :=
  | ECommit q p fl db b : audit_env (mkUpload q (p :: fl) db, b) (mkUpload q fl (db ++ [p]), b)
  | EAckArrives q fl db cn af fi sd er ga ack :
      ack_honest ack (mkSys q af fi fl db) →
      audit_env (mkUpload q fl db, mkBody cn af fi sd RReading er ga)
                (mkUpload q fl db, mkBody cn af fi sd (RGot ack) er ga)
  | ESendFails x cn af fi p rc er ga :
      audit_env (x, mkBody cn af fi (SSend p) rc er ga) (x, mkBody cn af fi SCancel rc er ga)
  | ERecvFails x cn af fi sd er ga e :
      audit_env (x, mkBody cn af fi sd RReading er ga) (x, mkBody cn af fi sd (RPost e) er ga).

(** Other goroutines append; the numbers do not run out. *)
Inductive audit_out : upload → upload → Prop :=
  | EAppend q fl db e q' n :
      nextSeq q + 1 < 2 ^ 64 → Append e q = Ok (q', n) → audit_out (mkUpload q fl db) (mkUpload q' fl db).

(** [return gotAck.Load(), <-recvErr] once there is an error. *)
Definition audit_result (b : abody) : option bool :=
  match ab_send b, ab_recvErr b with SWait acked, Some _ => Some acked | _, _ => None end.

Definition audit_stream (hello : NodeHello) : Stream upload abody := {|
  sm_open := audit_open; sm_own := audit_own hello; sm_env := audit_env; sm_out := audit_out;
  sm_result := audit_result
|}.

(** * The subscription stream *)

(** [subscribeOnce]: in [st.Recv], with a message, after an error. *)
Inductive sbody := BRecv (l : sub) | BHandle (l : sub) (m : PushMessage) | BFailed (l : sub).

Section subscription.
Context {T : Type} `{Applier T}.

Inductive sub_own (ctx : bool) : T * sbody → T * sbody → Prop :=
  | BoHandle s l m s' l' :
      sub_step m (l, s) (l', s') → sub_own ctx (s, BHandle l m) (s', BRecv l')
  | BoDone s l : ctx = true → sub_own ctx (s, BRecv l) (s, BFailed l).
Inductive sub_env : T * sbody → T * sbody → Prop :=
  | BeMessage s l m : sub_env (s, BRecv l) (s, BHandle l m)
  | BeFails s l : sub_env (s, BRecv l) (s, BFailed l).
Definition sub_result (b : sbody) : option bool :=
  match b with BFailed l => Some (resynced l) | _ => None end.

(** Between two messages the other goroutines may do anything to the node. *)
Definition sub_stream : Stream T sbody := {|
  sm_open := λ s, (s, BRecv fresh_sub); sm_own := sub_own; sm_env := sub_env; sm_out := λ _ _, True;
  sm_result := sub_result
|}.
End subscription.

(** What the loop relies on: [Resync] always comes to an end. *)
Class ApplierLaws (T : Type) `{Applier T} : Prop := {
  ap_Resync_total : ∀ keep s, ∃ s', ap_Resync keep s s'
}.
#[export] Instance registry_applier_laws `{Crypto} {N : Type} `{KernelWarrants N} : ApplierLaws (rstate N).
Proof. split. intros keep st. eexists. by exists (map_to_list (byID (rg st))). Qed.

(** * Lemmas *)

Lemma filter_length_lt {A} (f g : A → bool) (l : list A) x :
  (∀ y, f y = true → g y = true) → x ∈ l → f x = false → g x = true →
  (length (List.filter f l) < length (List.filter g l))%nat.
Proof.
  intros Hfg Hx Hf Hg. assert (∀ l', (length (List.filter f l') <= length (List.filter g l'))%nat) as Hle.
  { induction l' as [|y l' IH]; [done|]. simpl. specialize (Hfg y).
    destruct (f y), (g y); simpl; lia. }
  induction l as [|y l IH]; [by apply elem_of_nil in Hx|]. simpl.
  apply elem_of_cons in Hx as [<-|Hx].
  - rewrite Hf, Hg. simpl. specialize (Hle l). lia.
  - specialize (IH Hx). specialize (Hfg y). destruct (f y), (g y); simpl; lia.
Qed.

(** A batch leaves fewer events to send, an acknowledgement not more. *)
Lemma next_pass_fewer q after b :
  queue_inv q → next_pass after q = Some (Ok b) →
  (length (newer (ab_LastNodeSeq b) q) < length (newer after q))%nat.
Proof.
  intros Hq. rewrite next_pass_linear by done. unfold linear_Next.
  destruct (last _) as [e|] eqn:E; [|done]. intros [= <-]. simpl.
  apply last_Some_elem_of in E. apply elem_of_take in E as (i & E%list_elem_of_lookup_2 & _).
  unfold newer in E. apply list_elem_of_In, List.filter_In in E as [Hin%list_elem_of_In Hlt].
  apply Z.ltb_lt in Hlt.
  apply (filter_length_lt _ _ _ e); [|done|by apply Z.ltb_irrefl|by apply Z.ltb_lt].
  intros y. rewrite !Z.ltb_lt. lia.
Qed.
Lemma Ack_fewer q ep n after : queue_inv q → (length (newer after (Ack ep n q)) <= length (newer after q))%nat.
Proof.
  intros Hq. rewrite Ack_linear by done. unfold linear_Ack. destruct (negb _); [done|].
  unfold newer. simpl. generalize (events q). clear Hq. induction l as [|e l IH]; [done|]. simpl.
  destruct (n <? ae_NodeSeq e); simpl; destruct (after <? ae_NodeSeq e); simpl; lia.
Qed.

Section audit_laws.
Context (hello : NodeHello) (ep maxE maxB : Z) (HE : 1 <= maxE) (HB : 1 <= maxB).

(** The state of [AuditStream] this one stands for: a batch [Next] has handed out
    is already on its wire. *)
Definition recv_ok (rc : recv_pc) (er : option error) (a : sys) : Prop :=
  match rc with
  | RGot ack => er = None ∧ ack_honest ack a
  | RCancel | RDone => is_Some er
  | _ => er = None
  end.
Definition send_ok (x : upload) (b : abody) (a : sys) : Prop :=
  match ab_send b with
  | SNext => s_flight a = up_flight x ∧ s_after a = ab_after b ∧ s_first a = ab_first b
  | SSend p => s_flight a = up_flight x ++ [p] ∧ s_after a = ab_LastNodeSeq (fst p) ∧ s_first a = false
  | _ => ∃ rest, s_flight a = up_flight x ++ rest
  end.
Definition stands_for (x : upload) (ob : option abody) (a : sys) : Prop :=
  s_q a = up_q x ∧ s_db a = up_db x ∧
  match ob with Some b => recv_ok (ab_recv b) (ab_recvErr b) a ∧ send_ok x b a | None => True end.
Definition refines_stream (x : upload) (ob : option abody) : Prop :=
  ∃ a, rtc (sys_step hello) (init ep maxE maxB) a ∧ stands_for x ob a.

Definition recv_left (rc : recv_pc) : nat :=
  match rc with RGot _ => 5 | RStore => 4 | RReading => 3 | RPost _ => 2 | RCancel => 1 | RDone => 0 end.
Definition send_left (x : upload) (b : abody) : nat :=
  match ab_send b with
  | SNext => 5 + 2 * length (newer (ab_after b) (up_q x))
  | SSend p => 6 + 2 * length (newer (ab_LastNodeSeq (fst p)) (up_q x))
  | SCancel => 2 | SLoad => 1 | SWait _ => 0
  end.
Definition audit_left (x : upload) (b : abody) : nat := send_left x b + recv_left (ab_recv b).

Lemma reached_queue a : rtc (sys_step hello) (init ep maxE maxB) a → queue_inv (s_q a).
Proof. intros Hr. eapply sys_reach_inv in Hr as [Hq _ _ _ _]; [done|by apply init_inv]. Qed.
Lemma refines_queue x ob : refines_stream x ob → queue_inv (up_q x).
Proof. intros (a & Hr & <- & _). by apply reached_queue. Qed.

(** The abstract state may stay, or take one step. *)
Lemma refines_stay x ob x' ob' :
  refines_stream x ob → (∀ a, stands_for x ob a → stands_for x' ob' a) → refines_stream x' ob'.
Proof. intros (a & Hr & Hs) Hk. exists a. by auto. Qed.
Lemma refines_step x ob x' ob' :
  refines_stream x ob → (∀ a, stands_for x ob a → ∃ a', sys_step hello a a' ∧ stands_for x' ob' a') →
  refines_stream x' ob'.
Proof.
  intros (a & Hr & Hs) Hk. destruct (Hk a Hs) as (a' & Hst & Hs'). exists a'. split; [|done].
  eapply rtc_r; done.
Qed.

Lemma recv_ok_ext rc er a a' :
  recv_ok rc er a → epoch (s_q a') = epoch (s_q a) → (∀ p, p ∈ s_db a → p ∈ s_db a') → recv_ok rc er a'.
Proof.
  intros Hr He Hd. destruct rc; try done. destruct Hr as [-> Hh]. split; [done|]. intros Ex.
  rewrite He in Ex. destruct (Hh Ex) as (p & Hp & ?). by eauto.
Qed.

Lemma audit_next_refines q fl db cn af fi rc er ga b :
  next_pass af q = Some (Ok b) →
  refines_stream (mkUpload q fl db) (Some (mkBody cn af fi SNext rc er ga)) →
  refines_stream (mkUpload q fl db) (Some (mkBody cn af fi (SSend (outgoing hello fi af q b)) rc er ga)).
Proof.
  intros Hn Hx. apply (refines_step _ _ _ _ Hx). intros a (Hq & Hdb & Hrc & Hfl & Haf & Hfi). simpl in *.
  eexists. split; [apply StepStream, StepSend; unfold send_round; rewrite Hq, Haf, Hn, Hfi; done|].
  unfold stands_for, send_ok, outgoing. simpl. split; [done|]. split; [done|].
  split; [eapply recv_ok_ext; [done|by rewrite Hq|done]|]. rewrite Hfl. by split.
Qed.
Lemma audit_ack_refines q fl db cn af fi sd ack er ga :
  ak_SeqEpoch ack = SeqEpoch q →
  refines_stream (mkUpload q fl db) (Some (mkBody cn af fi sd (RGot ack) er ga)) →
  refines_stream (mkUpload (Ack (ak_SeqEpoch ack) (ak_AckedThroughNodeSeq ack) q) fl db)
    (Some (mkBody cn af fi sd RStore er ga)).
Proof.
  intros He Hx. apply (refines_step _ _ _ _ Hx). intros a (Hq & Hdb & Hrc & Hsd). simpl in *.
  destruct Hrc as [-> Hh].
  exists (recv_round ack a). split; [by apply StepStream, StepAck|].
  unfold recv_round. rewrite Hq, (proj2 (Z.eqb_eq _ _) He). simpl. by split.
Qed.

Lemma audit_own_refines ctx x b x' b' :
  audit_own hello ctx (x, b) (x', b') → refines_stream x (Some b) → refines_stream x' (Some b').
Proof.
  intros Hs Hx. inversion Hs; subst; try (by eapply audit_next_refines); try (by apply audit_ack_refines);
    apply (refines_stay _ _ _ _ Hx); intros a (Hq & Hdb & Hrc & Hsd);
    (split; [exact Hq|]; split; [exact Hdb|]; unfold send_ok, recv_ok in *; simpl in *).
  all: try (by split); try (split; [exact Hrc|by eauto]); try (destruct Hsd as [? _]; by eauto).
  - split; [exact Hrc|]. exists []. rewrite app_nil_r. by apply Hsd.
  - split; [by apply Hrc|done].
Qed.

Lemma audit_own_less ctx x b x' b' :
  audit_own hello ctx (x, b) (x', b') → refines_stream x (Some b) → (audit_left x' b' < audit_left x b)%nat.
Proof.
  intros Hs Hq%refines_queue. unfold audit_left. inversion Hs; subst; unfold send_left; simpl in *; try lia.
  - match goal with Hn : next_pass _ _ = _ |- _ => pose proof (next_pass_fewer _ _ _ Hq Hn) end.
    destruct fi; simpl; lia.
  - match goal with |- context [Ack ?e ?n ?q] => pose proof (λ k, Ack_fewer q e n k Hq) as Hf end.
    destruct sd as [|p| | |]; try lia; [specialize (Hf af)|specialize (Hf (ab_LastNodeSeq (fst p)))]; lia.
Qed.

Lemma audit_env_refines x b x' b' :
  audit_env (x, b) (x', b') → refines_stream x (Some b) → refines_stream x' (Some b').
Proof.
  intros Hs Hx. inversion Hs; subst.
  - apply (refines_step _ _ _ _ Hx). intros a (Hq & Hdb & Hrc & Hsd). simpl in *.
    assert (∃ rest, s_flight a = p :: rest) as [rest Hfl].
    { unfold send_ok in Hsd. simpl in Hsd. destruct (ab_send b'); naive_solver. }
    eexists. split; [by apply StepStream, (StepCommit _ _ p rest)|]. split; [done|]. simpl.
    rewrite Hdb. split; [done|]. split.
    + eapply recv_ok_ext; [done|done|]. simpl. intros p' Hp'. apply elem_of_app. left. by rewrite <- Hdb.
    + unfold send_ok in *. simpl in *. rewrite Hfl in Hsd. destruct (ab_send b');
      try (destruct Hsd as [[= ->] ?]; by split); destruct Hsd as [r [= ->]]; by exists r.
  - apply (refines_stay _ _ _ _ Hx). intros a (Hq & Hdb & Hrc & Hsd). split; [done|]. split; [done|].
    split; [|done]. simpl in *. split; [done|]. intros Ex. rewrite Hq in Ex. rewrite Hdb. by auto.
  - apply (refines_stay _ _ _ _ Hx). intros a (Hq & Hdb & Hrc & Hsd). split; [done|]. split; [done|].
    split; [done|]. unfold send_ok in *. simpl in *. destruct Hsd as [? _]. by eauto.
  - by apply (refines_stay _ _ _ _ Hx).
Qed.

Lemma audit_out_refines x x' ob : audit_out x x' → refines_stream x ob → refines_stream x' ob.
Proof.
  intros Hs Hx. destruct Hs as [q fl db e q' n Hn HA]. apply (refines_step _ _ _ _ Hx).
  intros a (Hq & Hdb & Hob). simpl in *. subst q. exists (mkSys q' (s_after a) (s_first a) (s_flight a) (s_db a)).
  split; [apply (StepAppend _ _ e); [done|]; unfold append_round; by rewrite HA|].
  split; [done|]. split; [done|]. destruct ob as [b|]; [|done]. destruct Hob as [Hrc Hsd].
  split; [|done]. eapply recv_ok_ext; [done| |done]. simpl.
  assert (queue_inv (s_q a)) as Hqi by exact (refines_queue _ _ Hx).
  destruct (Append_spec (s_q a) e Hqi Hn) as (q2 & HA2 & _ & [He _] & _). congruence.
Qed.

Lemma audit_progress x b :
  refines_stream x (Some b) → audit_result b = None → ∃ y, audit_own hello true (x, b) y.
Proof.
  intros Hx Hn. pose proof (refines_queue _ _ Hx) as Hq. destruct Hx as (a & _ & _ & _ & Hrc & _).
  destruct x as [q fl db], b as [cn af fi sd rc er ga]. simpl in *.
  destruct sd as [|p| | |acked]; [|by eexists; apply ASend|by eexists; apply ACancel|by eexists; apply ALoad|].
  - pose proof (next_pass_linear q af Hq) as Hl. destruct (linear_Next af q) as [b|].
    + eexists. by apply ANext.
    + eexists. by apply ANextDone.
  - unfold audit_result in Hn. simpl in Hn. destruct er as [e|]; [done|].
    destruct rc as [|ack| |e| |]; [by eexists; apply ARecvDone| |by eexists; apply AStore|by eexists; apply APost|
      by destruct Hrc|by destruct Hrc].
    destruct (decide (ak_SeqEpoch ack = SeqEpoch q)); eexists; [by apply AAck|by apply AOtherEpoch].
Qed.

Lemma audit_laws : StreamLaws (H := audit_stream hello) refines_stream audit_left.
Proof.
  split; simpl; eauto using audit_env_refines, audit_out_refines, audit_progress.
  - intros x x' b Hx [= <- <-]. apply (refines_step _ _ _ _ Hx). intros a (Hq & Hdb & _).
    exists (new_stream a). by split; [apply StepStream, StepBreak|].
  - intros ctx x b x' b' Hx Hs. split; [by eapply audit_own_refines|by eapply audit_own_less].
  - intros x b Hx. apply (refines_stay _ _ _ _ Hx). by intros a (? & ? & _).
Qed.
Lemma audit_start_ok : refines_stream (mkUpload (NewAuditQueue ep maxE maxB) [] []) None.
Proof. by exists (init ep maxE maxB). Qed.
End audit_laws.

Section sub_laws.
Context {T : Type} `{ApplierLaws T}.
Definition sub_left (_ : T) (b : sbody) : nat :=
  match b with BHandle _ _ => 2 | BRecv _ => 1 | BFailed _ => 0 end.

(** Every message can be handled. *)
Lemma sub_step_total m l (s : T) : ∃ c', sub_step m (l, s) c'.
Proof.
  destruct m as [env|n|].
  - destruct (ap_Apply env s) as [s' [id err]] eqn:E. eexists. by eapply SubWarrant.
  - destruct (resynced l) eqn:Er; [by eexists; apply SubAgain|].
    destruct (Z.lt_ge_cases (u32 (Z.of_nat (size (seen l)))) n); [by eexists; apply SubSkip|].
    destruct (ap_Resync_total (seen l) s) as [s' Hs]. by eexists; eapply SubResync.
  - eexists. apply SubOther.
Qed.
Lemma sub_laws : StreamLaws (H := sub_stream) (λ _ _, True) sub_left.
Proof.
  split; simpl; try done.
  - intros ctx x b x' b' _ Hs. split; [done|]. inversion Hs; subst; simpl; lia.
  - intros s [l|l m|l] _ Hn; [by eexists; apply BoDone| |done].
    destruct (sub_step_total m l s) as [[l' s'] Hs]. eexists. by apply BoHandle.
Qed.
End sub_laws.

(** * Properties *)

(** C30: the upload goroutine loses nothing.  Let [StreamAudit] run with its
    reconnecting, the sender and the receiver of each stream interleaved at every
    queue operation, channel operation and cancellation, streams failing at any
    point, the server committing and acknowledging, other goroutines appending.
    Queue and server are then in a state of the abstract protocol of
    [AuditStream]; so every number given out is in the queue, in a gap the queue
    holds, or at the server.  And when [streamOnce] returns, its receiver has
    touched the queue for the last time, so no acknowledgement of an old stream
    is applied during a new one. *)
Theorem upload_loses_nothing (c : Client) hello ep maxE maxB l :
  1 <= maxE → 1 <= maxB →
  rtc (loop_step (H := audit_stream hello) c) (loop_start c (mkUpload (NewAuditQueue ep maxE maxB) [] [])) l →
  let q := up_q (lp_x l) in let db := up_db (lp_x l) in
  (∃ a, rtc (sys_step hello) (init ep maxE maxB) a ∧ s_q a = q ∧ s_db a = db) ∧
  (∀ n, 1 <= n < nextSeq q → holds_seq (events q) n ∨ gaps_cover (gaps q) n ∨ db_has db n) ∧
  (∀ bk b h, lp_pc l = LUp bk b → audit_result b = Some h → ab_recv b = RCancel ∨ ab_recv b = RDone).
Proof.
  intros HE HB Hr q db.
  pose proof (audit_laws hello ep maxE maxB HE HB) as Hlaws.
  pose proof (loop_steps_inv (H := audit_stream hello) c _ _ _ _
    (loop_start_inv c _ _ (audit_start_ok hello ep maxE maxB)) Hr) as [Hok _ _ _].
  destruct Hok as (a & Ha & Hq & Hdb & Hlive). split; [by exists a|]. split.
  - apply sys_reach_inv in Ha as [_ Hacc _ _ _]; [|by apply init_inv]. unfold q, db.
    by rewrite <- Hq, <- Hdb.
  - intros bk b h Hpc Hres. rewrite Hpc in Hlive. simpl in Hlive. destruct Hlive as [Hrc _].
    unfold audit_result in Hres. destruct (ab_send b), (ab_recvErr b); try done.
    destruct (ab_recv b) as [|ack| |e'| |]; simpl in Hrc; try done; [by destruct Hrc|by left|by right].
Qed.

(** C31: both goroutines that talk to the server stop when they are told to.  In
    every reachable state of [StreamAudit] and of [Subscribe] their own steps come
    to an end (no stream, sender or receiver spins), and once the context is
    cancelled they can only end with the goroutine returned, whatever it was doing:
    connecting, waiting for [recvErr], in the middle of a message or asleep.  They
    return only then, and the delays slept are those of [reconnect_delays]. *)
Theorem reconnect_loops_stop {T : Type} `{ApplierLaws T} (c : Client) hello ep maxE maxB (t : T) l l' :
  1 <= maxE → 1 <= maxB →
  rtc (loop_step (H := audit_stream hello) c) (loop_start c (mkUpload (NewAuditQueue ep maxE maxB) [] [])) l →
  rtc (loop_step (H := sub_stream) c) (loop_start c t) l' →
  stops (H := audit_stream hello) c l ∧ stops (H := sub_stream) c l'.
Proof.
  intros HE HB Hl Hl'. split.
  - pose proof (audit_laws hello ep maxE maxB HE HB) as Hlaws.
    eapply (loop_stops (H := audit_stream hello) c _ _ _ _ (audit_start_ok hello ep maxE maxB)), Hl.
  - pose proof (sub_laws (T := T)) as Hlaws. by apply (loop_stops (H := sub_stream) c _ _ t).
Qed.

(** * Witnesses *)

Definition demo_q : AuditQueue :=
  Eval vm_compute in match Append (demo_event 10) (NewAuditQueue 5 2 10) with
                     | Ok (q, _) => q
                     | _ => NewAuditQueue 5 2 10
                     end.
Definition demo_batch : AuditBatch :=
  Eval vm_compute in match next_pass 0 demo_q with Some (Ok b) => b | _ => mkAuditBatch None [] [] 0 0 end.
Definition demo_parcel : parcel := outgoing demo_hello true 0 demo_q demo_batch.

(** The first dial is refused, the second stream sends the event, the server
    commits it, and the signal arrives. *)
Definition demo_upload : loop upload abody :=
  mkLoop true (mkUpload demo_q [] [demo_parcel])
    (LUp 2000000000 (mkBody false 1 false SNext RReading None false)) [false] [1000000000].
Lemma demo_upload_reached :
  rtc (loop_step (H := audit_stream demo_hello) dialed)
    (loop_start dialed (mkUpload (NewAuditQueue 5 2 10) [] [])) demo_upload.
Proof.
  eapply rtc_l; [right; apply LeRefused|].
  eapply rtc_l; [left; apply (LoRetry (H := audit_stream demo_hello) _ _ _ _ false); reflexivity|].
  eapply rtc_l; [left; apply LoWake|].
  eapply rtc_l; [right; apply (LeOpened (H := audit_stream demo_hello)); reflexivity|].
  eapply rtc_l; [right; apply (LeOut (H := audit_stream demo_hello)), (EAppend _ _ _ (demo_event 10) demo_q 1); reflexivity|].
  eapply rtc_l; [left; apply (LoStream (H := audit_stream demo_hello)), (ANext _ _ _ _ _ _ _ _ _ _ _ demo_batch); reflexivity|].
  eapply rtc_l; [left; apply (LoStream (H := audit_stream demo_hello)), ASend|].
  eapply rtc_l; [right; apply (LeStream (H := audit_stream demo_hello)), ECommit|].
  eapply rtc_l; [right; apply LeSignal|]. apply rtc_refl.
Defined.
Lemma upload_loses_nothing_witness :
  holds_seq (events demo_q) 1 ∨ gaps_cover (gaps demo_q) 1 ∨ db_has [demo_parcel] 1.
Proof.
  destruct (upload_loses_nothing dialed demo_hello 5 2 10 demo_upload ltac:(lia) ltac:(lia) demo_upload_reached)
    as (_ & Hn & _).
  apply (Hn 1). simpl. lia.
Defined.

(** A subscription asleep after a refused dial when the signal arrives. *)
#[local] Existing Instance log_applier.
#[local] Instance log_applier_laws : ApplierLaws (list (gset Z)).
Proof. split. intros keep s. by eexists. Qed.
Definition demo_sub : loop (list (gset Z)) sbody :=
  mkLoop true [] (LSleeping 1000000000 2000000000) [false] [1000000000].
Lemma demo_sub_reached : rtc (loop_step (H := sub_stream) dialed) (loop_start dialed []) demo_sub.
Proof.
  eapply rtc_l; [right; apply LeRefused|].
  eapply rtc_l; [left; apply (LoRetry (H := sub_stream) _ _ _ _ false); reflexivity|].
  eapply rtc_l; [right; apply LeSignal|]. apply rtc_refl.
Defined.
Lemma reconnect_loops_stop_witness :
  stops (H := audit_stream demo_hello) dialed demo_upload ∧ stops (H := sub_stream) dialed demo_sub.
Proof.
  apply (reconnect_loops_stop dialed demo_hello 5 2 10 [] demo_upload demo_sub);
    [lia|lia|exact demo_upload_reached|exact demo_sub_reached].
Defined.
