(* ===== verification/Binder.v ===== *)
(** Binding sessions to warrants (agent/cmd/warrantd/binder.go): a PAM session is
    matched with the registry's warrants, its cgroup is tagged, and a session
    without a warrant is put on the audit queue. *)

From Stdlib Require Import ZArith Lia Ascii String.
From stdpp Require Import base tactics numbers list strings gmap relations.
From S2P Require Import Prelude GoStd GoNet EbpfMap Os BpfMap Concrete Kernel.
From S2P Require Import Policy Session Pb Warrants Upstream Registry Node AuditQueue.
From S2P Require Import Pamsock.

(** * Operations *)

(** The binder's view of the agent: the registry with its node, and the audit
    queue when there is an upstream. *)
Record bstate `{Crypto} `{KernelMaps} := mkBstate {
  b_reg : rstate node;
  b_audit : option AuditQueue
}.

Definition unwarrantedEvent (r : Request) (fp : string) (reason now : Z) : pb.AuditEvent :=
  pb.mkAuditEvent 0 0 0 pb.Hook_HOOK_AGENT pb.Verdict_VERDICT_ALLOW 0 0 (u64 now) 0 0 0
    pb.TagSource_TAG_NONE None
    (Some (pb.AuditEvent_UnwarrantedSession
       (pb.mkUnwarrantedSessionEvent (LoginAccount r) (RHost r) (CgroupID r) (SessionID r) reason fp)))
    pb.Origin_ORIGIN_AGENT.

Section binder.
Context `{Os} `{WallClock} `{KernelMaps} `{Crypto} `{SshKeys}.

Definition on_node {A} (m : M node A) : M bstate A :=
  λ b, let '(st', r) := lift m (b_reg b) in (mkBstate _ _ st' (b_audit b), r).

(** [unwarranted]: log it and queue it. *)
Definition unwarranted (r : Request) (fp : string) (reason now : Z) : M bstate unit :=
  λ b, match b_audit b with
       | None => (b, Ok tt)
       | Some q =>
           match Append (unwarrantedEvent r fp reason now) q with
           | Ok (q', _) => (mkBstate _ _ (b_reg b) (Some q'), Ok tt)
           | Err e => (b, Err e)
           | Panic p => (b, Panic p)
           end
       end.

(** The fingerprint, empty when it cannot be computed. *)
Definition key_of (authInfo : string) : string :=
  match Fingerprint authInfo with Ok fp => fp | _ => "" end.

Definition now_ : M bstate Z := on_node (tick (λ t, Ok (wall_clock t))).

(** [Bind], with the order in which the registry's entries are ranged over. *)
Definition Bind (order : list (Z * entry)) (r : Request) : M bstate Z :=
  let fp := key_of (AuthInfo r) in
  do t := now_ in
  match reg_match order (LoginAccount r) fp t with
  | (Some w, _) =>
      let id := pb.w_WarrantId w in
      if CgroupID r =? 0 then
        do t' := now_ in
        unwarranted r fp pb.REASON_NO_WARRANT t' ;;;
        mok 0
      else
        λ b, match on_node (on_maps (TagCgroup (CgroupID r) id)) b with
             | (b', Ok _) => (b', Ok id)
             | (b', Err e) =>
                 (do t' := now_ in
                  unwarranted r fp pb.REASON_NO_WARRANT t' ;;;
                  merr (EWrap ("tag cgroup " +:+ fmt_u (CgroupID r) +:+ " with warrant " +:+
                               fmt_u id +:+ ": ") e)) b'
             | (b', Panic p) => (b', Panic p)
             end
  | (None, reason) =>
      do t' := now_ in
      unwarranted r fp reason t' ;;;
      mok 0
  end.

Definition Unbind (cgroupID : Z) : M bstate unit := on_node (on_maps (UntagCgroup cgroupID)).

(** The binder as the socket's loop sees it; entries are ranged over as the map
    lists them. *)
#[export] Instance binder_pam : Binder bstate := {
  bd_Bind r b := Bind (map_to_list (byID (rg (b_reg b)))) r b;
  bd_Unbind := Unbind
}.
End binder.

(** * Lemmas *)

Section lemmas.
Context `{Os} `{WallClock} `{KernelMaps} `{!KernelMapsLaws} `{Crypto} `{SshKeys}.
Implicit Types b : bstate.

Definition b_maps b : Maps := n_maps (nd (b_reg b)).

(** Reading the clock only moves time. *)
Definition only_time b b' : Prop :=
  rg (b_reg b') = rg (b_reg b) ∧ b_maps b' = b_maps b ∧ b_audit b' = b_audit b.

Lemma now_run b : ∃ b' t, now_ b = (b', Ok t) ∧ only_time b b'.
Proof. eexists _, _. split; [reflexivity|]. done. Qed.

(** Tagging changes the tags only. *)
Lemma tag_run cg id b b' r :
  on_node (on_maps (TagCgroup cg id)) b = (b', r) →
  rg (b_reg b') = rg (b_reg b) ∧ b_audit b' = b_audit b ∧
  activeFlag (b_maps b') = activeFlag (b_maps b) ∧ warrants (b_maps b') = warrants (b_maps b) ∧
  same_rules (b_maps b) (b_maps b') ∧ (∀ p, r ≠ Panic p) ∧
  ∀ k, hm_get (cgroupWarrant (b_maps b')) k =
       if decide (r = Ok tt ∧ k = cg) then Some id else hm_get (cgroupWarrant (b_maps b)) k.
Proof.
  unfold on_node, lift, on_maps, TagCgroup, finish, b_maps.
  destruct (hm_Put _ _ _) as [t [e|]] eqn:Ep; simpl; intros [= <- <-]; simpl;
    do 6 (split; [done|]); intros k.
  - rewrite (hm_Put_err _ _ _ _ _ Ep). repeat case_decide; naive_solver.
  - rewrite (hm_Put_ok _ _ _ _ Ep). repeat case_decide; naive_solver.
Qed.

(** Queueing an unwarranted session, and nothing else. *)
Lemma unwarranted_run r fp reason now b q :
  b_audit b = Some q → queue_inv q → nextSeq q + 1 < 2 ^ 64 →
  ∃ q', Append (unwarrantedEvent r fp reason now) q = Ok (q', nextSeq q) ∧
        unwarranted r fp reason now b = (mkBstate _ _ (b_reg b) (Some q'), Ok tt).
Proof.
  intros Hb Hq Hn. destruct (Append_spec q (unwarrantedEvent r fp reason now) Hq Hn) as (q' & HA & _).
  exists q'. split; [done|]. unfold unwarranted. by rewrite Hb, HA.
Qed.

(** A queued session: the registry, the maps' content and the tags are the same,
    and the queue has one more event. *)
Definition queued (r : Request) b b' (q : AuditQueue) : Prop :=
  rg (b_reg b') = rg (b_reg b) ∧
  (∀ k, hm_get (cgroupWarrant (b_maps b')) k = hm_get (cgroupWarrant (b_maps b)) k) ∧
  warrants (b_maps b') = warrants (b_maps b) ∧
  ∃ reason t q', reason ≠ pb.REASON_UNSPECIFIED ∧
    Append (unwarrantedEvent r (key_of (AuthInfo r)) reason t) q = Ok (q', nextSeq q) ∧
    b_audit b' = Some q'.

Lemma queue_round {A} r reason b b1 (k : M bstate A) q :
  reason ≠ pb.REASON_UNSPECIFIED → queue_inv q → nextSeq q + 1 < 2 ^ 64 → b_audit b = Some q →
  rg (b_reg b1) = rg (b_reg b) → b_audit b1 = b_audit b → warrants (b_maps b1) = warrants (b_maps b) →
  (∀ k, hm_get (cgroupWarrant (b_maps b1)) k = hm_get (cgroupWarrant (b_maps b)) k) →
  ∃ b2, (do t' := now_ in unwarranted r (key_of (AuthInfo r)) reason t' ;;; k) b1 = k b2 ∧
        queued r b b2 q.
Proof.
  intros Hr Hq Hn Ha E1 E2 E3 E4.
  destruct (now_run b1) as (b2 & t' & E & Hrg & Hm & Hau).
  destruct (unwarranted_run r (key_of (AuthInfo r)) reason t' b2 q) as (q' & HA & Hu); [congruence|done|done|].
  eexists. split.
  - rewrite (mbnd_run _ _ _ _ _ E). rewrite (mbnd_run _ _ _ _ _ Hu). reflexivity.
  - split; [simpl; congruence|]. unfold b_maps in *. simpl. rewrite Hm. split; [done|].
    split; [done|]. by exists reason, t', q'.
Qed.

Lemma reg_match_entry order (st : rstate node) account fp t w reason :
  order ≡ₚ map_to_list (byID (rg st)) →
  reg_match order account fp t = (Some w, reason) →
  ∃ id e, byID (rg st) !! id = Some e ∧ e_w e = w ∧ eligible account t w ∧ carries fp w.
Proof.
  intros Hp. unfold reg_match, matchWarrant. case_bool_decide; [done|].
  pose proof (match_inv_fold account fp t (e_w ∘ snd <$> order)) as [_ Hb].
  destruct (foldl _ _ _) as [[b|] h]; simpl in *; [|by destruct h].
  intros [= <- _]. destruct Hb as (Hin & He & Hc & _).
  apply list_elem_of_fmap in Hin as ([id e] & -> & Hin). rewrite Hp in Hin.
  apply elem_of_map_to_list in Hin. by exists id, e.
Qed.

Lemma reg_match_reason order account fp t reason :
  reg_match order account fp t = (None, reason) → reason ≠ pb.REASON_UNSPECIFIED.
Proof.
  unfold reg_match, matchWarrant. case_bool_decide; [by intros [= <-]|].
  destruct (foldl _ _ _) as [[b|] h]; [done|]. by destruct h; intros [= <-].
Qed.

(** A successful bind, and what it leaves alone. *)
Lemma Bind_run order r (b b' : bstate) id :
  reg_inv (b_reg b) → order ≡ₚ map_to_list (byID (rg (b_reg b))) →
  Bind order r b = (b', Ok id) → id ≠ 0 →
  ∃ e t, byID (rg (b_reg b)) !! id = Some e ∧ eligible (LoginAccount r) t (e_w e) ∧
    carries (key_of (AuthInfo r)) (e_w e) ∧
    rg (b_reg b') = rg (b_reg b) ∧ b_audit b' = b_audit b ∧ same_rules (b_maps b) (b_maps b') ∧
    ∃ now boot, ∀ tk, t_cgroup tk = CgroupID r →
      pa_get (activeFlag (b_maps b')) (t_cpu tk) = Some 1 →
      lookup_warrant (b_maps b') tk = Some (id, TAG_CGROUP, kernelWarrant (e_w e) now boot).
Proof.
  intros Hi Hp. unfold Bind. destruct (now_run b) as (b1 & t & E1 & Hrg1 & Hm1 & Ha1).
  rewrite (mbnd_run _ _ _ _ _ E1).
  destruct (reg_match order (LoginAccount r) (key_of (AuthInfo r)) t) as [[w|] reason] eqn:Em.
  2:{ intros (b2 & t' & _ & Hr)%mbnd_ok. apply mbnd_ok in Hr as (b3 & ? & _ & [= _ <-]). done. }
  destruct (reg_match_entry _ _ _ _ _ _ _ Hp Em) as (id' & e & He & <- & Hel & Hc).
  destruct (Hi id' e He) as (-> & Hck & _ & now & boot & Hk).
  destruct (CgroupID r =? 0).
  { intros (b2 & t' & _ & Hr)%mbnd_ok. apply mbnd_ok in Hr as (b3 & ? & _ & [= _ <-]). done. }
  destruct (on_node _ b1) as [b2 [[]|er|p]] eqn:Et.
  2:{ intros (b3 & t' & _ & Hr)%mbnd_ok. apply mbnd_ok in Hr as (b4 & ? & _ & ?). done. }
  2:{ done. }
  intros [= <- <-] Hid. apply tag_run in Et as (Hrg & Hau & Hact & Hw & Hsr & _ & Htag).
  exists e, t. split; [done|]. split; [done|]. split; [done|]. split; [congruence|].
  split; [congruence|]. split; [by rewrite <- Hm1|]. exists now, boot. intros tk Hcg Hon.
  unfold lookup_warrant. rewrite Hon. simpl. rewrite Htag, decide_True by done.
  rewrite Hw, Hm1. simpl in Hk. unfold b_maps. by rewrite Hk.
Qed.
End lemmas.

(** * Properties *)

Section properties.
Context `{Os} `{WallClock} `{KernelMaps} `{!KernelMapsLaws} `{Crypto} `{SshKeys}.

(** C16: a bound session runs under the right warrant, down to the kernel.  When
    [Bind] returns a warrant id, the registry has an entry under that id whose
    warrant is for the session's account, carries the session's key and is
    neither revoked nor expired; the registry and the queue are unchanged; and
    every task of the session's cgroup, on every CPU where enforcement is on,
    now finds exactly that warrant's kernel form. *)
Theorem bind_reaches_kernel order r (b b' : bstate) id :
  reg_inv (b_reg b) → order ≡ₚ map_to_list (byID (rg (b_reg b))) →
  Bind order r b = (b', Ok id) → id ≠ 0 →
  ∃ e t, byID (rg (b_reg b)) !! id = Some e ∧ eligible (LoginAccount r) t (e_w e) ∧
    carries (key_of (AuthInfo r)) (e_w e) ∧
    rg (b_reg b') = rg (b_reg b) ∧ b_audit b' = b_audit b ∧
    ∃ now boot, ∀ tk, t_cgroup tk = CgroupID r →
      pa_get (activeFlag (b_maps b')) (t_cpu tk) = Some 1 →
      lookup_warrant (b_maps b') tk = Some (id, TAG_CGROUP, kernelWarrant (e_w e) now boot).
Proof.
  intros Hi Hp Hb Hid. destruct (Bind_run _ _ _ _ _ Hi Hp Hb Hid) as (e & t & He & Hel & Hc & Hrg & Ha & _ & Hl). by exists e, t.
Qed.

(** Every session without a warrant is recorded.  With an audit queue in
    order, when [Bind] returns no warrant id (none matched, the session has no
    cgroup, or tagging failed), the tags and warrants in the kernel and the
    registry are unchanged, and exactly one event naming the session, its key
    and a reason has been appended to the queue. *)
Theorem unwarranted_recorded order r (b b' : bstate) res q :
  reg_inv (b_reg b) → order ≡ₚ map_to_list (byID (rg (b_reg b))) →
  b_audit b = Some q → queue_inv q → nextSeq q + 1 < 2 ^ 64 →
  Bind order r b = (b', res) → (res = Ok 0 ∨ ∃ e, res = Err e) → queued r b b' q.
Proof.
  intros Hi Hp Ha Hq Hn. unfold Bind. destruct (now_run b) as (b1 & t & E1 & Hrg1 & Hm1 & Ha1).
  rewrite (mbnd_run _ _ _ _ _ E1).
  assert (warrants (b_maps b1) = warrants (b_maps b)) as Hw1 by congruence.
  assert (∀ k, hm_get (cgroupWarrant (b_maps b1)) k = hm_get (cgroupWarrant (b_maps b)) k) as Hc1
    by congruence.
  destruct (reg_match order (LoginAccount r) (key_of (AuthInfo r)) t) as [[w|] reason] eqn:Em.
  2:{ destruct (queue_round r reason b b1 (mok 0) q) as (b2 & -> & Hqd); try done;
        [by eapply reg_match_reason|]. intros [= <- <-] _. done. }
  destruct (reg_match_entry _ _ _ _ _ _ _ Hp Em) as (id' & e & He & <- & _ & _).
  destruct (Hi id' e He) as (-> & Hck & _).
  destruct (CgroupID r =? 0).
  { destruct (queue_round r pb.REASON_NO_WARRANT b b1 (mok 0) q) as (b2 & -> & Hqd); try done.
    intros [= <- <-] _. done. }
  destruct (on_node _ b1) as [b2 [[]|er|p]] eqn:Et.
  - intros [= <- <-] [[= Hz]|[e' ?]]; [|done]. exfalso. unfold checkWarrant in Hck.
    by rewrite Hz in Hck.
  - apply tag_run in Et as (Hrg & Hau & _ & Hw & _ & _ & Htag).
    destruct (queue_round r pb.REASON_NO_WARRANT b b2
      (merr (A := Z) (EWrap ("tag cgroup " +:+ fmt_u (CgroupID r) +:+ " with warrant " +:+
                    fmt_u (pb.w_WarrantId (e_w e)) +:+ ": ") er)) q) as (b3 & -> & Hqd);
      try done; try congruence.
    + intros k. rewrite Htag, decide_False by naive_solver. apply Hc1.
    + intros [= <- <-] _. done.
  - apply tag_run in Et as (_ & _ & _ & _ & _ & Hnp & _). by destruct (Hnp p).
Qed.
End properties.

(** ** A demonstration session *)

(** Keys are the text after the prefix; the fingerprint is the text itself. *)
Definition demo_ssh : SshKeys := {|
  ssh_Key := string;
  ssh_ParseAuthorizedKey s := Ok (inl s);
  ssh_FingerprintSHA256 s := s
|}.
#[local] Existing Instance demo_ssh.
#[local] Existing Instance demo_os.
#[local] Existing Instance demo_crypto.

Definition demo_bstate : bstate :=
  mkBstate _ _ (push "rev5" demo_state) (Some (NewAuditQueue 5 2 10)).
Definition demo_order : list (Z * entry) := map_to_list (byID (rg (b_reg demo_bstate))).
Definition alice_session (key : string) : Request :=
  mkRequest "OPEN" "c1" 77 "alice" "10.0.0.9" ("publickey " +:+ key).

Lemma demo_bstate_inv : reg_inv (b_reg demo_bstate).
Proof.
  apply (reg_step_inv demo_state); [apply RegApply|].
  intros id e. simpl. by rewrite lookup_empty.
Qed.

Lemma bind_reaches_kernel_witness :
  snd (Bind demo_order (alice_session "SHA256:a") demo_bstate) = Ok 1 ∧
  ∃ e t, byID (rg (b_reg demo_bstate)) !! 1 = Some e ∧ eligible "alice" t (e_w e).
Proof.
  assert (snd (Bind demo_order (alice_session "SHA256:a") demo_bstate) = Ok 1) as Hr
    by (vm_compute; reflexivity).
  split; [exact Hr|].
  destruct (bind_reaches_kernel demo_order (alice_session "SHA256:a") demo_bstate
              (fst (Bind demo_order (alice_session "SHA256:a") demo_bstate)) 1)
    as (e & t & He & Hel & _).
  - apply demo_bstate_inv.
  - unfold demo_order. apply Permutation_refl.
  - exact (run_named (Bind demo_order (alice_session "SHA256:a")) demo_bstate (Ok 1) Hr).
  - done.
  - exists e, t. exact (conj He Hel).
Defined.

Lemma unwarranted_recorded_witness :
  snd (Bind demo_order (alice_session "SHA256:b") demo_bstate) = Ok 0 ∧
  queued (alice_session "SHA256:b") demo_bstate
    (fst (Bind demo_order (alice_session "SHA256:b") demo_bstate)) (NewAuditQueue 5 2 10).
Proof.
  assert (snd (Bind demo_order (alice_session "SHA256:b") demo_bstate) = Ok 0) as Hr
    by (vm_compute; reflexivity).
  split; [exact Hr|].
  apply (unwarranted_recorded demo_order (alice_session "SHA256:b") demo_bstate _ (Ok 0)).
  - apply demo_bstate_inv.
  - unfold demo_order. apply Permutation_refl.
  - reflexivity.
  - apply NewAuditQueue_inv; lia.
  - vm_compute. reflexivity.
  - exact (run_named (Bind demo_order (alice_session "SHA256:b")) demo_bstate (Ok 0) Hr).
  - by left.
Defined.
