(* ===== verification/System.v ===== *)
(** The whole agent between start-up and shutdown: pushes, resyncs, PAM datagrams
    and the watcher's callbacks, as steps on one state, with the invariants that
    join the components. *)

From Stdlib Require Import ZArith Lia Ascii String.
From stdpp Require Import base tactics numbers list strings gmap relations.
From S2P Require Import Prelude GoStd GoNet EbpfMap Os BpfMap Concrete Kernel.
From S2P Require Import Policy Typed Session Pb Warrants Upstream Registry Node.
From S2P Require Import WatchLoop AuditQueue Pamsock Binder.

(** * Well-typed inputs *)

(** The integer fields of a decoded [Warrant] have the widths of the protocol. *)
Definition pb_typed (w : pb.Warrant) : Prop :=
  is_u64 (pb.w_WarrantId w) ∧ is_u32 (pb.w_SubjectId w) ∧ is_u32 (pb.w_PolicyId w) ∧
  is_u64 (pb.w_GraceWindowNs w).

Lemma kernelWarrant_typed w now boot : pb_typed w → kwarrant_typed (kernelWarrant w now boot).
Proof.
  intros (_ & Hs & Hp & Hg). unfold kernelWarrant. split; simpl; auto with gohints.
  destruct (pb.w_Revoked w); auto.
Qed.

Lemma spec_nets_typed l nets :
  spec_nets l = Ok nets → Forall (λ r, is_u16 (nr_Port r) ∧ is_u8 (nr_Proto r)) nets.
Proof.
  revert nets. induction l as [|r l IH]; intros nets; simpl; [by intros [= <-]|].
  destruct (65535 <? _); [done|]. destruct (spec_nets l) as [rest|e|p]; [|done|done].
  intros [= <-]. constructor; [simpl; auto with gohints|]. by apply IH.
Qed.
Lemma policySpec_typed pp s : policySpec pp = Ok s → spec_typed s.
Proof.
  unfold policySpec. destruct (spec_nets _) as [nets|e|p] eqn:E; [|done|done].
  intros [= <-]. by apply spec_nets_typed in E.
Qed.

(** * The agent's steps *)

Section system.
Context `{Os} `{WallClock} `{KernelMaps} `{!KernelMapsLaws} `{Crypto} `{SshKeys}.
Implicit Types (b : bstate) (n : node) (m : Maps) (st : rstate node).

Definition set_reg b st : bstate := mkBstate _ _ st (b_audit b).
Definition set_node b n : bstate := set_reg b (mkRstate (rg (b_reg b)) n).

Inductive agent_step : bstate → bstate → Prop :=
  | SPush env b : agent_step b (set_reg b (fst (Apply env (b_reg b))))
  | SLocal w b : pb_typed w → agent_step b (set_reg b (fst (install w fromFile (b_reg b))))
  | SResync keep b st' : Resync keep (b_reg b) st' → agent_step b (set_reg b st')
  | SDatagram d b : agent_step b (serve_one b d)
  | SWatch id b : agent_step b (set_node b (call_back (nd (b_reg b)) id))
  | SAudit q b : agent_step b (mkBstate _ _ (b_reg b) q).

(** Every session's tag names a warrant the kernel holds. *)
Definition tags_resolve m : Prop :=
  ∀ cg id, hm_get (cgroupWarrant m) cg = Some id → is_Some (hm_get (warrants m) id).
Definition node_inv n : Prop := node_typed n ∧ tags_resolve (n_maps n).
Definition entries_typed st : Prop :=
  ∀ id e, byID (rg st) !! id = Some e → pb_typed (e_w e).
Record agent_inv b : Prop := mkAgentInv {
  ag_reg : reg_inv (b_reg b);
  ag_node : node_inv (nd (b_reg b));
  ag_entries : entries_typed (b_reg b)
}.

(** ** The maps *)

Lemma PutWarrant_tags id w : keeps tags_resolve (PutWarrant id w).
Proof.
  intros m Hm cg x. unfold PutWarrant. rewrite finish_fst. simpl. intros Hx%Hm.
  destruct (hm_Put _ _ _) as [t [e|]] eqn:E; simpl.
  - by rewrite (hm_Put_err _ _ _ _ _ E).
  - rewrite (hm_Put_ok _ _ _ _ E). case_decide; [by eauto|done].
Qed.
Lemma Revoke_tags id : keeps tags_resolve (Revoke id).
Proof.
  intros m Hm. unfold Revoke, mbnd, revoke_read, revoke_write. destruct (hm_Lookup (warrants m) id) as [w|e|p]; [|done|done].
  pose proof (PutWarrant_tags id (set_Revoked w 1) m Hm) as Hp. unfold PutWarrant in Hp.
  rewrite finish_fst in *. exact Hp.
Qed.
Lemma SetActive_tags x : keeps tags_resolve (SetActive x).
Proof. intros m Hm. unfold SetActive. by rewrite finish_fst. Qed.
Lemma UntagCgroup_tags cg : keeps tags_resolve (UntagCgroup cg).
Proof.
  intros m Hm c x. unfold UntagCgroup. rewrite finish_ignoreMissing_fst. simpl.
  destruct (hm_Delete _ _) as [t [e|]] eqn:E; simpl.
  - apply hm_Delete_err in E as [-> _]. apply Hm.
  - rewrite (hm_Delete_ok _ _ _ E). case_decide; [done|]. apply Hm.
Qed.
Lemma TagCgroup_tags cg id m :
  tags_resolve m → is_Some (hm_get (warrants m) id) → tags_resolve (fst (TagCgroup cg id m)).
Proof.
  intros Hm Hid c x. unfold TagCgroup. rewrite finish_fst. simpl.
  destruct (hm_Put _ _ _) as [t [e|]] eqn:E; simpl.
  - rewrite (hm_Put_err _ _ _ _ _ E). apply Hm.
  - rewrite (hm_Put_ok _ _ _ _ E). case_decide; [by intros [= <-]|apply Hm].
Qed.
(** Applying a policy touches neither warrants nor tags. *)
Lemma Apply_bindings c x y :
  keeps (λ m, warrants m = x ∧ cgroupWarrant m = y) (Policy.Apply c).
Proof.
  unfold Policy.Apply, PutNetRule, net_current, net_write. keep_steps.
  all: intros m Hm; unfold PutWriteRule, PutExecRule; by rewrite ?finish_fst.
Qed.
Lemma Apply_tags c : keeps tags_resolve (Policy.Apply c).
Proof.
  intros m Hm. destruct (Apply_bindings c (warrants m) (cgroupWarrant m) m (conj eq_refl eq_refl)) as [Hw Hc].
  intros cg x. rewrite Hw, Hc. apply Hm.
Qed.

(** ** The node *)

Lemma on_maps_fst {A} (f : M Maps A) n :
  fst (on_maps f n) = mkNode _ (fst (f (n_maps n))) (n_specs n) (n_watcher n) (n_time n).
Proof. unfold on_maps. by destruct (f (n_maps n)). Qed.
Lemma node_inv_maps n m' w' t' :
  node_inv n → maps_typed m' → tags_resolve m' → node_inv (mkNode _ m' (n_specs n) w' t').
Proof. intros [[_ Hs] _] Hm Ht. by split. Qed.
Lemma on_maps_inv {A} (f : M Maps A) :
  keeps maps_typed f → keeps tags_resolve f → keeps node_inv (on_maps f).
Proof.
  intros H1' H2' n Hn. rewrite on_maps_fst. destruct Hn as [[Hm Hs] Ht].
  apply node_inv_maps; [done|by apply H1'|by apply H2'].
Qed.

Lemma recompile_inv id : ∀ n, node_inv n → node_inv (recompile id n).
Proof.
  intros n Hn. destruct (recompile_cases id n) as (m' & w' & t' & -> & _ & Hm & _).
  pose proof Hn as [[Hty Hsp] Htg]. destruct Hm as [->|(c & t & HC & ->)]; [by apply node_inv_maps|].
  apply node_inv_maps; [done| |by apply Apply_tags].
  apply Apply_typed; [|done]. eapply Compile_typed; [|exact HC].
  destruct (n_specs n !! id) as [s|] eqn:Es; [by eapply Hsp|]. constructor.
Qed.
Lemma call_back_inv id n : node_inv n → node_inv (call_back n id).
Proof.
  intros Hn. unfold call_back. destruct (n_watcher n) as [w|]; [|done].
  destruct (hasOnChange w); [by apply recompile_inv|done].
Qed.

Lemma installer_inv id pp : keeps node_inv (installer_install id pp).
Proof.
  intros n Hn. pose proof Hn as [[Hty Hsp] Htg]. unfold installer_install, mbnd, mres.
  destruct (policySpec pp) as [s|e|p] eqn:Ep; [|done|done]. apply policySpec_typed in Ep.
  unfold compile_now. destruct (Compile id (ASpecVal s) (n_time n)) as [t' [c|e|p]] eqn:HC;
    [|by apply node_inv_maps..].
  pose proof (Compile_typed _ _ _ _ _ Ep HC) as Hc.
  pose proof (Apply_typed c Hc _ Hty) as Hm. pose proof (Apply_tags c _ Htg) as Ht.
  unfold on_maps. simpl. destruct (Policy.Apply c (n_maps n)) as [m' [[]|e|p]]; simpl in *;
    [|by apply node_inv_maps..].
  split; [|done]. split; [done|]. simpl. intros i s' [[<- <-]|[_ Hi]]%lookup_insert_Some; [done|by eapply Hsp].
Qed.

(** ** The registry *)

Definition rinv st : Prop := node_inv (nd st) ∧ entries_typed st.

Lemma lift_rinv {A} (f : M node A) : keeps node_inv f → keeps rinv (lift f).
Proof.
  intros Hf st [Hn He]. unfold lift. specialize (Hf (nd st) Hn). by destruct (f (nd st)) as [n' r].
Qed.
Lemma tick_inv {A} (q : nat → res A) : keeps node_inv (tick q).
Proof. intros n [[Hm Hs] Ht]. by split. Qed.

Lemma install_policy_rinv pid p : keeps rinv (install_policy pid p).
Proof.
  unfold install_policy. keep_steps.
  - intros st Hst. pose proof (lift_rinv _ (installer_inv pid p) st Hst) as Hl. simpl.
    destruct (lift (installer_install pid p) st) as [st' []]; exact Hl.
  - intros st Hst. exact Hst.
Qed.
Lemma activate_rinv : keeps rinv activate.
Proof.
  unfold activate. keep_steps. intros st Hst.
  pose proof (lift_rinv _ (on_maps_inv _ (SetActive_typed true) (SetActive_tags true)) st Hst) as Hl. simpl.
  destruct (lift (on_maps (SetActive true)) st) as [st' []]; exact Hl.
Qed.
Lemma put_kernel_rinv w : pb_typed w → keeps rinv (put_kernel w).
Proof.
  intros Hw. unfold put_kernel. simpl. apply keeps_mbnd; [apply lift_rinv, tick_inv|]. intros boot.
  apply keeps_mbnd; [apply lift_rinv, tick_inv|]. intros now.
  apply lift_rinv, on_maps_inv; [|apply PutWarrant_tags].
  by apply PutWarrant_typed, kernelWarrant_typed.
Qed.
Lemma install_rinv w src : pb_typed w → keeps rinv (install w src).
Proof.
  intros Hw. unfold install. apply keeps_mbnd; [unfold admissible, newer_revision; keep_steps|]. intros _.
  apply keeps_mbnd; [apply install_policy_rinv|]. intros _.
  apply keeps_mbnd; [by apply put_kernel_rinv|]. intros _.
  apply keeps_mbnd; [|intros _; apply activate_rinv].
  intros st [Hn He]. split; [done|]. intros id e. simpl.
  intros [[_ <-]|[_ Hx]]%lookup_insert_Some; [done|by eapply He].
Qed.
Lemma resync_one_rinv keep st x : rinv st → rinv (resync_one keep st x).
Proof.
  intros Hst. destruct x as [id e]. unfold resync_one. destruct (_ || _); [done|]. simpl.
  pose proof (lift_rinv _ (on_maps_inv _ (Revoke_typed id) (Revoke_tags id)) st Hst) as Hl.
  destruct (lift (on_maps (Revoke id)) st) as [st' [[]|er|p]]; [|exact Hl|exact Hl].
  destruct Hl as [Hn He]. split; [exact Hn|]. intros i e'. simpl.
  intros [_ Hx]%lookup_delete_Some. by eapply He.
Qed.
Lemma resync_rinv keep order st : rinv st → rinv (foldl (resync_one keep) st order).
Proof. revert st. induction order as [|x order IH]; intros st Hst; [done|]. by apply IH, resync_one_rinv. Qed.

(** ** The binder *)

(** What [Bind] does to the node: time passes, and at most one tag is written,
    naming a registered warrant. *)
Lemma Bind_cases order r b :
  order ≡ₚ map_to_list (byID (rg (b_reg b))) →
  let b' := fst (Bind order r b) in
  rg (b_reg b') = rg (b_reg b) ∧
  ∃ t, nd (b_reg b') = set_time (nd (b_reg b)) t ∨
       ∃ id e, byID (rg (b_reg b)) !! id = Some e ∧
         nd (b_reg b') =
           mkNode _ (fst (TagCgroup (CgroupID r) (pb.w_WarrantId (e_w e)) (b_maps b)))
                  (n_specs (nd (b_reg b))) (n_watcher (nd (b_reg b))) t.
Proof.
  intros Hp. cbv zeta.
  assert (∀ b1 reason fp (A : Type) (k : M bstate A), (∀ x, fst (k x) = x) →
    ∃ t, b_reg (fst ((do t' := now_ in unwarranted r fp reason t' ;;; k) b1)) =
         mkRstate (rg (b_reg b1)) (set_time (nd (b_reg b1)) t)) as Hun.
  { intros b1 reason fp A k Hk. eexists. unfold mbnd, now_, on_node, lift, tick. simpl.
    unfold unwarranted. simpl. destruct (b_audit b1) as [q|]; [|by rewrite Hk].
    destruct (Append _ q) as [[q' z]|er|p]; simpl; [by rewrite Hk|done|done]. }
  pose (b1 := mkBstate _ _ (mkRstate (rg (b_reg b)) (set_time (nd (b_reg b)) (S (n_time (nd (b_reg b))))))
                (b_audit b)).
  assert (now_ b = (b1, Ok (wall_clock (n_time (nd (b_reg b)))))) as E1 by done.
  unfold Bind. rewrite (mbnd_run _ _ _ _ _ E1).
  destruct (reg_match order _ _ _) as [[w|] reason] eqn:Em.
  - destruct (reg_match_entry _ _ _ _ _ _ _ Hp Em) as (id & e & He & <- & _).
    destruct (CgroupID r =? 0).
    { destruct (Hun b1 pb.REASON_NO_WARRANT (key_of (AuthInfo r)) _ (mok 0)) as [t Ht]; [done|].
      rewrite Ht. split; [done|]. exists t. by left. }
    assert (∃ rt, on_node (on_maps (TagCgroup (CgroupID r) (pb.w_WarrantId (e_w e)))) b1 =
      (mkBstate _ _ (mkRstate (rg (b_reg b)) (mkNode _
         (fst (TagCgroup (CgroupID r) (pb.w_WarrantId (e_w e)) (b_maps b)))
         (n_specs (nd (b_reg b))) (n_watcher (nd (b_reg b))) (S (n_time (nd (b_reg b)))))) (b_audit b), rt))
      as [rt Et].
    { unfold on_node, lift, on_maps, b_maps. simpl. destruct (TagCgroup _ _ _) as [m' r']. by exists r'. }
    rewrite Et. destruct rt as [[]|er|p].
    + split; [done|]. eexists. right. by exists id, e.
    + edestruct Hun as [t Ht]; [|rewrite Ht]; [done|]. split; [done|]. exists t. right. by exists id, e.
    + split; [done|]. eexists. right. by exists id, e.
  - destruct (Hun b1 reason (key_of (AuthInfo r)) _ (mok 0)) as [t Ht]; [done|].
    rewrite Ht. split; [done|]. exists t. by left.
Qed.

(** ** Every step keeps the invariant *)

Lemma reg_inv_same st st' :
  rg st' = rg st → warrants (n_maps (nd st')) = warrants (n_maps (nd st)) → reg_inv st → reg_inv st'.
Proof.
  intros Hr Hw Hi id e. rewrite Hr. intros He. destruct (Hi id e He) as (Hid & Hc & Hp & now & boot & Hk).
  unfold entry_ok. rewrite Hr. split; [done|]. split; [done|]. split; [done|]. exists now, boot.
  simpl in *. by rewrite Hw.
Qed.
Lemma call_back_warrants n id : warrants (n_maps (call_back n id)) = warrants (n_maps n).
Proof.
  unfold call_back. destruct (n_watcher n) as [w|]; [|done]. destruct (hasOnChange w); [|done].
  destruct (recompile_cases id n) as (m' & w' & t' & -> & _ & [->|(c & t & _ & ->)] & _); [done|].
  by apply (Apply_bindings c (warrants (n_maps n)) (cgroupWarrant (n_maps n)) (n_maps n)).
Qed.

Lemma Bind_agent_inv r b :
  agent_inv b → agent_inv (fst (Bind (map_to_list (byID (rg (b_reg b)))) r b)).
Proof.
  intros [Hr Hn He]. destruct (Bind_cases (map_to_list (byID (rg (b_reg b)))) r b (reflexivity _))
    as (Hrg & t & [Hnd|(id & e & Hid & Hnd)]).
  - split; [|by rewrite Hnd|unfold entries_typed; by rewrite Hrg].
    apply (reg_inv_same (b_reg b)); [done|by rewrite Hnd|done].
  - destruct (Hr id e Hid) as (-> & _ & _ & now & boot & Hk).
    destruct Hn as [[Hty Hsp] Htg]. split; [| |unfold entries_typed; by rewrite Hrg].
    + apply (reg_inv_same (b_reg b)); [done| |done]. rewrite Hnd. unfold TagCgroup, b_maps. simpl.
      by rewrite finish_fst.
    + rewrite Hnd. split; [split; [|done]|]; simpl.
      * apply TagCgroup_typed; [apply (He _ _ Hid)|done].
      * apply TagCgroup_tags; [done|]. by exists (kernelWarrant (e_w e) now boot).
Qed.
Lemma Unbind_agent_inv cg b : agent_inv b → agent_inv (fst (Unbind cg b)).
Proof.
  intros [Hr Hn He].
  pose proof (on_maps_inv _ (UntagCgroup_typed cg) (UntagCgroup_tags cg) (nd (b_reg b)) Hn) as Hn'.
  rewrite on_maps_fst in Hn'. unfold Unbind, on_node, lift, on_maps.
  assert (warrants (fst (UntagCgroup cg (n_maps (nd (b_reg b))))) = warrants (n_maps (nd (b_reg b)))) as Hw.
  { unfold UntagCgroup. by rewrite finish_ignoreMissing_fst. }
  destruct (UntagCgroup cg _) as [m' r']. simpl in *. split; [|done|done].
  by apply (reg_inv_same (b_reg b)).
Qed.

Variable Hdecode : ∀ bytes w, proto_Unmarshal bytes = Ok w → pb_typed w.

Lemma Verify_typed env ks w : Verify env ks = Ok w → pb_typed w.
Proof.
  unfold Verify. intros Hv. repeat case_match; simplify_eq. by eapply Hdecode.
Qed.

Lemma agent_step_inv b b' : agent_step b b' → agent_inv b → agent_inv b'.
Proof.
  intros Hs Hi. destruct Hs as [env b|w b Hw|keep b st' Hre|d b|id b|q b].
  - destruct Hi as [Hr Hn He]. destruct (Apply_fst env (b_reg b)) as [->|(w & Hv & ->)]; [by split|].
    destruct (install_rinv w fromCentral (Verify_typed _ _ _ Hv) (b_reg b) (conj Hn He)) as [Hn' He'].
    split; [by apply install_inv|done|done].
  - destruct Hi as [Hr Hn He].
    destruct (install_rinv w fromFile Hw (b_reg b) (conj Hn He)) as [Hn' He'].
    split; [by apply install_inv|done|done].
  - destruct Hi as [Hr Hn He]. pose proof (Resync_inv _ _ _ Hre Hr) as Hr'.
    destruct Hre as (order & _ & ->). destruct (resync_rinv keep order (b_reg b) (conj Hn He)) as [Hn' He'].
    by split.
  - unfold serve_one. destruct (parse _) as [req|e|p]; [|done|done].
    case_bool_decide; [by apply Bind_agent_inv|]. case_bool_decide; [|done].
    destruct (CgroupID req =? 0); [done|by apply Unbind_agent_inv].
  - destruct Hi as [Hr Hn He]. split; [|by apply call_back_inv|done].
    apply (reg_inv_same (b_reg b)); [done|apply call_back_warrants|done].
  - by destruct Hi.
Qed.
Lemma agent_steps_inv b b' : rtc agent_step b b' → agent_inv b → agent_inv b'.
Proof. induction 1; eauto using agent_step_inv. Qed.

(** What the invariant says of a task whose cgroup carries a tag. *)
Lemma tagged_judged b t id :
  node_inv (nd (b_reg b)) → hm_get (cgroupWarrant (b_maps b)) (t_cgroup t) = Some id →
  pa_get (activeFlag (b_maps b)) (t_cpu t) = Some 1 →
  ∃ w, lookup_warrant (b_maps b) t = Some (id, TAG_CGROUP, w) ∧ kwarrant_typed w.
Proof.
  intros [[Hty _] Htg] Hid Hon. destruct (Htg _ _ Hid) as [w Hw]. exists w.
  split; [|by apply (mt_warrant _ Hty) in Hw].
  unfold lookup_warrant. unfold b_maps in *. by rewrite Hon, Hid, Hw.
Qed.

Lemma start_agent_inv h ks n q :
  node_inv n → agent_inv (mkBstate _ _ (mkRstate (newRegistry h ks) n) q).
Proof. intros Hn. split; [|done|]; intros id e; simpl; by rewrite lookup_empty. Qed.

(** * Properties *)

(** The kernel only ever reads well-typed values.  Start from maps in which
    every value fits its C struct (a fresh set, or what an earlier run left) and
    with policies of the protocol's widths.  Whatever is pushed, resynced, sent
    by the PAM module or replaced on disk, in any order and with any map
    operation failing, every value the BPF programs can read from the maps still
    fits: the flag is 0 or 1, effects and recursion bits are legal, a network
    value has at most seven 16-bit ports and a one-byte protocol, and each warrant
    field has its width. *)
Theorem agent_keeps_types h ks n q b :
  node_inv n → rtc agent_step (mkBstate _ _ (mkRstate (newRegistry h ks) n) q) b →
  maps_typed (b_maps b).
Proof.
  intros Hn Hr. apply agent_steps_inv in Hr; [|by apply start_agent_inv].
  apply (proj1 (ag_node _ Hr)).
Qed.

(** A bound session is always judged.  From such a start, in every reachable
    state and for every task of a cgroup that carries a tag, on every CPU where
    enforcement is on, the lookup finds a warrant: no sequence of pushes,
    resyncs, logins, logouts and recompilations leaves a tag that names nothing.
    The registry's entries are at the same time exactly in the kernel as
    converted. *)
Theorem bound_sessions_judged h ks n q b :
  node_inv n → rtc agent_step (mkBstate _ _ (mkRstate (newRegistry h ks) n) q) b →
  reg_inv (b_reg b) ∧
  ∀ t id, hm_get (cgroupWarrant (b_maps b)) (t_cgroup t) = Some id →
    pa_get (activeFlag (b_maps b)) (t_cpu t) = Some 1 →
    ∃ w, lookup_warrant (b_maps b) t = Some (id, TAG_CGROUP, w) ∧ kwarrant_typed w.
Proof.
  intros Hn Hr. apply agent_steps_inv in Hr; [|by apply start_agent_inv].
  split; [apply Hr|]. intros t id. apply tagged_judged, Hr.
Qed.
End system.

#[local] Existing Instance demo_ssh.
#[local] Existing Instance demo_os.
#[local] Existing Instance demo_crypto.

(** A warrant is pushed, a matching session logs in, and a resync revokes the
    warrant. *)
Definition demo_login : string :=
  wr_open "c1" 77 "alice" "10.0.0.9" "publickey SHA256:a".
Definition demo_start_state : bstate := mkBstate _ _ demo_state None.
Definition demo_pushed_state : bstate := set_reg demo_start_state (push "rev5" demo_state).
Definition demo_bound_state : bstate := serve_one demo_pushed_state demo_login.
Definition demo_cut_state : bstate :=
  set_reg demo_bound_state (resync_all (b_reg demo_bound_state)).

Lemma demo_decodes bytes w : proto_Unmarshal bytes = Ok w → pb_typed w.
Proof.
  simpl. destruct (String.eqb bytes "rev4"); [|destruct (String.eqb bytes "rev5"); [|destruct (String.eqb bytes "grant"); [|done]]];
    intros [= <-]; unfold pb_typed; simpl; unfold_widths; lia.
Qed.
Lemma demo_node_inv : node_inv demo_node.
Proof.
  split; [split; [exact demo_empty_typed|]|]; intros a b; simpl; by rewrite lookup_empty.
Qed.
Lemma demo_run : rtc agent_step demo_start_state demo_cut_state.
Proof.
  eapply rtc_l; [apply (SPush (signed "rev5"))|].
  eapply rtc_l; [apply (SDatagram demo_login)|].
  eapply rtc_l; [|apply rtc_refl]. apply SResync with (keep := ∅).
  by exists (map_to_list (byID (rg (b_reg demo_bound_state)))).
Qed.

Lemma agent_keeps_types_witness : maps_typed (b_maps demo_cut_state).
Proof. exact (agent_keeps_types demo_decodes "web-1" demo_keys demo_node None _ demo_node_inv demo_run). Defined.

Lemma bound_sessions_judged_witness :
  hm_get (cgroupWarrant (b_maps demo_cut_state)) 77 = Some 1 ∧
  ∃ w, lookup_warrant (b_maps demo_cut_state) session_task = Some (1, TAG_CGROUP, w) ∧ kwarrant_typed w.
Proof.
  assert (hm_get (cgroupWarrant (b_maps demo_cut_state)) 77 = Some 1) as Hc by (vm_compute; reflexivity).
  split; [exact Hc|].
  apply (bound_sessions_judged demo_decodes "web-1" demo_keys demo_node None _ demo_node_inv demo_run);
    [exact Hc|vm_compute; reflexivity].
Defined.
