(* ===== verification/Threads.v ===== *)
(** Goroutines that share one state and one [sync.RWMutex].

    A goroutine's request is a resumption: a tree of atomic actions, each a
    function of the state it runs in, and of the mutex's four operations.  A
    configuration interleaves such goroutines.  [wp] is the rely-guarantee
    condition under which a request is safe in every interleaving; the theorems
    at the end join requests that satisfy it. *)

From Stdlib Require Import ZArith Lia Ascii String.
From stdpp Require Import base tactics numbers list strings gmap relations.
From S2P Require Import Prelude.

(** * Requests *)

Inductive prog (S A : Type) : Type :=
  | PRet (r : res A)
  | PAct (upd : S → S) (next : S → prog S A)
  | PLock (p : prog S A)
  | PUnlock (p : prog S A)
  | PRLock (p : prog S A)
  | PRUnlock (p : prog S A).
Arguments PRet {_ _}.
Arguments PAct {_ _}.
Arguments PLock {_ _}.
Arguments PUnlock {_ _}.
Arguments PRLock {_ _}.
Arguments PRUnlock {_ _}.

Section prog.
Context {S : Type}.

(** What follows a request gets its result, an error included. *)
Fixpoint pthen {A B} (p : prog S A) (k : res A → prog S B) : prog S B :=
  match p with
  | PRet r => k r
  | PAct u n => PAct u (λ s, pthen (n s) k)
  | PLock p => PLock (pthen p k)
  | PUnlock p => PUnlock (pthen p k)
  | PRLock p => PRLock (pthen p k)
  | PRUnlock p => PRUnlock (pthen p k)
  end.
Definition pbnd {A B} (p : prog S A) (k : A → prog S B) : prog S B :=
  pthen p (λ r, match r with Ok a => k a | Err e => PRet (Err e) | Panic x => PRet (Panic x) end).

(** One atomic action. *)
Definition act {A} (m : M S A) : prog S A := PAct (λ s, fst (m s)) (λ s, PRet (snd (m s))).

Fixpoint pfor {A} (l : list A) (f : A → prog S unit) : prog S unit :=
  match l with [] => PRet (Ok tt) | x :: l' => pbnd (f x) (λ _, pfor l' f) end.

(** [mu.Lock(); defer mu.Unlock()] around a body, and the same for readers. *)
Definition locked {A} (p : prog S A) : prog S A := PLock (pthen p (λ r, PUnlock (PRet r))).
Definition rlocked {A} (p : prog S A) : prog S A := PRLock (pthen p (λ r, PRUnlock (PRet r))).

(** A request run alone. *)
Fixpoint prun {A} (p : prog S A) : M S A :=
  match p with
  | PRet r => mres r
  | PAct u n => λ s, prun (n s) (u s)
  | PLock p | PUnlock p | PRLock p | PRUnlock p => prun p
  end.

Lemma prun_pthen {A B} (p : prog S A) (k : res A → prog S B) s :
  prun (pthen p k) s = prun (k (snd (prun p s))) (fst (prun p s)).
Proof. revert s. induction p; intros s; simpl; auto. Qed.
Lemma prun_pbnd {A B} (p : prog S A) (k : A → prog S B) s :
  prun (pbnd p k) s = mbnd (prun p) (λ a, prun (k a)) s.
Proof. unfold pbnd, mbnd. rewrite prun_pthen. by destruct (prun p s) as [s' []]. Qed.
Lemma prun_act {A} (m : M S A) s : prun (act m) s = m s.
Proof. simpl. unfold mres. by destruct (m s). Qed.
Lemma prun_locked {A} (p : prog S A) s : prun (locked p) s = prun p s.
Proof. simpl. rewrite prun_pthen. simpl. unfold mres. by destruct (prun p s). Qed.
Lemma prun_rlocked {A} (p : prog S A) s : prun (rlocked p) s = prun p s.
Proof. simpl. rewrite prun_pthen. simpl. unfold mres. by destruct (prun p s). Qed.
Lemma prun_bnd_eq {A B} (p : prog S A) (k : A → prog S B) m f :
  (∀ s, prun p s = m s) → (∀ a s, prun (k a) s = f a s) → ∀ s, prun (pbnd p k) s = mbnd m f s.
Proof.
  intros Hm Hf s. rewrite prun_pbnd. unfold mbnd. rewrite Hm. by destruct (m s) as [s' []].
Qed.
Lemma prun_pfor {A} (l : list A) (f : A → prog S unit) g :
  (∀ x s, prun (f x) s = g x s) → ∀ s, prun (pfor l f) s = mfor l g s.
Proof.
  intros Hf. induction l as [|x l IH]; intros s; [done|]. simpl. by apply prun_bnd_eq.
Qed.
End prog.

Notation "'go' x := p 'in' k" := (pbnd p (λ x, k))
  (at level 10, x name, p at level 100, k at level 200) : go_scope.
Notation "p ';;>' k" := (pbnd p (λ _, k))
  (at level 199, k at level 200, right associativity) : go_scope.

(** * Goroutines *)

(** What a goroutine holds of the mutex: nothing; it has announced [Lock], which
    keeps new readers out, and waits for the old ones; the write lock, with the
    state it was acquired in; the read lock. *)
Inductive hold (S : Type) := HNone | HWait | HWrite (s0 : S) | HRead.
Arguments HNone {_}.
Arguments HWait {_}.
Arguments HWrite {_}.
Arguments HRead {_}.

Inductive gor (S : Type) := Idle | Busy (h : hold S) (p : prog S unit).
Arguments Idle {_}.
Arguments Busy {_}.

(** [sync.RWMutex]: a writer holds it or has announced itself; the readers. *)
Record rwmutex := mkRw { rw_writer : bool; rw_readers : nat }.

Section machine.
Context {S : Type}.

(** One step of a goroutine; a blocked one has none. *)
Inductive gor_step : S → rwmutex → gor S → S → rwmutex → gor S → Prop :=
  | GAct s mu h u n : gor_step s mu (Busy h (PAct u n)) (u s) mu (Busy h (n s))
  | GAnnounce s rd p :
      gor_step s (mkRw false rd) (Busy HNone (PLock p)) s (mkRw true rd) (Busy HWait (PLock p))
  | GLock s p :
      gor_step s (mkRw true 0) (Busy HWait (PLock p)) s (mkRw true 0) (Busy (HWrite s) p)
  | GUnlock s rd s0 p :
      gor_step s (mkRw true rd) (Busy (HWrite s0) (PUnlock p)) s (mkRw false rd) (Busy HNone p)
  | GRLock s rd p :
      gor_step s (mkRw false rd) (Busy HNone (PRLock p)) s (mkRw false (rd + 1)) (Busy HRead p)
  | GRUnlock s wr rd p :
      gor_step s (mkRw wr (rd + 1)) (Busy HRead (PRUnlock p)) s (mkRw wr rd) (Busy HNone p)
  | GDone s mu r : gor_step s mu (Busy HNone (PRet r)) s mu Idle.

(** The goroutines, each with its kind. *)
Context {K : Type}.
Record conf := mkConf { cf_state : S; cf_mu : rwmutex; cf_gors : list (K * gor S) }.

Inductive gors_step : conf → conf → Prop :=
  | OwnStep s mu s' mu' k g g' l1 l2 :
      gor_step s mu g s' mu' g' →
      gors_step (mkConf s mu (l1 ++ (k, g) :: l2)) (mkConf s' mu' (l1 ++ (k, g') :: l2)).

(** An idle goroutine takes up a request of its kind. *)
Variable reqs : K → prog S unit → Prop.
Inductive start_step : conf → conf → Prop :=
  | EnvStart s mu k p l1 l2 :
      reqs k p →
      start_step (mkConf s mu (l1 ++ (k, Idle) :: l2)) (mkConf s mu (l1 ++ (k, Busy HNone p) :: l2)).

Definition cstep (c c' : conf) : Prop := gors_step c c' ∨ start_step c c'.
Definition cstart (s : S) (ks : list K) : conf :=
  mkConf s (mkRw false 0) ((λ k, (k, Idle)) <$> ks).
End machine.
Arguments conf : clear implicits.

(** ** Schedules *)

(** The step of a goroutine as a function, and a schedule as the places of the
    goroutines that go on. *)
Section schedule.
Context {S K : Type}.

Definition gor_exec (s : S) (mu : rwmutex) (g : gor S) : option (S * rwmutex * gor S) :=
  match g, mu with
  | Busy h (PAct u n), _ => Some (u s, mu, Busy h (n s))
  | Busy HNone (PLock p), mkRw false rd => Some (s, mkRw true rd, Busy HWait (PLock p))
  | Busy HWait (PLock p), mkRw true 0 => Some (s, mu, Busy (HWrite s) p)
  | Busy (HWrite _) (PUnlock p), mkRw true rd => Some (s, mkRw false rd, Busy HNone p)
  | Busy HNone (PRLock p), mkRw false rd => Some (s, mkRw false (rd + 1), Busy HRead p)
  | Busy HRead (PRUnlock p), mkRw wr (Datatypes.S rd) => Some (s, mkRw wr rd, Busy HNone p)
  | Busy HNone (PRet _), _ => Some (s, mu, Idle)
  | _, _ => None
  end.
Lemma gor_exec_step s mu g s' mu' g' :
  gor_exec s mu g = Some (s', mu', g') ↔ gor_step s mu g s' mu' g'.
Proof.
  split.
  - destruct mu as [wr rd], g as [|h p]; [done|].
    destruct p, h; simpl; intros E; try done; try (destruct wr; try done); try (destruct rd; try done);
      simplify_eq; try constructor.
    all: match goal with |- context [Datatypes.S ?n] => rewrite <- (Nat.add_1_r n); constructor end.
  - intros []; simpl; try done; [by destruct h|]. by rewrite Nat.add_1_r.
Qed.

Fixpoint schedule (l : list nat) (c : conf S K) : option (conf S K) :=
  match l with
  | [] => Some c
  | i :: l =>
      match cf_gors c !! i with
      | Some (k, g) =>
          match gor_exec (cf_state c) (cf_mu c) g with
          | Some (s', mu', g') => schedule l (mkConf s' mu' (<[i := (k, g')]> (cf_gors c)))
          | None => None
          end
      | None => None
      end
  end.
Lemma schedule_steps l c c' : schedule l c = Some c' → rtc gors_step c c'.
Proof.
  revert c. induction l as [|i l IH]; intros c; simpl; [by intros [= <-]|].
  destruct (cf_gors c !! i) as [[k g]|] eqn:Ei; [|done].
  destruct (gor_exec _ _ g) as [[[s' mu'] g']|] eqn:Eg; [|done]. intros Hl%IH.
  eapply rtc_l; [|exact Hl]. destruct c as [s mu gs]. simpl in *. apply gor_exec_step in Eg.
  rewrite <- (take_drop_middle gs i (k, g) Ei) at 1.
  rewrite insert_take_drop by (by eapply lookup_lt_Some). by apply OwnStep.
Qed.
Lemma schedule_named l c : rtc gors_step c (default c (schedule l c)).
Proof. destruct (schedule l c) as [c'|] eqn:E; [by apply (schedule_steps l)|done]. Qed.
End schedule.

(** * What every action keeps *)

(** A fact about the state that no action of a request breaks, wherever the
    others interrupt it, while the state only grows in the order [le]; the results
    satisfy [R].  [pkeeps_from] knows that the state has grown from [s0]. *)
Section kept.
Context {S : Type} (I : S → Prop) (le : S → S → Prop) `{!PreOrder le}.

Fixpoint pkeeps_from {A} (R : res A → Prop) (p : prog S A) (s0 : S) : Prop :=
  match p with
  | PRet r => R r
  | PAct u n => ∀ s, le s0 s → I s → I (u s) ∧ le s (u s) ∧ pkeeps_from R (n s) (u s)
  | PLock p | PUnlock p | PRLock p | PRUnlock p => pkeeps_from R p s0
  end.
Definition pkeeps {A} (R : res A → Prop) (p : prog S A) : Prop := ∀ s, pkeeps_from R p s.

Lemma pkeeps_from_le {A} (R : res A → Prop) (p : prog S A) s s' :
  le s s' → pkeeps_from R p s → pkeeps_from R p s'.
Proof.
  intros Hle. induction p as [r|u n IH|p IH|p IH|p IH|p IH]; simpl; auto.
  intros Hp s1 Hs1. apply Hp. by etrans.
Qed.
Lemma pkeeps_from_weaken {A} (Q R : res A → Prop) (p : prog S A) s :
  (∀ r, Q r → R r) → pkeeps_from Q p s → pkeeps_from R p s.
Proof.
  intros HQ. revert s. induction p as [r|u n IH|p IH|p IH|p IH|p IH]; simpl; intros s; auto.
  intros Hp s1 Hle Hs. destruct (Hp s1 Hle Hs) as (? & ? & ?). auto.
Qed.
Lemma pkeeps_from_pthen {A B} (Q : res A → Prop) (R : res B → Prop) p (k : res A → prog S B) s :
  pkeeps_from Q p s → (∀ r s', le s s' → Q r → pkeeps_from R (k r) s') → pkeeps_from R (pthen p k) s.
Proof.
  revert s. induction p as [r|u n IH|p IH|p IH|p IH|p IH]; simpl; intros s Hp Hk; auto.
  - by apply Hk.
  - intros s1 Hle Hs. destruct (Hp s1 Hle Hs) as (Hi & Hu & Hn). split; [done|]. split; [done|].
    apply IH; [done|]. intros r s' Hle'. apply Hk. etrans; [exact Hle|by etrans].
Qed.
Lemma pkeeps_from_pbnd {A B} (Q : A → Prop) (R : res B → Prop) p (k : A → prog S B) s :
  pkeeps_from (λ r, ∀ a, r = Ok a → Q a) p s → (∀ e, R (Err e)) → (∀ x, R (Panic x)) →
  (∀ a s', le s s' → Q a → pkeeps_from R (k a) s') → pkeeps_from R (pbnd p k) s.
Proof.
  intros Hp He Hx Hk. eapply pkeeps_from_pthen; [exact Hp|].
  intros [a|e|x] s' Hle Hr; [|apply He|apply Hx]. by apply Hk, Hr.
Qed.
Lemma pkeeps_from_pfor {A} (l : list A) (f : A → prog S unit) s :
  (∀ x s', x ∈ l → le s s' → pkeeps_from (λ _, True) (f x) s') → pkeeps_from (λ _, True) (pfor l f) s.
Proof.
  revert s. induction l as [|x l IH]; intros s Hf; [done|]. simpl.
  apply (pkeeps_from_pthen (λ _, True)); [apply Hf; [by left|done]|].
  intros [[]|e|y] s' Hle _; [|done|done]. apply IH. intros z s'' Hz Hle'. apply Hf; [by right|by etrans].
Qed.

Lemma pkeeps_pthen {A B} (Q : res A → Prop) (R : res B → Prop) p (k : res A → prog S B) :
  pkeeps Q p → (∀ r, Q r → pkeeps R (k r)) → pkeeps R (pthen p k).
Proof. intros Hp Hk s. apply (pkeeps_from_pthen Q); [apply Hp|]. intros r s' _ Hr. by apply Hk. Qed.
Lemma pkeeps_pbnd {A B} (Q : A → Prop) (R : res B → Prop) p (k : A → prog S B) :
  pkeeps (λ r, ∀ a, r = Ok a → Q a) p → (∀ e, R (Err e)) → (∀ x, R (Panic x)) →
  (∀ a, Q a → pkeeps R (k a)) → pkeeps R (pbnd p k).
Proof.
  intros Hp He Hx Hk. eapply pkeeps_pthen; [exact Hp|]. intros [a|e|x] Hr; [|by intros s; apply He|by intros s; apply Hx].
  by apply Hk, Hr.
Qed.
(** The same where only the fact matters. *)
Lemma pkeeps_seq {A B} p (k : A → prog S B) :
  pkeeps (λ _, True) p → (∀ a, pkeeps (λ _, True) (k a)) → pkeeps (λ _, True) (pbnd p k).
Proof. intros Hp Hk. apply (pkeeps_pthen (λ _, True)); [done|]. intros [a|e|x] _; [apply Hk|by intros s..]. Qed.
Lemma pkeeps_act {A} (R : res A → Prop) (m : M S A) :
  (∀ s, I s → I (fst (m s)) ∧ le s (fst (m s)) ∧ R (snd (m s))) → pkeeps R (act m).
Proof. intros Hm s0 s _ Hs. by apply Hm. Qed.
Lemma pkeeps_pfor {A} (l : list A) (f : A → prog S unit) :
  (∀ x, x ∈ l → pkeeps (λ _, True) (f x)) → pkeeps (λ _, True) (pfor l f).
Proof. intros Hf s. apply pkeeps_from_pfor. intros x s' Hx _. by apply Hf. Qed.
Lemma pkeeps_locked {A} (R : res A → Prop) (p : prog S A) : pkeeps R p → pkeeps R (locked p).
Proof. intros Hp s. simpl. by apply (pkeeps_from_pthen R). Qed.
Lemma pkeeps_rlocked {A} (R : res A → Prop) (p : prog S A) : pkeeps R p → pkeeps R (rlocked p).
Proof. intros Hp s. simpl. by apply (pkeeps_from_pthen R). Qed.

(** Goroutines whose requests all keep it. *)
Context {K : Type} (reqs : K → prog S unit → Prop).
Hypothesis reqs_keep : ∀ k p, reqs k p → pkeeps (λ _, True) p.

Definition gor_keeps (s : S) (x : K * gor S) : Prop :=
  match snd x with Busy _ p => pkeeps_from (λ _, True) p s | Idle => True end.
Definition conf_keeps (c : conf S K) : Prop :=
  I (cf_state c) ∧ Forall (gor_keeps (cf_state c)) (cf_gors c).

Lemma gor_keeps_le s s' x : le s s' → gor_keeps s x → gor_keeps s' x.
Proof. destruct x as [k [|h p]]; [done|]. apply pkeeps_from_le. Qed.
Lemma gor_step_keeps s mu g s' mu' g' (k : K) :
  gor_step s mu g s' mu' g' → I s → gor_keeps s (k, g) → I s' ∧ le s s' ∧ gor_keeps s' (k, g').
Proof. intros Hs Hi Hg. destruct Hs; try by split; [|split]. by apply Hg. Qed.
Lemma cstep_keeps c c' : cstep reqs c c' → conf_keeps c → conf_keeps c'.
Proof.
  intros [Hs|Hs] [Hi Hg]; [destruct Hs as [s mu s' mu' k g g' l1 l2 Hst]|destruct Hs as [s mu k p l1 l2 Hk]];
    simpl in *.
  - apply Forall_app in Hg as [H1 [H2 H3]%Forall_cons].
    destruct (gor_step_keeps _ _ _ _ _ _ k Hst Hi H2) as (Hi' & Hle & Hg').
    split; [done|]. apply Forall_app. split; [|constructor; [done|]];
      (eapply Forall_impl; [eassumption|]; intros x; by apply gor_keeps_le).
  - split; [done|]. apply Forall_app in Hg as [H1 [H2 H3]%Forall_cons]. apply Forall_app.
    split; [done|]. constructor; [|done]. by eapply reqs_keep.
Qed.
(** ... and so every reachable state has it. *)
Lemma csteps_keep s ks c : I s → rtc (cstep reqs) (cstart s ks) c → I (cf_state c).
Proof.
  intros Hs Hr. assert (conf_keeps (cstart s ks)) as Hc.
  { split; [done|]. apply Forall_fmap, Forall_forall. done. }
  assert (conf_keeps c) as [? _]; [|done].
  revert Hc. induction Hr; eauto using cstep_keeps.
Qed.
End kept.

(** * The discipline *)

(** What the goroutines agree on.  [d_inv] holds at every moment; [d_lock] while
    nobody writes under the lock; [d_same] is what only the writer changes;
    [d_mono] is what nobody undoes; [d_crit] is what a critical section did, from
    the state it found to the state it leaves. *)
Class Discipline (S : Type) := {
  d_inv : S → Prop;
  d_lock : S → Prop;
  d_same : S → S → Prop;
  d_mono : S → S → Prop;
  d_crit : S → S → Prop
}.
Class DisciplineLaws (S : Type) `{Discipline S} : Prop := {
  d_same_equiv :: Equivalence d_same;
  d_mono_pre :: PreOrder d_mono;
  d_lock_proper :: Proper (d_same ==> impl) d_lock;
  d_crit_proper :: Proper (d_same ==> d_same ==> impl) d_crit
}.

Section logic.
Context {S : Type} `{!Discipline S} `{!DisciplineLaws S}.
Implicit Types (s : S) (h : hold S).

Definition keeps_out h : bool := match h with HRead | HWrite _ => true | _ => false end.

(** What others may do meanwhile, and what the goroutine may do. *)
Definition rely h s s' : Prop := d_mono s s' ∧ (keeps_out h = true → d_same s s').
Definition guar h s s' : Prop :=
  d_mono s s' ∧ match h with HWrite _ => True | _ => d_same s s' end.

Fixpoint wp {A} (h : hold S) (p : prog S A) (s : S) (Φ : hold S → res A → S → Prop) : Prop :=
  ∀ s1, rely h s s1 → d_inv s1 →
  match p with
  | PRet r => Φ h r s1
  | PAct u n => d_inv (u s1) ∧ guar h s1 (u s1) ∧ wp h (n s1) (u s1) Φ
  | PLock p => (h = HNone ∨ h = HWait) ∧ (d_lock s1 → wp (HWrite s1) p s1 Φ)
  | PUnlock p => ∃ s0, h = HWrite s0 ∧ d_crit s0 s1 ∧ d_lock s1 ∧ wp HNone p s1 Φ
  | PRLock p => h = HNone ∧ (d_lock s1 → wp HRead p s1 Φ)
  | PRUnlock p => h = HRead ∧ wp HNone p s1 Φ
  end.

(** A request that is safe from any state. *)
Definition safe {A} (p : prog S A) : Prop := ∀ s, wp HNone p s (λ h _ _, h = HNone).

#[export] Instance rely_pre h : PreOrder (rely h).
Proof.
  split.
  - intros s. by split.
  - intros s1 s2 s3 [Hm1 Hs1] [Hm2 Hs2]. split; [by etrans|]. intros Hk. etrans; auto.
Qed.

Lemma wp_rely {A} h (p : prog S A) s s' Φ : rely h s s' → wp h p s Φ → wp h p s' Φ.
Proof. intros Hr Hw. destruct p; intros s1 Hr1; apply Hw; by etrans. Qed.
Lemma wp_mono {A} h (p : prog S A) s (Φ Ψ : hold S → res A → S → Prop) :
  (∀ h' r s', Φ h' r s' → Ψ h' r s') → wp h p s Φ → wp h p s Ψ.
Proof.
  intros HΦ. revert h s. induction p as [r|u n IH|p IH|p IH|p IH|p IH]; intros h s Hw s1 Hr Hi;
    specialize (Hw s1 Hr Hi); simpl in Hw.
  - by apply HΦ.
  - destruct Hw as (? & ? & ?). split; [done|]. split; [done|]. by apply IH.
  - destruct Hw as (? & Hl). split; [done|]. intros ?. by apply IH, Hl.
  - destruct Hw as (s0 & ? & ? & ? & ?). exists s0. split; [done|]. split; [done|]. split; [done|]. by apply IH.
  - destruct Hw as (? & Hl). split; [done|]. intros ?. by apply IH, Hl.
  - destruct Hw as (? & ?). split; [done|]. by apply IH.
Qed.
Lemma wp_pthen {A B} h (p : prog S A) (k : res A → prog S B) s Φ :
  wp h p s (λ h' r s', wp h' (k r) s' Φ) → wp h (pthen p k) s Φ.
Proof.
  revert h s. induction p as [r|u n IH|p IH|p IH|p IH|p IH]; intros h s Hw; simpl in *.
  { assert (∀ s1, rely h s s1 → d_inv s1 → wp h (k r) s1 Φ) as Hk by exact Hw.
    destruct (k r); intros s1 Hr Hi; exact (Hk s1 Hr Hi s1 (reflexivity s1) Hi). }
  all: intros s1 Hr Hi; specialize (Hw s1 Hr Hi).
  - destruct Hw as (? & ? & ?). split; [done|]. split; [done|]. by apply IH.
  - destruct Hw as (? & Hl). split; [done|]. intros ?. by apply IH, Hl.
  - destruct Hw as (s0 & ? & ? & ? & ?). exists s0. split; [done|]. split; [done|]. split; [done|]. by apply IH.
  - destruct Hw as (? & Hl). split; [done|]. intros ?. by apply IH, Hl.
  - destruct Hw as (? & ?). split; [done|]. by apply IH.
Qed.

Lemma wp_pret {A} h (r : res A) s (Φ : hold S → res A → S → Prop) :
  (∀ s1, rely h s s1 → d_inv s1 → Φ h r s1) → wp h (PRet r) s Φ.
Proof. done. Qed.
(** The sequel of a result that is an error is that error. *)
Lemma wp_pbnd {A B} h (p : prog S A) (k : A → prog S B) s Φ :
  wp h p s (λ h' r s', match r with
                       | Ok a => wp h' (k a) s' Φ
                       | Err e => ∀ s1, rely h' s' s1 → d_inv s1 → Φ h' (Err e) s1
                       | Panic x => ∀ s1, rely h' s' s1 → d_inv s1 → Φ h' (Panic x) s1
                       end) → wp h (pbnd p k) s Φ.
Proof. intros Hw. apply wp_pthen. eapply wp_mono; [|exact Hw]. by intros h' [a|e|x] s'. Qed.
Lemma wp_act {A} h (m : M S A) s Φ :
  (∀ s1, rely h s s1 → d_inv s1 →
     d_inv (fst (m s1)) ∧ guar h s1 (fst (m s1)) ∧
     ∀ s2, rely h (fst (m s1)) s2 → d_inv s2 → Φ h (snd (m s1)) s2) →
  wp h (act m) s Φ.
Proof. intros Hm s1 Hr Hi. apply Hm; done. Qed.

(** The lock around a body: the body starts where [d_lock] holds, and must end
    where it holds again, having done what a critical section may. *)
Lemma wp_locked {A} (p : prog S A) s (Φ : hold S → res A → S → Prop) :
  (∀ s0, rely HNone s s0 → d_lock s0 → d_inv s0 →
     wp (HWrite s0) p s0 (λ h r s', h = HWrite s0 ∧ d_crit s0 s' ∧ d_lock s' ∧
        ∀ s1, d_mono s' s1 → d_inv s1 → Φ HNone r s1)) →
  wp HNone (locked p) s Φ.
Proof.
  intros Hp s1 Hr Hi. split; [by left|]. intros Hl. apply wp_pthen.
  eapply wp_mono; [|by apply Hp]. intros h r s' (-> & Hc & Hl' & HΦ) s2 [Hm2 Hs2] Hi2.
  specialize (Hs2 eq_refl). exists s1. split; [done|]. split; [by rewrite <- Hs2|].
  split; [by rewrite <- Hs2|]. intros s3 [Hm3 _] Hi3. apply HΦ; [by etrans|done].
Qed.
Lemma wp_rlocked {A} (p : prog S A) s (Φ : hold S → res A → S → Prop) :
  (∀ s0, rely HNone s s0 → d_lock s0 → d_inv s0 →
     wp HRead p s0 (λ h r s', h = HRead ∧ ∀ s1, d_mono s' s1 → d_inv s1 → Φ HNone r s1)) →
  wp HNone (rlocked p) s Φ.
Proof.
  intros Hp s1 Hr Hi. split; [done|]. intros Hl. apply wp_pthen.
  eapply wp_mono; [|by apply Hp]. intros h r s' (-> & HΦ) s2 [Hm2 _] Hi2.
  split; [done|]. intros s3 [Hm3 _] Hi3. apply HΦ; [by etrans|done].
Qed.

(** ** Requests that leave alone what the lock protects *)

(** Actions only, each keeping the invariant; the results satisfy [R]. *)
Fixpoint quiet {A} (R : res A → Prop) (p : prog S A) : Prop :=
  match p with
  | PRet r => R r
  | PAct u n => ∀ s, d_inv s → d_inv (u s) ∧ d_mono s (u s) ∧ d_same s (u s) ∧ quiet R (n s)
  | _ => False
  end.

Lemma quiet_act {A} (R : res A → Prop) (m : M S A) :
  (∀ s, d_inv s → d_inv (fst (m s)) ∧ d_mono s (fst (m s)) ∧ d_same s (fst (m s)) ∧ R (snd (m s))) →
  quiet R (act m).
Proof. done. Qed.
Lemma quiet_pthen {A B} (Q : res A → Prop) (R : res B → Prop) p (k : res A → prog S B) :
  quiet Q p → (∀ r, Q r → quiet R (k r)) → quiet R (pthen p k).
Proof.
  intros Hp Hk. induction p as [r|u n IH| | | |]; simpl in *; [by apply Hk| |done..].
  intros s Hi. destruct (Hp s Hi) as (? & ? & ? & ?). auto.
Qed.
Definition if_ok {A} (Q : A → Prop) (r : res A) : Prop := ∀ a, r = Ok a → Q a.
Lemma quiet_pbnd {A B} (Q : A → Prop) (R : res B → Prop) p (k : A → prog S B) :
  quiet (if_ok Q) p → (∀ e, R (Err e)) → (∀ x, R (Panic x)) → (∀ a, Q a → quiet R (k a)) →
  quiet R (pbnd p k).
Proof.
  intros Hp He Hx Hk. eapply quiet_pthen; [exact Hp|]. intros [a|e|x] Hr; [|apply He|apply Hx].
  by apply Hk, Hr.
Qed.
Lemma quiet_weaken {A} (Q R : res A → Prop) (p : prog S A) :
  (∀ r, Q r → R r) → quiet Q p → quiet R p.
Proof.
  intros HQ. induction p as [r|u n IH| | | |]; simpl; [apply HQ| |done..].
  intros Hp s Hi. destruct (Hp s Hi) as (? & ? & ? & ?). auto.
Qed.
Lemma quiet_pfor {A} (R : res unit → Prop) (l : list A) (f : A → prog S unit) :
  (∀ r, R r) → (∀ x, x ∈ l → quiet R (f x)) → quiet R (pfor l f).
Proof.
  intros HR. induction l as [|x l IH]; intros Hf; [apply HR|]. simpl.
  apply quiet_pbnd with (Q := λ _, True); [|auto|auto|].
  - eapply quiet_weaken; [|apply Hf; set_solver]. by intros r _ a _.
  - intros _ _. apply IH. intros y Hy. apply Hf. set_solver.
Qed.

(** Such a request is safe whatever the goroutine holds, and keeps what the lock
    protects. *)
Lemma wp_quiet {A} h (p : prog S A) R s (Φ : hold S → res A → S → Prop) :
  quiet R p → (∀ r s1, R r → rely h s s1 → d_inv s1 → Φ h r s1) → wp h p s Φ.
Proof.
  revert s. induction p as [r|u n IH| | | |]; intros s Hq HΦ; simpl in Hq; [|  |done..].
  - intros s1 Hr Hi. by apply HΦ.
  - intros s1 Hr Hi. destruct (Hq s1 Hi) as (Hi' & Hm & Hs & Hn).
    split; [done|]. split; [by destruct h|]. apply IH; [done|]. intros r s2 HR Hr2.
    apply HΦ; [done|]. etrans; [exact Hr|]. etrans; [|exact Hr2]. by split.
Qed.
Lemma safe_quiet (p : prog S unit) : quiet (λ _, True) p → safe p.
Proof. intros Hq s. by eapply wp_quiet. Qed.
End logic.

(** * All goroutines together *)

Section joint.
Context {S : Type} `{!Discipline S} `{!DisciplineLaws S} {K : Type}.
Variable reqs : K → prog S unit → Prop.
Variable reqs_safe : ∀ k p, reqs k p → safe p.
Implicit Types (s : S) (c : conf S K) (g : gor S) (l : list (K * gor S)).

Definition holds (f : hold S → nat) (x : K * gor S) : nat :=
  match snd x with Busy h _ => f h | Idle => 0 end.
Definition is_reader (h : hold S) : nat := match h with HRead => 1 | _ => 0 end.
Definition is_writer (h : hold S) : nat := match h with HWait | HWrite _ => 1 | _ => 0 end.
Definition has_lock (h : hold S) : nat := match h with HWrite _ => 1 | _ => 0 end.
Definition total_of (f : hold S → nat) l : nat := sum_list_with (holds f) l.

Definition gor_ok s g : Prop :=
  match g with Busy h p => wp h p s (λ h _ _, h = HNone) | Idle => True end.

(** The state's invariant, the mutex's counters, [d_lock] while nobody has the
    lock, and every goroutine's condition. *)
Record cinv c : Prop := mkCinv {
  ci_inv : d_inv (cf_state c);
  ci_gors : Forall (λ x, gor_ok (cf_state c) (snd x)) (cf_gors c);
  ci_readers : total_of is_reader (cf_gors c) = rw_readers (cf_mu c);
  ci_writers : total_of is_writer (cf_gors c) = if rw_writer (cf_mu c) then 1%nat else 0%nat;
  ci_excl : total_of has_lock (cf_gors c) ≠ 0%nat → rw_readers (cf_mu c) = 0%nat;
  ci_lock : total_of has_lock (cf_gors c) = 0%nat → d_lock (cf_state c)
}.

Lemma total_app f l1 x l2 :
  total_of f (l1 ++ x :: l2) = (holds f x + total_of f (l1 ++ l2))%nat.
Proof. unfold total_of. rewrite !sum_list_with_app. simpl. lia. Qed.
Lemma total_zero f l x : total_of f l = 0%nat → x ∈ l → holds f x = 0%nat.
Proof.
  intros Ht (l1 & l2 & ->)%list_elem_of_split. rewrite total_app in Ht. lia.
Qed.
Lemma total_has_writer l : (total_of has_lock l <= total_of is_writer l)%nat.
Proof.
  unfold total_of. induction l as [|[k [|h p]] l IH]; simpl; [done|done|].
  destruct h; unfold holds; simpl; unfold holds in IH; lia.
Qed.

(** What one goroutine does is allowed to the others. *)
Lemma others_ok s s' l (w : bool) :
  Forall (λ x, gor_ok s (snd x)) l → d_mono s s' →
  (if w then total_of is_reader l = 0%nat ∧ total_of has_lock l = 0%nat else d_same s s') →
  Forall (λ x, gor_ok s' (snd x)) l.
Proof.
  rewrite !Forall_forall. intros Hok Hm Hw x Hx. specialize (Hok x Hx).
  destruct x as [k [|h p]]; [done|]. eapply wp_rely; [|exact Hok]. split; [done|]. intros Hk.
  destruct w; [|done]. destruct Hw as [Hr Hl].
  apply (total_zero _ _ _ Hr) in Hx as Hr0. apply (total_zero _ _ _ Hl) in Hx as Hl0.
  by destruct h.
Qed.
Lemma Forall_mid (P : K * gor S → Prop) l1 x l2 :
  Forall P (l1 ++ x :: l2) ↔ P x ∧ Forall P (l1 ++ l2).
Proof. rewrite !Forall_app, Forall_cons. tauto. Qed.

Lemma gors_step_cinv c c' : gors_step c c' → cinv c → cinv c'.
Proof.
  intros [s mu s' mu' k g g' l1 l2 Hg] [Hi Hgs Hr Hw Hx Hl]. simpl in *.
  apply Forall_mid in Hgs as [Hok Hrest]. simpl in Hok.
  rewrite total_app in Hr, Hw, Hx, Hl.
  pose proof (total_has_writer (l1 ++ l2)) as Hle.
  assert (∀ s1 mu1 g1, d_inv s1 → gor_ok s1 g1 → Forall (λ x, gor_ok s1 (snd x)) (l1 ++ l2) →
    (holds is_reader (k, g1) + total_of is_reader (l1 ++ l2) = rw_readers mu1)%nat →
    (holds is_writer (k, g1) + total_of is_writer (l1 ++ l2) = if rw_writer mu1 then 1 else 0)%nat →
    ((holds has_lock (k, g1) + total_of has_lock (l1 ++ l2) ≠ 0)%nat → rw_readers mu1 = 0%nat) →
    ((holds has_lock (k, g1) + total_of has_lock (l1 ++ l2) = 0)%nat → d_lock s1) →
    cinv (mkConf s1 mu1 (l1 ++ (k, g1) :: l2))) as Hmk.
  { intros s1 mu1 g1 ???????. split; simpl; rewrite ?total_app; try done. by apply Forall_mid. }
  destruct Hg as [s mu h u n|s rd p|s p|s rd s0 p|s rd p|s wr rd p|s mu r];
    pose proof (Hok s (reflexivity s) Hi) as Hnow; unfold holds in *; simpl in *.
  - destruct Hnow as (Hi' & [Hm Hs] & Hn). apply Hmk; simpl; try done.
    + destruct h as [| |s0|].
      * by apply (others_ok s (u s) _ false).
      * by apply (others_ok s (u s) _ false).
      * apply (others_ok s (u s) _ true); [done|done|]. simpl in *. split; [lia|].
        destruct (rw_writer mu); lia.
      * by apply (others_ok s (u s) _ false).
    + intros H0. destruct h; [rewrite <- Hs; by apply Hl..| |rewrite <- Hs; by apply Hl]. simpl in *. lia.
  - apply Hmk; simpl; try done; try lia. intros s1 Hr1 Hi1. destruct (Hok s1 Hr1 Hi1) as [_ Hp].
    split; [by right|exact Hp].
  - destruct Hnow as [_ Hp]. apply Hmk; simpl; try done; try lia. apply Hp, Hl. lia.
  - destruct Hnow as (s1 & [= <-] & _ & Hls & Hp). by apply Hmk; simpl; try done; try lia.
  - destruct Hnow as [_ Hp]. apply Hmk; simpl; try done; try lia. apply Hp, Hl. lia.
  - destruct Hnow as [_ Hp]. by apply Hmk; simpl; try done; try lia.
  - by apply Hmk.
Qed.
Lemma start_step_cinv c c' : start_step reqs c c' → cinv c → cinv c'.
Proof.
  intros [s mu k p l1 l2 Hp] [Hi Hgs Hr Hw Hx Hl]. simpl in *. apply Forall_mid in Hgs as [_ Hgs].
  rewrite total_app in Hr, Hw, Hx, Hl.
  split; simpl; rewrite ?total_app; try done. apply Forall_mid. split; [|done].
  by eapply reqs_safe.
Qed.
Lemma cstart_cinv s ks : d_inv s → d_lock s → cinv (cstart s ks).
Proof.
  intros Hi Hl.
  assert (∀ f, total_of f ((λ k, (k, Idle)) <$> ks) = 0%nat) as H0.
  { intros f. unfold total_of. induction ks; [done|]. simpl. done. }
  split; simpl; rewrite ?H0; try done. by apply Forall_fmap, Forall_true.
Qed.
Lemma csteps_cinv c c' : rtc (cstep reqs) c c' → cinv c → cinv c'.
Proof. induction 1 as [|c c1 c' [H1|H1] _ IH]; eauto using gors_step_cinv, start_step_cinv. Qed.

(** ** Nobody is stuck *)

(** A goroutine can go on when no writer keeps it out and no reader keeps it
    waiting. *)
Lemma gor_progress c k h p :
  cinv c → (k, Busy h p) ∈ cf_gors c →
  (h = HNone → rw_writer (cf_mu c) = false) → (h = HWait → rw_readers (cf_mu c) = 0%nat) →
  ∃ c', gors_step c c'.
Proof.
  destruct c as [s [wr rd] l]. intros [Hi Hgs Hr Hw Hx _]. simpl in *.
  intros (l1 & l2 & ->)%list_elem_of_split. apply Forall_mid in Hgs as [Hok _].
  simpl in Hok. rewrite total_app in Hr, Hw, Hx. unfold holds in *. simpl in *.
  intros Hn Hwait. assert (∃ s' mu' g', gor_step s (mkRw wr rd) (Busy h p) s' mu' g') as (s' & mu' & g' & Hg).
  { destruct p as [r|u n|p|p|p|p]; specialize (Hok s (reflexivity s) Hi); simpl in Hok.
    - subst h. do 3 eexists. constructor.
    - do 3 eexists. constructor.
    - destruct Hok as [[-> | ->] _]; simpl in *.
      + rewrite (Hn eq_refl). do 3 eexists. constructor.
      + rewrite (Hwait eq_refl). destruct wr; [|done]. do 3 eexists. constructor.
    - destruct Hok as (s0 & -> & _). destruct wr; [|done]. do 3 eexists. constructor.
    - destruct Hok as [-> _]. rewrite (Hn eq_refl). do 3 eexists. constructor.
    - destruct Hok as [-> _]. simpl in Hr. replace rd with (rd - 1 + 1)%nat by lia. do 3 eexists. constructor. }
  eexists. by apply OwnStep.
Qed.
Lemma total_pos f l : total_of f l ≠ 0%nat → ∃ k h p, (k, Busy h p) ∈ l ∧ f h ≠ 0%nat.
Proof.
  induction l as [|[k [|h p]] l IH]; unfold total_of, holds; simpl; [done|..]; intros Ht.
  - destruct (IH Ht) as (k' & h & p & ? & ?). exists k', h, p. split; [by right|done].
  - destruct (decide (f h = 0%nat)) as [E|E]; [|exists k, h, p; split; [by left|done]].
    rewrite E in Ht. destruct (IH Ht) as (k' & h' & p' & ? & ?). exists k', h', p'. split; [by right|done].
Qed.
(** Readers first, then the writer, then anybody. *)
Lemma conf_progress c k g :
  cinv c → (k, g) ∈ cf_gors c → g ≠ Idle → ∃ c', gors_step c c'.
Proof.
  intros Hc Hin Hg. destruct (decide (total_of is_reader (cf_gors c) = 0%nat)) as [Er|Er].
  - pose proof (ci_readers _ Hc) as Hr. pose proof (ci_writers _ Hc) as Hw. rewrite Er in Hr.
    destruct (decide (total_of is_writer (cf_gors c) = 0%nat)) as [Ew|Ew].
    + destruct g as [|h p]; [done|]. eapply gor_progress; [done|done| |].
      * intros _. rewrite Ew in Hw. by destruct (rw_writer (cf_mu c)).
      * intros ->. apply (total_zero _ _ _ Ew) in Hin. done.
    + apply total_pos in Ew as (k' & h & p & Hin' & Hh). eapply gor_progress; [done|done| |].
      * by intros ->.
      * intros _. by symmetry.
  - apply total_pos in Er as (k' & h & p & Hin' & Hh). eapply gor_progress; [done|done|..]; by intros ->.
Qed.

(** ** Every request ends *)

(** What is left of a goroutine's request after one of its steps. *)
Inductive gor_less : gor S → gor S → Prop :=
  | LessStep s mu g s' mu' g' : gor_step s mu g s' mu' g' → gor_less g' g.
Lemma gor_less_acc g : Acc gor_less g.
Proof.
  assert (Acc gor_less Idle) as H0.
  { constructor. intros g' Hl. inversion Hl as [????? ? Hs]; subst. inversion Hs. }
  destruct g as [|h p]; [done|]. revert h.
  induction p as [r|u n IH|p IH|p IH|p IH|p IH]; intros h; constructor; intros g' Hl;
    inversion Hl as [????? ? Hs]; subst; inversion Hs; subst; auto.
  constructor. intros g2 Hl2. inversion Hl2 as [????? ? Hs2]; subst. inversion Hs2; subst; auto.
Qed.
Inductive gors_less : list (K * gor S) → list (K * gor S) → Prop :=
  | LessOne k g g' l1 l2 :
      gor_less g' g → gors_less (l1 ++ (k, g') :: l2) (l1 ++ (k, g) :: l2).
Lemma gors_less_acc l : Acc gors_less l.
Proof.
  induction l as [|[k g] l IHl].
  { constructor. intros l' Hl. inversion Hl. by destruct l1. }
  revert l IHl. induction (gor_less_acc g) as [g _ IHg]. intros l IHl.
  induction IHl as [l Hl IHl]. constructor. intros l' Hs. inversion Hs as [k0 g0 g1 l1 l2 Hg E1 E2].
  destruct l1 as [|x l1]; simplify_eq/=.
  - apply IHg; [done|]. by constructor.
  - apply IHl. by constructor.
Qed.
Lemma gors_step_sn c : sn gors_step c.
Proof.
  destruct c as [s mu l]. revert s mu. induction (gors_less_acc l) as [l _ IH]. intros s mu.
  constructor. intros c' Hs. inversion Hs as [s1 mu1 s' mu' k g g' l1 l2 Hg]; subst.
  apply IH. constructor. by econstructor.
Qed.

(** ** Critical sections are atomic *)

(** The critical sections that have ended, in the order of their [Unlock], lead
    from the start to a state that agrees with the present one on what the lock
    protects; while one is running, to the state it found. *)
Record linear (s0 : S) c (a : S) : Prop := mkLinear {
  ln_trace : rtc d_crit s0 a;
  ln_free : total_of has_lock (cf_gors c) = 0%nat → d_same a (cf_state c);
  ln_held k s1 p : (k, Busy (HWrite s1) p) ∈ cf_gors c → d_same a s1
}.

Lemma gors_step_linear s0 c c' a :
  cinv c → gors_step c c' → linear s0 c a → ∃ a', linear s0 c' a'.
Proof.
  intros Hc Hst. destruct Hst as [s mu s' mu' k g g' l1 l2 Hg]. destruct Hc as [Hi Hgs Hr Hw Hx Hl].
  intros [Ht Hf Hh]. simpl in *. apply Forall_mid in Hgs as [Hok _]. simpl in Hok.
  rewrite total_app in Hw, Hf. pose proof (total_has_writer (l1 ++ l2)) as Hle.
  assert (∀ k1 s1 p1 g1, (k1, Busy (HWrite s1) p1) ∈ l1 ++ (k, g1) :: l2 →
            (k1, Busy (HWrite s1) p1) ∈ l1 ++ l2 ∨ g1 = Busy (HWrite s1) p1) as Hsplit.
  { intros k1 s1 p1 g1. rewrite !elem_of_app, elem_of_cons. naive_solver. }
  assert (∀ k1 s1 p1, (k1, Busy (HWrite s1) p1) ∈ l1 ++ l2 → d_same a s1) as Hrest.
  { intros k1 s1 p1 Hin. apply (Hh k1 s1 p1). revert Hin. rewrite !elem_of_app, elem_of_cons. naive_solver. }
  destruct Hg as [s mu h u n|s rd p|s p|s rd s1 p|s rd p|s wr rd p|s mu r];
    specialize (Hok s (reflexivity s) Hi); unfold holds in *; simpl in *.
  4: { destruct Hok as (s2 & [= <-] & Hc & _ & _). exists s. split; simpl; [|done|].
       - eapply rtc_r; [exact Ht|]. rewrite (Hh k s1 (PUnlock p)); [done|]. apply elem_of_app. right. by left.
       - intros k1 s3 p1 [Hin|[=]]%Hsplit. apply (total_zero has_lock) in Hin; [done|lia]. }
  all: exists a; split; simpl; [done| |]; rewrite ?total_app; unfold holds; simpl.
  all: try (intros k1 s3 p1 [?|[=]]%Hsplit; by eapply Hrest).
  all: try done.
  - intros H0. etrans; [by apply Hf|]. destruct Hok as (_ & [_ Hs] & _). by destruct h.
  - intros k1 s1 p1 [?|[= -> _]]%Hsplit; [by eapply Hrest|]. eapply (Hh k). apply elem_of_app. right. by left.
  - intros k1 s1 p1 [?|[= -> _]]%Hsplit; [by eapply Hrest|]. apply Hf. lia.
Qed.
Lemma csteps_linear s0 ks c :
  d_inv s0 → d_lock s0 → rtc (cstep reqs) (cstart s0 ks) c → cinv c ∧ ∃ a, linear s0 c a.
Proof.
  intros Hi Hl Hr. split; [eapply csteps_cinv; [done|by apply cstart_cinv]|].
  assert (linear s0 (cstart s0 ks) s0) as Hs.
  { split; [done|done|]. intros k s1 p (? & [=] & _)%list_elem_of_fmap. }
  pose proof (cstart_cinv s0 ks Hi Hl) as Hc. remember (cstart s0 ks) as c0 eqn:E. clear E.
  assert (∀ a, linear s0 c0 a → ∃ a', linear s0 c a') as H0; [|by eapply H0].
  clear Hs. induction Hr as [c|c c1 c' Hs _ IH]; intros a Ha; [by exists a|]. destruct Hs as [Hs|Hs].
  - destruct (gors_step_linear _ _ _ _ Hc Hs Ha) as [a' Ha']. by apply (IH ltac:(by eapply gors_step_cinv) a').
  - apply (IH ltac:(by eapply start_step_cinv) a). destruct Hs as [s mu k p l1 l2 Hp]. destruct Ha as [Ht Hf Hh].
    simpl in *. rewrite total_app in Hf. split; simpl; [done|by rewrite total_app|].
    intros k1 s1 p1 Hin. apply (Hh k1 s1 p1). revert Hin. rewrite !elem_of_app, !elem_of_cons. naive_solver.
Qed.
End joint.
