(* ===== verification/Requests.v ===== *)
(** What the agent's goroutines do, as requests of [Threads]: the subscription
    ([Apply], [Resync], [Revisions]), the PAM socket ([Bind], [Unbind]), the
    watcher's pass with its callback ([recompile]) and the audit stream, split into single map
    operations and the operations of the registry's mutex; and that each of them,
    run alone, is the operation the other files reason about. *)

From Stdlib Require Import ZArith Lia Ascii String.
From stdpp Require Import base tactics numbers list strings gmap relations.
From S2P Require Import Prelude GoStd GoNet EbpfMap Os BpfMap Concrete Kernel.
From S2P Require Import Policy Typed Session Pb Warrants Upstream Registry Node.
From S2P Require Import WatchLoop AuditQueue Pamsock Binder System Threads.

(** * The requests *)

Section programs.
Context `{Os} `{WallClock} `{KernelMaps} `{Crypto} `{SshKeys}.

Definition on_reg {A} (m : M (rstate node) A) : M bstate A :=
  λ b, let '(st', r) := m (b_reg b) in (mkBstate _ _ st' (b_audit b), r).
Definition map_op {A} (m : M Maps A) : prog bstate A := act (on_node (on_maps m)).
Definition node_op {A} (m : M node A) : prog bstate A := act (on_node m).
Definition reg_mod (f : registry → registry) : prog bstate unit := act (on_reg (mod_r f)).
(** A look at the shared state. *)
Definition look : prog bstate bstate := act mget.

(** ** Maps written with a read before *)

Definition put_net_prog (policyID : Z) (cidr : string) (port proto : Z) : prog bstate unit :=
  go k := PRet (netKeyOf policyID cidr) in
  go vf := map_op (net_current k cidr proto) in
  go v := PRet (merge_port cidr (fst vf) (snd vf) port) in
  map_op (net_write k cidr v).

Definition revoke_prog (id : Z) : prog bstate unit :=
  go w := map_op (revoke_read id) in map_op (revoke_write id w).

(** ** Policies *)

Definition apply_prog (c : Compiled) : prog bstate unit :=
  pfor (c_Write c) (λ w,
    if negb (we_Allow w)
    then map_op (PutWriteRule (c_PolicyID c) (we_Ref w) false (we_Recursive w)) else PRet (Ok tt)) ;;>
  pfor (c_Write c) (λ w,
    if we_Allow w
    then map_op (PutWriteRule (c_PolicyID c) (we_Ref w) true (we_Recursive w)) else PRet (Ok tt)) ;;>
  pfor (c_Exec c) (λ e, map_op (PutExecRule (c_PolicyID c) e)) ;;>
  pfor (c_Net c) (λ n, put_net_prog (c_PolicyID c) (ne_CIDR n) (ne_Port n) (ne_Proto n)).

(** The specs and the watch list have mutexes of their own, held for one access. *)
Definition installer_prog (id : Z) (pp : option pb.Policy) : prog bstate unit :=
  go s := PRet (policySpec pp) in
  go c := node_op (compile_now id s) in
  apply_prog c ;;>
  node_op (remember_spec id s) ;;>
  node_op (watch_compiled c).

(** The watcher's callback. *)
Definition recompile_prog (id : Z) : prog bstate unit :=
  go b := look in
  go c := node_op (compile_now id (default zero_Spec (n_specs (nd (b_reg b)) !! id))) in
  apply_prog c ;;>
  node_op (watch_compiled c).

(** One pass of the watcher's loop: it copies the watch list, which it ranges over in
    the order [ord] gives it, checks the files, and calls back for each policy with a
    changed one.  [recompile] logs its errors. *)
Definition changed_now (order : list (Z * list Source)) : M node (list Z) :=
  λ n, let '(t', ids) := changed (n_time n) order in (set_time n t', Ok ids).
Definition callback_prog (id : Z) : prog bstate unit :=
  go b := look in
  match n_watcher (nd (b_reg b)) with
  | Some w => if hasOnChange w then pthen (recompile_prog id) (λ _, PRet (Ok tt)) else PRet (Ok tt)
  | None => PRet (Ok tt)
  end.
Definition pass_prog (ord : gmap Z (list Source) → list (Z * list Source)) : prog bstate unit :=
  go b := look in
  match n_watcher (nd (b_reg b)) with
  | Some w => go ids := node_op (changed_now (ord (watched w))) in pfor ids callback_prog
  | None => PRet (Ok tt)
  end.

(** ** The registry *)

Definition install_policy_prog (pid : Z) (p : option pb.Policy) : prog bstate unit :=
  go b := look in
  match policies (rg (b_reg b)) !! pid with
  | None =>
      pthen (installer_prog pid p)
        (λ r, PRet (match r with
                    | Err e => Err (EWrap ("policy " +:+ fmt_u pid +:+ ": ") e)
                    | out => out
                    end)) ;;>
      reg_mod (λ r, set_policies r (<[pid := p]> (policies r)))
  | Some q =>
      PRet (if bool_decide (q = p) then Ok tt
            else Err (EMsg ("policy " +:+ fmt_u pid +:+
                            " arrived with different rules: a policy_id is never reused")))
  end.

Definition put_kernel_prog (w : pb.Warrant) : prog bstate unit :=
  go boot := node_op (tick BootNs) in
  go now := node_op (tick (λ t, Ok (wall_clock t))) in
  map_op (PutWarrant (pb.w_WarrantId w) (kernelWarrant w now boot)).

Definition activate_prog : prog bstate unit :=
  go b := look in
  if active (rg (b_reg b)) then PRet (Ok tt)
  else pthen (map_op (SetActive true))
         (λ r, match r with
               | Ok _ => reg_mod (λ r, set_active r true)
               | Err _ => PRet (Ok tt)
               | Panic x => PRet (Panic x)
               end).

(** [install]: the host check comes before the lock. *)
Definition install_body (w : pb.Warrant) (src : source) : prog bstate unit :=
  act (on_reg (newer_revision w)) ;;>
  install_policy_prog (pb.w_PolicyId w) (pb.w_Policy w) ;;>
  put_kernel_prog w ;;>
  reg_mod (λ r, set_byID r (<[pb.w_WarrantId w := mkEntry w src]> (byID r))) ;;>
  activate_prog.
Definition install_prog (w : pb.Warrant) (src : source) : prog bstate unit :=
  go b := look in
  PRet (checkWarrant w (host (rg (b_reg b)))) ;;>
  locked (install_body w src).

Definition Apply_prog (env : pb.SignedWarrant) : prog bstate (Z * option error) :=
  go b := look in
  match Verify env (keys (rg (b_reg b))) with
  | Ok w =>
      pthen (install_prog w fromCentral)
        (λ r, PRet (Ok (pb.w_WarrantId w, match r with
                                          | Ok _ => None
                                          | Err e => Some e
                                          | Panic x => Some (EMsg x)
                                          end)))
  | Err e => PRet (Ok (0, Some e))
  | Panic x => PRet (Ok (0, Some (EMsg x)))
  end.

(** [Resync] ranges over the table in the order [ord] gives it. *)
Definition resync_one_prog (keep : gset Z) (x : Z * entry) : prog bstate unit :=
  if bool_decide (fst x ∈ keep) || negb (bool_decide (e_src (snd x) = fromCentral)) then PRet (Ok tt)
  else pthen (revoke_prog (fst x))
         (λ r, match r with
               | Ok _ => reg_mod (λ r, set_byID r (base.delete (fst x) (byID r)))
               | _ => PRet (Ok tt)
               end).
Definition Resync_prog (ord : gmap Z entry → list (Z * entry)) (keep : gset Z) : prog bstate unit :=
  locked (go b := look in pfor (ord (byID (rg (b_reg b)))) (resync_one_prog keep)).

Definition Revisions_prog : prog bstate (gmap Z Z) :=
  rlocked (go b := look in PRet (Ok (Revisions (b_reg b)))).

(** [match]: the entries are copied under the read lock, and searched after it. *)
Definition match_prog (ord : gmap Z entry → list (Z * entry)) (account fp : string) (now : Z)
    : prog bstate (option pb.Warrant * Z) :=
  go ws := rlocked (go b := look in PRet (Ok (ord (byID (rg (b_reg b)))))) in
  PRet (Ok (reg_match ws account fp now)).

(** ** Sessions *)

Definition unwarranted_prog (r : Request) (fp : string) (reason : Z) : prog bstate unit :=
  go t := act now_ in act (unwarranted r fp reason t).

Definition Bind_prog (ord : gmap Z entry → list (Z * entry)) (r : Request) : prog bstate Z :=
  let fp := key_of (AuthInfo r) in
  go t := act now_ in
  go mt := match_prog ord (LoginAccount r) fp t in
  match mt with
  | (Some w, _) =>
      let id := pb.w_WarrantId w in
      if CgroupID r =? 0 then
        unwarranted_prog r fp pb.REASON_NO_WARRANT ;;> PRet (Ok 0)
      else
        pthen (map_op (TagCgroup (CgroupID r) id))
          (λ res, match res with
                  | Ok _ => PRet (Ok id)
                  | Err e =>
                      unwarranted_prog r fp pb.REASON_NO_WARRANT ;;>
                      PRet (Err (EWrap ("tag cgroup " +:+ fmt_u (CgroupID r) +:+ " with warrant " +:+
                                        fmt_u id +:+ ": ") e))
                  | Panic x => PRet (Panic x)
                  end)
  | (None, reason) => unwarranted_prog r fp reason ;;> PRet (Ok 0)
  end.

Definition ignoring {A} (p : prog bstate A) : prog bstate unit := pthen p (λ _, PRet (Ok tt)).

(** One datagram of the PAM socket. *)
Definition serve_prog (ord : gmap Z entry → list (Z * entry)) (d : string) : prog bstate unit :=
  match parse (String.substring 0 BUF d) with
  | Ok req =>
      if bool_decide (Op req = "OPEN") then ignoring (Bind_prog ord req)
      else if bool_decide (Op req = "CLOSE") then
        if CgroupID req =? 0 then PRet (Ok tt)
        else ignoring (map_op (UntagCgroup (CgroupID req)))
      else PRet (Ok tt)
  | _ => PRet (Ok tt)
  end.

(** The audit stream acknowledges; the queue has a mutex of its own. *)
Definition ack_prog (seqEpoch nodeSeq : Z) : prog bstate unit :=
  act (mmod (λ b, mkBstate _ _ (b_reg b) (Ack seqEpoch nodeSeq <$> b_audit b))).

(** * Run alone, a request is the sequential operation *)

Definition runs {A} (p : prog bstate A) (m : M bstate A) : Prop := ∀ b, prun p b = m b.

(** Lifting to the shared state goes through the monad. *)
Definition om {A} (m : M Maps A) : M bstate A := on_node (on_maps m).
Lemma on_reg_mbnd {A B} (m : M (rstate node) A) (k : A → M (rstate node) B) b :
  on_reg (mbnd m k) b = mbnd (on_reg m) (λ a, on_reg (k a)) b.
Proof. unfold on_reg, mbnd. by destruct (m (b_reg b)) as [st' []]. Qed.
Lemma on_node_mbnd {A B} (m : M node A) (k : A → M node B) b :
  on_node (mbnd m k) b = mbnd (on_node m) (λ a, on_node (k a)) b.
Proof. unfold on_node, lift, mbnd. simpl. by destruct (m (nd (b_reg b))) as [n' []]. Qed.
Lemma om_mbnd {A B} (m : M Maps A) (k : A → M Maps B) b :
  om (mbnd m k) b = mbnd (om m) (λ a, om (k a)) b.
Proof. unfold om, on_node, lift, on_maps, mbnd. simpl. by destruct (m _) as [n' []]. Qed.

Lemma runs_pret {A} (r : res A) : runs (PRet r) (mres r).
Proof. done. Qed.
Lemma runs_act {A} (m : M bstate A) : runs (act m) m.
Proof. intros b. apply prun_act. Qed.
Lemma runs_bnd {A B} (p : prog bstate A) (k : A → prog bstate B) m f :
  runs p m → (∀ a, runs (k a) (f a)) → runs (pbnd p k) (mbnd m f).
Proof. intros Hp Hk b. by apply prun_bnd_eq. Qed.
Lemma runs_then {A B} (p : prog bstate A) (k : res A → prog bstate B) m :
  runs p m → ∀ b, prun (pthen p k) b = prun (k (snd (m b))) (fst (m b)).
Proof. intros Hp b. rewrite prun_pthen. by rewrite Hp. Qed.
Lemma runs_eq {A} (p : prog bstate A) m m' : (∀ b, m b = m' b) → runs p m → runs p m'.
Proof. intros E Hp b. by rewrite Hp. Qed.

Lemma runs_om_bnd {A B} (p : prog bstate A) (k : A → prog bstate B) m f :
  runs p (om m) → (∀ a, runs (k a) (om (f a))) → runs (pbnd p k) (om (mbnd m f)).
Proof. intros Hp Hk. eapply runs_eq; [|apply runs_bnd; [exact Hp|exact Hk]]. intros b. by rewrite om_mbnd. Qed.
Lemma runs_om_ret {A} (r : res A) : runs (PRet r) (om (mres r)).
Proof. by intros [[? []] ?]. Qed.
Lemma runs_om_for {A} (l : list A) (f : A → prog bstate unit) g :
  (∀ x, runs (f x) (om (g x))) → runs (pfor l f) (om (mfor l g)).
Proof. intros Hf. induction l as [|x l IH]; simpl; [apply (runs_om_ret (Ok tt))|]. apply runs_om_bnd; [apply Hf|intros _; apply IH]. Qed.
Lemma runs_map_op {A} (m : M Maps A) : runs (map_op m) (om m).
Proof. apply runs_act. Qed.

Lemma runs_put_net policyID cidr port proto :
  runs (put_net_prog policyID cidr port proto) (om (PutNetRule policyID cidr port proto)).
Proof.
  unfold put_net_prog, PutNetRule. apply runs_om_bnd; [apply runs_om_ret|]. intros k.
  apply runs_om_bnd; [apply runs_map_op|]. intros vf.
  apply runs_om_bnd; [apply runs_om_ret|]. intros v. apply runs_map_op.
Qed.
Lemma runs_apply c : runs (apply_prog c) (om (Policy.Apply c)).
Proof.
  unfold apply_prog, Policy.Apply.
  repeat (apply runs_om_bnd; [apply runs_om_for; intros x|intros _]).
  - destruct (negb _); [apply runs_map_op|apply runs_om_ret].
  - destruct (we_Allow x); [apply runs_map_op|apply runs_om_ret].
  - apply runs_map_op.
  - apply runs_om_for. intros x. apply runs_put_net.
Qed.
Lemma runs_revoke id : runs (revoke_prog id) (om (Revoke id)).
Proof.
  unfold revoke_prog, Revoke. apply runs_om_bnd; [apply runs_map_op|]. intros w. apply runs_map_op.
Qed.

Lemma runs_node_bnd {A B} (p : prog bstate A) (k : A → prog bstate B) m f :
  runs p (on_node m) → (∀ a, runs (k a) (on_node (f a))) → runs (pbnd p k) (on_node (mbnd m f)).
Proof. intros Hp Hk. eapply runs_eq; [|apply runs_bnd; [exact Hp|exact Hk]]. intros b. by rewrite on_node_mbnd. Qed.
Lemma runs_node_ret {A} (r : res A) : runs (PRet r) (on_node (mres r)).
Proof. by intros [[? ?] ?]. Qed.
Lemma runs_reg_bnd {A B} (p : prog bstate A) (k : A → prog bstate B) m f :
  runs p (on_reg m) → (∀ a, runs (k a) (on_reg (f a))) → runs (pbnd p k) (on_reg (mbnd m f)).
Proof. intros Hp Hk. eapply runs_eq; [|apply runs_bnd; [exact Hp|exact Hk]]. intros b. by rewrite on_reg_mbnd. Qed.
Lemma runs_reg_ret {A} (r : res A) : runs (PRet r) (on_reg (mres r)).
Proof. by intros [? ?]. Qed.
(** A look, and what follows from what it saw. *)
Lemma prun_look {A} (k : bstate → prog bstate A) b : prun (pbnd look k) b = prun (k b) b.
Proof. by rewrite prun_pbnd. Qed.
Lemma runs_reg_look {A} (k : bstate → prog bstate A) f :
  (∀ b, prun (k b) b = on_reg (f (b_reg b)) b) → runs (pbnd look k) (on_reg (mbnd mget f)).
Proof. intros Hk b. rewrite prun_look. exact (Hk b). Qed.
Lemma runs_installer id pp : runs (installer_prog id pp) (on_node (installer_install id pp)).
Proof.
  unfold installer_prog, installer_install. apply runs_node_bnd; [apply runs_node_ret|]. intros s.
  apply runs_node_bnd; [apply runs_act|]. intros c.
  apply runs_node_bnd; [apply runs_apply|]. intros _.
  apply runs_node_bnd; [apply runs_act|]. intros _. apply runs_act.
Qed.
Lemma runs_recompile id :
  ∀ b, fst (prun (recompile_prog id) b) = set_node b (recompile id (nd (b_reg b))).
Proof.
  intros b. unfold recompile_prog. rewrite prun_look.
  set (s := default zero_Spec _).
  assert (runs (go c := node_op (compile_now id s) in apply_prog c ;;> node_op (watch_compiled c))
    (on_node (do c := compile_now id s in on_maps (Policy.Apply c) ;;; watch_compiled c))) as Hr.
  { apply runs_node_bnd; [apply runs_act|]. intros c.
    apply runs_node_bnd; [apply runs_apply|]. intros _. apply runs_act. }
  rewrite (Hr b). unfold recompile, on_node, lift, set_node, set_reg. simpl.
  by destruct (mbnd _ _ _) as [n' r].
Qed.

Lemma runs_callback id b : prun (callback_prog id) b = (set_node b (call_back (nd (b_reg b)) id), Ok tt).
Proof.
  unfold callback_prog. rewrite prun_look. unfold call_back.
  destruct (n_watcher _) as [w|]; [|by destruct b as [[? []] ?]]. destruct (hasOnChange w); [|by destruct b as [[? []] ?]].
  rewrite prun_pthen. cbn [prun]. unfold mres. by rewrite runs_recompile.
Qed.
(** A pass run alone is [watcher_pass]. *)
Lemma runs_pass ord w b :
  n_watcher (nd (b_reg b)) = Some w →
  prun (pass_prog ord) b = (set_node b (watcher_pass (ord (watched w)) (nd (b_reg b))), Ok tt).
Proof.
  intros Hw. unfold pass_prog. rewrite prun_look, Hw, prun_pbnd. unfold watcher_pass.
  destruct (changed (n_time (nd (b_reg b))) (ord (watched w))) as [t' ids] eqn:E.
  rewrite (mbnd_run _ _ b (set_node b (set_time (nd (b_reg b)) t')) ids).
  2:{ unfold node_op. rewrite prun_act. unfold on_node, lift, changed_now. by rewrite E. }
  generalize (set_time (nd (b_reg b)) t') as n. clear E Hw. intros n.
  assert (∀ b1, prun (pfor ids callback_prog) b1 = (set_node b1 (foldl call_back (nd (b_reg b1)) ids), Ok tt)) as Hf.
  { induction ids as [|id ids IH]; intros b1; [by destruct b1 as [[? []] ?]|].
    simpl pfor. rewrite prun_pbnd, (mbnd_run _ _ _ _ _ (runs_callback id b1)). by rewrite IH. }
  by rewrite Hf.
Qed.

Lemma runs_install_policy pid p : runs (install_policy_prog pid p) (on_reg (install_policy pid p)).
Proof.
  unfold install_policy_prog, install_policy. apply runs_reg_look. intros b.
  destruct (policies (rg (b_reg b)) !! pid) as [q|].
  { case_bool_decide; apply (runs_reg_ret _ b). }
  revert b. apply runs_reg_bnd; [|intros _; apply runs_act]. intros b.
  rewrite (runs_then _ _ _ (runs_installer pid p)). unfold on_node, on_reg. simpl.
  by destruct (lift _ _) as [st' []].
Qed.
Lemma runs_put_kernel w : runs (put_kernel_prog w) (on_reg (put_kernel w)).
Proof.
  unfold put_kernel_prog, put_kernel. repeat (apply runs_reg_bnd; [apply runs_act|intros ?]).
  apply runs_act.
Qed.
Lemma runs_activate : runs activate_prog (on_reg activate).
Proof.
  unfold activate_prog, activate. apply runs_reg_look. intros b.
  destruct (active (rg (b_reg b))); [by destruct b|]. rewrite (runs_then _ _ _ (runs_map_op _)).
  unfold om, on_node, on_reg. simpl. by destruct (lift _ _) as [st' []].
Qed.
(** [install] with its lock. *)
Lemma runs_install w src : runs (install_prog w src) (on_reg (install w src)).
Proof.
  assert (runs (install_body w src) (on_reg (newer_revision w ;;;
    install_policy (pb.w_PolicyId w) (pb.w_Policy w) ;;; put_kernel w ;;;
    mod_r (λ r, set_byID r (<[pb.w_WarrantId w := mkEntry w src]> (byID r))) ;;; activate))) as Hb.
  { unfold install_body. apply runs_reg_bnd; [apply runs_act|]. intros _.
    apply runs_reg_bnd; [apply runs_install_policy|]. intros _.
    apply runs_reg_bnd; [apply runs_put_kernel|]. intros _.
    apply runs_reg_bnd; [apply runs_act|]. intros _. apply runs_activate. }
  intros b. unfold install_prog. rewrite prun_look, prun_pbnd. unfold on_reg in *.
  destruct (checkWarrant w (host (rg (b_reg b)))) as [[]|e|x] eqn:Ec.
  - rewrite (mbnd_run _ _ b b tt) by done. rewrite prun_locked, Hb.
    unfold install, admissible, mbnd at 5. cbv [mbnd mget mres]. rewrite Ec.
    by destruct (newer_revision w (b_reg b)) as [st' [[]|e|x]].
  - unfold install, admissible, mbnd, mget, mres. rewrite Ec. by destruct b.
  - unfold install, admissible, mbnd, mget, mres. rewrite Ec. by destruct b.
Qed.
Lemma runs_Apply env b :
  prun (Apply_prog env) b = (set_reg b (fst (Registry.Apply env (b_reg b))), Ok (snd (Registry.Apply env (b_reg b)))).
Proof.
  unfold Apply_prog. rewrite prun_look. unfold Registry.Apply.
  destruct (Verify env (keys (rg (b_reg b)))) as [w|e|x]; [|by destruct b..].
  rewrite (runs_then _ _ _ (runs_install w fromCentral)). unfold on_reg.
  by destruct (install w fromCentral (b_reg b)) as [st' [[]|e|x]].
Qed.

Lemma runs_resync_one keep x b :
  prun (resync_one_prog keep x) b = (set_reg b (resync_one keep (b_reg b) x), Ok tt).
Proof.
  destruct x as [id e]. unfold resync_one_prog, resync_one. simpl fst. simpl snd.
  destruct (_ || _); [by destruct b|]. rewrite (runs_then _ _ _ (runs_revoke id)).
  unfold om, on_node. simpl. by destruct (lift _ _) as [st' [[]|er|x]].
Qed.
Lemma runs_Resync ord keep b :
  prun (Resync_prog ord keep) b =
  (set_reg b (foldl (resync_one keep) (b_reg b) (ord (byID (rg (b_reg b))))), Ok tt).
Proof.
  unfold Resync_prog. rewrite prun_locked, prun_look. generalize (ord (byID (rg (b_reg b)))) as l.
  intros l. revert b. induction l as [|x l IH]; intros b; [by destruct b|].
  simpl pfor. rewrite prun_pbnd, (mbnd_run _ _ _ _ _ (runs_resync_one keep x b)). by rewrite IH.
Qed.

Lemma runs_unwarranted r fp reason :
  runs (unwarranted_prog r fp reason) (do t := now_ in unwarranted r fp reason t).
Proof. apply runs_bnd; [apply runs_act|]. intros t. apply runs_act. Qed.
Lemma runs_unwarranted_then {A} r fp reason (x : res A) :
  runs (unwarranted_prog r fp reason ;;> PRet x) (do t := now_ in unwarranted r fp reason t ;;; mres x).
Proof.
  eapply runs_eq; [|apply runs_bnd; [apply runs_unwarranted|intros u; apply runs_pret]].
  intros b. unfold mbnd. by destruct (now_ b) as [b' []].
Qed.
Lemma runs_Bind ord r b : prun (Bind_prog ord r) b = Bind (ord (byID (rg (b_reg b)))) r b.
Proof.
  unfold Bind_prog, Bind. set (fp := key_of (AuthInfo r)).
  rewrite prun_pbnd. destruct (now_run b) as (b1 & t & Et & [Hrg Hrest]).
  rewrite (mbnd_run _ _ b b1 t) by (by rewrite prun_act). rewrite (mbnd_run _ _ _ _ _ Et).
  assert (prun (match_prog ord (LoginAccount r) fp t) b1 =
          (b1, Ok (reg_match (ord (byID (rg (b_reg b)))) (LoginAccount r) fp t))) as Em.
  { unfold match_prog. rewrite prun_pbnd.
    rewrite (mbnd_run _ _ b1 b1 (ord (byID (rg (b_reg b1))))); [by rewrite Hrg|].
    by rewrite prun_rlocked, prun_look. }
  rewrite prun_pbnd, (mbnd_run _ _ _ _ _ Em).
  destruct (reg_match _ _ _ _) as [[w|] reason]; [|apply runs_unwarranted_then].
  destruct (CgroupID r =? 0); [apply runs_unwarranted_then|].
  rewrite (runs_then _ _ _ (runs_map_op _)). unfold om.
  destruct (on_node _ b1) as [b2 [[]|e|x]]; [done| |done]. apply runs_unwarranted_then.
Qed.
Lemma fst_ignoring {A} (p : prog bstate A) b : fst (prun (ignoring p) b) = fst (prun p b).
Proof. unfold ignoring. by rewrite prun_pthen. Qed.
Lemma runs_serve d b : fst (prun (serve_prog map_to_list d) b) = serve_one b d.
Proof.
  unfold serve_prog, serve_one. destruct (parse _) as [req|e|x]; [|done|done].
  case_bool_decide; [by rewrite fst_ignoring, runs_Bind|]. case_bool_decide; [|done].
  destruct (CgroupID req =? 0); [done|]. rewrite fst_ignoring. by rewrite runs_map_op.
Qed.
End programs.

(** * Property *)

Section property.
Context `{Os} `{WallClock} `{KernelMaps} `{Crypto} `{SshKeys}.

(** The requests are the operations.  Run without interruption, the steps the
    goroutines take amount to exactly the sequential operations: a push returns
    what [Apply] returns and leaves what it leaves, a resync revokes in the order
    of the table, a datagram binds or unbinds as [Serve] does, and the watcher makes
    its pass; so what is proved of those holds of undisturbed requests. *)
Theorem requests_run_alone (b : bstate) :
  (∀ env, prun (Apply_prog env) b =
     (set_reg b (fst (Registry.Apply env (b_reg b))), Ok (snd (Registry.Apply env (b_reg b))))) ∧
  (∀ ord keep, prun (Resync_prog ord keep) b =
     (set_reg b (foldl (resync_one keep) (b_reg b) (ord (byID (rg (b_reg b))))), Ok tt)) ∧
  prun Revisions_prog b = (b, Ok (Revisions (b_reg b))) ∧
  (∀ ord r, prun (Bind_prog ord r) b = Bind (ord (byID (rg (b_reg b)))) r b) ∧
  (∀ d, fst (prun (serve_prog map_to_list d) b) = serve_one b d) ∧
  (∀ ord w, n_watcher (nd (b_reg b)) = Some w →
     prun (pass_prog ord) b = (set_node b (watcher_pass (ord (watched w)) (nd (b_reg b))), Ok tt)).
Proof.
  split; [intros; apply runs_Apply|]. split; [intros; apply runs_Resync|].
  split; [unfold Revisions_prog; by rewrite prun_rlocked, prun_look|].
  split; [intros; apply runs_Bind|]. split; [intros; apply runs_serve|]. intros; by apply runs_pass.
Qed.
End property.
