(* ===== verification/Concurrent.v ===== *)
(** The agent's goroutines on their shared state, interleaved at the granularity
    of single map operations and of the registry's mutex.  [System] takes each
    request as one step; here the requests of [Requests] run against each other,
    under the discipline of [Threads]. *)

From Stdlib Require Import ZArith Lia Ascii String.
From stdpp Require Import base tactics numbers list strings gmap relations.
From S2P Require Import Prelude GoStd GoNet EbpfMap Os BpfMap Concrete Kernel.
From S2P Require Import Policy Typed Session Pb Warrants Upstream Registry Node.
From S2P Require Import WatchLoop AuditQueue Pamsock Binder System Threads Requests.

(** * The goroutines of the daemon *)

Inductive kind := KSub | KPam | KWatch | KAudit.

Section requests.
Context `{Os} `{WallClock} `{KernelMaps} `{Crypto} `{SshKeys}.

Definition any_order (ord : gmap Z entry → list (Z * entry)) : Prop := ∀ m, ord m ≡ₚ map_to_list m.

(** What each goroutine may be asked to do, in any order and any number of times. *)
Inductive agent_req : kind → prog bstate unit → Prop :=
  | RqApply env : agent_req KSub (ignoring (Apply_prog env))
  | RqResync ord keep : any_order ord → agent_req KSub (Resync_prog ord keep)
  | RqRevisions : agent_req KSub (ignoring Revisions_prog)
  | RqDatagram ord d : any_order ord → agent_req KPam (serve_prog ord d)
  | RqPass ord : (∀ m, ord m ≡ₚ map_to_list m) → agent_req KWatch (pass_prog ord)
  | RqAck seqEpoch nodeSeq : agent_req KAudit (ack_prog seqEpoch nodeSeq).
End requests.

(** * What the registry promises *)

(** The kernel as the registry's calls need it: the map of warrants, and answers to
    everything else they ask (the policy installer, the clocks, the active flag),
    one after the other. *)
Inductive answer := ADone (r : res unit) | ATime (r : res Z).

Section sequential.
Context `{KernelMaps} `{Crypto}.

Record anode := mkAnode { a_warrants : wa_t; a_answers : list answer }.

Definition ask_done : M anode unit :=
  λ n, match a_answers n with
       | ADone r :: l => (mkAnode (a_warrants n) l, r)
       | _ => (n, Err (EMsg ""))
       end.
Definition ask_time : M anode Z :=
  λ n, match a_answers n with
       | ATime r :: l => (mkAnode (a_warrants n) l, r)
       | _ => (n, Err (EMsg ""))
       end.

(** The operations on the map of warrants. *)
Definition wa_put (msg : string) (id : Z) (w : KWarrant) : M wa_t unit :=
  λ t, let '(t', e) := hm_Put t id w in (t', match e with None => Ok tt | Some e => Err (EWrap msg e) end).
Definition wa_read (id : Z) : M wa_t KWarrant :=
  λ t, (t, match hm_Lookup t id with
           | Ok w => Ok w
           | Err e => Err (EWrap ("영장 " +:+ fmt_u id +:+ " 조회: ") e)
           | Panic p => Panic p
           end).
Definition at_wa {A} (f : M wa_t A) : M anode A :=
  λ n, let '(t', r) := f (a_warrants n) in (mkAnode t' (a_answers n), r).

#[export] Instance anode_kernel : KernelWarrants anode := {
  kw_PutWarrant id w := at_wa (wa_put ("영장 " +:+ fmt_u id +:+ " 쓰기: ") id w);
  kw_Revoke id := do w := at_wa (wa_read id) in
    at_wa (wa_put ("영장 " +:+ fmt_u id +:+ " 취소: ") id (set_Revoked w 1));
  kw_SetActive _ := ask_done;
  kw_installPolicy _ _ := ask_done;
  kw_now := ask_time;
  kw_bootNs := ask_time;
  kw_get n id := hm_get (a_warrants n) id
}.
#[export] Instance anode_kernel_laws `{!KernelMapsLaws} : KernelWarrantsLaws anode.
Proof.
  split; simpl.
  - intros id w n n' r. unfold at_wa, wa_put.
    destruct (hm_Put _ _ _) as [t [e|]] eqn:Ep; simpl; intros [= <- <-] k; simpl.
    + rewrite (hm_Put_err _ _ _ _ _ Ep). repeat case_decide; naive_solver.
    + rewrite (hm_Put_ok _ _ _ _ Ep). repeat case_decide; naive_solver.
  - intros id n n' r. unfold mbnd, at_wa, wa_read, wa_put.
    destruct (hm_Lookup _ _) as [w|e|p] eqn:El; simpl.
    2,3: intros [= <- <-]; (split; [done|]); intros k; repeat case_decide; naive_solver.
    apply hm_Lookup_ok in El.
    destruct (hm_Put _ _ _) as [t [e|]] eqn:Ep; simpl; intros [= <- <-]; (split; [by eauto|]); intros k; simpl.
    + rewrite (hm_Put_err _ _ _ _ _ Ep). repeat case_decide; naive_solver.
    + rewrite (hm_Put_ok _ _ _ _ Ep). destruct (decide (k = id)) as [->|Hne].
      * rewrite El. by rewrite decide_True.
      * rewrite decide_False; [done|]. by intros [_ ?].
  - intros _ n n' r. unfold ask_done. destruct (a_answers n) as [|[] l]; by intros [= <- <-].
  - intros _ _ n n' r. unfold ask_done. destruct (a_answers n) as [|[] l]; by intros [= <- <-].
  - intros n n' r. unfold ask_time. destruct (a_answers n) as [|[] l]; by intros [= <- <-].
  - intros n n' r. unfold ask_time. destruct (a_answers n) as [|[] l]; by intros [= <- <-].
Qed.

(** The registry seen from outside: its table, policies and flag, and the kernel's
    warrants. *)
Definition view : Type := registry * wa_t.
Definition seq_state (v : view) (l : list answer) : rstate anode := mkRstate (fst v) (mkAnode (snd v) l).

(** One whole, uninterrupted call. *)
Inductive reg_call (v v' : view) : Prop :=
  | CallApply env l l' : fst (Registry.Apply env (seq_state v l)) = seq_state v' l' → reg_call v v'
  | CallResync keep l : Resync keep (seq_state v l) (seq_state v' l) → reg_call v v'.
End sequential.

Section spec.
Context `{Os} `{WallClock} `{KernelMaps} `{Crypto}.
Implicit Types st : rstate node.

Definition view_of st : view := (rg st, warrants (n_maps (nd st))).
Definition same_reg st st' : Prop := view_of st' = view_of st.
(** What no goroutine undoes: recorded policies, and that the kernel knows a
    warrant. *)
Definition reg_mono st st' : Prop :=
  grows st st' ∧ ∀ k, is_Some (kw_get (nd st) k) → is_Some (kw_get (nd st') k).

#[export] Instance same_reg_equiv : Equivalence same_reg.
Proof. unfold same_reg. split; congruence. Qed.
#[export] Instance reg_mono_pre : PreOrder reg_mono.
Proof.
  split; [by split|]. intros st1 st2 st3 [Hg1 Hk1] [Hg2 Hk2]. split; [by eapply grows_trans|]. auto.
Qed.
Lemma same_reg_rg st st' : same_reg st st' → rg st' = rg st.
Proof. by intros [= ?]. Qed.
Lemma same_reg_warrants st st' : same_reg st st' → warrants (n_maps (nd st')) = warrants (n_maps (nd st)).
Proof. by intros [= _ ?]. Qed.
Lemma same_reg_get st st' k : same_reg st st' → kw_get (nd st') k = kw_get (nd st) k.
Proof. intros Hs. simpl. by rewrite (same_reg_warrants _ _ Hs). Qed.
Lemma same_reg_mono st st' : same_reg st st' → reg_mono st st'.
Proof.
  intros Hs. split; [unfold grows; by rewrite (same_reg_rg _ _ Hs)|]. intros k. by rewrite (same_reg_get _ _ _ Hs).
Qed.
#[export] Instance reg_inv_proper : Proper (same_reg ==> impl) (reg_inv (N := node)).
Proof.
  intros s1 s2 Hs Hi. apply (reg_inv_same s1); [by apply same_reg_rg|by apply same_reg_warrants|exact Hi].
Qed.

(** The table mirrors the kernel after a call when it did before. *)
Lemma reg_inv_view st l : reg_inv st ↔ reg_inv (seq_state (view_of st) l).
Proof. done. Qed.
Lemma reg_call_inv `{!KernelMapsLaws} st st' :
  reg_call (view_of st) (view_of st') → reg_inv st → reg_inv st'.
Proof.
  intros [env l l' E|keep l Hr] Hi.
  - apply (reg_inv_view st' l'). rewrite <- E. apply (reg_inv_view st l) in Hi.
    destruct (Apply_fst env (seq_state (view_of st) l)) as [->|(w & _ & ->)]; [done|by apply install_inv].
  - apply (reg_inv_view st' l). eapply Resync_inv; [exact Hr|done].
Qed.
End spec.

(** * The discipline the agent's goroutines follow *)

#[export] Instance agent_discipline `{Os} `{WallClock} `{KernelMaps} `{Crypto} : Discipline bstate := {
  d_inv b := rinv (b_reg b);
  d_lock b := reg_inv (b_reg b);
  d_same b b' := same_reg (b_reg b) (b_reg b');
  d_mono b b' := reg_mono (b_reg b) (b_reg b');
  d_crit b b' := reg_call (view_of (b_reg b)) (view_of (b_reg b'))
}.
#[export] Instance agent_discipline_laws `{Os} `{WallClock} `{KernelMaps} `{Crypto} :
  DisciplineLaws bstate.
Proof.
  split; simpl.
  - split; [intros b; reflexivity|intros b b'; by symmetry|intros b1 b2 b3; by etrans].
  - split; [intros b; reflexivity|intros b1 b2 b3; by etrans].
  - intros b b' E. by apply reg_inv_proper.
  - intros b1 b2 E1 b3 b4 E3. unfold same_reg in *. by rewrite E1, E3.
Qed.

(** * Every request keeps to it *)

Section safety.
Context `{Os} `{WallClock} `{KernelMaps} `{!KernelMapsLaws} `{Crypto} `{SshKeys}.
Implicit Types b : bstate.

(** ** Single operations *)

Lemma on_node_reg {A} (m : M node A) b : b_reg (fst (on_node m b)) = fst (lift m (b_reg b)).
Proof. unfold on_node. by destruct (lift m (b_reg b)). Qed.
Lemma on_node_res {A} (m : M node A) b : snd (on_node m b) = snd (m (nd (b_reg b))).
Proof. unfold on_node, lift. by destruct (m (nd (b_reg b))). Qed.
Lemma on_reg_reg {A} (m : M (rstate node) A) b : b_reg (fst (on_reg m b)) = fst (m (b_reg b)).
Proof. unfold on_reg. by destruct (m (b_reg b)). Qed.

(** An operation of the node that leaves the kernel's warrants alone. *)
Lemma quiet_node_op {A} (R : res A → Prop) (m : M node A) :
  keeps node_inv m → (∀ n, warrants (n_maps (fst (m n))) = warrants (n_maps n)) →
  (∀ n, node_inv n → R (snd (m n))) → quiet R (node_op m).
Proof.
  intros Hk Hw HR. apply quiet_act. intros b Hb. simpl in Hb |- *. rewrite on_node_reg, on_node_res.
  assert (same_reg (b_reg b) (fst (lift m (b_reg b)))) as Hs.
  { unfold same_reg, view_of, lift. specialize (Hw (nd (b_reg b))). destruct (m _) as [n' r]. simpl in *. by rewrite Hw. }
  split; [by apply lift_rinv|]. split; [by apply same_reg_mono|]. split; [done|]. apply HR, Hb.
Qed.
(** An operation on the rule maps or the tags. *)
Lemma quiet_map_op {A} (R : res A → Prop) (m : M Maps A) :
  keeps maps_typed m → keeps tags_resolve m → (∀ s, warrants (fst (m s)) = warrants s) →
  (∀ s, maps_typed s → R (snd (m s))) → quiet R (map_op m).
Proof.
  intros Ht Hg Hw HR. apply quiet_node_op; [by apply on_maps_inv|intros n; rewrite on_maps_fst; apply Hw|].
  intros n [[Hm _] _]. specialize (HR _ Hm). unfold on_maps. by destruct (m (n_maps n)).
Qed.
Lemma quiet_rule_op {A} (R : res A → Prop) (m : M Maps A) :
  keeps maps_typed m →
  (∀ s, warrants (fst (m s)) = warrants s ∧ cgroupWarrant (fst (m s)) = cgroupWarrant s) →
  (∀ s, maps_typed s → R (snd (m s))) → quiet R (map_op m).
Proof.
  intros Ht Hf. apply quiet_map_op; [done| |intros s; apply Hf].
  intros s Hs cg x. destruct (Hf s) as [-> ->]. apply Hs.
Qed.
Lemma quiet_look (R : res bstate → Prop) : (∀ b, rinv (b_reg b) → R (Ok b)) → quiet R look.
Proof.
  intros HR. apply quiet_act. intros b Hb. simpl.
  split; [exact Hb|]. split; [reflexivity|]. split; [reflexivity|]. by apply HR.
Qed.

(** ** Policies *)

Lemma quiet_put_net pid cidr port proto :
  is_u16 port → is_u8 proto → quiet (λ _, True) (put_net_prog pid cidr port proto).
Proof.
  intros Hport Hproto. unfold put_net_prog.
  apply quiet_pbnd with (Q := λ _, True); [done..|]. intros k _.
  apply quiet_pbnd with (Q := λ vf, netval_typed (fst vf) ∧ (snd vf = false → NPorts (fst vf) = 0)); [|done..|].
  { apply quiet_rule_op; [by intros s Hs|done|]. intros s Hs [v f] E. by eapply net_current_typed. }
  intros [v f] [Hv Hf]. apply quiet_pbnd with (Q := netval_typed); [|done..|].
  { intros v' E. by eapply merge_port_typed. }
  intros v' Hv'. apply quiet_rule_op; [by apply net_write_typed| |done].
  intros s. unfold net_write. by rewrite finish_fst.
Qed.
Lemma quiet_apply c : compiled_typed c → quiet (λ _, True) (apply_prog c).
Proof.
  intros Hc. unfold apply_prog.
  assert (∀ pid f allow recursive, quiet (λ _, True) (map_op (PutWriteRule pid f allow recursive))) as Hw.
  { intros. apply quiet_rule_op; [apply PutWriteRule_typed| |done].
    intros s. unfold PutWriteRule. by rewrite finish_fst. }
  assert (∀ pid f, quiet (λ _, True) (map_op (PutExecRule pid f))) as He.
  { intros. apply quiet_rule_op; [apply PutExecRule_typed| |done].
    intros s. unfold PutExecRule. by rewrite finish_fst. }
  repeat (apply quiet_pbnd with (Q := λ _, True);
    [eapply quiet_weaken; [|apply (quiet_pfor (λ _, True)); [done|intros x Hx]]; [done|]|done|done|intros _ _]).
  - by destruct (negb _).
  - by destruct (we_Allow x).
  - done.
  - apply quiet_pfor; [done|]. intros x Hx. unfold compiled_typed in Hc. rewrite Forall_forall in Hc.
    apply Hc in Hx as [? ?]. by apply quiet_put_net.
Qed.
Lemma quiet_compile id s : spec_typed s → quiet (if_ok compiled_typed) (node_op (compile_now id s)).
Proof.
  intros Hs. apply quiet_node_op; unfold compile_now.
  - intros n [[Hm Hp] Ht]. by destruct (Compile _ _ _).
  - intros n. by destruct (Compile _ _ _).
  - intros n _ c. destruct (Compile _ _ _) as [t' r] eqn:E. simpl. intros ->. by eapply Compile_typed.
Qed.
Lemma quiet_watch c : quiet (λ _, True) (node_op (watch_compiled c)).
Proof. apply quiet_node_op; [|done|done]. by intros n [[Hm Hp] Ht]. Qed.
Lemma quiet_installer id pp : quiet (λ _, True) (installer_prog id pp).
Proof.
  unfold installer_prog. apply quiet_pbnd with (Q := spec_typed); [|done..|].
  { intros s E. by eapply policySpec_typed. }
  intros s Hs. apply quiet_pbnd with (Q := compiled_typed); [by apply quiet_compile|done..|]. intros c Hc.
  apply quiet_pbnd with (Q := λ _, True); [|done..|].
  { eapply quiet_weaken; [|by apply quiet_apply]. done. }
  intros _ _. apply quiet_pbnd with (Q := λ _, True); [|done..|intros _ _; apply quiet_watch].
  apply quiet_node_op; [|done|done]. intros n [[Hm Hp] Ht]. split; [|done]. split; [done|]. simpl.
  intros i s' [[<- <-]|[_ Hi]]%lookup_insert_Some; [done|by eapply Hp].
Qed.
Lemma quiet_recompile id : quiet (λ _, True) (recompile_prog id).
Proof.
  unfold recompile_prog. apply quiet_pbnd with (Q := λ b, rinv (b_reg b)); [|done..|].
  { apply quiet_look. by intros b Hb b' [= <-]. }
  intros b [[[_ Hsp] _] _]. apply quiet_pbnd with (Q := compiled_typed); [|done..|].
  { apply quiet_compile. destruct (n_specs _ !! id) as [s|] eqn:Es; [by eapply Hsp|constructor]. }
  intros c Hc. apply quiet_pbnd with (Q := λ _, True); [|done..|intros _ _; apply quiet_watch].
  eapply quiet_weaken; [|by apply quiet_apply]. done.
Qed.

Lemma quiet_callback id : quiet (λ _, True) (callback_prog id).
Proof.
  unfold callback_prog. apply quiet_pbnd with (Q := λ _, True); [by apply quiet_look|done..|]. intros b _.
  destruct (n_watcher _) as [w|]; [|done]. destruct (hasOnChange w); [|done].
  eapply quiet_pthen; [apply quiet_recompile|done].
Qed.
Lemma quiet_pass ord : quiet (λ _, True) (pass_prog ord).
Proof.
  unfold pass_prog. apply quiet_pbnd with (Q := λ _, True); [by apply quiet_look|done..|]. intros b _.
  destruct (n_watcher _) as [w|]; [|done]. apply quiet_pbnd with (Q := λ _, True); [|done..|].
  - apply quiet_node_op; unfold changed_now.
    + intros n [[Hm Hp] Ht]. by destruct (changed _ _).
    + intros n. by destruct (changed _ _).
    + done.
  - intros ids _. apply quiet_pfor; [done|]. intros id _. apply quiet_callback.
Qed.

(** ** Under the lock *)

Lemma rely_same b0 b b1 : rely (HWrite b0) b b1 → same_reg (b_reg b) (b_reg b1).
Proof. intros [_ Hs]. by apply Hs. Qed.
Lemma wp_look {A} h (k : bstate → prog bstate A) b Φ :
  (∀ b1, rely h b b1 → rinv (b_reg b1) → wp h (k b1) b1 Φ) → wp h (pbnd look k) b Φ.
Proof.
  intros Hk. apply wp_pbnd, wp_act. intros b1 Hr Hi. simpl. split; [exact Hi|].
  split; [split; [reflexivity|]; by destruct h|]. intros b2 Hr2 Hi2. eapply wp_rely; [exact Hr2|]. by apply Hk.
Qed.
(** The writer changes the table. *)
Definition at_reg b (f : registry → registry) : rstate node := mkRstate (f (rg (b_reg b))) (nd (b_reg b)).
Lemma wp_reg_mod b0 f b (Φ : hold bstate → res unit → bstate → Prop) :
  (∀ b1, same_reg (b_reg b) (b_reg b1) → rinv (b_reg b1) →
     entries_typed (at_reg b1 f) ∧ grows (b_reg b1) (at_reg b1 f) ∧
     ∀ b2, same_reg (at_reg b1 f) (b_reg b2) → Φ (HWrite b0) (Ok tt) b2) →
  wp (HWrite b0) (reg_mod f) b Φ.
Proof.
  intros Hf. apply wp_act. intros b1 Hr Hi. destruct (Hf b1 (rely_same _ _ _ Hr) Hi) as (He & Hg & HΦ).
  simpl in Hi |- *. split; [split; [apply Hi|exact He]|]. split; [split; [|done]; by split|].
  intros b2 Hr2 _. apply HΦ. by apply rely_same in Hr2.
Qed.

(** A request inside the lock does what [m] does to the registry and the kernel's
    warrants, with some answers to what it asks. *)
Definition seq b (l : list answer) : rstate anode := seq_state (view_of (b_reg b)) l.
Definition simulates {A} b0 b (p : prog bstate A) (m : M (rstate anode) A) : Prop :=
  wp (HWrite b0) p b (λ h r b', h = HWrite b0 ∧ ∃ used, ∀ rest, m (seq b (used ++ rest)) = (seq b' rest, r)).

Lemma seq_same b b' l : same_reg (b_reg b) (b_reg b') → seq b' l = seq b l.
Proof. unfold seq, same_reg. by intros ->. Qed.
Lemma simulates_ret {A} b0 b (r : res A) : simulates b0 b (PRet r) (mres r).
Proof.
  apply wp_pret. intros b1 Hr1%rely_same _. split; [done|]. exists []. intros rest. simpl.
  by rewrite (seq_same _ _ _ Hr1).
Qed.
(** Running on with what came out, an error included. *)
Lemma simulates_then {A B} b0 b (p : prog bstate A) (k : res A → prog bstate B) m m2 m' :
  simulates b0 b p m →
  (∀ r b1 u, (∀ rest, m (seq b (u ++ rest)) = (seq b1 rest, r)) → simulates b0 b1 (k r) (m2 r)) →
  (∀ st, m' st = m2 (snd (m st)) (fst (m st))) → simulates b0 b (pthen p k) m'.
Proof.
  intros Hp Hk Hm. apply wp_pthen. eapply wp_mono; [|exact Hp]. intros h r b1 (-> & u1 & Hu1).
  eapply wp_mono; [|by eapply Hk]. intros h r2 b2 (-> & u2 & Hu2). split; [done|]. exists (u1 ++ u2).
  intros rest. rewrite <- (assoc_L _ u1). rewrite Hm, Hu1. apply Hu2.
Qed.
Lemma simulates_bind {A B} b0 b (p : prog bstate A) (k : A → prog bstate B) m f :
  simulates b0 b p m →
  (∀ a b1 u, (∀ rest, m (seq b (u ++ rest)) = (seq b1 rest, Ok a)) → simulates b0 b1 (k a) (f a)) →
  simulates b0 b (pbnd p k) (mbnd m f).
Proof.
  intros Hp Hk. apply (simulates_then _ _ _ _ m
    (λ r, match r with Ok a => f a | Err e => mres (Err e) | Panic x => mres (Panic x) end)); [done| |].
  - intros [a|e|x] b1 u Hu; [by eapply Hk|apply simulates_ret..].
  - intros st. unfold mbnd. by destruct (m st) as [st' []].
Qed.
(** A look at the table, under the lock. *)
Lemma simulates_look {A} b0 b (k : bstate → prog bstate A) (f : registry → M (rstate anode) A) :
  (∀ b1, simulates b0 b1 (k b1) (f (rg (b_reg b1)))) →
  simulates b0 b (pbnd look k) (mbnd mget (λ st, f (rg st))).
Proof.
  intros Hk. apply wp_look. intros b1 Hr1%rely_same _. eapply wp_mono; [|apply Hk].
  intros h r b2 (-> & u & Hu). split; [done|]. exists u. intros rest. unfold mbnd, mget.
  rewrite <- (seq_same _ _ _ Hr1). exact (Hu rest).
Qed.
(** What leaves the table and the warrants alone is an answer. *)
Lemma simulates_done b0 b (p : prog bstate unit) : quiet (λ _, True) p → simulates b0 b p (lift ask_done).
Proof.
  intros Hq. eapply wp_quiet; [exact Hq|]. intros r b1 _ Hr1%rely_same _. split; [done|]. exists [ADone r].
  intros rest. by rewrite (seq_same _ _ _ Hr1).
Qed.
Lemma simulates_time b0 b (p : prog bstate Z) : quiet (λ _, True) p → simulates b0 b p (lift ask_time).
Proof.
  intros Hq. eapply wp_quiet; [exact Hq|]. intros r b1 _ Hr1%rely_same _. split; [done|]. exists [ATime r].
  intros rest. by rewrite (seq_same _ _ _ Hr1).
Qed.
Lemma simulates_mod b0 b f :
  (∀ b1, rinv (b_reg b1) → same_reg (b_reg b) (b_reg b1) →
     entries_typed (at_reg b1 f) ∧ grows (b_reg b1) (at_reg b1 f)) →
  simulates b0 b (reg_mod f) (mod_r f).
Proof.
  intros Hf. apply wp_reg_mod. intros b1 Hs1 Hi1. destruct (Hf b1 Hi1 Hs1) as [He Hg].
  split; [done|]. split; [done|]. intros b2 Hs2. split; [done|]. exists []. intros rest. simpl.
  unfold mod_r, mmod. rewrite <- (seq_same _ _ _ Hs1). unfold seq. by rewrite Hs2.
Qed.
(** An operation on the kernel's warrants. *)
Record on_warrants {A} (f : M wa_t A) (m : M Maps A) : Prop := mkOnWarrants {
  ow_inv s : maps_typed s → tags_resolve s → maps_typed (fst (m s)) ∧ tags_resolve (fst (m s));
  ow_mono s k : is_Some (hm_get (warrants s) k) → is_Some (hm_get (warrants (fst (m s))) k);
  ow_eff s : f (warrants s) = (warrants (fst (m s)), snd (m s))
}.
Lemma simulates_op {A} b0 b (f : M wa_t A) (m : M Maps A) :
  on_warrants f m → simulates b0 b (map_op m) (lift (at_wa f)).
Proof.
  intros [Hinv Hmono Heff]. apply wp_act. intros b1 Hr Hi. pose proof (rely_same _ _ _ Hr) as Hs.
  assert (fst (lift (on_maps m) (b_reg b1)) = mkRstate (rg (b_reg b1)) (fst (on_maps m (nd (b_reg b1))))) as El.
  { unfold lift. by destruct (on_maps m _). }
  rewrite on_maps_fst in El. rewrite on_node_res. simpl in Hi.
  pose proof Hi as [[[Hty Hsp] Htg] He]. destruct (Hinv _ Hty Htg) as [Hty' Htg']. split; [|split].
  - simpl. rewrite on_node_reg, El. done.
  - unfold guar. simpl. rewrite on_node_reg, El. split; [|done]. split; [done|]. intros k. apply Hmono.
  - intros b2 Hr2%rely_same _. split; [done|]. exists []. intros rest. simpl.
    unfold same_reg in Hr2. rewrite on_node_reg, El in Hr2. unfold lift, at_wa, seq. rewrite Hr2. simpl.
    rewrite <- (same_reg_warrants _ _ Hs), <- (same_reg_rg _ _ Hs), Heff.
    unfold on_maps. by destruct (m (n_maps (nd (b_reg b1)))).
Qed.

Lemma put_on_warrants id w msg m :
  (∀ s, m s = finish set_warrants (EWrap msg) (hm_Put (warrants s) id w) s) →
  keeps maps_typed m → on_warrants (wa_put msg id w) m.
Proof.
  intros Hm Hty. assert (∀ s k, is_Some (hm_get (warrants s) k) → is_Some (hm_get (warrants (fst (m s))) k)) as Hk.
  { intros s k Hsome. rewrite Hm, finish_fst. by apply put_kept. }
  split; [intros s Ht Hg; split; [by apply Hty|]|done|].
  - intros cg x. rewrite Hm at 1. rewrite finish_fst. intros Hx. apply Hk, (Hg cg x Hx).
  - intros s. rewrite Hm, finish_fst. unfold wa_put, finish. by destruct (hm_Put _ _ _) as [t [e|]].
Qed.

Lemma quiet_tick {A} (q : nat → res A) : quiet (λ _, True) (node_op (tick q)).
Proof. apply quiet_node_op; [apply tick_inv|done|done]. Qed.

(** [install]'s critical section. *)
Lemma simulates_install_policy b0 b pid p :
  simulates b0 b (install_policy_prog pid p) (install_policy pid p).
Proof.
  unfold install_policy_prog, install_policy.
  refine (simulates_look b0 b _ (λ r, match policies r !! pid with
    | None => (λ st, match lift (kw_installPolicy pid p) st with
             | (st', Err e) => (st', Err (EWrap ("policy " +:+ fmt_u pid +:+ ": ") e))
             | out => out
             end) ;;; mod_r (λ r, set_policies r (<[pid := p]> (policies r)))
    | Some q => if bool_decide (q = p) then mok tt
      else merr (EMsg ("policy " +:+ fmt_u pid +:+ " arrived with different rules: a policy_id is never reused"))
    end) _).
  intros b1. destruct (policies (rg (b_reg b1)) !! pid) as [q|] eqn:Eq.
  { case_bool_decide; [apply (simulates_ret b0 b1 (Ok tt))|apply (simulates_ret b0 b1 (Err _))]. }
  apply simulates_bind.
  - apply (simulates_then _ _ _ _ (lift ask_done) (λ r, mres (match r with
      Err e => Err (EWrap ("policy " +:+ fmt_u pid +:+ ": ") e) | out => out end))).
    + apply simulates_done, quiet_installer.
    + intros r b2 _ _. apply simulates_ret.
    + intros st. simpl. by destruct (lift ask_done st) as [st' []].
  - intros [] b2 u Hu. apply simulates_mod. intros b3 Hi3 Hs3. split; [apply Hi3|].
    split; [done|]. split; [done|]. simpl. apply insert_subseteq. rewrite (same_reg_rg _ _ Hs3).
    specialize (Hu []). revert Hu. simpl. unfold lift, ask_done, seq, seq_state. simpl.
    destruct (u ++ []) as [|[r|r] l]; [done| |done]. destruct r as [[]|e|x]; [|done|done].
    by intros [= <- _ _].
Qed.
Lemma simulates_put_kernel b0 b w : pb_typed w → simulates b0 b (put_kernel_prog w) (put_kernel w).
Proof.
  intros Hw. unfold put_kernel_prog, put_kernel.
  apply simulates_bind; [apply simulates_time, quiet_tick|]. intros boot b1 _ _.
  apply simulates_bind; [apply simulates_time, quiet_tick|]. intros now b2 _ _.
  apply simulates_op, put_on_warrants; [done|]. by apply PutWarrant_typed, kernelWarrant_typed.
Qed.
Lemma simulates_activate b0 b : simulates b0 b activate_prog activate.
Proof.
  unfold activate_prog, activate.
  refine (simulates_look b0 b _ (λ r, if active r then mok tt
    else λ st, match lift (kw_SetActive true) st with
             | (st', Ok _) => (mkRstate (set_active (rg st') true) (nd st'), Ok tt)
             | (st', Err _) => (st', Ok tt)
             | (st', Panic p) => (st', Panic p)
             end) _).
  intros b1. destruct (active (rg (b_reg b1))); [apply (simulates_ret b0 b1 (Ok tt))|].
  apply (simulates_then _ _ _ _ (lift ask_done) (λ r, match r with
    Ok _ => mod_r (λ r, set_active r true) | Err _ => mres (Ok tt) | Panic x => mres (Panic x) end)).
  - apply simulates_done. apply quiet_map_op; [apply SetActive_typed|apply SetActive_tags| |done].
    intros s. unfold SetActive. by rewrite finish_fst.
  - intros [[]|e|x] b2 _ _; [|apply simulates_ret..]. apply simulates_mod. intros b3 Hi3 _. by split; [apply Hi3|].
  - intros st. simpl. by destruct (lift ask_done st) as [st' [[]|e|x]].
Qed.
Lemma simulates_newer b0 b w : simulates b0 b (act (on_reg (newer_revision w))) (newer_revision w).
Proof.
  apply wp_act. intros b1 Hr1%rely_same Hi1.
  assert (∃ r, newer_revision w (b_reg b1) = (b_reg b1, r) ∧ ∀ l, newer_revision w (seq b1 l) = (seq b1 l, r))
    as (r & En & Hs).
  { unfold newer_revision, mbnd. simpl. destruct (byID _ !! _) as [old|]; [destruct (_ <=? _)|]; by eexists. }
  assert (fst (on_reg (newer_revision w) b1) = b1 ∧ snd (on_reg (newer_revision w) b1) = r) as [-> ->].
  { unfold on_reg. rewrite En. by destruct b1. }
  split; [done|]. split; [split; [reflexivity|done]|]. intros b2 Hr2%rely_same _. split; [done|]. exists [].
  intros rest. simpl. rewrite (seq_same _ _ _ Hr2), <- (seq_same _ _ _ Hr1). apply Hs.
Qed.
Lemma simulates_install_body b0 b w src :
  pb_typed w →
  simulates b0 b (install_body w src) (newer_revision w ;;;
    install_policy (pb.w_PolicyId w) (pb.w_Policy w) ;;; put_kernel w ;;;
    mod_r (λ r, set_byID r (<[pb.w_WarrantId w := mkEntry w src]> (byID r))) ;;; activate).
Proof.
  intros Hw. unfold install_body. apply simulates_bind; [apply simulates_newer|]. intros [] b1 _ _.
  apply simulates_bind; [apply simulates_install_policy|]. intros [] b2 _ _.
  apply simulates_bind; [by apply simulates_put_kernel|]. intros [] b3 _ _.
  apply simulates_bind; [|intros [] b4 _ _; apply simulates_activate].
  apply simulates_mod. intros b4 Hi4 _. split; [|done].
  intros id e. simpl. intros [[_ <-]|[_ Hx]]%lookup_insert_Some; [done|by eapply Hi4].
Qed.

(** ** [Resync] *)

Lemma simulates_revoke b0 b id : simulates b0 b (revoke_prog id) (lift (kw_Revoke id)).
Proof.
  unfold revoke_prog. apply wp_pbnd, wp_act. intros b1 Hr1%rely_same Hi1.
  assert (fst (on_node (on_maps (revoke_read id)) b1) = b1) as ->
    by (unfold on_node, lift, on_maps; by destruct b1 as [[? []] ?]).
  rewrite on_node_res. split; [done|]. split; [split; [reflexivity|done]|]. intros b2 Hr2%rely_same _.
  pose proof (same_reg_warrants _ _ Hr1) as Hw1.
  assert (same_reg (b_reg b) (b_reg b2)) as Hs2 by (by etrans).
  change (snd (on_maps (revoke_read id) (nd (b_reg b1)))) with (snd (revoke_read id (n_maps (nd (b_reg b1))))).
  unfold revoke_read. cbn [snd]. rewrite Hw1.
  assert (∀ l, lift (kw_Revoke id) (seq b l) =
    match snd (wa_read id (warrants (n_maps (nd (b_reg b))))) with
    | Ok w => lift (at_wa (wa_put ("영장 " +:+ fmt_u id +:+ " 취소: ") id (set_Revoked w 1))) (seq b l)
    | Err e => (seq b l, Err e)
    | Panic x => (seq b l, Panic x)
    end) as Hk.
  { intros l. unfold lift. simpl. unfold mbnd, at_wa, wa_read. simpl. by destruct (hm_Lookup _ _) as [w|e|x]. }
  unfold wa_read in Hk. cbn [snd] in Hk.
  destruct (hm_Lookup (warrants (n_maps (nd (b_reg b)))) id) as [w|e|x] eqn:El.
  2,3: intros b3 Hr3%rely_same _; (split; [done|]); exists []; intros rest; rewrite Hk; simpl;
       rewrite (seq_same b b3); [done|by etrans].
  assert (kwarrant_typed w) as Hwt.
  { destruct Hi1 as [[[Hm _] _] _]. apply hm_Lookup_ok in El. rewrite <- Hw1 in El. by apply (mt_warrant _ Hm) in El. }
  eapply wp_mono; [|apply (simulates_op b0 b2 (wa_put ("영장 " +:+ fmt_u id +:+ " 취소: ") id (set_Revoked w 1)))].
  - intros h r b3 (-> & u & Hu). split; [done|]. exists u. intros rest. rewrite Hk.
    rewrite <- (seq_same _ _ _ Hs2). apply Hu.
  - apply put_on_warrants; [done|by apply revoke_write_typed].
Qed.
Lemma revoke_answers id st : a_answers (nd (fst (lift (kw_Revoke id) st))) = a_answers (nd st).
Proof.
  unfold lift. simpl. unfold mbnd, at_wa, wa_read, wa_put. simpl.
  destruct (hm_Lookup _ _) as [w|e|x]; [|done|done]. by destruct (hm_Put _ _ _) as [t [e|]].
Qed.
Lemma wp_resync_one b0 keep x b :
  wp (HWrite b0) (resync_one_prog keep x) b (λ h r b',
    h = HWrite b0 ∧ r = Ok tt ∧ ∀ l, seq b' l = resync_one keep (seq b l) x).
Proof.
  destruct x as [id e]. unfold resync_one_prog, resync_one. cbn [fst snd]. destruct (_ || _).
  { apply wp_pret. intros b1 Hr1%rely_same _. split; [done|]. split; [done|]. intros l. by apply seq_same. }
  apply wp_pthen. eapply wp_mono; [|apply simulates_revoke]. intros h r b1 (-> & u & Hu).
  assert (u = []) as ->.
  { pose proof (revoke_answers id (seq b (u ++ []))) as Ha. rewrite Hu in Ha. simpl in Ha.
    by rewrite app_nil_r in Ha. }
  simpl in Hu. destruct r as [[]|er|y].
  2,3: apply wp_pret; intros b2 Hr2%rely_same _; split; [done|]; split; [done|]; intros l;
       rewrite Hu; by apply seq_same.
  apply wp_reg_mod. intros b2 Hs2 Hi2. split; [|split; [done|]].
  { intros i e'. simpl. intros [_ Hx]%lookup_delete_Some. by eapply Hi2. }
  intros b3 Hs3. split; [done|]. split; [done|]. intros l. rewrite Hu. unfold seq at 1. rewrite Hs3.
  unfold view_of. simpl. by rewrite (same_reg_rg _ _ Hs2), (same_reg_warrants _ _ Hs2).
Qed.
Lemma wp_resync_loop b0 keep order b :
  wp (HWrite b0) (pfor order (resync_one_prog keep)) b (λ h r b',
    h = HWrite b0 ∧ ∀ l, seq b' l = foldl (resync_one keep) (seq b l) order).
Proof.
  revert b. induction order as [|x order IH]; intros b; simpl.
  - intros b1 Hr1%rely_same _. split; [done|]. intros l. by apply seq_same.
  - apply wp_pbnd. eapply wp_mono; [|apply wp_resync_one]. intros h r b1 (-> & -> & Hone).
    eapply wp_mono; [|apply IH]. intros h r b2 [-> Hl]. split; [done|]. intros l. by rewrite <- Hone.
Qed.

(** ** The requests *)

Variable Hdecode : ∀ bytes w, proto_Unmarshal bytes = Ok w → pb_typed w.

Lemma rely_grows h b b' : rely h b b' → grows (b_reg b) (b_reg b').
Proof. intros [[Hg _] _]. exact Hg. Qed.
Lemma wp_install env w b :
  Verify env (keys (rg (b_reg b))) = Ok w →
  wp HNone (install_prog w fromCentral) b (λ h _ _, h = HNone).
Proof.
  intros Hv. pose proof (Verify_typed Hdecode _ _ _ Hv) as Hw. unfold install_prog. apply wp_look.
  intros b1 (Hh1 & Hk1 & _)%rely_grows Hi1. apply wp_pbnd, wp_pret. intros b2 Hr2 Hi2.
  destruct (checkWarrant w (host (rg (b_reg b1)))) as [[]|e|x] eqn:Ec; [|done|done].
  apply wp_locked. intros b0 Hr0 Hl0 Hi0.
  pose proof (rely_grows _ _ _ (transitivity Hr2 Hr0)) as (Hh & Hk & _).
  eapply wp_mono; [|by apply simulates_install_body].
  intros h r b' (-> & u & Hu). split; [done|].
  assert (d_crit b0 b') as Hcr.
  { apply (CallApply _ _ env u []). unfold Registry.Apply. simpl. rewrite Hk, Hk1, Hv.
    specialize (Hu []). rewrite app_nil_r in Hu. unfold seq in Hu.
    unfold install, admissible. unfold mbnd at 1 2. simpl. rewrite Hh, Ec. simpl.
    unfold mbnd at 1 in Hu. destruct (newer_revision w _) as [st1 [[]|e|x]]; [|by injection Hu as -> <-..].
    rewrite Hu. by destruct r as [[]|e|x]. }
  split; [done|]. split; [|done]. exact (reg_call_inv _ _ Hcr Hl0).
Qed.
Lemma ignoring_safe {A} (p : prog bstate A) : safe p → safe (ignoring p).
Proof.
  intros Hp b. apply wp_pthen. eapply wp_mono; [|apply Hp]. intros h r b' -> b1 _ _. done.
Qed.
Lemma Apply_safe env : safe (Apply_prog env).
Proof.
  intros b. unfold Apply_prog. apply wp_look. intros b1 Hr1 Hi1.
  destruct (Verify env (keys (rg (b_reg b1)))) as [w|e|x] eqn:Ev; [|done|done].
  apply wp_pthen. eapply wp_mono; [|by eapply wp_install]. intros h r b' -> b2 _ _. done.
Qed.
Lemma Resync_safe ord keep : any_order ord → safe (Resync_prog ord keep).
Proof.
  intros Hord b. apply wp_locked. intros b0 Hr0 Hl0 Hi0. apply wp_look. intros b1 Hr1%rely_same _.
  rewrite (same_reg_rg _ _ Hr1). eapply wp_mono; [|apply wp_resync_loop].
  intros h r b' [-> Hov]. split; [done|].
  assert (d_crit b0 b') as Hcr.
  { apply (CallResync _ _ keep []). exists (ord (byID (rg (b_reg b0)))). split; [apply Hord|].
    etrans; [exact (Hov [])|]. by rewrite (seq_same _ _ [] Hr1). }
  split; [done|]. split; [|done]. exact (reg_call_inv _ _ Hcr Hl0).
Qed.
Lemma Revisions_safe : safe Revisions_prog.
Proof.
  intros b. apply wp_rlocked. intros b0 _ _ _. apply wp_look. by intros b1 _ _ b2 _ _.
Qed.

(** A warrant that [match] returns is one the kernel holds, then and later. *)
Lemma wp_match ord account fp now b :
  any_order ord →
  wp HNone (match_prog ord account fp now) b (λ h r b',
    h = HNone ∧ ∀ w reason, r = Ok (Some w, reason) →
      is_u64 (pb.w_WarrantId w) ∧ is_Some (kw_get (nd (b_reg b')) (pb.w_WarrantId w))).
Proof.
  intros Hord. unfold match_prog. apply wp_pbnd, wp_rlocked. intros b0 _ Hl0 Hi0. apply wp_look.
  intros b1 [_ Hs1] Hi1. specialize (Hs1 eq_refl). intros b2 [_ Hs2] Hi2. specialize (Hs2 eq_refl).
  split; [done|]. intros b3 Hm3 Hi3 b4 [Hm4 _] Hi4. split; [done|]. intros w reason [= Hw].
  pose proof (Hord (byID (rg (b_reg b1)))) as Hp.
  destruct (reg_match_entry _ _ _ _ _ _ _ Hp Hw) as (id & e & He & <- & _).
  assert (reg_inv (b_reg b1)) as Hl1 by exact (reg_inv_proper _ _ Hs1 Hl0).
  destruct (Hl1 id e He) as (Hid & _ & _ & nw & boot & Hk). rewrite <- Hid.
  split; [rewrite Hid; apply (proj2 Hi1 _ _ He)|].
  apply (proj2 Hm4), (proj2 Hm3). rewrite (same_reg_get _ _ _ Hs2), Hk. by eexists.
Qed.
Lemma quiet_unwarranted r fp reason : quiet (λ _, True) (unwarranted_prog r fp reason).
Proof.
  unfold unwarranted_prog. apply quiet_pbnd with (Q := λ _, True); [|done..|].
  { eapply quiet_weaken; [|apply quiet_tick]. done. }
  intros t _. apply quiet_act. intros b Hb.
  assert (b_reg (fst (unwarranted r fp reason t b)) = b_reg b) as E.
  { unfold unwarranted. destruct (b_audit b) as [q|]; [|done]. by destruct (Append _ q) as [[]| |]. }
  simpl. rewrite E. split; [exact Hb|]. split; [reflexivity|]. by split.
Qed.
Lemma wp_unwarranted {A} r fp reason (x : res A) b :
  wp HNone (unwarranted_prog r fp reason ;;> PRet x) b (λ h _ _, h = HNone).
Proof.
  apply wp_pbnd. eapply wp_quiet; [apply quiet_unwarranted|]. by intros [[]|e|y] b1 _ _ _.
Qed.
Lemma Bind_safe ord r : any_order ord → safe (Bind_prog ord r).
Proof.
  intros Hord b. unfold Bind_prog. set (fp := key_of (AuthInfo r)).
  apply wp_pbnd. eapply wp_quiet; [apply quiet_tick|]. intros [t|e|x] b1 _ _ _; [|done|done].
  apply wp_pbnd. eapply wp_mono; [|by apply wp_match].
  intros h [[[w|] reason]|e|x] b2 [-> Hw]; [|apply wp_unwarranted|done|done].
  destruct (Hw w reason eq_refl) as [Hu Hsome]. destruct (CgroupID r =? 0); [apply wp_unwarranted|].
  apply wp_pthen, wp_act. intros b3 [Hm3 _] Hi3.
  assert (is_Some (hm_get (warrants (n_maps (nd (b_reg b3)))) (pb.w_WarrantId w))) as Hs3 by (by apply Hm3).
  set (m := TagCgroup (CgroupID r) (pb.w_WarrantId w)).
  assert (b_reg (fst (on_node (on_maps m) b3)) = mkRstate (rg (b_reg b3)) (mkNode _
      (fst (m (n_maps (nd (b_reg b3))))) (n_specs (nd (b_reg b3))) (n_watcher (nd (b_reg b3)))
      (n_time (nd (b_reg b3))))) as E.
  { rewrite on_node_reg. unfold lift. by rewrite (surjective_pairing (on_maps _ _)), on_maps_fst. }
  assert (same_reg (b_reg b3) (b_reg (fst (on_node (on_maps m) b3)))) as Hsm.
  { rewrite E. unfold same_reg, view_of, m, TagCgroup. simpl. by rewrite finish_fst. }
  destruct Hi3 as [[[Hty Hsp] Htg] He]. split; [|split].
  - simpl. rewrite E. split; [|done].
    split; [split; [|done]|]; simpl; [by apply TagCgroup_typed|by apply TagCgroup_tags].
  - split; [by apply same_reg_mono|done].
  - intros b4 _ _. destruct (snd _) as [[]|e|x]; [done|apply wp_unwarranted|done].
Qed.
Lemma agent_req_safe k p : agent_req k p → safe p.
Proof.
  intros [env|ord keep Ho| |ord d Ho|ord Ho|ep n].
  - apply ignoring_safe, Apply_safe.
  - by apply Resync_safe.
  - apply ignoring_safe, Revisions_safe.
  - unfold serve_prog. destruct (parse _) as [req|e|x]; [|done|done].
    case_bool_decide; [by apply ignoring_safe, Bind_safe|]. case_bool_decide; [|done].
    destruct (CgroupID req =? 0); [done|]. apply ignoring_safe. apply safe_quiet.
    apply quiet_map_op; [apply UntagCgroup_typed|apply UntagCgroup_tags| |done].
    intros s. unfold UntagCgroup. by rewrite finish_ignoreMissing_fst.
  - apply safe_quiet, quiet_pass.
  - apply safe_quiet, quiet_act. intros b Hb. simpl. split; [exact Hb|]. split; [reflexivity|]. by split.
Qed.

(** ** All of them together *)

Definition goroutines : list kind := [KSub; KPam; KWatch; KAudit].
Definition reachable b0 (c : conf bstate kind) : Prop :=
  rtc (cstep agent_req) (cstart b0 goroutines) c.

Lemma reachable_inv b0 c :
  agent_inv b0 → reachable b0 c → cinv c ∧ ∃ a, linear b0 c a.
Proof.
  intros [Hr Hn He] Hc. eapply csteps_linear; [exact agent_req_safe|by split|exact Hr|exact Hc].
Qed.
Lemma reachable_step b0 c c' : reachable b0 c → rtc gors_step c c' → reachable b0 c'.
Proof.
  unfold reachable. intros Hc Hs. etrans; [exact Hc|]. clear Hc. induction Hs; [done|]. eapply rtc_l; [by left|done].
Qed.
Lemma reg_calls b a : rtc d_crit b a → rtc reg_call (view_of (b_reg b)) (view_of (b_reg a)).
Proof. induction 1 as [|x y z Hs _ IH]; [done|]. eapply rtc_l; [exact Hs|exact IH]. Qed.

(** At every moment, in the middle of any request. *)
Lemma reachable_node b0 c : agent_inv b0 → reachable b0 c → node_inv (nd (b_reg (cf_state c))).
Proof. intros Hb Hc. destruct (reachable_inv _ _ Hb Hc) as [Hi _]. by apply ci_inv in Hi as [Hn _]. Qed.

(** No goroutine is inside a critical section of the registry. *)
Definition unlocked (c : conf bstate kind) : Prop :=
  ∀ k s0 p, (k, Busy (HWrite s0) p) ∉ cf_gors c.
Lemma unlocked_total c : unlocked c → total_of has_lock (cf_gors c) = 0%nat.
Proof.
  intros Hu. destruct (decide (total_of has_lock (cf_gors c) = 0%nat)) as [|(k & h & p & Hin & Hh)%total_pos]; [done|].
  destruct h; try done. by apply Hu in Hin.
Qed.

Lemma reachable_linear b0 c :
  agent_inv b0 → reachable b0 c → unlocked c →
  rtc reg_call (view_of (b_reg b0)) (view_of (b_reg (cf_state c))) ∧ reg_inv (b_reg (cf_state c)).
Proof.
  intros Hb Hc Hu%unlocked_total. destruct (reachable_inv _ _ Hb Hc) as [Hi [a [Ht Hf _]]].
  split; [|by apply (ci_lock _ Hi)]. rewrite (Hf Hu : same_reg _ _). by apply reg_calls.
Qed.

(** * Properties *)


(** C19: the kernel only ever reads well-typed values.  In the same interleavings
    and at any point, also in the middle of an installation, a resync or a
    recompilation, every value the BPF programs can read from the maps fits its C
    struct: the flag is 0 or 1, effects and recursion bits are legal, a network
    value has at most seven 16-bit ports and a one-byte protocol, and each warrant
    field has its width. *)
Theorem concurrent_keeps_types b0 c :
  agent_inv b0 → reachable b0 c → maps_typed (b_maps (cf_state c)).
Proof. intros Hb Hc. apply (reachable_node _ _ Hb Hc). Qed.

(** C20: no request hangs.  From every such configuration the goroutines' own
    steps come to an end under every schedule, and they can only end with every
    goroutine idle and the mutex free: no deadlock, no lock left behind by an
    early return, and a waiting writer is not kept out by readers. *)
Theorem requests_complete b0 c :
  agent_inv b0 → reachable b0 c →
  sn gors_step c ∧
  ∀ c', rtc gors_step c c' → nf gors_step c' →
    Forall (λ x, snd x = Idle) (cf_gors c') ∧ cf_mu c' = mkRw false 0 ∧ reg_inv (b_reg (cf_state c')).
Proof.
  intros Hb Hc. split; [apply gors_step_sn|]. intros c' Hs Hnf.
  destruct (reachable_inv _ _ Hb (reachable_step _ _ _ Hc Hs)) as [Hi _].
  assert (∀ x, x ∈ cf_gors c' → snd x = Idle) as Hidle.
  { intros [k g] Hin. destruct g as [|h p]; [done|]. exfalso. apply Hnf.
    by eapply conf_progress; [exact Hi|exact Hin|]. }
  assert (∀ f, total_of f (cf_gors c') = 0%nat) as H0'.
  { intros f. destruct (decide (total_of f (cf_gors c') = 0%nat)) as [|(k & h & p & Hin & _)%total_pos]; [done|].
    by apply Hidle in Hin. }
  split; [by apply Forall_forall|]. split; [|by apply (ci_lock _ Hi)].
  pose proof (ci_readers _ Hi) as Hr. pose proof (ci_writers _ Hi) as Hw. rewrite H0' in Hr, Hw.
  destruct (cf_mu c') as [[|] rd]; simpl in *; [done|]. by subst.
Qed.
End safety.

(** * A race *)

#[local] Existing Instance demo_ssh.
#[local] Existing Instance demo_os.
#[local] Existing Instance demo_crypto.

(** A push and the login it is for arrive together; the push holds the lock when
    the login reaches it. *)
Definition racing (bytes : string) : conf bstate kind :=
  mkConf demo_start_state (mkRw false 0)
    [(KSub, Busy HNone (ignoring (Apply_prog (signed bytes))));
     (KPam, Busy HNone (serve_prog map_to_list demo_login)); (KWatch, Idle); (KAudit, Idle)].
(** The push runs [k] steps before the login starts, and [l] more before it goes on. *)
Definition raced (bytes : string) (k l : nat) : conf bstate kind :=
  default (racing bytes)
    (schedule (replicate k 0%nat ++ [1%nat] ++ replicate l 0%nat ++ replicate 5 1%nat) (racing bytes)).
Definition demo_raced : conf bstate kind := raced "rev5" 10 13.

Lemma demo_agent_inv : agent_inv demo_start_state.
Proof. apply start_agent_inv, demo_node_inv. Qed.
Lemma racing_reachable bytes : reachable demo_start_state (racing bytes).
Proof.
  pose (push := ignoring (Apply_prog (signed bytes))). pose (login := serve_prog map_to_list demo_login).
  apply rtc_l with (y := mkConf demo_start_state (mkRw false 0)
    ([] ++ (KSub, Busy HNone push) :: [(KPam, Idle); (KWatch, Idle); (KAudit, Idle)])).
  { right. exact (EnvStart agent_req demo_start_state (mkRw false 0) KSub push []
      [(KPam, Idle); (KWatch, Idle); (KAudit, Idle)] (RqApply (signed bytes))). }
  apply rtc_once. right.
  exact (EnvStart agent_req demo_start_state (mkRw false 0) KPam login [(KSub, Busy HNone push)]
    [(KWatch, Idle); (KAudit, Idle)] (RqDatagram map_to_list demo_login (λ m, reflexivity _))).
Qed.
Lemma raced_reachable bytes k l : reachable demo_start_state (raced bytes k l).
Proof. eapply reachable_step; [apply racing_reachable|apply schedule_named]. Qed.
Lemma demo_raced_reachable : reachable demo_start_state demo_raced.
Proof. apply raced_reachable. Qed.
Definition all_idle (l : list (kind * gor bstate)) : bool :=
  forallb (λ x, match snd x with Idle => true | _ => false end) l.
Lemma all_idle_unlocked c : all_idle (cf_gors c) = true → unlocked c.
Proof.
  unfold all_idle, unlocked. rewrite forallb_forall. intros Hf k s0 p Hin%list_elem_of_In. by apply Hf in Hin.
Qed.
Lemma demo_raced_unlocked : unlocked demo_raced.
Proof. apply all_idle_unlocked. vm_compute. reflexivity. Qed.

Lemma concurrent_keeps_types_witness : maps_typed (b_maps (cf_state demo_raced)).
Proof.
  apply (concurrent_keeps_types demo_decodes demo_start_state demo_raced);
    [exact demo_agent_inv|exact demo_raced_reachable].
Defined.
(** The moment in that race at which the push is inside the lock. *)
Definition demo_racing : conf bstate kind :=
  default (racing "rev5") (schedule (replicate 10 0%nat ++ [1%nat]) (racing "rev5")).
Lemma demo_racing_reachable : reachable demo_start_state demo_racing.
Proof. eapply reachable_step; [apply racing_reachable|apply schedule_named]. Qed.
Lemma requests_complete_witness :
  rw_writer (cf_mu demo_racing) = true ∧ sn gors_step demo_racing ∧
  ∀ c', rtc gors_step demo_racing c' → nf gors_step c' → cf_mu c' = mkRw false 0.
Proof.
  split; [vm_compute; reflexivity|].
  destruct (requests_complete demo_decodes demo_start_state demo_racing demo_agent_inv demo_racing_reachable)
    as [Hsn Hnf].
  split; [exact Hsn|]. intros c' Hs Hn. exact (proj1 (proj2 (Hnf c' Hs Hn))).
Defined.
