(* ===== verification/Authority.v ===== *)
(** Where authority comes from.  Whatever the goroutines of the agent do against
    each other, the warrants and the rules the kernel judges by were there when the
    agent started, or stem from bytes signed with a trusted key: the compiler adds
    nothing to a policy but the login shells and the built-in device files, and no
    interleaving adds a rule to a policy it does not belong to. *)

From Stdlib Require Import ZArith Lia Ascii String.
From stdpp Require Import base tactics numbers list strings gmap relations.
From S2P Require Import Prelude GoStd GoNet EbpfMap Os BpfMap Concrete Kernel.
From S2P Require Import Policy Typed Session Enforcement Pb Warrants Upstream Registry Node.
From S2P Require Import WatchLoop AuditQueue Pamsock Binder System Threads Requests Concurrent.

(** * The files a policy names *)

Section names.
Context `{Os}.

(** A login shell: a line of /etc/shells at some moment, or the fallback. *)
Definition shell_path (p : string) : Prop :=
  (∃ t text, os_ReadFile t LoginShellsPath = Ok text ∧ p ∈ omap shell_line (Split text LF)) ∨
  p ∈ FallbackLoginShells.
Definition exec_listed (s : Spec) (p : string) : Prop :=
  p ∈ er_Path <$> s_ExecRules s ∨ (s_NoDefaultExec s = false ∧ shell_path p).
Definition write_listed (s : Spec) (p : string) : Prop :=
  p ∈ DefaultAllowWrite ∨ ∃ r, r ∈ s_WriteRules s ∧ wr_Effect r = EffectAllow ∧ wr_Path r = p.

(** The file that had such a path at some moment. *)
Definition named (P : string → Prop) (f : FileRef) : Prop :=
  ∃ t p st, P p ∧ unix_Stat t p = Ok st ∧ f = FileRefFromStat st.

(** Everything compiled so far is named by the policy. *)
Definition only_named (s : Spec) (st : cstate) : Prop :=
  (∀ f, f ∈ c_Exec (cs_c st) → named (exec_listed s) f) ∧
  (∀ w, w ∈ c_Write (cs_c st) → we_Allow w = true → named (write_listed s) (we_Ref w)).

Lemma only_named_at_now {A} s (q : nat → A) : keeps (only_named s) (at_now q).
Proof. by intros st Hst. Qed.
Lemma only_named_warn s msg : keeps (only_named s) (warn msg).
Proof. by intros st Hst. Qed.
Lemma only_named_record s p r k : keeps (only_named s) (record p r k).
Proof. by intros st Hst. Qed.
Lemma only_named_Net s f : keeps (only_named s) (mod_c (λ c, set_Net c (f c))).
Proof. by intros st Hst. Qed.
Lemma only_named_Read s f : keeps (only_named s) (mod_c (λ c, set_Read c (f c))).
Proof. by intros st Hst. Qed.
#[local] Hint Resolve only_named_at_now only_named_warn only_named_record only_named_Net only_named_Read : gohints.

Lemma only_named_addExec s p opt : exec_listed s p → keeps (only_named s) (addExec p opt).
Proof.
  intros Hp st Hst. unfold addExec. destruct (IsAbs p); [|done]. simpl. unfold mbnd, at_now. simpl.
  destruct (unix_Stat (cs_now st) p) as [d|e|x] eqn:Ed; [| |done].
  - destruct (negb (_ =? _)); [by destruct opt|]. simpl. case_bool_decide; [done|]. simpl.
    destruct Hst as [He Hw]. destruct (negb _); (split; [|exact Hw]); simpl;
      intros f [Hf|Hf%list_elem_of_singleton]%elem_of_app; eauto; subst f; by exists (cs_now st), p, d.
  - by destruct (opt && _).
Qed.
Lemma only_named_addWrite s p allow recursive opt :
  (allow = true → write_listed s p) → keeps (only_named s) (addWrite p allow recursive opt).
Proof.
  intros Hp st Hst. unfold addWrite. destruct (IsAbs p); [|done]. simpl. unfold mbnd, at_now. simpl.
  destruct (unix_Stat (cs_now st) p) as [d|e|x] eqn:Ed; [| |done].
  - destruct (negb allow && _); [done|]. simpl. destruct Hst as [He Hw]. split; [exact He|]. simpl.
    intros w [Hin| ->%list_elem_of_singleton]%elem_of_app; [by auto|]. simpl. intros Ha.
    exists (cs_now st), p, d. auto.
  - by destruct (opt && _).
Qed.

(** [existingRegular] returns paths it was given; [LoginShells] returns shells. *)
Lemma existing_keeps s seen l : keeps (only_named s) (existingRegular_loop seen l).
Proof. revert seen. induction l; intros seen; simpl; keep_steps. Qed.
Lemma existing_from seen l st st' out :
  existingRegular_loop seen l st = (st', Ok out) → ∀ p, p ∈ out → p ∈ l.
Proof.
  revert seen st st' out. induction l as [|q l IH]; intros seen st st' out; simpl; [by intros [= _ <-] p ?%elem_of_nil|].
  case_bool_decide; [intros E p Hp; right; exact (IH _ _ _ _ E p Hp)|].
  intros (s1 & r & _ & Hr)%mbnd_ok. apply mbnd_ok in Hr as (s2 & out' & E & Hr).
  intros p Hp. assert (p ∈ q :: out') as Hq.
  { destruct r as [d|e|x]; [destruct (IsRegular d)|..]; injection Hr as _ <-; set_solver. }
  apply elem_of_cons in Hq as [->|Hq]; [by left|]. right. exact (IH _ _ _ _ E p Hq).
Qed.
Lemma LoginShells_keeps s : keeps (only_named s) LoginShells.
Proof. pose proof existing_keeps. unfold LoginShells, existingRegular. keep_steps. Qed.
Lemma LoginShells_shells st st' out : LoginShells st = (st', Ok out) → ∀ p, p ∈ out → shell_path p.
Proof.
  unfold LoginShells. intros (s1 & b & Eb & Hr)%mbnd_ok. injection Eb as _ Eb.
  assert (∀ s2, existingRegular FallbackLoginShells s2 = (st', Ok out) → ∀ p, p ∈ out → shell_path p) as Hfb.
  { intros s2 E p Hp. right. exact (existing_from _ _ _ _ _ E p Hp). }
  destruct b as [text|e|x]; [|by eapply Hfb..].
  apply mbnd_ok in Hr as (s2 & out' & E & Hr). case_bool_decide; [by eapply Hfb|].
  injection Hr as _ <-. intros p Hp. left. exists (cs_now st), text. split; [done|]. exact (existing_from _ _ _ _ _ E p Hp).
Qed.

Lemma only_named_shells s : keeps (only_named s) (compile_shells s).
Proof.
  unfold compile_shells. destruct (s_NoDefaultExec s) eqn:En; simpl; [auto with gohints|].
  intros st Hst. unfold mbnd. pose proof (LoginShells_keeps s st Hst) as Hk.
  destruct (LoginShells st) as [s1 [out|e|x]] eqn:E; [|done|done].
  refine (keeps_mbnd _ _ _ _ _ s1 Hk).
  - apply keeps_mfor. intros p Hp. apply only_named_addExec. right.
    split; [done|]. exact (LoginShells_shells _ _ _ E p Hp).
  - intros _. case_bool_decide; auto with gohints.
Qed.
Lemma only_named_body s : keeps (only_named s) (compile_body s).
Proof.
  unfold compile_body. apply keeps_mbnd; [apply only_named_shells|]. intros _.
  apply keeps_mbnd.
  { apply keeps_mfor. intros r Hr. apply only_named_addExec. left. by apply list_elem_of_fmap_2. }
  intros _. apply keeps_mbnd.
  { apply keeps_mfor. intros p Hp. apply only_named_addWrite. by left. }
  intros _. apply keeps_mbnd; [apply keeps_mfor; intros p Hp; by apply only_named_addWrite|].
  intros _. apply keeps_mbnd.
  { apply keeps_mfor. intros r Hr. unfold compile_write.
    destruct (wr_Effect r) eqn:Ee; auto with gohints; apply only_named_addWrite; [|done].
    intros _. right. by exists r. }
  intros _. unfold compile_net, warn_udp, compile_read, resolve, checkCombinations. keep_steps.
Qed.

(** What a compiled policy holds, and nothing else. *)
Record compiled_from (pid : Z) (s : Spec) (c : Compiled) : Prop := mkCompiledFrom {
  cf_id : c_PolicyID c = pid;
  cf_exec f : f ∈ c_Exec c → named (exec_listed s) f;
  cf_write w : w ∈ c_Write c → we_Allow w = true → named (write_listed s) (we_Ref w);
  cf_net : c_Net c = net_entry <$> s_NetRules s
}.
Lemma Compile_from pid s t t' c : Compile pid (ASpecVal s) t = (t', Ok c) → compiled_from pid s c.
Proof.
  intros HC. pose proof (Compile_provenance _ _ _ _ _ HC) as (Hpid & _).
  apply Compile_ok_inv in HC as (s' & st & _ & [[= <-]|?] & -> & -> & E); [|done].
  assert (only_named s (mkCstate t (empty_Compiled pid))) as H0.
  { split; intros x Hx; simpl in Hx; by apply elem_of_nil in Hx. }
  destruct (keeps_ok _ _ _ _ _ (only_named_body s) E H0) as [He Hw].
  apply compile_body_ok in E as (_ & _ & Hn); [|done]. by split.
Qed.
End names.

(** * What the watcher watches *)

(** Every watched policy is one the installer remembers. *)
Definition watched_known `{KernelMaps} (n : node) : Prop :=
  ∀ w pid, n_watcher n = Some w → is_Some (watched w !! pid) → is_Some (n_specs n !! pid).

(** It holds of a new installer and after every installation. *)
Lemma newPolicyInstaller_known `{Os} `{KernelMaps} m t : watched_known (newPolicyInstaller m t).
Proof. intros w pid. simpl. intros [= <-]. simpl. rewrite lookup_empty. by intros [? ?]. Qed.
Lemma installer_install_known `{Os} `{WallClock} `{KernelMaps} id pp :
  keeps watched_known (installer_install id pp).
Proof.
  intros n Hn. unfold installer_install, mbnd, mres. destruct (policySpec pp) as [s|e|x]; [|done|done].
  unfold compile_now. destruct (Compile id (ASpecVal s) (n_time n)) as [t' [c|e|x]] eqn:EC; [|done|done].
  apply Compile_provenance in EC as (Hpid & _). unfold on_maps. simpl.
  destruct (Policy.Apply c (n_maps n)) as [m' [[]|e|x]]; simpl; [|done|done].
  intros w pid. simpl. destruct (n_watcher n) as [w0|] eqn:Ew; simpl; [|done]. intros [= <-].
  rewrite lookup_insert_is_Some'. unfold Watch. rewrite Hpid. destruct (id =? 0); simpl.
  - intros Hx. right. by eapply Hn.
  - rewrite lookup_insert_is_Some'. intros [?|Hx]; [by left|right]. by eapply Hn.
Qed.

(** * What the kernel may hold *)

Section authority.
Context `{Os} `{WallClock} `{KernelMaps} `{!KernelMapsLaws} `{Crypto} `{SshKeys}.
Implicit Types b : bstate.
(** The state the agent started its goroutines in. *)
Variable b0 : bstate.

Definition start_maps : Maps := b_maps b0.
(** A warrant whose signature checks out under the agent's trusted keys and which
    passes the checks for this host. *)
Definition signed_warrant (w : pb.Warrant) : Prop := ∃ env, Verify env (keys (rg (b_reg b0))) = Ok w.
Definition trusted (w : pb.Warrant) : Prop :=
  signed_warrant w ∧ checkWarrant w (host (rg (b_reg b0))) = Ok tt.

(** A policy under an id: of a trusted warrant, or remembered at the start. *)
Definition granted (pid : Z) (s : Spec) : Prop :=
  (∃ w, trusted w ∧ pb.w_PolicyId w = pid ∧ policySpec (pb.w_Policy w) = Ok s) ∨
  n_specs (nd (b_reg b0)) !! pid = Some s.

(** A kernel warrant: of a trusted one or of the start, revoked or not. *)
Definition warrant_from (id : Z) (kw : KWarrant) : Prop :=
  ∃ kw0, (kw = kw0 ∨ kw = set_Revoked kw0 1) ∧
    ((∃ w now boot, trusted w ∧ id = pb.w_WarrantId w ∧ kw0 = kernelWarrant w now boot) ∨
     hm_get (warrants start_maps) id = Some kw0).
Definition exec_from (pid : Z) (f : FileRef) : Prop :=
  is_Some (hm_get (ruleExec start_maps) (rule_key pid f)) ∨
  ∃ s, granted pid s ∧ named (exec_listed s) f.
Definition write_from (pid : Z) (f : FileRef) : Prop :=
  (∃ v, hm_get (ruleWrite start_maps) (rule_key pid f) = Some v ∧ wv_Effect v = EffectAllowByte) ∨
  ∃ s, granted pid s ∧ named (write_listed s) f.
(** What a network entry opens to the addresses below its prefix. *)
Definition net_from (k : netKey) (v : netVal) : Prop :=
  ∀ look port, lk_covers k look = true → ports_admit v port = true →
    (∃ k0 v0, lp_entry (ruleNet start_maps) k0 = Some v0 ∧ lk_covers k0 look = true ∧
              nv_Proto v0 = nv_Proto v ∧ ports_admit v0 port = true) ∨
    ∃ pid s r, granted pid s ∧ r ∈ s_NetRules s ∧ entry_covers (net_entry r) pid look ∧
               nr_Proto r = nv_Proto v ∧ entry_port (net_entry r) port.

Record rules_from (m : Maps) : Prop := mkRulesFrom {
  rf_exec pid f : is_Some (hm_get (ruleExec m) (rule_key pid f)) → exec_from pid f;
  rf_write pid f v : hm_get (ruleWrite m) (rule_key pid f) = Some v → wv_Effect v = EffectAllowByte → write_from pid f;
  rf_net k v : lp_entry (ruleNet m) k = Some v → net_from k v;
  rf_wf : nets_wf m
}.
Definition warrants_from (m : Maps) : Prop :=
  ∀ id kw, hm_get (warrants m) id = Some kw → warrant_from id kw.
Record authority b : Prop := mkAuthority {
  au_keys : keys (rg (b_reg b)) = keys (rg (b_reg b0));
  au_host : host (rg (b_reg b)) = host (rg (b_reg b0));
  au_specs pid s : n_specs (nd (b_reg b)) !! pid = Some s → granted pid s;
  au_watched : watched_known (nd (b_reg b));
  au_rules : rules_from (b_maps b);
  au_warrants : warrants_from (b_maps b)
}.
(** No policy the installer remembers is ever forgotten. *)
Definition specs_grow b b' : Prop :=
  ∀ pid, is_Some (n_specs (nd (b_reg b)) !! pid) → is_Some (n_specs (nd (b_reg b')) !! pid).
#[local] Instance specs_grow_pre : PreOrder specs_grow.
Proof. split; [by intros b pid|]. intros b1 b2 b3 Ha Hb pid Hp. by apply Hb, Ha. Qed.

Lemma authority_start : nets_wf start_maps → watched_known (nd (b_reg b0)) → authority b0.
Proof.
  intros Hw Hwk. split; [done|done|intros pid s Hs; by right|done| |].
  - split; [by left|intros pid f v Hv He; left; by eauto| |done].
    intros k v Hk look port Hc Hp. left. by exists k, v.
  - intros id kw Hk. exists kw. split; [by left|by right].
Qed.

Lemma warrant_from_revoked id kw : warrant_from id kw → warrant_from id (set_Revoked kw 1).
Proof. intros (kw0 & [->| ->] & Hf); exists kw0; (split; [by right|exact Hf]). Qed.

(** ** Single map operations *)

(** An action on the maps that keeps both facts. *)
Lemma pkeeps_maps {A} (R : res A → Prop) (m : M Maps A) :
  (∀ s, rules_from s → warrants_from s →
     rules_from (fst (m s)) ∧ warrants_from (fst (m s)) ∧ R (snd (m s))) →
  pkeeps authority specs_grow R (map_op m).
Proof.
  intros Hm. apply pkeeps_act. intros b [Hk Hh Hs Hwk Hr Hw]. destruct (Hm _ Hr Hw) as (Hr' & Hw' & HR).
  unfold on_node, lift, on_maps, b_maps in *. simpl.
  destruct (m (n_maps (nd (b_reg b)))) as [m' r]. split; [done|]; split; [by intros pid|done].
Qed.
(** One that leaves rules and warrants alone. *)
Lemma pkeeps_other {A} (m : M Maps A) :
  (∀ s, ruleExec (fst (m s)) = ruleExec s ∧ ruleWrite (fst (m s)) = ruleWrite s ∧
        ruleNet (fst (m s)) = ruleNet s ∧ warrants (fst (m s)) = warrants s) →
  pkeeps authority specs_grow (λ _, True) (map_op m).
Proof.
  intros Hm. apply pkeeps_maps. intros s [He Hwr Hn Hwf] Hw. destruct (Hm s) as (E1 & E2 & E3 & E4).
  split; [split|split; [|done]].
  - intros pid f. rewrite E1. apply He.
  - intros pid f v. rewrite E2. apply Hwr.
  - intros k v. rewrite E3. apply Hn.
  - intros k v. rewrite E3. apply Hwf.
  - intros id kw. rewrite E4. apply Hw.
Qed.
(** One on the node that touches only the clock. *)
Lemma pkeeps_node {A} (R : res A → Prop) (m : M node A) :
  (∀ n, (∃ t, fst (m n) = set_time n t) ∧ R (snd (m n))) →
  pkeeps authority specs_grow R (node_op m).
Proof.
  intros Hm. apply pkeeps_act. intros b [Hk Hh Hs Hwk Hr Hw]. destruct (Hm (nd (b_reg b))) as ((t & E) & HR).
  unfold on_node, lift, b_maps in *. destruct (m (nd (b_reg b))) as [n' r]. simpl in *. subst n'.
  split; [done|]; split; [by intros pid|done].
Qed.
Lemma pkeeps_look (R : res bstate → Prop) : (∀ b, authority b → R (Ok b)) → pkeeps authority specs_grow R look.
Proof. intros HR. apply pkeeps_act. intros b Hb. split; [exact Hb|]. split; [by intros pid|]. by apply HR. Qed.
Lemma pkeeps_from_look {A} (R : res A → Prop) (k : bstate → prog bstate A) b0' :
  (∀ b, specs_grow b0' b → authority b → pkeeps_from authority specs_grow R (k b) b) →
  pkeeps_from authority specs_grow R (pbnd look k) b0'.
Proof. intros Hk b Hle Hb. split; [exact Hb|]. split; [by intros pid|]. by apply Hk. Qed.
(** The table may change, the trusted keys and the host name do not. *)
Lemma pkeeps_reg_mod f :
  (∀ r, keys (f r) = keys r ∧ host (f r) = host r) → pkeeps authority specs_grow (λ _, True) (reg_mod f).
Proof.
  intros Hf. apply pkeeps_act. intros b [Hk Hh Hs Hwk Hr Hw]. split; [|split; [by intros pid|done]].
  destruct (Hf (rg (b_reg b))) as [E1 E2]. split; [simpl; by rewrite E1|simpl; by rewrite E2|done..].
Qed.

Lemma put_get {K V T} `{EqDecision K} `{HashMap T K V} `{!HashMapLaws T K V} (m : T) k v k' x :
  hm_get (fst (hm_Put m k v)) k' = Some x → (k' = k ∧ x = v) ∨ hm_get m k' = Some x.
Proof.
  destruct (hm_Put m k v) as [m' [e|]] eqn:E; simpl.
  - rewrite (hm_Put_err _ _ _ _ _ E). by right.
  - rewrite (hm_Put_ok _ _ _ _ E). case_decide; [|by right]. intros [= <-]. by left.
Qed.
Lemma rule_key_eq pid f pid' f' : rule_key pid f = rule_key pid' f' → pid = pid' ∧ f = f'.
Proof. destruct f, f'. by intros [= -> -> ->]. Qed.

(** ** Rules *)

Lemma pkeeps_exec pid f :
  exec_from pid f → pkeeps authority specs_grow (λ _, True) (map_op (PutExecRule pid f)).
Proof.
  intros Hf. apply pkeeps_maps. intros s [He Hwr Hn Hwf] Hw. unfold PutExecRule. rewrite finish_fst.
  split; [|by split]. split; simpl; [|done..].
  intros pid' f' [x [[[-> ->]%rule_key_eq _]|Hx]%put_get]; [done|]. apply He. by eauto.
Qed.
Lemma pkeeps_write pid f allow recursive :
  (allow = true → write_from pid f) →
  pkeeps authority specs_grow (λ _, True) (map_op (PutWriteRule pid f allow recursive)).
Proof.
  intros Hf. apply pkeeps_maps. intros s [He Hwr Hn Hwf] Hw. unfold PutWriteRule. rewrite finish_fst.
  split; [|by split]. split; simpl; [done| |done..].
  intros pid' f' v [[[-> ->]%rule_key_eq ->]|Hx]%put_get; [|by eapply Hwr].
  intros Ha. apply Hf. by destruct allow.
Qed.

(** The entry [PutNetRule] starts from opens only what entries around it do. *)
Lemma net_from_found s k v0 :
  (∀ k v, lp_entry (ruleNet s) k = Some v → net_from k v) → 0 <= lk_len k →
  lp_find (ruleNet s) k = Some v0 → net_from k v0.
Proof.
  intros Hn Hk (k' & He & Hc & _)%lp_find_Some look port Hl. apply (Hn k' v0 He).
  destruct (Z.le_gt_cases 0 (lk_len k')); [by eapply lk_covers_trans|].
  apply lk_covers_spec. apply lk_covers_spec in Hl as [? _]. split; [lia|]. unfold lk_prefix.
  by rewrite !Z2Nat.nonpos by lia.
Qed.
Lemma net_current_from s k cidr proto v found :
  rules_from s → 0 <= lk_len k → snd (net_current k cidr proto s) = Ok (v, found) →
  netval_wf v ∧ nv_Proto v = proto ∧ (found = false → NPorts v = 0) ∧ (found = true → net_from k v).
Proof.
  intros [_ _ Hn Hwf] Hk. unfold net_current. cbn [snd].
  destruct (lp_Lookup (ruleNet s) k) as [cur|e|x] eqn:E; [| |done].
  - apply lp_Lookup_ok in E. destruct (Z.eqb_spec (nv_Proto cur) proto); [|done]. simpl. intros [= <- <-].
    pose proof (lp_find_Some _ _ _ E) as (k' & He & _).
    split; [by eapply Hwf|]. split; [done|]. split; [done|]. intros _. by eapply net_from_found.
  - destruct (isMissing e); [|done]. intros [= <- <-]. split; [by split|]. done.
Qed.
Lemma pkeeps_put_net pid s r :
  granted pid s → r ∈ s_NetRules s →
  pkeeps authority specs_grow (λ _, True) (put_net_prog pid (nr_CIDR r) (nr_Port r) (nr_Proto r)).
Proof.
  intros Hg Hr. unfold put_net_prog.
  apply (pkeeps_pbnd _ _ (λ k, netKeyOf pid (nr_CIDR r) = Ok k)); [by intros s0 k ->|done..|]. intros k Hk.
  assert (32 <= lk_len k) as Hlen by (apply netKeyOf_ok in Hk as (_ & _ & _ & _ & Hm & _); exact Hm).
  apply (pkeeps_pbnd _ _ (λ vf, netval_wf (fst vf) ∧ nv_Proto (fst vf) = nr_Proto r ∧
    (snd vf = false → NPorts (fst vf) = 0) ∧ (snd vf = true → net_from k (fst vf)))); [|done..|].
  { apply pkeeps_maps. intros m Hm Hw. split; [done|]. split; [done|]. intros [v found] E.
    by eapply net_current_from; [exact Hm|lia|]. }
  intros [v found] (Hwf & Hp & Hnf & Hf). simpl in *.
  apply (pkeeps_pbnd _ _ (λ v', merge_port (nr_CIDR r) v found (nr_Port r) = Ok v')); [by intros s0 v' ->|done..|].
  intros v' (Hwf' & Hp' & Hadm)%merge_port_spec; [|done|done].
  apply pkeeps_maps. intros m [He Hwr Hn Hw] Hws. unfold net_write. rewrite finish_fst.
  destruct (lp_Put (ruleNet m) k v') as [t [e|]] eqn:E; simpl.
  { pose proof (lp_Put_err _ _ _ _ _ E) as Hent. split; [|by split]. split; simpl; [done|done| |].
    - intros k' x. rewrite Hent. apply Hn.
    - intros k' x. simpl. rewrite Hent. apply Hw. }
  apply lp_Put_ok in E as [Hmax Hent]. split; [|by split]. split; simpl; [done|done| |].
  - intros k' x. rewrite Hent. case_decide as Hd; [|apply Hn]. intros [= <-] look port Hc Hpt.
    assert (lk_covers k look = true) as Hck.
    { destruct Hd as [Hd1 Hd2]. eapply lk_covers_trans; [simpl in *; lia| |exact Hc]. by apply lk_covers_at. }
    apply Hadm in Hpt as [Hz|[->|[Hfd Hpt]]].
    3:{ rewrite Hp'. by apply Hf. }
    all: right; exists pid, s, r; split; [done|]; split; [done|].
    all: split; [exists k; split; [done|]; split; [|done]; rewrite rn_width in Hmax; exact Hmax|].
    all: split; [congruence|]; by (left + right).
  - intros k' x. simpl. rewrite Hent. case_decide; [naive_solver|apply Hw].
Qed.

(** ** Policies *)

Lemma pkeeps_apply pid s c :
  granted pid s → compiled_from pid s c → pkeeps authority specs_grow (λ _, True) (apply_prog c).
Proof.
  intros Hg [<- He Hw Hn]. unfold apply_prog.
  repeat (apply (pkeeps_seq authority specs_grow); [apply (pkeeps_pfor authority specs_grow); intros x Hx|intros _]).
  - destruct (we_Allow x); [done|]. by apply pkeeps_write.
  - destruct (we_Allow x) eqn:Ea; [|done]. apply pkeeps_write. intros _. right. eauto.
  - apply pkeeps_exec. right. eauto.
  - apply (pkeeps_pfor _ _). intros x Hx. rewrite Hn in Hx. apply list_elem_of_fmap in Hx as (r & -> & Hr).
    by apply (pkeeps_put_net _ s).
Qed.
Lemma pkeeps_compile pid s :
  pkeeps authority specs_grow (λ r, ∀ c, r = Ok c → compiled_from pid s c) (node_op (compile_now pid s)).
Proof.
  apply pkeeps_node. intros n. unfold compile_now. destruct (Compile _ _ _) as [t' r] eqn:E. simpl.
  split; [by eexists|]. intros c ->. by eapply Compile_from.
Qed.
(** The watcher takes up a policy the installer remembers. *)
Lemma pkeeps_watch c b0' :
  is_Some (n_specs (nd (b_reg b0')) !! c_PolicyID c) →
  pkeeps_from authority specs_grow (λ _, True) (node_op (watch_compiled c)) b0'.
Proof.
  intros Hp b Hle [Hk Hh Hs Hwk Hr Hw]. split; [|split; [by intros pid|done]]. split; try done. simpl. intros w pid.
  destruct (n_watcher (nd (b_reg b))) as [w0|] eqn:Ew; simpl; [|done]. intros [= <-].
  unfold Watch. destruct (c_PolicyID c =? 0); simpl; [by apply Hwk|].
  intros [v [[<- _]|[_ Hv]]%lookup_insert_Some]; [by apply Hle|]. eapply Hwk; [exact Ew|by eexists].
Qed.
Lemma pkeeps_tick {A} (q : nat → res A) : pkeeps authority specs_grow (λ _, True) (node_op (tick q)).
Proof. apply pkeeps_node. intros n. split; [by eexists|done]. Qed.

Lemma pkeeps_installer pid pp :
  (∀ s, policySpec pp = Ok s → granted pid s) → pkeeps authority specs_grow (λ _, True) (installer_prog pid pp).
Proof.
  intros Hg. unfold installer_prog. apply (pkeeps_pbnd _ _ (granted pid)); [by intros s0; exact Hg|done..|].
  intros s Hs. apply (pkeeps_pbnd _ _ (compiled_from pid s)); [apply pkeeps_compile|done..|]. intros c Hc.
  apply (pkeeps_seq _ _); [by apply (pkeeps_apply pid s)|]. intros _ s0 b _ [Hk Hh Hsp Hwk Hr Hw].
  assert (is_Some (<[pid := s]> (n_specs (nd (b_reg b))) !! pid)) as Hin by (rewrite lookup_insert_eq; by eexists).
  split; [|split; [|apply pkeeps_watch; by rewrite (cf_id _ _ _ Hc)]].
  - split; try done; simpl.
    + intros pid' s' [[<- <-]|[_ Hx]]%lookup_insert_Some; [done|by apply Hsp].
    + intros w pid' Ew Hx. apply lookup_insert_is_Some'. right. by eapply Hwk.
  - intros pid' Hx. simpl. apply lookup_insert_is_Some'. by right.
Qed.
Lemma pkeeps_recompile pid b0' :
  is_Some (n_specs (nd (b_reg b0')) !! pid) →
  pkeeps_from authority specs_grow (λ _, True) (recompile_prog pid) b0'.
Proof.
  intros Hp. apply pkeeps_from_look. intros b Hle Hb.
  destruct (Hle _ Hp) as [s Hs]. rewrite Hs. simpl default.
  pose proof (au_specs _ Hb _ _ Hs) as Hg.
  apply (pkeeps_from_pbnd _ _ (compiled_from pid s)); [apply pkeeps_compile|done..|]. intros c b1 Hle1 Hc.
  apply (pkeeps_from_pbnd _ _ (λ _, True)); [|done..|].
  { eapply pkeeps_from_weaken; [|by apply (pkeeps_apply pid s)]. done. }
  intros _ b2 Hle2 _. apply pkeeps_watch. rewrite (cf_id _ _ _ Hc). apply Hle2, Hle1. by eexists.
Qed.
(** A pass calls back only for policies that were watched. *)
Lemma pkeeps_pass ord :
  (∀ m, ord m ≡ₚ map_to_list m) → pkeeps authority specs_grow (λ _, True) (pass_prog ord).
Proof.
  intros Hord b0'. apply pkeeps_from_look. intros b _ Hb.
  destruct (n_watcher (nd (b_reg b))) as [w|] eqn:Ew; [|done].
  apply (pkeeps_from_pbnd _ _ (λ ids, ∀ id, id ∈ ids → is_Some (watched w !! id))); [|done..|].
  { apply pkeeps_node. intros n. unfold changed_now.
    destruct (changed (n_time n) (ord (watched w))) as [t' ids] eqn:E. simpl. split; [by eexists|].
    intros ids' [= <-] id Hid. apply changed_sublist in E. pose proof (elem_of_sublist _ _ _ Hid E) as Hin0. clear Hid.
    apply list_elem_of_fmap in Hin0 as ([i srcs] & -> & Hin). rewrite Hord in Hin.
    apply elem_of_map_to_list in Hin. by eexists. }
  intros ids b1 Hle Hids. apply (pkeeps_from_pfor _ _). intros id b2 Hid Hle2.
  apply pkeeps_from_look. intros b3 Hle3 _. destruct (n_watcher (nd (b_reg b3))) as [w3|]; [|done].
  destruct (hasOnChange w3); [|done]. eapply (pkeeps_from_pthen _ _); [apply pkeeps_recompile|done].
  apply Hle3, Hle2, Hle. eapply au_watched; [exact Hb|exact Ew|by apply Hids].
Qed.

(** ** Warrants *)

Lemma pkeeps_put_warrant (m : M Maps unit) id kw wrap :
  (∀ s, m s = finish set_warrants wrap (hm_Put (warrants s) id kw) s) → warrant_from id kw →
  pkeeps authority specs_grow (λ _, True) (map_op m).
Proof.
  intros Hm Hk. apply pkeeps_maps. intros s [He Hwr Hn Hwf] Hw. rewrite Hm, finish_fst.
  split; [by split|]. split; [|done]. intros id' kw' [[-> ->]|Hx]%put_get; [done|by apply Hw].
Qed.
Lemma pkeeps_revoke id : pkeeps authority specs_grow (λ _, True) (revoke_prog id).
Proof.
  unfold revoke_prog. apply (pkeeps_pbnd _ _ (warrant_from id)); [|done..|].
  - apply pkeeps_maps. intros s Hr Hw. unfold revoke_read. simpl. split; [done|]. split; [done|]. intros kw.
    destruct (hm_Lookup (warrants s) id) as [w|e|x] eqn:E; [|done|done]. intros [= <-].
    apply Hw. by apply hm_Lookup_ok.
  - intros kw Hk. by eapply pkeeps_put_warrant, warrant_from_revoked.
Qed.
Lemma pkeeps_install w src : signed_warrant w → pkeeps authority specs_grow (λ _, True) (install_prog w src).
Proof.
  intros Hsw. unfold install_prog. apply (pkeeps_pbnd _ _ authority); [|done..|].
  { apply pkeeps_look. by intros b Hb b' [= <-]. }
  intros b Hb. apply (pkeeps_pbnd _ _ (λ _, checkWarrant w (host (rg (b_reg b))) = Ok tt)); [by intros s0 [] ->|done..|].
  intros _ Hck. assert (trusted w) as Hw by (split; [done|]; by rewrite <- (au_host _ Hb)).
  apply (pkeeps_locked _ _). unfold install_body.
  apply (pkeeps_seq _ _).
  { apply pkeeps_act. intros b1 Hb1. unfold on_reg, newer_revision, mbnd. simpl.
    destruct b1 as [st q]. simpl in *. destruct (byID _ !! _) as [old|]; [destruct (_ <=? _)|];
      (split; [done|]; split; [by intros pid|done]). }
  intros _. apply (pkeeps_seq _ _); [|intros _; apply (pkeeps_seq _ _); [|intros _; apply (pkeeps_seq _ _); [by apply pkeeps_reg_mod|intros _]]].
  - unfold install_policy_prog. apply (pkeeps_seq _ _); [by apply pkeeps_look|]. intros b1.
    destruct (policies _ !! _) as [q|]; [done|]. apply (pkeeps_seq _ _); [|intros _; by apply pkeeps_reg_mod].
    apply (pkeeps_pthen _ _ (λ _, True)); [|done]. apply pkeeps_installer. intros s Hs. left. by exists w.
  - unfold put_kernel_prog. apply (pkeeps_seq _ _); [apply pkeeps_tick|]. intros boot.
    apply (pkeeps_seq _ _); [apply pkeeps_tick|]. intros now.
    eapply pkeeps_put_warrant; [done|]. exists (kernelWarrant w now boot). split; [by left|]. left. by exists w, now, boot.
  - unfold activate_prog. apply (pkeeps_seq _ _); [by apply pkeeps_look|]. intros b1. destruct (active _); [done|].
    apply (pkeeps_pthen _ _ (λ _, True)).
    + apply pkeeps_other. intros s. unfold SetActive. by rewrite finish_fst.
    + intros [[]|e|x] _; [by apply pkeeps_reg_mod|done|done].
Qed.

(** ** The requests *)

Lemma pkeeps_ignoring {A} (p : prog bstate A) :
  pkeeps authority specs_grow (λ _, True) p → pkeeps authority specs_grow (λ _, True) (ignoring p).
Proof. intros Hp. by apply (pkeeps_pthen _ _ (λ _, True)). Qed.
Lemma pkeeps_unwarranted r fp reason : pkeeps authority specs_grow (λ _, True) (unwarranted_prog r fp reason).
Proof.
  unfold unwarranted_prog. apply (pkeeps_seq _ _); [apply pkeeps_tick|]. intros t. apply pkeeps_act. intros b Hb.
  assert (b_reg (fst (unwarranted r fp reason t b)) = b_reg b) as E.
  { unfold unwarranted. destruct (b_audit b) as [q|]; [|done]. by destruct (Append _ q) as [[]| |]. }
  unfold specs_grow. rewrite E. split; [|split; [by intros pid|done]]. destruct Hb as [Hk Hh Hs Hwk Hr Hw].
  unfold b_maps in *. by split; unfold b_maps; simpl; rewrite E.
Qed.
Lemma pkeeps_bind ord r : pkeeps authority specs_grow (λ _, True) (Bind_prog ord r).
Proof.
  unfold Bind_prog. apply (pkeeps_seq _ _); [apply pkeeps_tick|]. intros t. apply (pkeeps_seq _ _).
  { unfold match_prog. apply (pkeeps_seq _ _); [|done]. apply (pkeeps_rlocked _ _). apply (pkeeps_seq _ _); [by apply pkeeps_look|done]. }
  assert (∀ reason (A : Type) (x : res A), pkeeps authority specs_grow (λ _, True)
    (unwarranted_prog r (key_of (AuthInfo r)) reason ;;> PRet x)) as Hu.
  { intros reason A x. apply (pkeeps_seq _ _); [apply pkeeps_unwarranted|done]. }
  intros [[w|] reason]; [|apply Hu]. destruct (CgroupID r =? 0); [apply Hu|].
  apply (pkeeps_pthen _ _ (λ _, True)); [|intros [[]|e|x] _; [done|apply Hu|done]].
  apply pkeeps_other. intros s. unfold TagCgroup. by rewrite finish_fst.
Qed.
Lemma pkeeps_request k p : agent_req k p → pkeeps authority specs_grow (λ _, True) p.
Proof.
  intros [env|ord keep _| |ord d _|ord Ho|ep n].
  - apply pkeeps_ignoring. unfold Apply_prog. apply (pkeeps_pbnd _ _ authority); [|done..|].
    { apply pkeeps_look. by intros b Hb b' [= <-]. }
    intros b Hb. destruct (Verify _ _) as [w|e|x] eqn:E; [|done|done].
    apply (pkeeps_pthen _ _ (λ _, True)); [|done]. apply pkeeps_install. exists env. by rewrite <- (au_keys _ Hb).
  - apply (pkeeps_locked _ _). apply (pkeeps_seq _ _); [by apply pkeeps_look|]. intros b. apply (pkeeps_pfor _ _). intros x _.
    unfold resync_one_prog. destruct (_ || _); [done|]. apply (pkeeps_pthen _ _ (λ _, True)); [apply pkeeps_revoke|].
    intros [[]|e|y] _; [by apply pkeeps_reg_mod|done|done].
  - apply pkeeps_ignoring, (pkeeps_rlocked _ _). apply (pkeeps_seq _ _); [by apply pkeeps_look|done].
  - unfold serve_prog. destruct (parse _) as [req|e|x]; [|done|done].
    case_bool_decide; [apply pkeeps_ignoring, pkeeps_bind|]. case_bool_decide; [|done].
    destruct (CgroupID req =? 0); [done|]. apply pkeeps_ignoring, pkeeps_other.
    intros s. unfold UntagCgroup. by rewrite finish_ignoreMissing_fst.
  - by apply pkeeps_pass.
  - apply pkeeps_act. intros b [Hk Hh Hs Hwk Hr Hw]. split; [done|]; split; [by intros pid|done].
Qed.

Lemma reachable_authority c :
  nets_wf start_maps → watched_known (nd (b_reg b0)) → reachable b0 c → authority (cf_state c).
Proof.
  intros Hw Hk Hr. eapply (csteps_keep authority specs_grow); [apply pkeeps_request|by apply authority_start|exact Hr].
Qed.

(** ** What an enforced task may do *)

(** Hypotheses on the trusted protobuf decoder and on the policies the agent
    started with. *)
Variable Hdecode : ∀ bytes w, proto_Unmarshal bytes = Ok w → pb_typed w.
Variable Hspecs : ∀ pid s, n_specs (nd (b_reg b0)) !! pid = Some s → is_u32 pid.
Variable Hwatched : watched_known (nd (b_reg b0)).

Definition connect_from (pid : Z) (addr : list Z) (port : Z) : Prop :=
  (∃ k v, lp_entry (ruleNet start_maps) k = Some v ∧ lk_covers k (lookup_key pid addr) = true ∧
          (nv_Proto v = ProtoAny ∨ nv_Proto v = ProtoTCP) ∧ ports_admit v port = true) ∨
  ∃ s r n, granted pid s ∧ r ∈ s_NetRules s ∧ ParseCIDR (nr_CIDR r) = Ok n ∧ cidr_contains n addr ∧
           (nr_Port r = 0 ∨ port = nr_Port r) ∧ (nr_Proto r = ProtoAny ∨ nr_Proto r = ProtoTCP).

Lemma granted_u32 pid s r : granted pid s → r ∈ s_NetRules s → is_u32 pid.
Proof.
  intros [(w & [[env Hv] _] & <- & _)|Hs] Hr; [by apply (Verify_typed Hdecode _ _ _ Hv)|by eapply Hspecs].
Qed.
Lemma verdict_allow w denied : verdict_of w denied = VERDICT_ALLOW → denied = false.
Proof. unfold verdict_of. destruct denied; [|done]. by destruct (_ =? _). Qed.
Lemma allowed_exec m t now w f :
  rules_from m → judged m t now w → snd (bprm_verdict m t now f) = Some VERDICT_ALLOW → exec_from (PolicyID w) f.
Proof.
  intros [He _ _ _] Hj. rewrite (judged_exec _ _ _ w) by done. intros [= Ha%verdict_allow%negb_false_iff].
  apply He. by apply bool_decide_eq_true in Ha.
Qed.
Lemma allowed_write m t now w fmode chain :
  rules_from m → judged m t now w → Z.land fmode FMODE_WRITE ≠ 0 →
  snd (file_verdict m t now fmode ORIGIN_LSM chain) = None →
  ∃ i f, chain !! i = Some (Some f) ∧ write_from (PolicyID w) f.
Proof.
  intros [_ Hw _ _] Hj Hm. rewrite (judged_write _ _ _ w) by done.
  destruct (dentry_write_allowed _ _ _) eqn:E; [|done]. intros _.
  apply write_walk_iff in E as (i & v & _ & ((f & Hi & Hv) & _) & Ha). exists i, f. split; [done|by eapply Hw].
Qed.
Lemma allowed_connect m t now w a addr port :
  rules_from m → is_u32 (PolicyID w) → inet_dest a addr port → judged m t now w →
  snd (connect_verdict m t now a) = Some VERDICT_ALLOW →
  connect_from (PolicyID w) addr port.
Proof.
  intros [_ _ Hn Hwf] Hp Ha Hj. pose proof (inet_dest_length _ _ _ Ha) as Hl.
  rewrite (judged_connect _ _ _ w _ addr port) by done.
  intros [= E%verdict_allow%negb_false_iff].
  apply net_allowed_entry in E as (k & v & He & Hc & Hadm & Hpr); [|done].
  destruct (Hn k v He _ _ Hc Hadm) as [(k0 & v0 & He0 & Hc0 & Hp0 & Ha0)|(pid' & s & r & Hg & Hr & Hcov & Hrp & Hrt)].
  - left. exists k0, v0. by rewrite Hp0.
  - destruct (entry_covers_lookup _ _ _ _ (granted_u32 _ _ _ Hg Hr) Hp Hl Hcov) as (-> & n & Hn' & Hcon).
    right. exists s, r, n. rewrite Hrp. by repeat split.
Qed.

(** * Property *)

(** C2: authority comes from signatures.  Let the subscription, the PAM socket,
    the watcher and the audit stream interleave in any way from the state [b0] the
    agent started in, with any operation failing, and stop at any moment, also in
    the middle of an installation.  A live warrant a task is judged by was in the
    kernel at the start, or its every field comes from a warrant whose signature
    verified under the agent's keys and which names this host.  An execution the kernel then counts as
    allowed, in any mode, is of a file it admitted at the start, or of one that at
    some moment had a path that a verified policy of that very policy id (or the one
    remembered from before) lists, or of a login shell, if there is such a policy of
    that id and it does not decline them.  A write it lets pass is below a file that
    such a policy allows or, if there is one, below one of the built-in devices; an IPv4 or
    IPv6 connection it allows is to a network and port of such a policy's rules.  No
    race puts a rule under another policy's id. *)
Theorem authority_from_signatures c t now id tag kw :
  agent_inv b0 → reachable b0 c →
  lookup_warrant (b_maps (cf_state c)) t = Some (id, tag, kw) → validity kw now = 0 →
  warrant_from id kw ∧
  (∀ f, snd (bprm_verdict (b_maps (cf_state c)) t now f) = Some VERDICT_ALLOW → exec_from (PolicyID kw) f) ∧
  (∀ fmode chain, Z.land fmode FMODE_WRITE ≠ 0 →
     snd (file_verdict (b_maps (cf_state c)) t now fmode ORIGIN_LSM chain) = None →
     ∃ i f, chain !! i = Some (Some f) ∧ write_from (PolicyID kw) f) ∧
  (∀ a addr port, inet_dest a addr port →
     snd (connect_verdict (b_maps (cf_state c)) t now a) = Some VERDICT_ALLOW →
     connect_from (PolicyID kw) addr port).
Proof.
  intros Hi Hr Hl Hv. pose proof (proj1 (proj1 (reachable_node Hdecode _ _ Hi Hr))) as Hty.
  pose proof (typed_nets _ (proj1 (proj1 (ag_node _ Hi)))) as Hw0.
  pose proof (reachable_authority c Hw0 Hwatched Hr) as [_ _ _ _ Hrf Hwf].
  assert (judged (b_maps (cf_state c)) t now kw) as Hj by (by exists id, tag).
  apply lookup_warrant_wid in Hl. split; [by apply Hwf|]. split; [|split].
  - intros f. by apply allowed_exec.
  - intros fmode chain. by apply allowed_write.
  - intros a addr port Ha. apply allowed_connect; [done| |done|done]. exact (kt_policy _ (mt_warrant _ Hty _ _ Hl)).
Qed.
End authority.

(** * A race *)

#[local] Existing Instance demo_ssh.
#[local] Existing Instance demo_os.
#[local] Existing Instance demo_crypto.

Definition granted_race : conf bstate kind := raced "grant" 10 17.
Definition granted_warrant : KWarrant := mkKWarrant 16000001000 0 1 8 0 1 0 0 0.

Lemma demo_no_specs pid s : n_specs (nd (b_reg demo_start_state)) !! pid = Some s → is_u32 pid.
Proof. simpl. by rewrite lookup_empty. Qed.
Lemma demo_watched_known : watched_known (nd (b_reg demo_start_state)).
Proof. intros w pid. simpl. intros [= <-]. simpl. rewrite lookup_empty. by intros [? ?]. Qed.
Lemma authority_from_signatures_witness :
  exec_from demo_start_state 8 (ref 101) ∧ connect_from demo_start_state 8 addr_10_1_2_3 443.
Proof.
  destruct (authority_from_signatures demo_start_state demo_decodes demo_no_specs demo_watched_known
    granted_race session_task 500 2 TAG_CGROUP granted_warrant demo_agent_inv (raced_reachable "grant" 10 17))
    as (_ & He & _ & Hc); [vm_compute; reflexivity|vm_compute; reflexivity|].
  split; [apply He; vm_compute; reflexivity|].
  apply (Hc (SockInet [10; 1; 2; 3] 443)); [by constructor|vm_compute; reflexivity].
Defined.
