(* ===== verification/Handles.v ===== *)
(** Handles on pinned maps: [bpfmap.Open] and [Maps.Close]
    (agent/internal/bpfmap/bpfmap.go), [ringbuf.Open] and [Consumer.Close]
    (agent/internal/ringbuf/ringbuf.go).  cilium/ebpf is a class parameter, with
    its laws on what can be seen: the maps bpffs pins and the map handles and
    ring buffer readers this process holds. *)

From Stdlib Require Import ZArith Lia Ascii String.
From stdpp Require Import base tactics numbers list strings gmap.
From S2P Require Import Prelude GoStd GoNet EbpfMap Os BpfMap Concrete Ringbuf.

(** * cilium/ebpf *)

(** [Hnd] is an [*ebpf.Map], [Rdr] a [*ringbuf.Reader]. *)
Class PinnedMaps (K Hnd Rdr : Type) := {
  LoadPinnedMap : string → M K Hnd;
  CloseMap : Hnd → M K unit;
  PossibleCPU : M K nat;
  NewReader : Hnd → M K Rdr;
  CloseReader : Rdr → M K unit
}.

Record hview (Hnd Rdr Obj : Type) `{Countable Hnd} `{Countable Rdr} := mkHview {
  hv_pins : gmap string Obj;
  hv_maps : gmap Hnd Obj;
  hv_readers : gmap Rdr Obj
}.
Arguments mkHview {_ _ _ _ _ _ _}.
Arguments hv_pins {_ _ _ _ _ _ _}.
Arguments hv_maps {_ _ _ _ _ _ _}.
Arguments hv_readers {_ _ _ _ _ _ _}.

Class PinnedMapsLaws (K Hnd Rdr Obj : Type) `{PinnedMaps K Hnd Rdr}
    `{Countable Hnd} `{Countable Rdr} := {
  hsee : K → hview Hnd Rdr Obj;
  LoadPinnedMap_spec p k :
    match LoadPinnedMap p k with
    | (k', Ok h) => ∃ o, hv_pins (hsee k) !! p = Some o ∧ hv_maps (hsee k) !! h = None ∧
        hsee k' = mkHview (hv_pins (hsee k)) (<[h := o]> (hv_maps (hsee k))) (hv_readers (hsee k))
    | (k', Err _) => hsee k' = hsee k
    | (_, Panic _) => False
    end;
  CloseMap_spec h k :
    hsee (fst (CloseMap h k)) =
      mkHview (hv_pins (hsee k)) (base.delete h (hv_maps (hsee k))) (hv_readers (hsee k)) ∧
    ∀ p, snd (CloseMap h k) ≠ Panic p;
  PossibleCPU_spec k : hsee (fst (PossibleCPU k)) = hsee k ∧ ∀ p, snd (PossibleCPU k) ≠ Panic p;
  NewReader_spec h k :
    match NewReader h k with
    | (k', Ok r) => ∃ o, hv_maps (hsee k) !! h = Some o ∧ hv_readers (hsee k) !! r = None ∧
        hsee k' = mkHview (hv_pins (hsee k)) (hv_maps (hsee k)) (<[r := o]> (hv_readers (hsee k)))
    | (k', Err _) => hsee k' = hsee k
    | (_, Panic _) => False
    end;
  CloseReader_spec r k :
    hsee (fst (CloseReader r k)) =
      mkHview (hv_pins (hsee k)) (hv_maps (hsee k)) (base.delete r (hv_readers (hsee k))) ∧
    ∀ p, snd (CloseReader r k) ≠ Panic p
}.

(** * The map handles *)

Section handles.
Context {K Hnd Rdr : Type} `{PinnedMaps K Hnd Rdr} `{ErrnoText}.

(** The fields of [Maps]; a nil pointer is [None]. *)
Record MapHandles := mkMapHandles {
  h_activeFlag : option Hnd;
  h_cgroupWarrant : option Hnd;
  h_warrants : option Hnd;
  h_ruleExec : option Hnd;
  h_ruleWrite : option Hnd;
  h_ruleNet : option Hnd;
  h_ncpu : nat
}.
Definition no_handles : MapHandles := mkMapHandles None None None None None None 0.

(** [Open]'s table: where each handle goes, and the name of its pin. *)
Definition open_table : list ((MapHandles → Hnd → MapHandles) * string) :=
  [(λ '(mkMapHandles _ b c d e f n) h, mkMapHandles (Some h) b c d e f n, "active_flag");
   (λ '(mkMapHandles a _ c d e f n) h, mkMapHandles a (Some h) c d e f n, "cgroup_warrant");
   (λ '(mkMapHandles a b _ d e f n) h, mkMapHandles a b (Some h) d e f n, "warrants");
   (λ '(mkMapHandles a b c _ e f n) h, mkMapHandles a b c (Some h) e f n, "rule_exec");
   (λ '(mkMapHandles a b c d _ f n) h, mkMapHandles a b c d (Some h) f n, "rule_write");
   (λ '(mkMapHandles a b c d e _ n) h, mkMapHandles a b c d e (Some h) n, "rule_net")].

(** One [Close] whose error is collected. *)
Definition collect (m : M K unit) : M K (list error) :=
  do r := mtry m in mok (match r with inl _ => [] | inr e => [e] end).

Definition handles (m : MapHandles) : list (option Hnd) :=
  [h_activeFlag m; h_cgroupWarrant m; h_warrants m; h_ruleExec m; h_ruleWrite m; h_ruleNet m].
Fixpoint close_handles (hs : list (option Hnd)) (errs : list error) : M K (list error) :=
  match hs with
  | [] => mok errs
  | None :: hs' => close_handles hs' errs
  | Some h :: hs' => do es := collect (CloseMap h) in close_handles hs' (errs ++ es)
  end.
(** [Maps.Close] leaves the pins. *)
Definition CloseMaps (m : MapHandles) : M K (option error) :=
  do errs := close_handles (handles m) [] in mok (errors_Join errs).

Fixpoint open_each (pinDir : string) (table : list ((MapHandles → Hnd → MapHandles) * string))
    (m : MapHandles) : M K MapHandles :=
  match table with
  | [] => mok m
  | (dst, name) :: table' =>
      do r := mtry (LoadPinnedMap (filepath_Join pinDir name)) in
      match r with
      | inl mp => open_each pinDir table' (dst m mp)
      | inr e => CloseMaps m ;;; merr (EWrap ("pin 된 맵 " +:+ name +:+ ": ") e)
      end
  end.
Definition OpenMaps (pinDir : string) : M K MapHandles :=
  do m := open_each pinDir open_table no_handles in
  do r := mtry PossibleCPU in
  match r with
  | inl n =>
      let '(mkMapHandles a b c d e f _) := m in mok (mkMapHandles a b c d e f n)
  | inr e => CloseMaps m ;;; merr e
  end.

(** * The ring buffer *)

Record RbHandles := mkRbHandles { rb_rd : Rdr; rb_m : Hnd; rb_once : bool }.

Definition OpenRingbuf (pinDir : string) : M K (RbHandles * Consumer) :=
  do m := wrapping "pin 된 맵 events: " (LoadPinnedMap (filepath_Join pinDir "events")) in
  do r := mtry (NewReader m) in
  match r with
  | inl rd => mok (mkRbHandles rd m false, newConsumer false)
  | inr e => mtry (CloseMap m) ;;; merr (EWrap "ringbuf reader: " e)
  end.

(** [OnGap]: called before [Run]. *)
Definition OnGap (c : Consumer) : Consumer :=
  mkConsumer (dropped c) (next c) (lastTs c) true (reported c).

(** [Consumer.Close]: the handles after it, and the error of the first call. *)
Definition CloseRingbuf (c : RbHandles) : M K (RbHandles * option error) :=
  if rb_once c then mok (c, None)
  else
    do e1 := collect (CloseReader (rb_rd c)) in
    do e2 := collect (CloseMap (rb_m c)) in
    mok (mkRbHandles (rb_rd c) (rb_m c) true, errors_Join (e1 ++ e2)).
End handles.
Arguments MapHandles : clear implicits.
Arguments RbHandles : clear implicits.

(** * Lemmas *)

Section lemmas.
Context {K Hnd Rdr Obj : Type} `{PinnedMaps K Hnd Rdr} `{Countable Hnd} `{Countable Rdr}
  `{!PinnedMapsLaws K Hnd Rdr Obj} `{ErrnoText}.
Implicit Types (k : K) (h : Hnd).

Lemma collect_map h k :
  ∃ k' es, collect (CloseMap h) k = (k', Ok es) ∧
    hsee k' = mkHview (hv_pins (hsee k)) (base.delete h (hv_maps (hsee k))) (hv_readers (hsee k)).
Proof.
  unfold collect, mbnd, mtry. destruct (CloseMap_spec h k) as [Hv Hp].
  destruct (CloseMap h k) as [k' [[]|e|p]]; simpl in *; [by eauto|by eauto|by destruct (Hp p)].
Qed.
Lemma collect_reader r k :
  ∃ k' es, collect (CloseReader r) k = (k', Ok es) ∧
    hsee k' = mkHview (hv_pins (hsee k)) (hv_maps (hsee k)) (base.delete r (hv_readers (hsee k))).
Proof.
  unfold collect, mbnd, mtry. destruct (CloseReader_spec r k) as [Hv Hp].
  destruct (CloseReader r k) as [k' [[]|e|p]]; simpl in *; [by eauto|by eauto|by destruct (Hp p)].
Qed.

(** Closing never fails half way: every handle of the list is closed. *)
Lemma close_handles_spec hs errs k :
  ∃ k' es, close_handles hs errs k = (k', Ok es) ∧
    hv_pins (hsee k') = hv_pins (hsee k) ∧ hv_readers (hsee k') = hv_readers (hsee k) ∧
    ∀ h, hv_maps (hsee k') !! h = if decide (Some h ∈ hs) then None else hv_maps (hsee k) !! h.
Proof.
  revert errs k. induction hs as [|[h|] hs IH]; intros errs k; simpl.
  - exists k, errs. done.
  - destruct (collect_map h k) as (k1 & es & E & Hv). rewrite (mbnd_run _ _ _ _ _ E).
    destruct (IH (errs ++ es) k1) as (k' & es' & Er & Hp & Hr & Hm).
    exists k', es'. rewrite Hp, Hr, Hv. split; [done|]. split; [done|]. split; [done|].
    intros x. rewrite Hm, Hv. simpl. destruct (decide (x = h)) as [->|Hne].
    + rewrite lookup_delete_eq. by repeat case_decide; set_solver.
    + rewrite lookup_delete_ne by done. repeat case_decide; set_solver.
  - destruct (IH errs k) as (k' & es' & Er & Hp & Hr & Hm). exists k', es'.
    split; [done|]. split; [done|]. split; [done|]. intros x. rewrite Hm.
    repeat case_decide; set_solver.
Qed.

(** Since [k0] the handles [hs] were opened, each on the map pinned under its
    name, and nothing else changed. *)
Record opened (pinDir : string) (hs : list (string * Hnd)) k0 k : Prop := mkOpened {
  op_pins : hv_pins (hsee k) = hv_pins (hsee k0);
  op_readers : hv_readers (hsee k) = hv_readers (hsee k0);
  op_others h : h ∉ hs.*2 → hv_maps (hsee k) !! h = hv_maps (hsee k0) !! h;
  op_each n h : (n, h) ∈ hs → hv_maps (hsee k0) !! h = None ∧
    ∃ o, hv_maps (hsee k) !! h = Some o ∧ hv_pins (hsee k0) !! filepath_Join pinDir n = Some o
}.

Lemma opened_nil dir k : opened dir [] k k.
Proof. split; [done|done|done|]. intros n h Hx. by apply elem_of_nil in Hx. Qed.

Lemma opened_see dir hs k0 k k' : hsee k' = hsee k → opened dir hs k0 k → opened dir hs k0 k'.
Proof. intros E [Hp Hr Ho He]. split; rewrite E; auto. Qed.

Lemma opened_fresh dir hs k0 k h :
  opened dir hs k0 k → hv_maps (hsee k) !! h = None → h ∉ hs.*2 ∧ hv_maps (hsee k0) !! h = None.
Proof.
  intros Hop Hh. assert (h ∉ hs.*2) as Hn.
  { intros ([n h'] & -> & Hx)%list_elem_of_fmap.
    destruct (op_each _ _ _ _ Hop _ _ Hx) as (_ & o & Ho & _). simpl in Hh. congruence. }
  split; [done|]. by rewrite <- (op_others _ _ _ _ Hop).
Qed.

Lemma opened_snoc dir hs k0 k k' n h o :
  opened dir hs k0 k → hv_pins (hsee k) !! filepath_Join dir n = Some o →
  hv_maps (hsee k) !! h = None →
  hsee k' = mkHview (hv_pins (hsee k)) (<[h := o]> (hv_maps (hsee k))) (hv_readers (hsee k)) →
  opened dir (hs ++ [(n, h)]) k0 k' ∧ h ∉ hs.*2.
Proof.
  intros Hop Hp Hh Hv. destruct (opened_fresh _ _ _ _ _ Hop Hh) as [Hn Hh0].
  split; [|done]. destruct Hop as [Hpins Hr Ho He]. split; rewrite Hv; simpl.
  - done.
  - done.
  - intros x Hx. rewrite fmap_app in Hx. simpl in Hx.
    rewrite lookup_insert_ne by set_solver. apply Ho. set_solver.
  - intros n' h' [Hx|Hx]%elem_of_snoc.
    + destruct (He _ _ Hx) as (Hf & o' & Ho' & Hpo). split; [done|]. exists o'.
      rewrite lookup_insert_ne; [done|]. intros ->. congruence.
    + injection Hx as -> ->. split; [done|]. exists o. rewrite lookup_insert_eq. split; [done|].
      by rewrite <- Hpins.
Qed.

(** Closing what was opened restores what could be seen. *)
Lemma opened_closed dir hs k0 k (os : list (option Hnd)) errs :
  opened dir hs k0 k → (∀ h, Some h ∈ os ↔ h ∈ hs.*2) →
  ∃ k' es, close_handles os errs k = (k', Ok es) ∧ hsee k' = hsee k0.
Proof.
  intros [Hp Hr Ho He] Hos. destruct (close_handles_spec os errs k) as (k' & es & E & Hp' & Hr' & Hm).
  exists k', es. split; [done|].
  assert (hv_maps (hsee k') = hv_maps (hsee k0)) as Hmaps.
  { apply map_eq. intros h. rewrite Hm. case_decide as Hd; [|apply Ho; by rewrite <- Hos].
    apply Hos in Hd. apply list_elem_of_fmap in Hd as ([n h'] & -> & Hx).
    simpl. by destruct (He _ _ Hx) as [-> _]. }
  destruct (hsee k'), (hsee k0). simpl in *. congruence.
Qed.

(** The record after the first handles of the table were stored. *)
Definition fill (hs : list Hnd) : MapHandles Hnd :=
  foldl (λ m x, x.1 m x.2) no_handles (zip (open_table (Hnd := Hnd)).*1 hs).
Definition map_names : list string :=
  ["active_flag"; "cgroup_warrant"; "warrants"; "rule_exec"; "rule_write"; "rule_net"].

Lemma fill_handles hs :
  (length hs ≤ 6)%nat → handles (fill hs) = (Some <$> hs) ++ replicate (6 - length hs) None.
Proof. intros Hl. do 7 (destruct hs as [|? hs]; [reflexivity|]). simpl in Hl. lia. Qed.
Lemma fill_snoc hs h dst n :
  open_table (Hnd := Hnd) !! length hs = Some (dst, n) → fill (hs ++ [h]) = dst (fill hs) h.
Proof. do 6 (destruct hs as [|? hs]; [by intros [= <- _]|]). discriminate. Qed.
Lemma fill_elem hs h : (length hs ≤ 6)%nat → Some h ∈ handles (fill hs) ↔ h ∈ hs.
Proof.
  intros Hl. rewrite fill_handles, elem_of_app, elem_of_replicate, list_elem_of_fmap by done.
  split; [|by eauto]. intros [(x & [= ->] & Hx)|[[=] _]]. done.
Qed.

Lemma CloseMaps_opened dir hs k0 k :
  length hs = length (take (length hs) map_names) →
  opened dir (zip map_names hs) k0 k →
  ∃ k' es, CloseMaps (fill hs) k = (k', Ok es) ∧ hsee k' = hsee k0.
Proof.
  intros Hl Hop. rewrite length_take in Hl. simpl in Hl.
  destruct (opened_closed _ _ _ _ (handles (fill hs)) [] Hop) as (k' & es & E & Hv).
  { intros h. rewrite fill_elem by lia. by rewrite snd_zip by (simpl; lia). }
  exists k', (errors_Join es). unfold CloseMaps. by rewrite (mbnd_run _ _ _ _ _ E).
Qed.

Lemma zip_snoc_names hs (h : Hnd) dst n :
  open_table (Hnd := Hnd) !! length hs = Some (dst, n) → zip map_names (hs ++ [h]) = zip map_names hs ++ [(n, h)].
Proof. do 6 (destruct hs as [|? hs]; [by intros [= _ <-]|]). discriminate. Qed.

Lemma open_each_spec dir suf hs k0 k :
  drop (length hs) (open_table (Hnd := Hnd)) = suf → (length hs ≤ 6)%nat → opened dir (zip map_names hs) k0 k →
  match open_each dir suf (fill hs) k with
  | (k', Ok m) => ∃ hs', length hs' = 6%nat ∧ m = fill hs' ∧ opened dir (zip map_names hs') k0 k'
  | (k', Err _) => hsee k' = hsee k0
  | (_, Panic _) => False
  end.
Proof.
  revert hs k. induction suf as [|[dst name] suf IH]; intros hs k Hd Hl Hop; simpl.
  { exists hs. split; [|done]. apply (f_equal length) in Hd. rewrite length_drop in Hd. simpl in Hd. lia. }
  assert (open_table (Hnd := Hnd) !! length hs = Some (dst, name)) as Hx.
  { rewrite <- (Nat.add_0_r (length hs)), <- lookup_drop. by rewrite Hd. }
  unfold mbnd at 1, mtry at 1. pose proof (LoadPinnedMap_spec (filepath_Join dir name) k) as Hs.
  destruct (LoadPinnedMap _ k) as [k1 [h|e|p]]; [| |done].
  - destruct Hs as (o & Hp & Hh & Hv). rewrite <- (fill_snoc _ _ _ _ Hx). apply IH.
    + rewrite length_app, <- drop_drop, Hd. done.
    + rewrite length_app. apply lookup_lt_Some in Hx. simpl in *. lia.
    + rewrite (zip_snoc_names _ _ _ _ Hx). by eapply opened_snoc.
  - destruct (CloseMaps_opened dir hs k0 k1) as (k' & es & E & Hv'); [|by eapply opened_see|].
    + rewrite length_take. simpl. lia.
    + by rewrite (mbnd_run _ _ _ _ _ E).
Qed.

(** Opening either gives one handle per pinned map, each in the field of its
    name, or leaves nothing open; closing the result restores what was seen. *)
Lemma OpenMaps_spec dir k :
  match OpenMaps dir k with
  | (k', Ok m) =>
      (∃ hs, handles m = Some <$> hs ∧ length hs = 6%nat ∧ opened dir (zip map_names hs) k k') ∧
      (∃ k1 k2, PossibleCPU k1 = (k2, Ok (h_ncpu m))) ∧
      ∃ k'' es, CloseMaps m k' = (k'', Ok es) ∧ hsee k'' = hsee k
  | (k', Err _) => hsee k' = hsee k
  | (_, Panic _) => False
  end.
Proof.
  unfold OpenMaps, mbnd at 1.
  pose proof (open_each_spec dir open_table [] k k eq_refl ltac:(simpl; lia) (opened_nil dir k)) as Ho.
  change (fill []) with (@no_handles Hnd) in Ho.
  destruct (open_each dir open_table no_handles k) as [k1 [m|e|p]]; [|done|done].
  destruct Ho as (hs & Hl & -> & Hop).
  unfold mbnd at 1, mtry. destruct (PossibleCPU_spec k1) as [Hv Hp].
  destruct (PossibleCPU k1) as [k2 [n|e|p]] eqn:Ecpu; simpl in Hv; [| |by destruct (Hp p)].
  - apply (opened_see _ _ _ _ k2) in Hop; [|done].
    destruct (CloseMaps_opened dir hs k k2) as (k3 & es & E & Hv3); [by rewrite Hl|done|].
    pose proof (fill_handles hs ltac:(lia)) as Hf. rewrite Hl, app_nil_r in Hf.
    destruct (fill hs) as [a b c d e f n0] eqn:Em. split; [|split].
    + exists hs. done.
    + by exists k1, k2.
    + by exists k3, es.
  - apply (opened_see _ _ _ _ k2) in Hop; [|done].
    destruct (CloseMaps_opened dir hs k k2) as (k3 & es & E & Hv3); [by rewrite Hl|done|].
    by rewrite (mbnd_run _ _ _ _ _ E).
Qed.

(** The map handles beyond those of [k0] are the ones in the record. *)
Definition only_maps k0 (m : MapHandles Hnd) k : Prop :=
  ∀ h, if decide (Some h ∈ handles m) then hv_maps (hsee k0) !! h = None
       else hv_maps (hsee k) !! h = hv_maps (hsee k0) !! h.
Lemma opened_only_maps dir k0 m k hs :
  handles m = Some <$> hs → length hs = 6%nat → opened dir (zip map_names hs) k0 k → only_maps k0 m k.
Proof.
  intros Hh Hl [_ _ Ho He] h.
  assert ((zip map_names hs).*2 = hs) as Hz by (apply snd_zip; simpl; lia).
  case_decide as Hd; rewrite Hh in Hd.
  - apply list_elem_of_fmap in Hd as (h' & [= <-] & Hx). rewrite <- Hz in Hx.
    apply list_elem_of_fmap in Hx as ([n h'] & -> & Hx). by apply (He n h').
  - apply Ho. rewrite Hz. intros Hx. apply Hd. by apply list_elem_of_fmap_2.
Qed.
Lemma CloseMaps_restores k0 m k :
  only_maps k0 m k →
  ∃ k' e, CloseMaps m k = (k', Ok e) ∧ hv_maps (hsee k') = hv_maps (hsee k0) ∧
    hv_readers (hsee k') = hv_readers (hsee k).
Proof.
  intros Hm. unfold CloseMaps. destruct (close_handles_spec (handles m) [] k) as (k' & es & E & _ & Hr & Hc).
  rewrite (mbnd_run _ _ _ _ _ E). eexists k', _. split; [done|]. split; [|done].
  apply map_eq. intros h. specialize (Hm h). rewrite Hc. by case_decide.
Qed.
Lemma CloseRingbuf_first c k :
  rb_once c = false →
  ∃ k' c' e, CloseRingbuf c k = (k', Ok (c', e)) ∧
    hv_maps (hsee k') = base.delete (rb_m c) (hv_maps (hsee k)) ∧
    hv_readers (hsee k') = base.delete (rb_rd c) (hv_readers (hsee k)).
Proof.
  intros Ho. unfold CloseRingbuf. rewrite Ho. destruct (collect_reader (rb_rd c) k) as (k3 & e1 & E1 & Hv3).
  rewrite (mbnd_run _ _ _ _ _ E1). destruct (collect_map (rb_m c) k3) as (k4 & e2 & E2 & Hv4).
  rewrite (mbnd_run _ _ _ _ _ E2). eexists k4, _, _. split; [done|]. by rewrite Hv4, Hv3.
Qed.

(** The ring buffer: the reader reads the map pinned as [events]; a second
    [Close] does nothing. *)
Lemma OpenRingbuf_spec dir k :
  match OpenRingbuf dir k with
  | (k', Ok (c, s)) => s = newConsumer false ∧ rb_once c = false ∧
      (∃ o, hv_pins (hsee k) !! filepath_Join dir "events" = Some o ∧
            hv_readers (hsee k') = <[rb_rd c := o]> (hv_readers (hsee k)) ∧
            hv_readers (hsee k) !! rb_rd c = None ∧
            hv_maps (hsee k') = <[rb_m c := o]> (hv_maps (hsee k)) ∧
            hv_maps (hsee k) !! rb_m c = None) ∧
      ∃ k'' c' e, CloseRingbuf c k' = (k'', Ok (c', e)) ∧ hsee k'' = hsee k ∧
        CloseRingbuf c' k'' = (k'', Ok (c', None))
  | (k', Err _) => hsee k' = hsee k
  | (_, Panic _) => False
  end.
Proof.
  unfold OpenRingbuf, mbnd at 1, wrapping.
  pose proof (LoadPinnedMap_spec (filepath_Join dir "events") k) as Hs.
  destruct (LoadPinnedMap _ k) as [k1 [h|e|p]]; [|done|done].
  destruct Hs as (o & Hp & Hh & Hv).
  unfold mbnd at 1, mtry at 1. pose proof (NewReader_spec h k1) as Hr.
  destruct (NewReader h k1) as [k2 [r|e|p]]; [| |done].
  - destruct Hr as (o' & Ho' & Hnr & Hv2). split; [done|]. split; [done|].
    rewrite Hv in Ho'. simpl in Ho'. rewrite lookup_insert_eq in Ho'. injection Ho' as <-.
    rewrite Hv in Hnr, Hv2. simpl in Hnr, Hv2. split.
    { exists o. by rewrite Hv2. }
    unfold CloseRingbuf. simpl. destruct (collect_reader r k2) as (k3 & e1 & E1 & Hv3).
    rewrite (mbnd_run _ _ _ _ _ E1). destruct (collect_map h k3) as (k4 & e2 & E2 & Hv4).
    rewrite (mbnd_run _ _ _ _ _ E2). eexists k4, _, _. split; [done|]. split; [|done].
    rewrite Hv4, Hv3, Hv2. simpl. rewrite !delete_insert_id by done. by destruct (hsee k).
  - unfold mbnd, mtry. destruct (CloseMap_spec h k2) as [Hv3 Hp3].
    destruct (CloseMap h k2) as [k3 [[]|e3|p]]; simpl in *; [| |by destruct (Hp3 p)].
    all: rewrite Hv3, Hr, Hv; simpl; rewrite delete_insert_id by done; by destruct (hsee k).
Qed.
End lemmas.

(** * A concrete bpffs *)

Record mfs := mkMfs {
  mf_pins : gmap string nat;
  mf_maps : gmap nat nat;
  mf_readers : gmap nat nat;
  mf_cpus : res nat
}.
#[export] Instance mfs_maps : PinnedMaps mfs nat nat := {
  LoadPinnedMap p k :=
    match mf_pins k !! p with
    | Some o => let h := fresh (dom (mf_maps k)) in
                (mkMfs (mf_pins k) (<[h := o]> (mf_maps k)) (mf_readers k) (mf_cpus k), Ok h)
    | None => (k, Err (EWrap "open: " (EErrno ENOENT)))
    end;
  CloseMap h k :=
    (mkMfs (mf_pins k) (base.delete h (mf_maps k)) (mf_readers k) (mf_cpus k), Ok tt);
  PossibleCPU k := (k, match mf_cpus k with Panic _ => Err (EMsg "cpu") | r => r end);
  NewReader h k :=
    match mf_maps k !! h with
    | Some o => let r := fresh (dom (mf_readers k)) in
                (mkMfs (mf_pins k) (mf_maps k) (<[r := o]> (mf_readers k)) (mf_cpus k), Ok r)
    | None => (k, Err (EErrno 9))
    end;
  CloseReader r k :=
    (mkMfs (mf_pins k) (mf_maps k) (base.delete r (mf_readers k)) (mf_cpus k), Ok tt)
}.
#[export] Instance mfs_laws : PinnedMapsLaws mfs nat nat nat.
Proof.
  refine {| hsee k := mkHview (mf_pins k) (mf_maps k) (mf_readers k) |}.
  - intros p k. simpl. destruct (mf_pins k !! p) as [o|] eqn:E; [|done].
    exists o. split; [done|]. split; [|done]. apply not_elem_of_dom, is_fresh.
  - done.
  - intros k. simpl. split; [done|]. by destruct (mf_cpus k).
  - intros h k. simpl. destruct (mf_maps k !! h) as [o|] eqn:E; [|done].
    exists o. split; [done|]. split; [|done]. apply not_elem_of_dom, is_fresh.
  - done.
Defined.

Definition demo_pins : gmap string nat :=
  list_to_map (zip ((λ n, "/sys/fs/bpf/warrant/" +:+ n) <$> map_names ++ ["events"]) (seq 1 7)).
Definition demo_mfs (pins : gmap string nat) : mfs := mkMfs pins {[ 0%nat := 99%nat ]} ∅ (Ok 2%nat).

(** * Properties *)

(** [bpfmap.Open] and [ringbuf.Open] give all the handles or none.  On success
    each field of [Maps] holds a new handle on the map pinned under its own name
    and the reader reads the map pinned as [events]; on any failure, in the middle
    of the list too, no handle stays open.  [Close] gives up exactly what was
    opened, never a pin, and a second [Close] of the consumer does nothing. *)
Theorem open_all_or_nothing {K Hnd Rdr Obj} `{PinnedMaps K Hnd Rdr} `{Countable Hnd} `{Countable Rdr}
    `{!PinnedMapsLaws K Hnd Rdr Obj} `{ErrnoText} pinDir (k : K) :
  match OpenMaps pinDir k with
  | (k', Ok m) =>
      Forall2 (λ name f, ∃ h o, f = Some h ∧ hv_maps (hsee k) !! h = None ∧
                 hv_pins (hsee k) !! filepath_Join pinDir name = Some o ∧
                 hv_maps (hsee k') !! h = Some o) map_names (handles m) ∧
      hsee (fst (CloseMaps m k')) = hsee k
  | (k', Err _) => hsee k' = hsee k
  | (_, Panic _) => False
  end ∧
  match OpenRingbuf pinDir k with
  | (k', Ok (c, s)) => s = newConsumer false ∧
      (∃ o, hv_pins (hsee k) !! filepath_Join pinDir "events" = Some o ∧
            hv_readers (hsee k') = <[rb_rd c := o]> (hv_readers (hsee k))) ∧
      ∃ k'' c' e, CloseRingbuf c k' = (k'', Ok (c', e)) ∧ hsee k'' = hsee k ∧
                  CloseRingbuf c' k'' = (k'', Ok (c', None))
  | (k', Err _) => hsee k' = hsee k
  | (_, Panic _) => False
  end.
Proof.
  split.
  - pose proof (OpenMaps_spec pinDir k) as Hs.
    destruct (OpenMaps pinDir k) as [k' [m|e|p]]; [|done|done].
    destruct Hs as ((hs & Hh & Hl & Hop) & _ & k'' & es & E & Hv). rewrite E. split; [|done].
    rewrite Hh. apply Forall2_fmap_r, Forall2_same_length_lookup_2; [by rewrite Hl|].
    intros i n h Hn Hx. destruct (op_each _ _ _ _ Hop n h) as (Hnew & o & Ho & Hp).
    { apply list_elem_of_lookup. exists i. rewrite lookup_zip_with, Hn. simpl. by rewrite Hx. }
    by exists h, o.
  - pose proof (OpenRingbuf_spec pinDir k) as Hs.
    destruct (OpenRingbuf pinDir k) as [k' [[c s]|e|p]]; [|done|done].
    destruct Hs as (-> & _ & (o & Ho & Hr & _ & _) & Hc). split; [done|]. split; [by exists o|done].
Qed.
(** The fourth map is missing: the three handles opened before it are closed. *)
Lemma open_all_or_nothing_witness :
  let k := demo_mfs (base.delete "/sys/fs/bpf/warrant/rule_exec" demo_pins) in
  (∃ e, snd (OpenMaps (Hnd := nat) (Rdr := nat) "/sys/fs/bpf/warrant" k) = Err e) ∧
  hsee (fst (OpenMaps (Hnd := nat) (Rdr := nat) "/sys/fs/bpf/warrant" k)) = hsee k ∧
  ∃ m, snd (OpenMaps (Hnd := nat) (Rdr := nat) "/sys/fs/bpf/warrant" (demo_mfs demo_pins)) = Ok m.
Proof.
  intros k. assert (∃ e, snd (OpenMaps (Hnd := nat) (Rdr := nat) "/sys/fs/bpf/warrant" k) = Err e) as [e He]
    by (eexists; vm_compute; reflexivity).
  split; [by exists e|]. split; [|eexists; vm_compute; reflexivity].
  pose proof (proj1 (open_all_or_nothing (Hnd := nat) (Rdr := nat) "/sys/fs/bpf/warrant" k)) as Hp.
  destruct (OpenMaps (Hnd := nat) (Rdr := nat) "/sys/fs/bpf/warrant" k) as [k' r]. simpl in He |- *. subst r. exact Hp.
Defined.
