(* ===== verification/Services.v ===== *)
(** What the daemon talks to besides the kernel: the gRPC connection
    (agent/internal/upstream/upstream.go), systemd (agent/cmd/warrantd/notify.go)
    and the store (agent/internal/store/store.go), of which only stubs exist.
    gRPC and the notify socket are class parameters. *)

From Stdlib Require Import ZArith Lia Ascii String.
From stdpp Require Import base tactics numbers list strings gmap.
From S2P Require Import Prelude GoStd Pb Upstream.

(** * Upstream *)

(** [grpc.NewClient] and [ClientConn.Close]. *)
Class Grpc (K Conn : Type) := {
  grpc_NewClient : string → M K Conn;
  grpc_Close : Conn → M K unit
}.

(** [keepaliveParams], in nanoseconds. *)
Record ClientParameters := mkClientParameters {
  ka_Time : Z; ka_Timeout : Z; ka_PermitWithoutStream : bool
}.
Definition keepaliveParams : ClientParameters := mkClientParameters 30000000000 10000000000 true.

Section upstream.
Context {K Conn : Type} `{Grpc K Conn}.

(** [dial]: the connection and the client's bounds. *)
Definition dial (endpoint : string) : M K (Conn * Client) :=
  do conn := wrapping ("upstream: dial " +:+ endpoint +:+ ": ") (grpc_NewClient endpoint) in
  mok (conn, dialed).
Definition DialUpstream (endpoint certPath keyPath caPath : string) : M K (Conn * Client) :=
  do _c := mres (Dial certPath keyPath caPath) in dial endpoint.
Definition CloseUpstream (c : Conn * Client) : M K unit := grpc_Close (fst c).
End upstream.

Definition unimplemented : string := "미구현".
Definition Heartbeat {S} : M S unit := mres (Panic unimplemented).
Definition RequestExtension {S} (warrantID : Z) (detectedWorkload : string) (ns : Z) : M S unit :=
  mres (Panic unimplemented).
Definition LookupActiveWarrant {S} (loginAccount fingerprint : string) : M S (list string) :=
  mres (Panic unimplemented).

(** * The store *)

Inductive Store := mkStore.
Definition store_Open {S} (path : string) : M S Store := mres (Panic unimplemented).
Definition store_SeqEpoch {S} (s : Store) : M S Z := mres (Panic unimplemented).
Definition store_NextNodeSeq {S} (s : Store) : M S Z := mres (Panic unimplemented).
Definition store_PutWarrant {S} (s : Store) (warrantID revision : Z) (envelope : string) : M S unit :=
  mres (Panic unimplemented).
Definition store_Warrants {S} (s : Store) : M S (gmap Z string) := mres (Panic unimplemented).
Definition store_DeleteWarrantsNotIn {S} (s : Store) (active : gset Z) : M S unit :=
  mres (Panic unimplemented).
Definition store_AppendAudit {S} (s : Store) (nodeSeq : Z) (event : string) : M S unit :=
  mres (Panic unimplemented).
Definition store_AckThrough {S} (s : Store) (seqEpoch nodeSeq : Z) : M S unit :=
  mres (Panic unimplemented).

(** * systemd *)

(** The environment and datagram sockets as a client. *)
Class Notify (K Nc : Type) := {
  os_Getenv : string → K → string;
  net_DialUnix : string → M K Nc;
  unix_Write : Nc → string → M K unit;
  unix_Close : Nc → M K unit
}.

(** What can be seen: the environment, the open connections with their addresses,
    and the messages delivered, oldest first. *)
Record nview (Nc : Type) `{Countable Nc} := mkNview {
  nv_env : string → string;
  nv_conns : gmap Nc string;
  nv_sent : list (string * string)
}.
Arguments mkNview {_ _ _}.
Arguments nv_env {_ _ _}.
Arguments nv_conns {_ _ _}.
Arguments nv_sent {_ _ _}.
Class NotifyLaws (K Nc : Type) `{Notify K Nc} `{Countable Nc} := {
  nsee : K → nview Nc;
  os_Getenv_spec n k : os_Getenv n k = nv_env (nsee k) n;
  net_DialUnix_spec a k :
    match net_DialUnix a k with
    | (k', Ok c) => nv_conns (nsee k) !! c = None ∧
        nsee k' = mkNview (nv_env (nsee k)) (<[c := a]> (nv_conns (nsee k))) (nv_sent (nsee k))
    | (k', Err _) => nsee k' = nsee k
    | (_, Panic _) => False
    end;
  unix_Write_spec c s k a :
    nv_conns (nsee k) !! c = Some a →
    match unix_Write c s k with
    | (k', Ok _) => nsee k' = mkNview (nv_env (nsee k)) (nv_conns (nsee k)) (nv_sent (nsee k) ++ [(a, s)])
    | (k', Err _) => nsee k' = nsee k
    | (_, Panic _) => False
    end;
  unix_Close_spec c k :
    nsee (fst (unix_Close c k)) = mkNview (nv_env (nsee k)) (base.delete c (nv_conns (nsee k))) (nv_sent (nsee k))
}.

(** A leading [@] stands for the abstract name space. *)
Definition notify_addr (addr : string) : string :=
  match addr with
  | String c rest => if Ascii.eqb c "@" then String "000" rest else addr
  | EmptyString => addr
  end.
Definition sdNotify {K Nc} `{Notify K Nc} (state : string) : M K unit :=
  do k := mget in
  let addr := os_Getenv "NOTIFY_SOCKET" k in
  if bool_decide (addr = "") then mok tt
  else
    do conn := net_DialUnix (notify_addr addr) in
    deferring (unix_Close conn) (unix_Write conn state).

(** systemd gets the state once or, with an error, not at all; without its socket
    nothing happens; and no connection stays open. *)
Lemma sdNotify_spec {K Nc} `{Notify K Nc} `{Countable Nc} `{!NotifyLaws K Nc} state (k k' : K) r :
  sdNotify state k = (k', r) →
  nv_conns (nsee k') = nv_conns (nsee k) ∧ (∀ p, r ≠ Panic p) ∧
  let addr := os_Getenv "NOTIFY_SOCKET" k in
  nv_sent (nsee k') = nv_sent (nsee k) ++
    match r with
    | Ok _ => if bool_decide (addr = "") then [] else [(notify_addr addr, state)]
    | _ => []
    end.
Proof.
  unfold sdNotify. unfold mbnd at 1. simpl. case_bool_decide as Ha.
  { intros [= <- <-]. by rewrite app_nil_r. }
  unfold mbnd. pose proof (net_DialUnix_spec (notify_addr (os_Getenv "NOTIFY_SOCKET" k)) k) as Hd.
  destruct (net_DialUnix _ k) as [k1 [c|e|p]]; [| |done].
  2:{ intros [= <- <-]. by rewrite Hd, app_nil_r. }
  destruct Hd as [Hc Hv]. unfold deferring.
  pose proof (unix_Write_spec c state k1 (notify_addr (os_Getenv "NOTIFY_SOCKET" k))) as Hw.
  rewrite Hv in Hw. simpl in Hw. specialize (Hw (lookup_insert_eq _ _ _)).
  destruct (unix_Write c state k1) as [k2 [[]|e|p]]; [| |done]; intros [= <- <-];
    rewrite unix_Close_spec, Hw; simpl; rewrite ?Hv; simpl;
    (split; [by rewrite delete_insert_id|]); (split; [done|]); by rewrite ?app_nil_r.
Qed.
