(* ===== verification/Shutdown.v ===== *)
(** The goroutines of the running daemon (agent/cmd/warrantd/main.go, the last part
    of [run]): [Server.Serve] (agent/internal/pamsock), [Consumer.Run]
    (agent/internal/ringbuf), the closers both start, and the [select] loop of [run].
    They share the cancelled context and two channels with room for one value. *)

From Stdlib Require Import ZArith Lia Ascii String.
From stdpp Require Import base tactics numbers list strings gmap relations.
From S2P Require Import Prelude GoStd GoNet Pamsock Ringbuf.

Definition Canceled : error := ENew "context canceled".
(** [net.ErrClosed]: what reading a closed connection gives. *)
Definition ErrNetClosed : error := ENew "use of closed network connection".

(** * The machine *)

(** [run]: at its [select], waiting for [serveErr] after the signal, returned. *)
Inductive main_pc := Selecting | Waiting | Returned (r : option error).

(** [Serve]'s side: what Bind and Unbind work on, the datagrams waiting and the
    ones read so far, whether the function given to [AfterFunc] is due ([Serve]
    unregisters it when it returns first), whether it has closed the connection,
    and the channel [serveErr]. *)
Record pamside (T : Type) := mkPam {
  pm_state : T; pm_inbox : list string; pm_read : list string;
  pm_firing : bool; pm_closed : bool; pm_serving : bool; pm_err : option (option error)
}.
Arguments mkPam {_}.
Arguments pm_state {_}.
Arguments pm_inbox {_}.
Arguments pm_read {_}.
Arguments pm_firing {_}.
Arguments pm_closed {_}.
Arguments pm_serving {_}.
Arguments pm_err {_}.

(** [Consumer.Run]'s side, in the same way; [rg_out] has the consumer and the
    records handled, and [rg_err] is the channel [runErr]. *)
Record ringside := mkRing {
  rg_samples : list (list Z); rg_raw : list (list Z); rg_out : Consumer * list Record_;
  rg_closed : bool; rg_running : bool; rg_err : option (option error)
}.

(** [rs_ring] is [None] when the ring buffer could not be opened; [rs_log] has the
    consumer's errors as logged. *)
Record rsys (T : Type) := mkRsys {
  rs_ctx : bool; rs_pam : pamside T; rs_ring : option ringside;
  rs_log : list (option error); rs_main : main_pc
}.
Arguments mkRsys {_}.
Arguments rs_ctx {_}.
Arguments rs_pam {_}.
Arguments rs_ring {_}.
Arguments rs_log {_}.
Arguments rs_main {_}.

(** What [Serve] returns when a read fails. *)
Definition serve_return (cancelled : bool) (e : error) : option error :=
  if cancelled then None else Some e.
(** What [Consumer.Run] returns when a read fails: the reader was closed, or
    another error. *)
Definition ctx_Err (cancelled : bool) : option error := if cancelled then Some Canceled else None.
Definition run_return (cancelled : bool) (e : option error) : option error :=
  match e with
  | None => ctx_Err cancelled
  | Some e => Some (EWrap "ringbuf read: " e)
  end.

(** [errors.Is(err, context.Canceled)] of an error that may be nil. *)
Definition is_canceled (e : option error) : bool :=
  match e with Some e => errors_Is e Canceled | None => false end.

Section machine.
Context {T : Type} `{Binder T}.

(** [Serve]: a datagram is read, or the connection is closed. *)
Inductive serve_step (ctx : bool) : pamside T → pamside T → Prop :=
  | SDatagram t d inbox rd fi err :
      serve_step ctx (mkPam t (d :: inbox) rd fi false true err)
                     (mkPam (serve_one t d) inbox (rd ++ [d]) fi false true err)
  | SClosed t inbox rd fi :
      serve_step ctx (mkPam t inbox rd fi true true None)
                     (mkPam t inbox rd fi true false (Some (serve_return ctx ErrNetClosed)))
  | SCloser t inbox rd cl sv err :
      serve_step ctx (mkPam t inbox rd true cl sv err) (mkPam t inbox rd false true sv err).

(** [Consumer.Run]: a record is read, or the reader is closed, by the goroutine
    that waits for the context. *)
Inductive ring_step (ctx : bool) : ringside → ringside → Prop :=
  | RSample x smp raw out err :
      ring_step ctx (mkRing (x :: smp) raw out false true err)
                    (mkRing smp (raw ++ [x]) (run_one out x) false true err)
  | RClosed smp raw out :
      ring_step ctx (mkRing smp raw out true true None)
                    (mkRing smp raw out true false (Some (run_return ctx None)))
  | RCloser smp raw out ru err :
      ctx = true →
      ring_step ctx (mkRing smp raw out false ru err) (mkRing smp raw out true ru err).

(** [serveErr] and [runErr] emptied. *)
Definition take_serveErr (p : pamside T) : pamside T :=
  mkPam (pm_state p) (pm_inbox p) (pm_read p) (pm_firing p) (pm_closed p) (pm_serving p) None.
Definition take_runErr (g : ringside) : ringside :=
  mkRing (rg_samples g) (rg_raw g) (rg_out g) (rg_closed g) (rg_running g) None.

(** The daemon's own steps; the last four are the [select] loop of [run].  A
    consumer that ended is logged unless it was cancelled, and the loop goes on. *)
Inductive own_step : rsys T → rsys T → Prop :=
  | OServe ctx p p' g log mn :
      serve_step ctx p p' → own_step (mkRsys ctx p g log mn) (mkRsys ctx p' g log mn)
  | ORing ctx p g g' log mn :
      ring_step ctx g g' →
      own_step (mkRsys ctx p (Some g) log mn) (mkRsys ctx p (Some g') log mn)
  | MDone p g log :
      own_step (mkRsys true p g log Selecting) (mkRsys true p g log Waiting)
  | MServe ctx p g log r :
      pm_err p = Some r →
      own_step (mkRsys ctx p g log Selecting) (mkRsys ctx (take_serveErr p) g log (Returned r))
  | MRun ctx p g log e :
      rg_err g = Some e →
      own_step (mkRsys ctx p (Some g) log Selecting)
               (mkRsys ctx p (Some (take_runErr g)) (if is_canceled e then log else log ++ [e]) Selecting)
  | MWait ctx p g log r :
      pm_err p = Some r →
      own_step (mkRsys ctx p g log Waiting) (mkRsys ctx (take_serveErr p) g log (Returned r)).

(** Everything else: a datagram or a record arrives, the first signal cancels the
    context, a read fails on its own. *)
Inductive env_step : rsys T → rsys T → Prop :=
  | EDatagram ctx t inbox d rd fi cl sv err g log mn :
      env_step (mkRsys ctx (mkPam t inbox rd fi cl sv err) g log mn)
               (mkRsys ctx (mkPam t (inbox ++ [d]) rd fi cl sv err) g log mn)
  | ESample ctx p smp x raw out cl ru err log mn :
      env_step (mkRsys ctx p (Some (mkRing smp raw out cl ru err)) log mn)
               (mkRsys ctx p (Some (mkRing (smp ++ [x]) raw out cl ru err)) log mn)
  | ESignal t inbox rd fi cl sv err g log mn :
      env_step (mkRsys false (mkPam t inbox rd fi cl sv err) g log mn)
               (mkRsys true (mkPam t inbox rd sv cl sv err) g log mn)
  | EReadFails ctx t inbox rd fi cl e g log mn :
      env_step (mkRsys ctx (mkPam t inbox rd fi cl true None) g log mn)
               (mkRsys ctx (mkPam t inbox rd fi cl false (Some (serve_return ctx e))) g log mn)
  | ERingFails ctx p smp raw out cl e log mn :
      env_step (mkRsys ctx p (Some (mkRing smp raw out cl true None)) log mn)
               (mkRsys ctx p (Some (mkRing smp raw out cl false (Some (run_return ctx (Some e))))) log mn).

Definition rstep (s s' : rsys T) : Prop := own_step s s' ∨ env_step s s'.

(** As [run] starts the goroutines. *)
Definition rstart (t : T) (cons : option Consumer) : rsys T :=
  mkRsys false (mkPam t [] [] false false true None)
    ((λ c, mkRing [] [] (c, []) false true None) <$> cons) [] Selecting.

(** * Lemmas *)

(** [Serve] is running, or has left its result, or the result was taken; a nil
    result means the context was cancelled. *)
Record rinv (t0 : T) (c0 : option Consumer) (s : rsys T) : Prop := mkRinv {
  ri_state : pm_state (rs_pam s) = Serve (pm_read (rs_pam s)) t0;
  ri_cons : ∀ g, rs_ring s = Some g → ∃ c, c0 = Some c ∧ rg_out g = Run (rg_raw g) c;
  ri_serving : pm_serving (rs_pam s) = true → pm_err (rs_pam s) = None ∧ ∀ r, rs_main s ≠ Returned r;
  ri_ended : pm_serving (rs_pam s) = false → is_Some (pm_err (rs_pam s)) ∨ ∃ r, rs_main s = Returned r;
  ri_nil : pm_err (rs_pam s) = Some None ∨ rs_main s = Returned None → rs_ctx s = true;
  ri_cancel : rs_ctx s = true → pm_serving (rs_pam s) = true →
    pm_firing (rs_pam s) = true ∨ pm_closed (rs_pam s) = true;
  ri_waiting : rs_main s = Waiting → rs_ctx s = true;
  ri_firing : pm_firing (rs_pam s) = true → rs_ctx s = true;
  ri_closed : pm_closed (rs_pam s) = true → rs_ctx s = true
}.

Lemma rstart_inv t c : rinv t c (rstart t c).
Proof. split; simpl; try naive_solver. intros g. destruct c; [|done]. intros [= <-]. by eexists. Qed.

Lemma Serve_snoc (ds : list string) d t : Serve (ds ++ [d]) t = serve_one (Serve ds t) d.
Proof. unfold Serve. by rewrite foldl_app. Qed.

(** Closes the fields a step leaves alone, or changes in an obvious way. *)
Ltac ri_field ri_cons ri_serving ri_ended ri_nil :=
  first
    [ done
    | intros; simplify_eq; by auto
    | intros ? [= <-]; destruct (ri_cons _ eq_refl) as (? & -> & ?); by eexists
    | let Hv := fresh in intros Hv; destruct (ri_serving Hv); first [done|congruence]
    | let Hv := fresh in intros Hv; destruct (ri_ended Hv) as [?|[? [=]]]; by auto
    | intros [[=]|[= ->]]; apply ri_nil; by auto
    | intros _; right; by eexists
    | idtac ].

Lemma own_step_inv t c s s' : own_step s s' → rinv t c s → rinv t c s'.
Proof.
  intros Hs [h1 h2 h3 h4 h5 h6 h7 h8 h9].
  destruct Hs as [ctx p p' g log mn Hp|ctx p g g' log mn Hg| | | |]; [destruct Hp|destruct Hg|..].
  all: split; simpl in *; ri_field h2 h3 h4 h5.
  - by rewrite Serve_snoc, <- h1.
  - intros g [= <-]. destruct (h2 _ eq_refl) as (c' & -> & Ho). exists c'. simpl in *.
    by rewrite Run_snoc, <- Ho.
Qed.
Lemma env_step_inv t c s s' : env_step s s' → rinv t c s → rinv t c s'.
Proof.
  intros Hs [h1 h2 h3 h4 h5 h6 h7 h8 h9]. destruct Hs.
  all: split; simpl in *; ri_field h2 h3 h4 h5.
  intros [[= Hn]|Hn]; [|by auto]. unfold serve_return in Hn. by destruct ctx.
Qed.
Lemma rsteps_inv t c s : rtc rstep (rstart t c) s → rinv t c s.
Proof.
  intros Hr. pose proof (rstart_inv t c) as Hi.
  induction Hr as [|s s1 s' [Hs|Hs] _ IH]; eauto using own_step_inv, env_step_inv.
Qed.

(** What is left to do: what can be read, the goroutines that have not returned,
    the values in the channels, and where [run] is. *)
Definition b2n (b : bool) : nat := if b then 1 else 0.
Definition chan_size {A} (o : option A) : nat := match o with Some _ => 1 | None => 0 end.
Definition pam_left (p : pamside T) : nat :=
  length (pm_inbox p) + b2n (pm_firing p) + 2 * b2n (pm_serving p) + chan_size (pm_err p).
Definition ring_left (g : ringside) : nat :=
  length (rg_samples g) + b2n (negb (rg_closed g)) + 2 * b2n (rg_running g) + chan_size (rg_err g).
Definition main_left (m : main_pc) : nat :=
  match m with Selecting => 2 | Waiting => 1 | Returned _ => 0 end.
Definition work_left (s : rsys T) : nat :=
  pam_left (rs_pam s) + match rs_ring s with Some g => ring_left g | None => 0 end + main_left (rs_main s).

Lemma own_step_less s s' : own_step s s' → (work_left s' < work_left s)%nat.
Proof.
  unfold work_left. intros Hs.
  destruct Hs as [ctx p p' g log mn Hp|ctx p g g' log mn Hg| |ctx p g log r E|ctx p g log e E|ctx p g log r E];
    [destruct Hp|destruct Hg|..]; unfold pam_left, ring_left; simpl; rewrite ?E; simpl; lia.
Qed.
Lemma own_sn s : sn own_step s.
Proof.
  remember (work_left s) as n eqn:Hn. revert s Hn. induction n as [n IH] using lt_wf_ind.
  intros s ->. constructor. intros s' Hs. by eapply IH; [apply own_step_less|].
Qed.

(** After the signal something can be done until [run] has returned. *)
Lemma cancelled_progress t c s :
  rinv t c s → rs_ctx s = true → (∀ r, rs_main s ≠ Returned r) → ∃ s', own_step s s'.
Proof.
  intros [_ _ Hserv Hend _ Hcan _ _ _] Hctx Hm. destruct s as [ctx p g log mn]. simpl in *. subst ctx.
  destruct mn as [| |r]; [by eexists; apply MDone| |by destruct (Hm r)].
  destruct (pm_serving p) eqn:Esv.
  - destruct (Hserv eq_refl) as [He _]. destruct p as [st inbox rd fi cl sv err]. simpl in *. subst.
    destruct (Hcan eq_refl eq_refl) as [->| ->]; eexists; apply OServe; constructor.
  - destruct (Hend eq_refl) as [[r Hr]|[r [=]]]. eexists. by apply MWait.
Qed.
Lemma own_step_ctx s s' : own_step s s' → rs_ctx s' = rs_ctx s.
Proof. by intros []. Qed.
Lemma own_steps_ctx s s' : rtc own_step s s' → rs_ctx s' = rs_ctx s.
Proof. induction 1 as [|s s1 s' Hs _ IH]; [done|]. by rewrite IH, (own_step_ctx _ _ Hs). Qed.
Lemma own_steps_steps s s' : rtc own_step s s' → rtc rstep s s'.
Proof. induction 1; [done|]. eapply rtc_l; [by left|done]. Qed.
End machine.

(** * Properties *)

(** C36: the daemon stops when it is told to.  After any history of datagrams,
    records, failing reads and scheduling: the daemon's own steps always come to
    an end, and once the signal has arrived they can only end with [run] returned.
    When [run] has returned, [Serve] has too, so no session is being bound while
    the deferred calls close the maps; the bindings made are those of the
    datagrams read, in order, and the records handled those of the samples read.
    A nil result means there was a signal; a consumer that fails never ends the
    daemon: without a signal and a failed socket read, [run] is still in its loop. *)
Theorem shutdown_completes {T} `{Binder T} (t : T) (c : option Consumer) (s : rsys T) :
  rtc rstep (rstart t c) s →
  sn own_step s ∧
  (rs_ctx s = true → ∀ s', rtc own_step s s' → nf own_step s' → ∃ r, rs_main s' = Returned r) ∧
  (∀ r, rs_main s = Returned r → pm_serving (rs_pam s) = false ∧ (r = None → rs_ctx s = true)) ∧
  (rs_ctx s = false → pm_serving (rs_pam s) = true → rs_main s = Selecting) ∧
  pm_state (rs_pam s) = Serve (pm_read (rs_pam s)) t ∧
  (∀ g, rs_ring s = Some g → ∃ c0, c = Some c0 ∧ rg_out g = Run (rg_raw g) c0).
Proof.
  intros Hr. pose proof (rsteps_inv _ _ _ Hr) as Hi. split; [apply own_sn|]. split; [|split; [|split]].
  - intros Hc s' Hs Hnf. assert (rinv t c s') as Hi'.
    { apply rsteps_inv. etrans; [done|]. by apply own_steps_steps. }
    destruct (rs_main s') as [| |r] eqn:Em; [| |by exists r]; exfalso; apply Hnf;
      (eapply cancelled_progress; [done|by rewrite (own_steps_ctx _ _ Hs)|by rewrite Em]).
  - intros r Hm. split.
    + destruct (pm_serving (rs_pam s)) eqn:E; [|done]. by destruct (proj2 (ri_serving _ _ _ Hi E) r).
    + intros ->. apply (ri_nil _ _ _ Hi). by right.
  - intros Hc Hsv. destruct (rs_main s) as [| |r] eqn:Em; [done| |].
    + by rewrite (ri_waiting _ _ _ Hi Em) in Hc.
    + by destruct (proj2 (ri_serving _ _ _ Hi Hsv) r).
  - split; [apply (ri_state _ _ _ Hi)|apply (ri_cons _ _ _ Hi)].
Qed.

(** A binder that notes its calls. *)
Definition noting : Binder (list string) :=
  {| bd_Bind r s := (s ++ ["bind " +:+ LoginAccount r], Ok 0);
     bd_Unbind c s := (s ++ ["unbind " +:+ fmt_u c], Ok tt) |}.
#[local] Existing Instance noting.

(** A session opens, the ring buffer fails, the signal comes. *)
Definition demo_signalled : rsys (list string) :=
  mkRsys true (mkPam ["bind alice"] [] [wr_open "c1" 7 "alice" "-" "-"] true false true None)
    (Some (mkRing [] [] (newConsumer true, []) false false None)) [Some (EWrap "ringbuf read: " (EErrno 5))]
    Selecting.
Lemma demo_signalled_reached : rtc rstep (rstart [] (Some (newConsumer true))) demo_signalled.
Proof.
  eapply rtc_l; [right; apply (EDatagram _ _ _ (wr_open "c1" 7 "alice" "-" "-"))|].
  eapply rtc_l; [left; apply OServe, SDatagram|].
  eapply rtc_l; [right; apply (ERingFails _ _ _ _ _ _ (EErrno 5))|].
  eapply rtc_l; [left; by eapply MRun|].
  eapply rtc_l; [right; apply ESignal|]. apply rtc_refl.
Defined.
Lemma shutdown_completes_witness :
  sn own_step demo_signalled ∧
  ∃ s', rtc own_step demo_signalled s' ∧ nf own_step s' ∧ rs_main s' = Returned None.
Proof.
  pose proof (shutdown_completes [] (Some (newConsumer true)) demo_signalled demo_signalled_reached)
    as (Hsn & Hend & _).
  split; [exact Hsn|].
  eexists. split; [|split].
  - eapply rtc_l; [apply MDone|]. eapply rtc_l; [apply OServe, SCloser|].
    eapply rtc_l; [apply OServe, SClosed|]. eapply rtc_l; [by eapply MWait|].
    eapply rtc_l; [apply ORing, RCloser; reflexivity|]. apply rtc_refl.
  - intros [s' Hs]. inversion Hs; subst; simpl in *; try discriminate;
      match goal with Hx : serve_step _ _ _ |- _ => inversion Hx
                    | Hx : ring_step _ _ _ |- _ => inversion Hx end.
  - reflexivity.
Defined.
