(* ===== verification/Loader.v ===== *)
(** Package [loader] (agent/internal/loader): loading the BPF object, attaching
    every program to its hook, pinning the links, and the all-or-nothing undo.
    cilium/ebpf, its [link] package and bpffs are class parameters; what the
    loader relies on is stated on what can be seen of them: the pins in bpffs
    and the handles this process holds. *)

From Stdlib Require Import ZArith Lia Ascii String.
From stdpp Require Import base tactics numbers list strings gmap sorting.
From S2P Require Import Prelude GoStd GoNet EbpfMap Os BpfMap Concrete.

(** * Data *)

(** [ebpf.ProgramType], as far as [attachByType] tells the values apart. *)
Inductive ProgramType := LSM | Tracing | Kprobe | OtherType (name : string).
#[export] Instance ProgramType_eq_dec : EqDecision ProgramType.
Proof. solve_decision. Defined.

Record ProgramSpec := mkProgramSpec { SectionName : string; AttachTo : string; ps_Type : ProgramType }.
Record MapSpec := mkMapSpec { ms_Name : string; ms_PinByName : bool }.
Record CollectionSpec := mkCollectionSpec {
  spec_Maps : gmap string MapSpec;
  spec_Programs : gmap string ProgramSpec
}.

Definition linkSubdir : string := "links".

(** [sort.Strings]: byte-wise lexicographic order. *)
Definition sort_Strings (l : list string) : list string := merge_sort String.le l.

(** * cilium/ebpf and bpffs

    [Prog] is a loaded program, [Lnk] a handle on a link.  A collection holds its
    programs and maps open under one number until it is closed. *)
Class Ebpf (K Prog Lnk : Type) := {
  MkdirAll : string → M K unit;
  NewCollectionWithOptions : CollectionSpec → string → M K (gmap string Prog * nat);
  IsVerifierError : error → bool;              (* errors.As(err, *ebpf.VerifierError) *)
  LoadPinnedLink : string → M K Lnk;
  AttachLSM : Prog → M K Lnk;
  AttachTracing : Prog → M K Lnk;
  AttachKprobe : string → Prog → M K Lnk;
  Pin : Lnk → string → M K unit;
  Unpin : Lnk → M K unit;
  CloseLink : Lnk → M K unit;
  CloseCollection : nat → K → K;
  (* the order in which Go ranges over the links *)
  range_links : gmap string Lnk → list (string * Lnk)
}.

(** What can be seen: the link object each bpffs path holds, and for each open
    handle its link object and the path it is pinned at. *)
Record lview (Lnk Obj : Type) `{Countable Lnk} := mkView {
  v_pins : gmap string Obj;
  v_handles : gmap Lnk (Obj * option string)
}.
Arguments mkView {_ _ _ _}.
Arguments v_pins {_ _ _ _}.
Arguments v_handles {_ _ _ _}.

Section laws.
Context {K Prog Lnk Obj : Type} `{Countable Lnk}.
Variable view : K → lview Lnk Obj.
Variable obj_prog : Obj → Prog.

(** A new link: a handle and an object nobody had, running the program. *)
Definition attaches (prog : Prog) (m : M K Lnk) : Prop :=
  ∀ k, match m k with
       | (k', Ok h) => ∃ o, v_handles (view k) !! h = None ∧
           (∀ p, v_pins (view k) !! p ≠ Some o) ∧ obj_prog o = prog ∧
           view k' = mkView (v_pins (view k)) (<[h := (o, None)]> (v_handles (view k)))
       | (k', Err _) => view k' = view k
       | (_, Panic _) => False
       end.
End laws.

Class EbpfLaws (K Prog Lnk Obj : Type) `{Ebpf K Prog Lnk} `{Countable Lnk} := {
  view : K → lview Lnk Obj;
  obj_prog : Obj → Prog;
  colls : K → gset nat;                        (* the collections held open *)
  NewCollection_programs s dir k k' c :
    NewCollectionWithOptions s dir k = (k', Ok c) → dom (fst c) = dom (spec_Programs s);
  NewCollection_open s dir k :
    match NewCollectionWithOptions s dir k with
    | (k', Ok c) => snd c ∉ colls k ∧ colls k' = {[snd c]} ∪ colls k
    | (k', _) => colls k' = colls k
    end;
  CloseCollection_closed fd k : colls (CloseCollection fd k) = colls k ∖ {[fd]};
  LoadPinnedLink_spec p k :
    match LoadPinnedLink p k with
    | (k', Ok h) => ∃ o, v_handles (view k) !! h = None ∧ v_pins (view k) !! p = Some o ∧
        view k' = mkView (v_pins (view k)) (<[h := (o, Some p)]> (v_handles (view k)))
    | (k', Err e) => view k' = view k ∧
        (errors_Is e ErrNotExist = true → v_pins (view k) !! p = None)
    | (_, Panic _) => False
    end;
  AttachLSM_spec prog : attaches view obj_prog prog (AttachLSM prog);
  AttachTracing_spec prog : attaches view obj_prog prog (AttachTracing prog);
  AttachKprobe_spec sym prog : attaches view obj_prog prog (AttachKprobe sym prog);
  Pin_spec h p k o q :
    v_handles (view k) !! h = Some (o, q) →
    match Pin h p k with
    | (k', Ok _) => v_pins (view k) !! p = None ∧
        view k' = mkView (<[p := o]> (v_pins (view k)))
                         (<[h := (o, Some p)]> (v_handles (view k)))
    | (k', Err _) => view k' = view k
    | (_, Panic _) => False
    end;
  Unpin_spec h k o p :
    v_handles (view k) !! h = Some (o, Some p) →
    match Unpin h k with
    | (k', Ok _) => view k' = mkView (base.delete p (v_pins (view k)))
                                     (<[h := (o, None)]> (v_handles (view k)))
    | (k', Err _) => view k' = view k
    | (_, Panic _) => False
    end;
  CloseLink_spec h k :
    view (fst (CloseLink h k)) = mkView (v_pins (view k)) (base.delete h (v_handles (view k))) ∧
    ∀ p, snd (CloseLink h k) ≠ Panic p;
  range_links_spec m : range_links m ≡ₚ map_to_list m
}.

(** * The loader *)

Section loader.
Context {K Prog Lnk : Type} `{Ebpf K Prog Lnk} `{ErrnoText}.

Record Loader := mkLoader {
  coll : gmap string Prog;
  collFd : nat;
  spec : CollectionSpec;
  pinDir : string;
  linkDir : string;
  links : gmap string Lnk;
  attached : list string;
  missing : list string
}.

Definition set_links (l : Loader) x :=
  mkLoader (coll l) (collFd l) (spec l) (pinDir l) (linkDir l) x (attached l) (missing l).
Definition set_attached (l : Loader) x :=
  mkLoader (coll l) (collFd l) (spec l) (pinDir l) (linkDir l) (links l) x (missing l).
Definition set_missing (l : Loader) x :=
  mkLoader (coll l) (collFd l) (spec l) (pinDir l) (linkDir l) (links l) (attached l) x.

(** The loader and the kernel it talks to. *)
Definition LM (A : Type) : Type := M (Loader * K) A.
Definition kop {A} (m : M K A) : LM A :=
  λ '(l, k), let '(k', r) := m k in ((l, k'), r).
Definition mod_l (f : Loader → Loader) : LM unit := mmod (λ '(l, k), (f l, k)).

(** A nil [*ebpf.ProgramSpec] is dereferenced. *)
Definition deref {S A} (o : option A) : M S A :=
  match o with
  | Some a => mok a
  | None => mres (Panic "invalid memory address or nil pointer dereference")
  end.

Definition kprobeSymbol (ps : ProgramSpec) : string :=
  if negb (bool_decide (AttachTo ps = "")) then AttachTo ps
  else match Cut (SectionName ps) SLASH with
       | Some (_, after) => after
       | None => ""
       end.

Definition attachByType (prog : Prog) (ps : ProgramSpec) : M K Lnk :=
  match ps_Type ps with
  | LSM => AttachLSM prog
  | Tracing => AttachTracing prog
  | Kprobe =>
      let sym := kprobeSymbol ps in
      if bool_decide (sym = "")
      then merr (EMsg ("kprobe 심볼을 못 찾았다 (SEC " +:+ fmt_q (SectionName ps) +:+ ")"))
      else AttachKprobe sym prog
  | OtherType t =>
      merr (EMsg ("붙이는 방법을 모르는 종류다: " +:+ t +:+ " (SEC " +:+ fmt_q (SectionName ps) +:+ ")"))
  end.

Definition link_path (l : Loader) (name : string) : string := filepath_Join (linkDir l) name.

(** The link goes into the table, its section into the list. *)
Definition keep_link (name : string) (ps : option ProgramSpec) (ln : Lnk) : LM unit :=
  mod_l (λ l, set_links l (<[name := ln]> (links l))) ;;;
  do p := deref ps in
  mod_l (λ l, set_attached l (attached l ++ [SectionName p])).

Definition attachOne (name : string) : LM unit :=
  do s := mget in
  let l := fst s in
  let ps := spec_Programs (spec l) !! name in
  let pinPath := link_path l name in
  do r := mtry (kop (LoadPinnedLink pinPath)) in
  match r with
  | inl ln => keep_link name ps ln
  | inr e =>
      if negb (errors_Is e ErrNotExist)
      then merr (EWrap ("pin 된 링크 " +:+ pinPath +:+ ": ") e)
      else
        do prog := deref (coll l !! name) in
        do p := deref ps in
        do ln := kop (attachByType prog p) in
        do r2 := mtry (kop (Pin ln pinPath)) in
        match r2 with
        | inl _ => keep_link name ps ln
        | inr e2 =>
            mtry (kop (CloseLink ln)) ;;;
            merr (EWrap ("링크 pin " +:+ pinPath +:+ ": ") e2)
        end
  end.

(** Undo: every link is unpinned and closed, errors ignored. *)
Definition detach_one (x : string * Lnk) : LM unit :=
  let '(name, ln) := x in
  mtry (kop (Unpin ln)) ;;;
  mtry (kop (CloseLink ln)) ;;;
  mod_l (λ l, set_links l (base.delete name (links l))).
Definition detachAll : LM unit :=
  do s := mget in
  mfor (range_links (links (fst s))) detach_one ;;;
  mod_l (λ l, set_attached l []).

(** One program of [AttachAll]: a mirror that does not attach is noted, any
    other failure undoes everything. *)
Definition attach_step (name : string) : LM unit :=
  do r := mtry (attachOne name) in
  match r with
  | inl _ => mok tt
  | inr e =>
      do s := mget in
      do p := deref (spec_Programs (spec (fst s)) !! name) in
      if bool_decide (ps_Type p = Kprobe)
      then mod_l (λ l, set_missing l (missing l ++ [SectionName p +:+ " (" +:+ Error e +:+ ")"]))
      else detachAll ;;; merr (EWrap (name +:+ ": ") e)
  end.

Definition program_names (l : Loader) : list string :=
  sort_Strings (fst <$> map_to_list (coll l)).

Definition AttachAll : LM unit :=
  do s := mget in
  mfor (program_names (fst s)) attach_step ;;;
  mod_l (λ l, set_attached l (sort_Strings (attached l))) ;;;
  mod_l (λ l, set_missing l (sort_Strings (missing l))).

Definition MissingMirrors (l : Loader) : list string := missing l.
Definition AttachedHooks (l : Loader) : list string := attached l.
Definition ProgramCount (l : Loader) : nat := size (coll l).

(** [Close]: the handles and the collection, not the pins; [errors.Join] of what
    went wrong. *)
Definition close_one (errs : list error) (ln : Lnk) : LM (list error) :=
  do r := mtry (kop (CloseLink ln)) in
  mok (errs ++ match r with inl _ => [] | inr e => [e] end).
Fixpoint close_each (ls : list (string * Lnk)) (errs : list error) : LM (list error) :=
  match ls with
  | [] => mok errs
  | (_, ln) :: ls' => do errs' := close_one errs ln in close_each ls' errs'
  end.
Definition Close : LM (option error) :=
  do s := mget in
  do errs := close_each (range_links (links (fst s))) [] in
  mod_l (λ l, set_links l ∅) ;;;
  (λ '(l, k), ((l, CloseCollection (collFd l) k), Ok tt)) ;;;
  mok (errors_Join errs).

(** [Detach]: the pins go too. *)
Fixpoint detach_each (ls : list (string * Lnk)) (errs : list error) : LM (list error) :=
  match ls with
  | [] => mok errs
  | (name, ln) :: ls' =>
      do r1 := mtry (kop (Unpin ln)) in
      do r2 := mtry (kop (CloseLink ln)) in
      mod_l (λ l, set_links l (base.delete name (links l))) ;;;
      detach_each ls' (errs ++ match r1 with inl _ => [] | inr e => [e] end
                            ++ match r2 with inl _ => [] | inr e => [e] end)
  end.
Definition Detach : LM (option error) :=
  do s := mget in
  do errs := detach_each (range_links (links (fst s))) [] in
  mod_l (λ l, set_attached l []) ;;;
  mok (errors_Join errs).

(** ** [load] *)

Definition attempts : nat := 4.

(** Every map whose name does not start with a dot is pinned by its name. *)
Definition pin_maps (s : CollectionSpec) : CollectionSpec :=
  mkCollectionSpec
    ((λ m, if HasPrefix (ms_Name m) "." then m else mkMapSpec (ms_Name m) true) <$> spec_Maps s)
    (spec_Programs s).

(** The retry loop at iteration [i]; [fuel] bounds the iterations, [attempts]
    of them are enough. *)
Fixpoint load_loop (fuel i : nat) (pinDir source : string) (loadSpec : M K CollectionSpec)
    : M K (CollectionSpec * (gmap string Prog * nat)) :=
  match fuel with
  | O => mres (Panic "out of fuel")
  | S fuel' =>
      do r0 := mtry loadSpec in
      match r0 with
      | inr e => merr (EWrap ("오브젝트 " +:+ source +:+ ": ") e)
      | inl s0 =>
          let s := pin_maps s0 in
          do r := mtry (NewCollectionWithOptions s pinDir) in
          match r with
          | inl c => mok (s, c)
          | inr e =>
              if IsVerifierError e
              then merr (EMsg ("verifier 거부:" +:+ String LF (Error e)))
              else if errors_Is e ErrExist && (i <? attempts - 1)%nat
              then load_loop fuel' (S i) pinDir source loadSpec
              else merr (EWrap "로드: " e)
          end
      end
  end.

Definition mkdir (what dir : string) : M K unit :=
  do r := mtry (MkdirAll dir) in
  match r with
  | inl _ => mok tt
  | inr e => merr (EWrap (what +:+ " " +:+ dir +:+ ": ") e)
  end.

Definition load (pinDir source : string) (loadSpec : M K CollectionSpec) : M K Loader :=
  mkdir "pin 디렉터리" pinDir ;;;
  let linkDir := filepath_Join pinDir linkSubdir in
  mkdir "링크 디렉터리" linkDir ;;;
  do sc := load_loop attempts 0 pinDir source loadSpec in
  mok (mkLoader (fst (snd sc)) (snd (snd sc)) (fst sc) pinDir linkDir ∅ [] []).

(** [Load]: the object embedded in the binary. *)
Definition Load (embedded : M K CollectionSpec) (pinDir : string) : M K Loader :=
  load pinDir "임베드된 오브젝트" embedded.
(** [LoadObject]: the embedded object unless a path is given. *)
Definition LoadObject (embedded : M K CollectionSpec) (fromFile : string → M K CollectionSpec)
    (objPath pinDir : string) : M K Loader :=
  if bool_decide (objPath = "") then Load embedded pinDir
  else load pinDir objPath (fromFile objPath).
End loader.
Arguments Loader : clear implicits.

(** ** The boot parameter *)

Definition hasBPF (list : string) : bool :=
  existsb (λ name, bool_decide (TrimSpace name = "bpf")) (Split (TrimSpace list) ","%char).
Definition lsmPath : string := "/sys/kernel/security/lsm".
Definition BpfLsmEnabled (file : res string) : res bool :=
  match file with
  | Ok b => Ok (hasBPF b)
  | Err e => Err (EWrap (lsmPath +:+ ": ") e)
  | Panic p => Panic p
  end.

(** * Lemmas *)

(** ** Attaching one program *)

Section attach.
Context {K Prog Lnk Obj : Type} `{Ebpf K Prog Lnk} `{Countable Lnk} `{!EbpfLaws K Prog Lnk Obj}
  `{ErrnoText}.
Implicit Types (l : Loader Prog Lnk) (k : K).

(** The program is in the object's specification too. *)
Definition known l (name : string) (ps : ProgramSpec) (prog : Prog) : Prop :=
  spec_Programs (spec l) !! name = Some ps ∧ coll l !! name = Some prog.

(** What a successful attach does to what can be seen: a pin that was there is
    picked up, otherwise a new link to the program is pinned. *)
Definition attached_view (p : string) (prog : Prog) (h : Lnk) (o : Obj) (v v' : lview Lnk Obj) : Prop :=
  v_handles v !! h = None ∧ v_handles v' = <[h := (o, Some p)]> (v_handles v) ∧
  (v_pins v' = v_pins v ∧ v_pins v !! p = Some o ∨
   v_pins v' = <[p := o]> (v_pins v) ∧ v_pins v !! p = None ∧ obj_prog o = prog).

Lemma attachByType_attaches prog ps : attaches view obj_prog prog (attachByType prog ps).
Proof.
  unfold attachByType. destruct (ps_Type ps).
  - apply AttachLSM_spec.
  - apply AttachTracing_spec.
  - case_bool_decide; [by intros k|]. apply AttachKprobe_spec.
  - by intros k.
Qed.

Lemma keep_link_run name ps ln l k :
  keep_link (K := K) name (Some ps) ln (l, k) =
  ((set_attached (set_links l (<[name := ln]> (links l))) (attached l ++ [SectionName ps]), k), Ok tt).
Proof. done. Qed.

Lemma attachOne_spec name l k ps prog :
  known l name ps prog →
  match attachOne name (l, k) with
  | ((l', k'), Ok _) => ∃ h o,
      l' = set_attached (set_links l (<[name := h]> (links l))) (attached l ++ [SectionName ps]) ∧
      attached_view (link_path l name) prog h o (view k) (view k')
  | ((l', k'), Err _) => l' = l ∧ view k' = view k
  | (_, Panic _) => False
  end.
Proof.
  intros [Hps Hprog]. unfold attachOne, mtry, kop. unfold mbnd at 1. simpl.
  unfold mbnd at 1. rewrite Hps, Hprog. simpl.
  pose proof (LoadPinnedLink_spec (link_path l name) k) as Hload.
  destruct (LoadPinnedLink _ k) as [k1 [h|e|x]]; [| |done].
  { destruct Hload as (o & Hh & Hp & Hv). rewrite keep_link_run. exists h, o.
    split; [done|]. unfold attached_view. rewrite Hv. by auto. }
  destruct Hload as [Hv Hne]. destruct (errors_Is e ErrNotExist); simpl; [|done].
  specialize (Hne eq_refl). unfold mbnd at 1 2. simpl. unfold mbnd at 1.
  pose proof (attachByType_attaches prog ps k1) as Hat.
  destruct (attachByType prog ps k1) as [k2 [h|e2|x]]; [| |done].
  2: { split; [done|congruence]. }
  destruct Hat as (o & Hh & _ & Ho & Hv2). rewrite Hv in Hh, Hv2.
  unfold mbnd at 1.
  pose proof (Pin_spec h (link_path l name) k2 o None) as Hpin.
  rewrite Hv2 in Hpin. simpl in Hpin. rewrite lookup_insert_eq in Hpin. specialize (Hpin eq_refl).
  destruct (Pin _ _ k2) as [k3 [[]|e3|x]]; [| |done].
  - destruct Hpin as [_ Hv3]. rewrite keep_link_run. exists h, o. split; [done|].
    unfold attached_view. rewrite Hv3. simpl. rewrite insert_insert_eq. split; [done|].
    split; [done|]. by right.
  - unfold mbnd. destruct (CloseLink_spec h k3) as [Hc Hn].
    destruct (CloseLink h k3) as [k4 [[]|e4|x]]; simpl in *; [| |by destruct (Hn x)].
    all: split; [done|]; rewrite Hc, Hpin; simpl; rewrite delete_insert_id by done.
    all: by destruct (view k).
Qed.

(** Undoing a link: its pin and its handle are gone. *)
Lemma detach_one_spec name h o p l k :
  v_handles (view k) !! h = Some (o, Some p) →
  ∃ k', detach_one (name, h) (l, k) = ((set_links l (base.delete name (links l)), k'), Ok tt) ∧
    v_handles (view k') = base.delete h (v_handles (view k)) ∧
    (snd (Unpin h k) = Ok tt → v_pins (view k') = base.delete p (v_pins (view k))) ∧
    (snd (Unpin h k) ≠ Ok tt → v_pins (view k') = v_pins (view k)).
Proof.
  intros Hh. unfold detach_one, mtry, kop. unfold mbnd at 1. simpl.
  pose proof (Unpin_spec h k o p Hh) as Hu.
  destruct (Unpin h k) as [k1 [[]|e|x]]; simpl; [| |done].
  all: unfold mbnd; destruct (CloseLink_spec h k1) as [Hc Hn].
  all: destruct (CloseLink h k1) as [k2 [[]|e2|x]]; simpl in *; [| |by destruct (Hn x)].
  all: exists k2; rewrite Hc, Hu; simpl; split; [done|].
  all: rewrite ?delete_insert_eq; done.
Qed.
End attach.

(** ** Undoing everything *)

Section detach.
Context {K Prog Lnk Obj : Type} `{Ebpf K Prog Lnk} `{Countable Lnk} `{!EbpfLaws K Prog Lnk Obj}.
Implicit Types (l : Loader Prog Lnk) (k : K).

(** Every listed link is an open handle on a link pinned at its path. *)
Definition all_pinned (P : string → string) (ls : list (string * Lnk)) k : Prop :=
  ∀ n h, (n, h) ∈ ls → ∃ o, v_handles (view k) !! h = Some (o, Some (P n)).
Definition unpin_works : Prop := ∀ (h : Lnk) (k : K), snd (Unpin h k) = Ok tt.

Lemma detach_loop P ls l k :
  NoDup ls.*2 → all_pinned P ls k →
  ∃ l' k', mfor ls detach_one (l, k) = ((l', k'), Ok tt) ∧
    l' = set_links l (links l') ∧
    (∀ n, links l' !! n = if decide (n ∈ ls.*1) then None else links l !! n) ∧
    (∀ h, v_handles (view k') !! h = if decide (h ∈ ls.*2) then None else v_handles (view k) !! h) ∧
    (unpin_works → ∀ p, v_pins (view k') !! p =
       if decide (p ∈ P <$> ls.*1) then None else v_pins (view k) !! p).
Proof.
  revert l k. induction ls as [|[n h] ls IH]; intros l k Hnd Hall.
  { exists l, k. split; [done|]. split; [by destruct l|]. done. }
  simpl in Hnd. apply NoDup_cons in Hnd as [Hfresh Hnd].
  destruct (Hall n h ltac:(set_solver)) as [o Ho].
  destruct (detach_one_spec n h o _ l k Ho) as (k1 & Hrun & Hh1 & Hp1 & _).
  destruct (IH (set_links l (base.delete n (links l))) k1 Hnd) as (l' & k' & Hr & Hl & Hn & Hh & Hp).
  { intros n' h' Hin. destruct (Hall n' h' ltac:(set_solver)) as [o' Ho']. exists o'.
    rewrite Hh1, lookup_delete_ne; [done|]. intros ->. apply Hfresh.
    by apply (list_elem_of_fmap_2 snd) in Hin. }
  exists l', k'. split; [by simpl; rewrite (mbnd_run _ _ _ _ _ Hrun)|].
  split; [by rewrite Hl|].
  split; [|split]; simpl.
  - intros x. rewrite Hn. simpl. destruct (decide (x = n)) as [->|].
    + rewrite lookup_delete_eq. by repeat case_decide; set_solver.
    + rewrite lookup_delete_ne by done. repeat case_decide; set_solver.
  - intros x. rewrite Hh, Hh1. destruct (decide (x = h)) as [->|].
    + rewrite lookup_delete_eq. by repeat case_decide; set_solver.
    + rewrite lookup_delete_ne by done. repeat case_decide; set_solver.
  - intros Hu x. rewrite (Hp Hu), (Hp1 (Hu h k)). destruct (decide (x = P n)) as [->|].
    + rewrite lookup_delete_eq. by repeat case_decide; set_solver.
    + rewrite lookup_delete_ne by done. repeat case_decide; set_solver.
Qed.

(** The whole table at once. *)
Lemma detachAll_spec P l k :
  (∀ n n', is_Some (links l !! n) → is_Some (links l !! n') → P n = P n' → n = n') →
  (∀ n h, links l !! n = Some h → ∃ o, v_handles (view k) !! h = Some (o, Some (P n))) →
  ∃ k', detachAll (l, k) = ((set_attached (set_links l ∅) [], k'), Ok tt) ∧
    (∀ n h, links l !! n = Some h → v_handles (view k') !! h = None) ∧
    (∀ h, (∀ n, links l !! n ≠ Some h) → v_handles (view k') !! h = v_handles (view k) !! h) ∧
    (unpin_works →
       (∀ n h, links l !! n = Some h → v_pins (view k') !! P n = None) ∧
       (∀ p, (∀ n h, links l !! n = Some h → P n ≠ p) →
             v_pins (view k') !! p = v_pins (view k) !! p)).
Proof.
  intros Hinj Hpin. pose proof (range_links_spec (links l)) as Hperm.
  remember (range_links (links l)) as ls eqn:Els.
  assert (∀ n h, (n, h) ∈ ls ↔ links l !! n = Some h) as Hin.
  { intros n h. by rewrite Hperm, elem_of_map_to_list. }
  destruct (detach_loop P ls l k) as (l' & k' & Hr & Hl & Hn & Hh & Hp).
  { apply NoDup_fmap_2_strong.
    - intros [n h] [n' h'] Hx%Hin Hy%Hin. simpl. intros ->.
      destruct (Hpin _ _ Hx) as [o Ho]. destruct (Hpin _ _ Hy) as [o' Ho'].
      f_equal. apply Hinj; [by eauto|by eauto|]. congruence.
    - rewrite Hperm. apply NoDup_map_to_list. }
  { intros n h Hx%Hin. by apply Hpin. }
  assert (links l' = ∅) as Hempty.
  { apply map_empty. intros n. rewrite Hn. case_decide as Hd; [done|].
    destruct (links l !! n) as [h|] eqn:E; [|done]. destruct Hd.
    apply Hin in E. by apply (list_elem_of_fmap_2 fst) in E. }
  exists k'. split.
  { unfold detachAll. unfold mbnd at 1. simpl. rewrite <- Els.
    rewrite (mbnd_run _ _ _ _ _ Hr). unfold mod_l, mmod. by rewrite Hl, Hempty. }
  split; [|split].
  - intros n h Hx%Hin. rewrite Hh, decide_True; [done|].
    by apply (list_elem_of_fmap_2 snd) in Hx.
  - intros h Hx. rewrite Hh, decide_False; [done|].
    intros ([n h'] & -> & Hy%Hin)%list_elem_of_fmap. by apply (Hx n).
  - intros Hu. split.
    + intros n h Hx%Hin. rewrite (Hp Hu), decide_True; [done|].
      apply (list_elem_of_fmap_2 fst) in Hx. by apply list_elem_of_fmap_2.
    + intros p Hx. rewrite (Hp Hu), decide_False; [done|].
      intros (n & -> & ([n' h] & -> & Hy%Hin)%list_elem_of_fmap)%list_elem_of_fmap.
      by apply (Hx n' h).
Qed.
End detach.

(** ** The loop of [AttachAll] *)

Section all.
Context {K Prog Lnk Obj : Type} `{Ebpf K Prog Lnk} `{Countable Lnk} `{!EbpfLaws K Prog Lnk Obj}
  `{ErrnoText}.
Implicit Types (l : Loader Prog Lnk) (k : K).

(** What [load] returns: nothing attached yet, and every program of the
    collection is named in the specification by a plain identifier. *)
Definition fresh_loader l : Prop :=
  links l = ∅ ∧ attached l = [] ∧ missing l = [] ∧ linkDir l ≠ "" ∧
  ∀ n prog, coll l !! n = Some prog → plain_name n ∧ is_Some (spec_Programs (spec l) !! n).

Definition is_mirror l (n : string) : Prop :=
  ∃ ps, spec_Programs (spec l) !! n = Some ps ∧ ps_Type ps = Kprobe.

(** [AttachAll] from [(l0, k0)] reached this program and could not attach it. *)
Definition failed_at l0 k0 (n : string) : Prop :=
  ∃ p1 s1 e, p1 ++ [n] `prefix_of` program_names l0 ∧ mfor p1 attach_step (l0, k0) = (s1, Ok tt) ∧
             snd (attachOne n s1) = Err e.

(** The program's link is in the table, open, and pinned at the program's path;
    it was there before, or it is new and runs the program. *)
Definition hooked l0 k0 k (n : string) (h : Lnk) : Prop :=
  v_handles (view k0) !! h = None ∧ ∃ o,
    v_handles (view k) !! h = Some (o, Some (link_path l0 n)) ∧
    v_pins (view k) !! link_path l0 n = Some o ∧
    (v_pins (view k0) !! link_path l0 n = Some o ∨
     v_pins (view k0) !! link_path l0 n = None ∧ coll l0 !! n = Some (obj_prog o)).

Definition static l0 l : Prop := coll l = coll l0 ∧ spec l = spec l0 ∧ linkDir l = linkDir l0.

Record attach_inv l0 k0 (pre : list string) l k : Prop := mkAttachInv {
  ai_static : static l0 l;
  ai_link n h : links l !! n = Some h → n ∈ pre ∧ hooked l0 k0 k n h;
  ai_pre n : n ∈ pre →
    is_Some (links l !! n) ∨ links l !! n = None ∧ is_mirror l0 n ∧ failed_at l0 k0 n;
  ai_handles h : (∀ n, links l !! n ≠ Some h) → v_handles (view k) !! h = v_handles (view k0) !! h;
  ai_pins p : (∀ n h, links l !! n = Some h → link_path l0 n ≠ p) →
              v_pins (view k) !! p = v_pins (view k0) !! p;
  ai_count : (length (attached l) + length (missing l))%nat = length pre
}.

Lemma link_path_inj l n n' p p' :
  fresh_loader l → coll l !! n = Some p → coll l !! n' = Some p' →
  link_path l n = link_path l n' → n = n'.
Proof.
  intros (_ & _ & _ & Hd & Hn) Hp Hp'. apply filepath_Join_inj; [done| |].
  - apply (Hn _ _ Hp).
  - apply (Hn _ _ Hp').
Qed.

Lemma program_names_elem l n : n ∈ program_names l ↔ is_Some (coll l !! n).
Proof.
  unfold program_names, sort_Strings. rewrite merge_sort_Permutation. split.
  - intros ([n' p] & -> & Hp%elem_of_map_to_list)%list_elem_of_fmap. by eauto.
  - intros [p Hp%elem_of_map_to_list]. by apply (list_elem_of_fmap_2 fst) in Hp.
Qed.
Lemma program_names_NoDup l : NoDup (program_names l).
Proof.
  unfold program_names, sort_Strings. rewrite merge_sort_Permutation. apply NoDup_fst_map_to_list.
Qed.
Lemma length_sort_Strings (ss : list string) : length (sort_Strings ss) = length ss.
Proof. unfold sort_Strings. by rewrite merge_sort_Permutation. Qed.
Lemma program_names_length l : length (program_names l) = ProgramCount l.
Proof.
  unfold program_names, ProgramCount. rewrite length_sort_Strings.
  by rewrite length_fmap, length_map_to_list.
Qed.

(** A program not seen yet shares neither name, handle nor path with a link. *)
Lemma attach_inv_old l0 k0 pre l k name prog h :
  fresh_loader l0 → (∀ n, n ∈ pre → is_Some (coll l0 !! n)) →
  attach_inv l0 k0 pre l k → name ∉ pre → coll l0 !! name = Some prog →
  v_handles (view k) !! h = None →
  ∀ n x, links l !! n = Some x →
    n ∈ pre ∧ n ≠ name ∧ x ≠ h ∧ link_path l0 n ≠ link_path l0 name.
Proof.
  intros Hf Hcoll I Hname Hprog Hh n x Hx.
  destruct (ai_link _ _ _ _ _ I _ _ Hx) as (Hn & _ & o' & Ho' & _).
  assert (n ≠ name) by (by intros ->). split; [done|]. split; [done|]. split.
  - intros ->. congruence.
  - destruct (Hcoll _ Hn) as [p' Hp2]. by intros ?%(link_path_inj _ _ _ _ _ Hf Hp2 Hprog).
Qed.

(** A program attaches: the invariant extends. *)
Lemma attach_inv_hook l0 k0 pre l k name ps prog h o k' :
  fresh_loader l0 → (∀ n, n ∈ pre → is_Some (coll l0 !! n)) →
  attach_inv l0 k0 pre l k → name ∉ pre → known l0 name ps prog →
  attached_view (link_path l0 name) prog h o (view k) (view k') →
  attach_inv l0 k0 (pre ++ [name])
    (set_attached (set_links l (<[name := h]> (links l))) (attached l ++ [SectionName ps])) k'.
Proof.
  intros Hf Hcoll I Hname [Hps Hprog] (Hh & Hh' & Hp').
  pose proof (attach_inv_old _ _ _ _ _ _ _ _ Hf Hcoll I Hname Hprog Hh) as Hold.
  assert (links l !! name = None) as Hnew.
  { destruct (links l !! name) as [x|] eqn:E; [|done]. by destruct (Hold _ _ E) as (_ & ? & _). }
  assert (∀ p, p ≠ link_path l0 name → v_pins (view k') !! p = v_pins (view k) !! p) as Hpins.
  { intros p Hp. destruct Hp' as [[-> _]|[-> _]]; [done|]. by rewrite lookup_insert_ne. }
  assert (v_pins (view k') !! link_path l0 name = Some o) as Hpo.
  { destruct Hp' as [[-> ?]|[-> _]]; [done|]. by rewrite lookup_insert_eq. }
  assert (v_pins (view k) !! link_path l0 name = v_pins (view k0) !! link_path l0 name) as Hpsame.
  { apply (ai_pins _ _ _ _ _ I). intros n x Hx. apply (Hold _ _ Hx). }
  assert (v_handles (view k0) !! h = None) as Hh0.
  { rewrite <- (ai_handles _ _ _ _ _ I h); [done|]. intros n Hx. by destruct (Hold _ _ Hx) as (_ & _ & ? & _). }
  split; simpl.
  - apply I.
  - intros n x. rewrite elem_of_snoc. destruct (decide (n = name)) as [->|Hne].
    + rewrite lookup_insert_eq. intros [= <-]. split; [by right|]. split; [done|].
      exists o. rewrite Hh', lookup_insert_eq. split; [done|]. split; [done|].
      rewrite <- Hpsame. destruct Hp' as [[_ ?]|(_ & ? & <-)]; [by left|by right].
    + rewrite lookup_insert_ne by done. intros Hx.
      destruct (Hold _ _ Hx) as (Hn & _ & Hxh & Hpath).
      destruct (ai_link _ _ _ _ _ I _ _ Hx) as (_ & Hx0 & o' & Hx1 & Hx2 & Hx3).
      split; [by left|]. split; [done|]. exists o'.
      rewrite Hh', lookup_insert_ne by done. by rewrite Hpins.
  - intros n. rewrite elem_of_snoc. destruct (decide (n = name)) as [->|Hne].
    + rewrite lookup_insert_eq. by eauto.
    + rewrite lookup_insert_ne by done. intros [Hn|?]; [|done]. by apply (ai_pre _ _ _ _ _ I).
  - intros x Hx. assert (x ≠ h) as Hxh.
    { intros ->. apply (Hx name). by rewrite lookup_insert_eq. }
    rewrite Hh', lookup_insert_ne by done. apply (ai_handles _ _ _ _ _ I).
    intros n Hn. apply (Hx n). rewrite lookup_insert_ne; [done|].
    intros <-. congruence.
  - intros p Hp. assert (p ≠ link_path l0 name) as Hpn.
    { intros ->. apply (Hp name h); [by rewrite lookup_insert_eq|done]. }
    rewrite Hpins by done. apply (ai_pins _ _ _ _ _ I). intros n x Hn. apply (Hp n x).
    rewrite lookup_insert_ne; [done|]. intros <-. congruence.
  - rewrite !length_app. simpl. pose proof (ai_count _ _ _ _ _ I). lia.
Qed.

(** A mirror does not attach: it is noted, nothing else changes. *)
Lemma attach_inv_missing l0 k0 pre l k name k' msg :
  attach_inv l0 k0 pre l k → name ∉ pre → is_mirror l0 name → failed_at l0 k0 name → view k' = view k →
  attach_inv l0 k0 (pre ++ [name]) (set_missing l (missing l ++ [msg])) k'.
Proof.
  intros I Hname Hm Hfl Hv. split; unfold hooked; simpl; rewrite ?Hv.
  - apply I.
  - intros n h Hx. destruct (ai_link _ _ _ _ _ I _ _ Hx) as [Hn Hh]. split; [|done].
    apply elem_of_snoc. by left.
  - intros n [Hn| ->]%elem_of_snoc; [by apply (ai_pre _ _ _ _ _ I)|]. right. split; [|done].
    destruct (links l !! name) as [h|] eqn:E; [|done].
    by destruct (ai_link _ _ _ _ _ I _ _ E).
  - apply I.
  - apply I.
  - rewrite !length_app. simpl. pose proof (ai_count _ _ _ _ _ I). lia.
Qed.

(** Everything done so far is undone: what was attached is unpinned, mirrors
    included, and a mirror that could not be attached has its path as it was. *)
Definition undone l0 k0 (pre : list string) l k : Prop :=
  links l = ∅ ∧ attached l = [] ∧ v_handles (view k) = v_handles (view k0) ∧
  (unpin_works →
     (∀ n, n ∈ pre →
        v_pins (view k) !! link_path l0 n = None ∨
        is_mirror l0 n ∧ failed_at l0 k0 n ∧
        v_pins (view k) !! link_path l0 n = v_pins (view k0) !! link_path l0 n) ∧
     (∀ p, p ∉ link_path l0 <$> pre → v_pins (view k) !! p = v_pins (view k0) !! p)).

Lemma detachAll_undone l0 k0 pre l k :
  fresh_loader l0 → (∀ n, n ∈ pre → is_Some (coll l0 !! n)) →
  attach_inv l0 k0 pre l k →
  ∃ l' k', detachAll (l, k) = ((l', k'), Ok tt) ∧ undone l0 k0 pre l' k'.
Proof.
  intros Hf Hcoll I. destruct (detachAll_spec (link_path l0) l k) as (k' & Hr & Hh & Hh' & Hp).
  { intros n n' [h Hx] [h' Hx'] E.
    destruct (ai_link _ _ _ _ _ I _ _ Hx) as [Hn _]. destruct (ai_link _ _ _ _ _ I _ _ Hx') as [Hn' _].
    destruct (Hcoll _ Hn) as [p ?]. destruct (Hcoll _ Hn') as [p' ?].
    by eapply link_path_inj. }
  { intros n h Hx. destruct (ai_link _ _ _ _ _ I _ _ Hx) as (_ & _ & o & Ho & _). by exists o. }
  exists (set_attached (set_links l ∅) []), k'. split; [done|]. split; [done|]. split; [done|]. split.
  - apply map_eq. intros h. destruct (v_handles (view k) !! h) as [x|] eqn:E.
    + destruct (decide (map_Exists (λ _ h', h' = h) (links l))) as [(n & h' & Hx & ->)|Hno].
      * rewrite (Hh _ _ Hx). by destruct (ai_link _ _ _ _ _ I _ _ Hx) as (_ & -> & _).
      * assert (∀ n, links l !! n ≠ Some h) as Hno'.
        { intros n Hn. apply Hno. by exists n, h. }
        by rewrite Hh', (ai_handles _ _ _ _ _ I).
    + assert (∀ n, links l !! n ≠ Some h) as Hno.
      { intros n Hn. destruct (ai_link _ _ _ _ _ I _ _ Hn) as (_ & _ & o & Ho & _). congruence. }
      by rewrite Hh', (ai_handles _ _ _ _ _ I).
  - intros [Hgone Hsame]%Hp. split.
    + intros n Hn. destruct (ai_pre _ _ _ _ _ I n Hn) as [[h Hx]|(Hx & Hm & Hfl)]; [left; by eapply Hgone|].
      right. split; [done|]. split; [done|].
      assert (∀ n' h, links l !! n' = Some h → link_path l0 n' ≠ link_path l0 n) as Hno.
      { intros n' h Hx' E. destruct (ai_link _ _ _ _ _ I _ _ Hx') as [Hn' _].
        destruct (Hcoll _ Hn) as [p ?]. destruct (Hcoll _ Hn') as [p' ?].
        assert (n' = n) as -> by (by eapply link_path_inj). congruence. }
      by rewrite Hsame, (ai_pins _ _ _ _ _ I).
    + intros p Hp'. assert (∀ n h, links l !! n = Some h → link_path l0 n ≠ p) as Hno.
      { intros n h Hx <-. apply Hp', list_elem_of_fmap_2. apply (ai_link _ _ _ _ _ I _ _ Hx). }
      by rewrite Hsame, (ai_pins _ _ _ _ _ I).
Qed.

Lemma attach_step_spec l0 k0 pre l k name :
  fresh_loader l0 → (∀ n, n ∈ pre → is_Some (coll l0 !! n)) →
  attach_inv l0 k0 pre l k → name ∉ pre → is_Some (coll l0 !! name) →
  pre ++ [name] `prefix_of` program_names l0 → mfor pre attach_step (l0, k0) = ((l, k), Ok tt) →
  match attach_step name (l, k) with
  | ((l', k'), Ok _) => attach_inv l0 k0 (pre ++ [name]) l' k'
  | ((l', k'), Err e) => undone l0 k0 pre l' k' ∧ ¬ is_mirror l0 name ∧
                         ∃ e', e = EWrap (name +:+ ": ") e'
  | (_, Panic _) => False
  end.
Proof.
  intros Hf Hcoll I Hname [prog Hprog] Hpre Hrun.
  destruct (proj2 (proj2 (proj2 (proj2 Hf))) _ _ Hprog) as [_ [ps Hps]].
  destruct (ai_static _ _ _ _ _ I) as (Ec & Es & Ed).
  assert (known l name ps prog) as Hk by (split; congruence).
  pose proof (attachOne_spec name l k ps prog Hk) as Hone.
  unfold attach_step, mtry. unfold mbnd at 1.
  destruct (attachOne name (l, k)) as [[l1 k1] [[]|e|x]] eqn:Eo; [| |done].
  - destruct Hone as (h & o & -> & Hv). simpl. apply (attach_inv_hook l0 k0 pre l k name ps prog h o); try done.
    unfold link_path in *. by rewrite Ed in Hv.
  - destruct Hone as [-> Hv]. unfold mbnd at 1. simpl. rewrite Es, Hps. unfold mbnd at 1. simpl.
    case_bool_decide as Ht.
    + apply (attach_inv_missing l0 k0 pre l k name k1); try done; [by exists ps|].
      exists pre, (l, k), e. split; [done|]. split; [done|]. by rewrite Eo.
    + unfold mbnd. destruct (detachAll_undone l0 k0 pre l k1) as (l' & k' & -> & Hu); [done|done| |].
      { destruct I. split; unfold hooked; rewrite ?Hv; done. }
      split; [done|]. split; [|by eauto]. intros (ps' & Hps' & Ht'). congruence.
Qed.

Lemma attach_loop l0 k0 suf pre l k :
  fresh_loader l0 → pre ++ suf = program_names l0 → mfor pre attach_step (l0, k0) = ((l, k), Ok tt) →
  attach_inv l0 k0 pre l k →
  match mfor suf attach_step (l, k) with
  | ((l', k'), Ok _) => attach_inv l0 k0 (pre ++ suf) l' k'
  | ((l', k'), Err e) => ∃ pre' name post,
      pre ++ suf = pre' ++ name :: post ∧ undone l0 k0 pre' l' k' ∧ ¬ is_mirror l0 name ∧
      ∃ e', e = EWrap (name +:+ ": ") e'
  | (_, Panic _) => False
  end.
Proof.
  intros Hf. revert pre l k. induction suf as [|name suf IH]; intros pre l k Hall Hrun I.
  { simpl. by rewrite app_nil_r. }
  assert (∀ n, n ∈ pre ++ name :: suf → is_Some (coll l0 !! n)) as Hcoll.
  { intros n. rewrite Hall. apply program_names_elem. }
  assert (NoDup (pre ++ name :: suf)) as Hnd by (rewrite Hall; apply program_names_NoDup).
  simpl. unfold mbnd at 1.
  assert (name ∉ pre) as Hname.
  { intros Hn. apply NoDup_app in Hnd as (_ & Hd & _). apply (Hd name Hn). set_solver. }
  assert (pre ++ [name] `prefix_of` program_names l0) as Hpre.
  { exists suf. rewrite <- Hall. by rewrite <- (assoc_L (++)). }
  pose proof (attach_step_spec l0 k0 pre l k name Hf ltac:(set_solver) I Hname ltac:(set_solver) Hpre Hrun) as Hs.
  destruct (attach_step name (l, k)) as [[l1 k1] [[]|e|x]] eqn:Es; [| |done].
  - rewrite cons_middle, app_assoc in Hall |- *. apply IH; [done| |done].
    rewrite mfor_app. rewrite (mbnd_run _ _ _ _ _ Hrun). simpl. by rewrite (mbnd_run _ _ _ _ _ Es).
  - exists pre, name, suf. done.
Qed.

(** [AttachAll] to its end. *)
Lemma attach_all_inv l l' k k' :
  fresh_loader l → AttachAll (l, k) = ((l', k'), Ok tt) → attach_inv l k (program_names l) l' k'.
Proof.
  intros Hf. unfold AttachAll. unfold mbnd at 1. simpl. unfold mbnd at 1.
  pose proof (attach_loop l k (program_names l) [] l k Hf) as Hloop. simpl in Hloop.
  specialize (Hloop eq_refl eq_refl).
  pose proof Hf as (E1 & E2 & E3 & _).
  destruct (mfor _ _ _) as [[l1 k1] [[]|e|x]] eqn:Er; [|done|done].
  assert (attach_inv l k (program_names l) l1 k1) as I.
  { apply Hloop. split; rewrite ?E1, ?E2, ?E3; try done. by intros n; rewrite elem_of_nil. }
  unfold mod_l, mmod, mbnd. intros [= <- <-]. destruct I. split; simpl; [done..|].
  by rewrite !length_sort_Strings.
Qed.
Lemma attach_all_ok l l' k k' :
  fresh_loader l → AttachAll (l, k) = ((l', k'), Ok tt) →
  (∀ n, is_Some (coll l !! n) →
     (∃ h, links l' !! n = Some h ∧ hooked l k k' n h) ∨
     links l' !! n = None ∧ is_mirror l n ∧ failed_at l k n) ∧
  (length (AttachedHooks l') + length (MissingMirrors l'))%nat = ProgramCount l' ∧
  coll l' = coll l ∧ spec l' = spec l.
Proof.
  intros Hf E. pose proof (attach_all_inv _ _ _ _ Hf E) as I. split.
  - intros n Hn%program_names_elem. destruct (ai_pre _ _ _ _ _ I n Hn) as [[h Hh]|?]; [|by right].
    left. exists h. split; [done|]. apply (ai_link _ _ _ _ _ I _ _ Hh).
  - unfold AttachedHooks, MissingMirrors. rewrite (ai_count _ _ _ _ _ I), program_names_length.
    destruct (ai_static _ _ _ _ _ I) as (Ec & Es & _). unfold ProgramCount. by rewrite Ec.
Qed.

(** ** [Detach] *)

Lemma detach_each_run ls errs s s' :
  mfor ls detach_one s = (s', Ok tt) → ∃ es, detach_each ls errs s = (s', Ok es).
Proof.
  revert errs s. induction ls as [|[n h] ls IH]; intros errs s; cbn [mfor detach_each]; [intros [= <-]; by eexists|].
  intros (s3 & [] & E & Hr)%mbnd_ok. unfold detach_one in E.
  apply mbnd_ok in E as (s1 & r1 & E1 & E). apply mbnd_ok in E as (s2 & r2 & E2 & E3).
  rewrite (mbnd_run _ _ _ _ _ E1), (mbnd_run _ _ _ _ _ E2), (mbnd_run _ _ _ _ _ E3). by apply IH.
Qed.
(** [Detach] leaves what [detachAll] leaves; its errors are only collected. *)
Lemma Detach_run l k s : detachAll (l, k) = (s, Ok tt) → ∃ e, Detach (l, k) = (s, Ok e).
Proof.
  intros (s0 & s1 & [= <- <-] & E)%mbnd_ok. apply mbnd_ok in E as (s2 & [] & E & Em).
  destruct (detach_each_run _ [] _ _ E) as [es Ees]. unfold Detach. unfold mbnd at 1. simpl.
  rewrite (mbnd_run _ _ _ _ _ Ees), (mbnd_run _ _ _ _ _ Em). by eexists.
Qed.

(** ** [Close] *)

Lemma close_each_view ls errs l k :
  ∃ k' es, close_each ls errs (l, k) = ((l, k'), Ok es) ∧ v_pins (view k') = v_pins (view k) ∧
    ∀ h, v_handles (view k') !! h = if decide (h ∈ ls.*2) then None else v_handles (view k) !! h.
Proof.
  revert errs k. induction ls as [|[n h] ls IH]; intros errs k; simpl.
  { by exists k, errs. }
  destruct (CloseLink_spec h k) as [Hv Hp].
  assert (∃ es, close_one errs h (l, k) = ((l, fst (CloseLink h k)), Ok es)) as [es E].
  { unfold close_one, mbnd, mtry, kop. destruct (CloseLink h k) as [k1 [[]|e|x]]; [by eauto|by eauto|].
    by destruct (Hp x). }
  rewrite (mbnd_run _ _ _ _ _ E). destruct (IH es (fst (CloseLink h k))) as (k' & es' & Er & Hpins & Hh).
  exists k', es'. split; [done|]. split; [by rewrite Hpins, Hv|]. intros x. rewrite Hh, Hv. simpl.
  destruct (decide (x = h)) as [->|].
  - rewrite lookup_delete_eq. by repeat case_decide; set_solver.
  - rewrite lookup_delete_ne by done. repeat case_decide; set_solver.
Qed.

(** The handles beyond those of [k0] are the links in the table. *)
Definition only_links k0 l k : Prop :=
  (∀ h, (∀ n, links l !! n ≠ Some h) → v_handles (view k) !! h = v_handles (view k0) !! h) ∧
  (∀ n h, links l !! n = Some h → v_handles (view k0) !! h = None).

Lemma Close_restores k0 l k :
  only_links k0 l k → (∀ fd k, view (CloseCollection fd k) = view k) →
  ∃ k' e, Close (l, k) = ((set_links l ∅, k'), Ok e) ∧
    v_handles (view k') = v_handles (view k0) ∧ v_pins (view k') = v_pins (view k).
Proof.
  intros [Ho Hn] Hc. unfold Close. unfold mbnd at 1. simpl.
  destruct (close_each_view (range_links (links l)) [] l k) as (k1 & es & E & Hp & Hh).
  rewrite (mbnd_run _ _ _ _ _ E). eexists (CloseCollection (collFd l) k1), _. split; [done|].
  rewrite !Hc. split; [|done]. apply map_eq. intros h.
  assert (h ∈ (range_links (links l)).*2 ↔ h ∈ (map_to_list (links l)).*2) as Hin
    by (by rewrite range_links_spec).
  rewrite Hh. case_decide as Hd; rewrite Hin in Hd.
  - apply list_elem_of_fmap in Hd as ([n h'] & -> & Hx%elem_of_map_to_list). simpl. by rewrite (Hn _ _ Hx).
  - apply Ho. intros n Hx%elem_of_map_to_list. apply Hd. by apply (list_elem_of_fmap_2 snd) in Hx.
Qed.

(** The links of the table are open, each on a link pinned at its own path. *)
Definition links_pinned l0 l k : Prop :=
  (∀ n n', is_Some (links l !! n) → is_Some (links l !! n') → link_path l0 n = link_path l0 n' → n = n') ∧
  (∀ n h, links l !! n = Some h → ∃ o, v_handles (view k) !! h = Some (o, Some (link_path l0 n))).
Lemma attach_all_pinned l l' k k' :
  fresh_loader l → AttachAll (l, k) = ((l', k'), Ok tt) → links_pinned l l' k'.
Proof.
  intros Hf E. pose proof (attach_all_inv _ _ _ _ Hf E) as I. split.
  - intros n n' [h Hx] [h' Hx'] Ep.
    destruct (ai_link _ _ _ _ _ I _ _ Hx) as [[p Hp]%program_names_elem _].
    destruct (ai_link _ _ _ _ _ I _ _ Hx') as [[p' Hp']%program_names_elem _]. by eapply link_path_inj.
  - intros n h Hx. destruct (ai_link _ _ _ _ _ I _ _ Hx) as (_ & _ & o & Ho & _). by exists o.
Qed.
Lemma Detach_restores k0 l0 l k :
  only_links k0 l k → links_pinned l0 l k →
  ∃ l' k' e, Detach (l, k) = ((l', k'), Ok e) ∧ links l' = ∅ ∧
    v_handles (view k') = v_handles (view k0) ∧
    (unpin_works → ∀ n, is_Some (links l !! n) → v_pins (view k') !! link_path l0 n = None).
Proof.
  intros [Ho Hn] [Hinj Hpin]. destruct (detachAll_spec (link_path l0) l k Hinj Hpin) as (k' & E & Hg & Hs & Hp).
  destruct (Detach_run _ _ _ E) as [e Ed]. eexists _, k', e. split; [done|]. split; [done|]. split.
  - apply map_eq. intros h. destruct (decide (map_Exists (λ _ h', h' = h) (links l))) as [(n & h' & Hx & ->)|Hno].
    + by rewrite (Hg _ _ Hx), (Hn _ _ Hx).
    + assert (∀ n, links l !! n ≠ Some h) as Hno' by (intros n Hx; apply Hno; by exists n, h).
      by rewrite Hs, Ho.
  - intros Hu n [h Hx]. by eapply Hp.
Qed.

Lemma fresh_only_links l k : fresh_loader l → only_links k l k.
Proof. intros (Hl & _). split; [done|]. intros n h. by rewrite Hl, lookup_empty. Qed.

(** Whatever [AttachAll] returns, the table has every handle it opened. *)
Lemma attach_all_links l l' k k' r :
  fresh_loader l → AttachAll (l, k) = ((l', k'), r) → (∀ x, r ≠ Panic x) ∧ only_links k l' k'.
Proof.
  intros Hf. unfold AttachAll. unfold mbnd at 1. simpl. unfold mbnd at 1.
  pose proof (attach_loop l k (program_names l) [] l k Hf) as Hloop. simpl in Hloop.
  specialize (Hloop eq_refl eq_refl).
  pose proof Hf as (E1 & E2 & E3 & _).
  assert (attach_inv l k [] l k) as I0.
  { split; rewrite ?E1, ?E2, ?E3; try done. by intros n; rewrite elem_of_nil. }
  specialize (Hloop I0).
  destruct (mfor _ _ _) as [[l1 k1] [[]|e|x]] eqn:Er; [| |done].
  - unfold mod_l, mmod, mbnd. intros [= <- <- <-]. split; [done|]. split; simpl.
    + apply (ai_handles _ _ _ _ _ Hloop).
    + intros n h Hx. by apply (ai_link _ _ _ _ _ Hloop) in Hx as (_ & ? & _).
  - intros [= <- <- <-]. split; [done|]. destruct Hloop as (pre & name & post & _ & (Hl & _ & Hh & _) & _).
    split; [by rewrite Hh|]. intros n h. by rewrite Hl, lookup_empty.
Qed.
End all.

(** ** The retry loop of [load] *)

Section retry.
Context {K Prog Lnk : Type} `{Ebpf K Prog Lnk} `{ErrnoText}.
Variables (pinDir source : string) (loadSpec : M K CollectionSpec).

(** One attempt: read the object, create the collection with its maps pinned. *)
Inductive try_load (k : K) : K → CollectionSpec * (gmap string Prog * nat) + error → Prop :=
  | try_ok s k1 k2 c :
      loadSpec k = (k1, Ok s) → NewCollectionWithOptions (pin_maps s) pinDir k1 = (k2, Ok c) →
      try_load k k2 (inl (pin_maps s, c))
  | try_err s k1 k2 e :
      loadSpec k = (k1, Ok s) → NewCollectionWithOptions (pin_maps s) pinDir k1 = (k2, Err e) →
      try_load k k2 (inr e).

Definition retriable (e : error) : bool := negb (IsVerifierError e) && errors_Is e ErrExist.

(** [i] attempts in a row that failed because somebody else pinned first. *)
Inductive lost_races : nat → K → K → Prop :=
  | races_none k : lost_races 0 k k
  | races_one i k k1 k2 e :
      try_load k k1 (inr e) → retriable e = true → lost_races i k1 k2 → lost_races (S i) k k2.

Lemma load_loop_ok fuel i k k' sc :
  load_loop fuel i pinDir source loadSpec k = (k', Ok sc) →
  ∃ j k1, (j < fuel)%nat ∧ lost_races j k k1 ∧ try_load k1 k' (inl sc).
Proof.
  revert i k. induction fuel as [|fuel IH]; intros i k; [done|]. cbn [load_loop]. unfold mtry, mbnd.
  destruct (loadSpec k) as [k1 [s|e|x]] eqn:El; [|done|done].
  destruct (NewCollectionWithOptions _ _ k1) as [k2 [c|e|x]] eqn:En; [| |done].
  - intros [= <- <-]. exists 0%nat, k. split; [lia|]. split; [constructor|]. by econstructor.
  - destruct (IsVerifierError e) eqn:Ev; [done|].
    destruct (errors_Is e ErrExist) eqn:Ee; [|done]. destruct (i <? attempts - 1)%nat; [|done].
    intros (j & k3 & Hj & Hl & Ht)%IH. exists (S j), k3. split; [lia|]. split; [|done].
    econstructor; [by econstructor| |done]. unfold retriable. by rewrite Ev, Ee.
Qed.

(** The fuel is enough: the loop gives up on a lost race only after
    [attempts] of them. *)
Lemma load_loop_err fuel i k k' e :
  (fuel + i = attempts)%nat → fuel ≠ O →
  load_loop fuel i pinDir source loadSpec k = (k', Err (EWrap "로드: " e)) →
  retriable e = true → lost_races fuel k k'.
Proof.
  revert i k. induction fuel as [|fuel IH]; intros i k Hi Hf; [done|]. cbn [load_loop]. unfold mtry, mbnd.
  destruct (loadSpec k) as [k1 [s|e0|x]] eqn:El; [|done|done].
  destruct (NewCollectionWithOptions _ _ k1) as [k2 [c|e0|x]] eqn:En; [done| |done].
  destruct (IsVerifierError e0) eqn:Ev; [done|]. unfold retriable.
  destruct (errors_Is e0 ErrExist) eqn:Ee; cbn [andb].
  - destruct (Nat.ltb_spec i (attempts - 1)) as [Hlt|Hge]; intros Hr Hre.
    + econstructor; [by econstructor|unfold retriable; by rewrite Ev, Ee|].
      apply (IH (S i)); [unfold attempts in *; lia|unfold attempts in *; lia|exact Hr|exact Hre].
    + injection Hr as <- <-. assert (fuel = O) as -> by (unfold attempts in *; lia).
      econstructor; [by econstructor|unfold retriable; by rewrite Ev, Ee|constructor].
  - intros [= <- <-]. by rewrite Ee, andb_false_r.
Qed.

Lemma load_loop_no_fuel fuel i k :
  (fuel + i = attempts)%nat → fuel ≠ O →
  snd (load_loop fuel i pinDir source loadSpec k) = Panic "out of fuel" →
  ∃ k', snd (loadSpec k') = Panic "out of fuel" ∨
        ∃ s, snd (NewCollectionWithOptions s pinDir k') = Panic "out of fuel".
Proof.
  revert i k. induction fuel as [|fuel IH]; intros i k Hi Hf; [done|]. cbn [load_loop]. unfold mtry, mbnd.
  destruct (loadSpec k) as [k1 [s|e0|x]] eqn:El; [|done|].
  2: { intros [= ->]. exists k. rewrite El. by left. }
  destruct (NewCollectionWithOptions _ _ k1) as [k2 [c|e0|x]] eqn:En; [done| |].
  2: { intros [= ->]. exists k1. right. exists (pin_maps s). by rewrite En. }
  destruct (IsVerifierError e0) eqn:Ev; [done|].
  destruct (errors_Is e0 ErrExist) eqn:Ee; cbn [andb]; [|done].
  destruct (Nat.ltb_spec i (attempts - 1)) as [Hlt|Hge]; [|done].
  apply IH; unfold attempts in *; lia.
Qed.
End retry.

(** What a successful [load] hands to [AttachAll]. *)
Lemma load_ok {K Prog Lnk Obj} `{Ebpf K Prog Lnk} `{Countable Lnk}
    `{!EbpfLaws K Prog Lnk Obj} `{ErrnoText} dir source (loadSpec : M K CollectionSpec) k k' l :
  (∀ k1 k2 s n, loadSpec k1 = (k2, Ok s) → is_Some (spec_Programs s !! n) → plain_name n) →
  load dir source loadSpec k = (k', Ok l) →
  fresh_loader l ∧
  (∀ n m, spec_Maps (spec l) !! n = Some m → HasPrefix (ms_Name m) "." = false → ms_PinByName m = true) ∧
  ∃ j k1 k2, (j < attempts)%nat ∧ lost_races dir loadSpec j k1 k2 ∧
             try_load dir loadSpec k2 k' (inl (spec l, (coll l, collFd l))).
Proof.
  intros Hplain (k1 & [] & _ & (k2 & [] & _ & (k3 & [s [c fd]] & Hl & [= <- <-])%mbnd_ok)%mbnd_ok)%mbnd_ok.
  apply load_loop_ok in Hl as (j & k4 & Hj & Hrace & Ht). split; [|split].
  + inversion Ht as [s0 k5 k6 c0 Hs Hn|]; subst. split; [done|]. split; [done|]. split; [done|].
    split; [apply filepath_Join_nonempty; by right|]. intros n prog Hp. simpl in *.
    apply NewCollection_programs in Hn. cbn [fst] in Hn. assert (n ∈ dom c) as Hd by (apply elem_of_dom; by eauto).
    rewrite Hn in Hd. apply elem_of_dom in Hd. split; [|done]. by eapply Hplain.
  + inversion Ht as [s0 k5 k6 c0 Hs Hn|]; subst. simpl. intros n m.
    rewrite lookup_fmap. intros (m0 & _ & ->)%fmap_Some.
    destruct (HasPrefix (ms_Name m0) ".") eqn:E; [congruence|done].
  + exists j, k2, k4. done.
Qed.

(** What [load] opens: one collection, the loader's, if it succeeds. *)
Lemma load_loop_colls {K Prog Lnk Obj} `{Ebpf K Prog Lnk} `{Countable Lnk}
    `{!EbpfLaws K Prog Lnk Obj} `{ErrnoText} fuel i dir source (loadSpec : M K CollectionSpec) k :
  (∀ k, colls (fst (loadSpec k)) = colls k) →
  match load_loop fuel i dir source loadSpec k with
  | (k', Ok sc) => snd (snd sc) ∉ colls k ∧ colls k' = {[snd (snd sc)]} ∪ colls k
  | (k', _) => colls k' = colls k
  end.
Proof.
  intros Hs. revert i k. induction fuel as [|fuel IH]; intros i k; [done|]. cbn [load_loop]. unfold mtry, mbnd.
  specialize (Hs k). destruct (loadSpec k) as [k1 [s|e|x]]; [|done|done]. simpl in Hs.
  pose proof (NewCollection_open (pin_maps s) dir k1) as Hn.
  destruct (NewCollectionWithOptions _ _ k1) as [k2 [c|e|x]]; simpl; rewrite ?Hs in Hn; [done| |done].
  destruct (IsVerifierError e); [done|]. destruct (errors_Is e ErrExist && _)%bool; [|done].
  specialize (IH (S i) k2). rewrite Hn in IH. exact IH.
Qed.

(** * A small bpffs

    Programs are named by strings, link objects and handles are numbered. *)

Record fsk := mkFsk {
  fk_pins : gmap string (nat * string);
  fk_handles : gmap nat (nat * string * option string);
  fk_refused : list string;           (* programs the kernel does not attach *)
  fk_colls : gset nat
}.

Definition fsk_view (k : fsk) : lview nat (nat * string) := mkView (fk_pins k) (fk_handles k).
Definition fsk_handle (k : fsk) : nat := fresh (dom (fk_handles k)).
Definition fsk_object (k : fsk) : nat := fresh (list_to_set (C := gset nat) ((λ x, x.2.1) <$> map_to_list (fk_pins k))).

Definition fsk_attach (prog : string) : M fsk nat := λ k,
  if bool_decide (prog ∈ fk_refused k) then (k, Err (EErrno 22))
  else let h := fsk_handle k in
       (mkFsk (fk_pins k) (<[h := ((fsk_object k, prog), None)]> (fk_handles k)) (fk_refused k) (fk_colls k), Ok h).

#[export] Instance fsk_ebpf : Ebpf fsk string nat := {
  MkdirAll _ := mok tt;
  NewCollectionWithOptions s _ k :=
    let fd := fresh (fk_colls k) in
    (mkFsk (fk_pins k) (fk_handles k) (fk_refused k) ({[fd]} ∪ fk_colls k),
     Ok (map_imap (λ n _, Some n) (spec_Programs s), fd));
  IsVerifierError _ := false;
  LoadPinnedLink p k :=
    match fk_pins k !! p with
    | None => (k, Err (EWrap "open: " (EErrno ENOENT)))
    | Some o => let h := fsk_handle k in
                (mkFsk (fk_pins k) (<[h := (o, Some p)]> (fk_handles k)) (fk_refused k) (fk_colls k), Ok h)
    end;
  AttachLSM := fsk_attach;
  AttachTracing := fsk_attach;
  AttachKprobe _ := fsk_attach;
  Pin h p k :=
    match fk_handles k !! h, fk_pins k !! p with
    | Some (o, _), None =>
        (mkFsk (<[p := o]> (fk_pins k)) (<[h := (o, Some p)]> (fk_handles k)) (fk_refused k) (fk_colls k), Ok tt)
    | _, _ => (k, Err (EErrno EEXIST))
    end;
  Unpin h k :=
    match fk_handles k !! h with
    | Some (o, Some p) =>
        (mkFsk (base.delete p (fk_pins k)) (<[h := (o, None)]> (fk_handles k)) (fk_refused k) (fk_colls k), Ok tt)
    | _ => (k, Ok tt)
    end;
  CloseLink h k := (mkFsk (fk_pins k) (base.delete h (fk_handles k)) (fk_refused k) (fk_colls k), Ok tt);
  CloseCollection fd k := mkFsk (fk_pins k) (fk_handles k) (fk_refused k) (fk_colls k ∖ {[fd]});
  range_links := map_to_list
}.

Lemma fsk_handle_fresh k : fk_handles k !! fsk_handle k = None.
Proof. apply not_elem_of_dom. exact (is_fresh (dom (fk_handles k))). Qed.

Lemma fsk_attaches prog : attaches fsk_view snd prog (fsk_attach prog).
Proof.
  intros k. unfold fsk_attach. case_bool_decide; [done|].
  exists (fsk_object k, prog). split; [|split; [|done]].
  - apply fsk_handle_fresh.
  - intros p Hp%elem_of_map_to_list.
    apply (is_fresh (list_to_set (C := gset nat) ((λ x, x.2.1) <$> map_to_list (fk_pins k)))).
    apply elem_of_list_to_set, list_elem_of_fmap. by exists (p, (fsk_object k, prog)).
Qed.

#[export] Instance fsk_laws : EbpfLaws fsk string nat (nat * string).
Proof.
  refine {| view := fsk_view; obj_prog := snd; colls := fk_colls |}.
  - intros s dir k k' c [= <- <-]. simpl. apply set_eq. intros n. rewrite !elem_of_dom, map_lookup_imap.
    destruct (spec_Programs s !! n); simpl; split; intros [? ?]; by eauto.
  - intros s dir k. simpl. split; [apply is_fresh|done].
  - done.
  - intros p k. simpl. destruct (fk_pins k !! p) as [o|] eqn:E; [|done].
    exists o. split; [apply fsk_handle_fresh|done].
  - apply fsk_attaches.
  - apply fsk_attaches.
  - intros sym. apply fsk_attaches.
  - intros h p k o q Hh. simpl in *. rewrite Hh. by destruct (fk_pins k !! p).
  - intros h k o p Hh. simpl in *. by rewrite Hh.
  - done.
  - done.
Defined.

Definition demo_programs : gmap string ProgramSpec :=
  list_to_map [("exec", mkProgramSpec "lsm/bprm_check_security" "" LSM);
               ("fork", mkProgramSpec "tp_btf/sched_process_fork" "" Tracing);
               ("open", mkProgramSpec "lsm/file_open" "" LSM);
               ("mirror", mkProgramSpec "kprobe/security_file_open" "" Kprobe)].
Definition demo_object : CollectionSpec :=
  mkCollectionSpec (list_to_map [("warrants", mkMapSpec "warrants" false); (".rodata", mkMapSpec ".rodata" false)])
    demo_programs.
Definition demo_loader : Loader string nat :=
  mkLoader (map_imap (λ n _, Some n) demo_programs) 0 (pin_maps demo_object)
    "/sys/fs/bpf/warrant" "/sys/fs/bpf/warrant/links" ∅ [] [].
(** bpffs with one link a previous run left, and a kernel that refuses some
    programs. *)
Definition demo_bpffs (refused : list string) : fsk :=
  mkFsk {["/sys/fs/bpf/warrant/links/exec" := (0%nat, "exec")]} ∅ refused ∅.

Lemma demo_loader_fresh : fresh_loader demo_loader.
Proof.
  split; [done|]. split; [done|]. split; [done|]. split; [done|].
  intros n prog. cbn [coll demo_loader]. rewrite map_lookup_imap.
  cbn [spec demo_loader pin_maps spec_Programs demo_object].
  intros Hn. assert (is_Some (demo_programs !! n)) as Hs by (by destruct (demo_programs !! n)).
  split; [|done]. apply elem_of_dom in Hs. revert n Hn Hs.
  assert (Forall plain_name (elements (dom demo_programs))) as Hall.
  { apply Forall_forall.
    assert (forallb (λ n, bool_decide (plain_name n)) (elements (dom demo_programs)) = true) as Hb
      by (vm_compute; reflexivity).
    rewrite forallb_forall in Hb. intros x Hx%list_elem_of_In.
    exact (bool_decide_eq_true_1 _ (Hb x Hx)). }
  intros n _ Hn. rewrite Forall_forall in Hall. apply Hall. by apply elem_of_elements.
Qed.

(** * Properties *)

(** [AttachAll] succeeds only with every program but a kprobe mirror hooked:
    its link is open and pinned under its own name in the link directory; a link
    a previous run pinned there is picked up, no second one is attached, and
    otherwise the pinned link is new and runs that program.  Attached and missing
    together make up every program, so a missing LSM hook is never silent. *)
Theorem attach_covers_programs {K Prog Lnk Obj} `{Ebpf K Prog Lnk} `{Countable Lnk}
    `{!EbpfLaws K Prog Lnk Obj} `{ErrnoText} (l l' : Loader Prog Lnk) (k k' : K) :
  fresh_loader l → AttachAll (l, k) = ((l', k'), Ok tt) →
  (∀ n, is_Some (coll l !! n) →
     (∃ h, links l' !! n = Some h ∧ hooked l k k' n h) ∨
     links l' !! n = None ∧ is_mirror l n ∧ failed_at l k n) ∧
  (length (AttachedHooks l') + length (MissingMirrors l'))%nat = ProgramCount l' ∧
  coll l' = coll l ∧ spec l' = spec l.
Proof. apply attach_all_ok. Qed.

Lemma attach_covers_programs_witness :
  ∃ l' k', AttachAll (demo_loader, demo_bpffs ["mirror"]) = ((l', k'), Ok tt) ∧
    (length (AttachedHooks l') + length (MissingMirrors l'))%nat = ProgramCount l' ∧
    coll l' = coll demo_loader ∧ spec l' = spec demo_loader.
Proof.
  assert (snd (AttachAll (demo_loader, demo_bpffs ["mirror"])) = Ok tt) as Hr by (vm_compute; reflexivity).
  apply run_named in Hr. destruct (fst (AttachAll _)) as [l' k'] eqn:E. exists l', k'.
  exact (conj Hr (proj2 (attach_covers_programs _ _ _ _ demo_loader_fresh Hr))).
Defined.

(** C34: When [AttachAll] fails, it failed on a program that is no mirror and nothing
    of its work stays: the link table and the list of hooks are empty, exactly
    the handles from before are open, and, as far as unpinning works, the path of
    every program handled before the failing one is unpinned, a mirror's too, unless
    it is a mirror that could not be attached, whose path is as it was; no other path
    of bpffs is touched. *)
Theorem attach_failure_undone {K Prog Lnk Obj} `{Ebpf K Prog Lnk} `{Countable Lnk}
    `{!EbpfLaws K Prog Lnk Obj} `{ErrnoText} (l l' : Loader Prog Lnk) (k k' : K) e :
  fresh_loader l → AttachAll (l, k) = ((l', k'), Err e) →
  ∃ pre name post e', program_names l = pre ++ name :: post ∧ ¬ is_mirror l name ∧
    e = EWrap (name +:+ ": ") e' ∧ undone l k pre l' k'.
Proof.
  intros Hf. unfold AttachAll. unfold mbnd at 1. simpl. unfold mbnd at 1.
  pose proof (attach_loop l k (program_names l) [] l k Hf) as Hloop. simpl in Hloop.
  specialize (Hloop eq_refl eq_refl).
  pose proof Hf as (E1 & E2 & E3 & _).
  destruct (mfor _ _ _) as [[l1 k1] [[]|e1|x]] eqn:Er; [done| |done].
  intros [= <- <- <-]. destruct Hloop as (pre & name & post & Hn & Hu & Hm & e' & ->).
  - split; rewrite ?E1, ?E2, ?E3; try done. by intros n; rewrite elem_of_nil.
  - by exists pre, name, post, e'.
Qed.

Lemma attach_failure_undone_witness :
  ∃ l' k' e pre, AttachAll (demo_loader, demo_bpffs ["open"]) = ((l', k'), Err e) ∧
    undone demo_loader (demo_bpffs ["open"]) pre l' k'.
Proof.
  set (r := Err (EWrap "open: " (EErrno 22)) : res unit).
  assert (snd (AttachAll (demo_loader, demo_bpffs ["open"])) = r) as Hr by (vm_compute; reflexivity).
  apply run_named in Hr. destruct (fst (AttachAll _)) as [l' k'] eqn:E.
  destruct (attach_failure_undone _ _ _ _ _ demo_loader_fresh Hr) as (pre & name & post & e' & _ & _ & _ & Hu).
  exists l', k', (EWrap "open: " (EErrno 22)), pre. exact (conj Hr Hu).
Defined.

(** [load] tries at most four times.  It succeeds after fewer than four attempts
    that lost the race to pin a map, with the specification it created the
    collection from, every map with an ordinary name pinned by that name, and a
    loader on which nothing is attached yet, as [AttachAll] needs it; it reports a
    lost race only after four in a row. *)
Theorem load_retries {K Prog Lnk Obj} `{Ebpf K Prog Lnk} `{Countable Lnk}
    `{!EbpfLaws K Prog Lnk Obj} `{ErrnoText} dir source (loadSpec : M K CollectionSpec) k k' :
  (∀ k1 k2 s n, loadSpec k1 = (k2, Ok s) → is_Some (spec_Programs s !! n) → plain_name n) →
  (∀ l, load dir source loadSpec k = (k', Ok l) →
     fresh_loader l ∧
     (∀ n m, spec_Maps (spec l) !! n = Some m → HasPrefix (ms_Name m) "." = false → ms_PinByName m = true) ∧
     ∃ j k1 k2, (j < attempts)%nat ∧ lost_races dir loadSpec j k1 k2 ∧
                try_load dir loadSpec k2 k' (inl (spec l, (coll l, collFd l)))) ∧
  (∀ e, load dir source loadSpec k = (k', Err (EWrap "로드: " e)) → retriable e = true →
     ∃ k1, lost_races dir loadSpec attempts k1 k').
Proof.
  intros Hplain. split.
  - intros l. by apply load_ok.
  - intros e. unfold load, mkdir, mtry, mbnd.
    destruct (MkdirAll dir k) as [k1 [[]|e1|x]]; [|done|done].
    cbv beta iota zeta. unfold merr, mok. destruct (MkdirAll (filepath_Join dir linkSubdir) k1) as [k2 [[]|e2|x]]; [|done|done].
    destruct (load_loop attempts 0 dir source loadSpec k2) as [k3 [sc|e3|x]] eqn:El; [done| |done].
    intros [= <- ->] He. exists k2. by apply load_loop_err in El.
Qed.

Lemma load_retries_witness :
  ∃ k' l, load "/sys/fs/bpf/warrant" "obj" (mok demo_object) (demo_bpffs []) = (k', Ok l) ∧
       fresh_loader (l : Loader string nat).
Proof.
  set (k' := fst (load "/sys/fs/bpf/warrant" "obj" (mok demo_object) (demo_bpffs []))).
  exists k', demo_loader. assert (load "/sys/fs/bpf/warrant" "obj" (mok demo_object) (demo_bpffs []) =
    (k', Ok demo_loader)) as Hr by (vm_compute; reflexivity).
  split; [exact Hr|].
  refine (proj1 (proj1 (load_retries _ _ _ _ _ _) _ Hr)).
  intros k1 k2 s n [= _ <-] [ps Hn].
  apply (proj2 (proj2 (proj2 (proj2 demo_loader_fresh))) n n).
  cbn [coll demo_loader]. rewrite map_lookup_imap. simpl in Hn. by rewrite Hn.
Defined.
