(* ===== verification/World.v ===== *)
(** A concrete system for the daemon's witnesses: bpffs with its links and maps,
    sockets, gRPC and the notify socket in one state, each part an implementation
    of its interface. *)

From Stdlib Require Import ZArith Lia Ascii String.
From stdpp Require Import base tactics numbers list strings gmap.
From S2P Require Import Prelude GoStd GoNet EbpfMap Os BpfMap Concrete Pamsock.
From S2P Require Import Pb Upstream Services Handles Loader.

(** * Sockets *)

(** [nk_umask]: the mode a new socket gets. *)
Record netk := mkNetk {
  nk_files : gmap string (Z * option nat);
  nk_conns : gmap nat string;
  nk_notify : gmap nat string;
  nk_sent : list (string * string);
  nk_env : string;
  nk_umask : Z
}.
Definition nk_set (n : netk) files conns : netk :=
  mkNetk files conns (nk_notify n) (nk_sent n) (nk_env n) (nk_umask n).

#[export] Instance netk_sockets : UnixSockets netk nat := {
  os_Remove p n :=
    match nk_files n !! p with
    | Some _ => (nk_set n (base.delete p (nk_files n)) (nk_conns n), Ok tt)
    | None => (n, Err (EWrap "remove: " (EErrno ENOENT)))
    end;
  ResolveUnixAddr p := Ok p;
  ListenUnixgram p n :=
    match nk_files n !! p with
    | Some _ => (n, Err (EErrno 98))
    | None => let c := fresh (dom (nk_conns n)) in
        (nk_set n (<[p := (nk_umask n, Some c)]> (nk_files n)) (<[c := p]> (nk_conns n)), Ok c)
    end;
  os_Chmod p mode n :=
    match nk_files n !! p with
    | Some (_, o) => (nk_set n (<[p := (mode, o)]> (nk_files n)) (nk_conns n), Ok tt)
    | None => (n, Err (EErrno ENOENT))
    end;
  CloseConn c n := (nk_set n (nk_files n) (base.delete c (nk_conns n)), Ok tt)
}.
#[export] Instance netk_sockets_laws : UnixSocketsLaws netk nat.
Proof.
  refine {| ssee n := mkSview (nk_files n) (nk_conns n) |}.
  - intros p n. simpl. by destruct (nk_files n !! p) eqn:E.
  - by intros p a [= <-].
  - done.
  - intros p n. simpl. destruct (nk_files n !! p) eqn:E; [done|].
    split; [done|]. split; [apply not_elem_of_dom, is_fresh|]. by eexists.
  - intros p mode n. simpl. destruct (nk_files n !! p) as [[old o]|] eqn:E; [|done]. by exists old, o.
  - done.
Defined.

#[export] Instance netk_notify : Notify netk nat := {
  os_Getenv _ := nk_env;
  net_DialUnix a n :=
    let c := fresh (dom (nk_notify n)) in
    (mkNetk (nk_files n) (nk_conns n) (<[c := a]> (nk_notify n)) (nk_sent n) (nk_env n) (nk_umask n), Ok c);
  unix_Write c s n :=
    match nk_notify n !! c with
    | Some a => (mkNetk (nk_files n) (nk_conns n) (nk_notify n) (nk_sent n ++ [(a, s)]) (nk_env n) (nk_umask n), Ok tt)
    | None => (n, Err (EErrno 9))
    end;
  unix_Close c n :=
    (mkNetk (nk_files n) (nk_conns n) (base.delete c (nk_notify n)) (nk_sent n) (nk_env n) (nk_umask n), Ok tt)
}.
#[export] Instance netk_notify_laws : NotifyLaws netk nat.
Proof.
  refine {| nsee n := mkNview (λ _, nk_env n) (nk_notify n) (nk_sent n) |}.
  - done.
  - intros a n. simpl. split; [apply not_elem_of_dom, is_fresh|done].
  - intros c s n a Hc. simpl in *. by rewrite Hc.
  - done.
Defined.

(** * All together *)

Record world := mkWorld { w_bpf : fsk; w_maps : mfs; w_net : netk }.

Definition in_bpf {A} (m : M fsk A) : M world A :=
  λ w, let '(x, r) := m (w_bpf w) in (mkWorld x (w_maps w) (w_net w), r).
Definition in_maps {A} (m : M mfs A) : M world A :=
  λ w, let '(x, r) := m (w_maps w) in (mkWorld (w_bpf w) x (w_net w), r).
Definition in_net {A} (m : M netk A) : M world A :=
  λ w, let '(x, r) := m (w_net w) in (mkWorld (w_bpf w) (w_maps w) x, r).

#[export] Instance world_ebpf : Ebpf world string nat := {
  MkdirAll d := in_bpf (MkdirAll d);
  NewCollectionWithOptions s d := in_bpf (NewCollectionWithOptions s d);
  IsVerifierError := IsVerifierError (K := fsk);
  LoadPinnedLink p := in_bpf (LoadPinnedLink p);
  AttachLSM p := in_bpf (AttachLSM p);
  AttachTracing p := in_bpf (AttachTracing p);
  AttachKprobe s p := in_bpf (AttachKprobe s p);
  Pin h p := in_bpf (Pin h p);
  Unpin h := in_bpf (Unpin h);
  CloseLink h := in_bpf (CloseLink h);
  CloseCollection fd w := mkWorld (CloseCollection fd (w_bpf w)) (w_maps w) (w_net w);
  range_links := range_links (K := fsk)
}.

#[export] Instance world_ebpf_laws : EbpfLaws world string nat (nat * string).
Proof.
  refine {| view w := view (w_bpf w); obj_prog := snd; colls w := colls (w_bpf w) |}.
  - intros s d w w' c. simpl. unfold in_bpf. simpl. intros [= _ <-].
    exact (NewCollection_programs s d (w_bpf w) _ _ eq_refl).
  - intros s d w. exact (NewCollection_open s d (w_bpf w)).
  - done.
  - intros p w. pose proof (LoadPinnedLink_spec p (w_bpf w)) as Hl. cbn [LoadPinnedLink world_ebpf].
    unfold in_bpf. by destruct (LoadPinnedLink p (w_bpf w)) as [k' [h|e|x]].
  - intros prog w. pose proof (AttachLSM_spec prog (w_bpf w)) as Hl. cbn [AttachLSM world_ebpf].
    unfold in_bpf. by destruct (AttachLSM prog (w_bpf w)) as [k' [h|e|x]].
  - intros prog w. pose proof (AttachTracing_spec prog (w_bpf w)) as Hl. cbn [AttachTracing world_ebpf].
    unfold in_bpf. by destruct (AttachTracing prog (w_bpf w)) as [k' [h|e|x]].
  - intros sym prog w. pose proof (AttachKprobe_spec sym prog (w_bpf w)) as Hl. cbn [AttachKprobe world_ebpf].
    unfold in_bpf. by destruct (AttachKprobe sym prog (w_bpf w)) as [k' [h|e|x]].
  - intros h p w o q Hh. pose proof (Pin_spec h p (w_bpf w) o q Hh) as Hl. cbn [Pin world_ebpf].
    unfold in_bpf. by destruct (Pin h p (w_bpf w)) as [k' [?|e|x]].
  - intros h w o p Hh. pose proof (Unpin_spec h (w_bpf w) o p Hh) as Hl. cbn [Unpin world_ebpf].
    unfold in_bpf. by destruct (Unpin h (w_bpf w)) as [k' [?|e|x]].
  - intros h w. exact (CloseLink_spec h (w_bpf w)).
  - intros m. exact (range_links_spec (K := fsk) m).
Defined.

#[export] Instance world_maps : PinnedMaps world nat nat := {
  LoadPinnedMap p := in_maps (LoadPinnedMap p);
  CloseMap h := in_maps (CloseMap h);
  PossibleCPU := in_maps PossibleCPU;
  NewReader h := in_maps (NewReader h);
  CloseReader r := in_maps (CloseReader r)
}.
#[export] Instance world_maps_laws : PinnedMapsLaws world nat nat nat.
Proof.
  refine {| hsee w := hsee (w_maps w) |}.
  - intros p w. pose proof (LoadPinnedMap_spec p (w_maps w)) as Hl. cbn [LoadPinnedMap world_maps].
    unfold in_maps. by destruct (LoadPinnedMap p (w_maps w)) as [k' [h|e|x]].
  - intros h w. exact (CloseMap_spec h (w_maps w)).
  - intros w. exact (PossibleCPU_spec (w_maps w)).
  - intros h w. pose proof (NewReader_spec h (w_maps w)) as Hl. cbn [NewReader world_maps].
    unfold in_maps. by destruct (NewReader h (w_maps w)) as [k' [r|e|x]].
  - intros r w. exact (CloseReader_spec r (w_maps w)).
Defined.

#[export] Instance world_sockets : UnixSockets world nat := {
  os_Remove p := in_net (os_Remove p);
  ResolveUnixAddr := ResolveUnixAddr (K := netk);
  ListenUnixgram p := in_net (ListenUnixgram p);
  os_Chmod p mode := in_net (os_Chmod p mode);
  CloseConn c := in_net (CloseConn c)
}.
#[export] Instance world_sockets_laws : UnixSocketsLaws world nat.
Proof.
  refine {| ssee w := ssee (w_net w) |}.
  - intros p w. pose proof (os_Remove_spec p (w_net w)) as Hl. cbn [os_Remove world_sockets].
    unfold in_net. by destruct (os_Remove p (w_net w)) as [k' [?|e|x]].
  - exact (ResolveUnixAddr_spec (K := netk)).
  - exact (ResolveUnixAddr_total (K := netk)).
  - intros p w. pose proof (ListenUnixgram_spec p (w_net w)) as Hl. cbn [ListenUnixgram world_sockets].
    unfold in_net. by destruct (ListenUnixgram p (w_net w)) as [k' [c|e|x]].
  - intros p mode w. pose proof (os_Chmod_spec p mode (w_net w)) as Hl. cbn [os_Chmod world_sockets].
    unfold in_net. by destruct (os_Chmod p mode (w_net w)) as [k' [?|e|x]].
  - intros c w. exact (CloseConn_spec c (w_net w)).
Defined.

#[export] Instance world_notify : Notify world nat := {
  os_Getenv n w := os_Getenv n (w_net w);
  net_DialUnix a := in_net (net_DialUnix a);
  unix_Write c s := in_net (unix_Write c s);
  unix_Close c := in_net (unix_Close c)
}.
#[export] Instance world_notify_laws : NotifyLaws world nat.
Proof.
  refine {| nsee w := nsee (w_net w) |}.
  - done.
  - intros a w. exact (net_DialUnix_spec a (w_net w)).
  - intros c s w a Hc. pose proof (unix_Write_spec c s (w_net w) a Hc) as Hl. cbn [unix_Write world_notify].
    unfold in_net. by destruct (unix_Write c s (w_net w)) as [k' [?|e|x]].
  - intros c w. exact (unix_Close_spec c (w_net w)).
Defined.

(** A client is always made; connecting is left to the first call. *)
#[export] Instance world_grpc : Grpc world unit := {
  grpc_NewClient _ := mok tt;
  grpc_Close _ := mok tt
}.

(** A host under systemd with a stale socket and the maps an earlier run pinned. *)
Definition demo_world (refused : list string) : world :=
  mkWorld (demo_bpffs refused) (demo_mfs demo_pins)
    (mkNetk {[ "/run/warrantd/pam.sock" := (511, None) ]} ∅ ∅ [] "@/run/systemd/notify" 493).
