(* ===== verification/Daemon.v ===== *)
(** The daemon's start-up (agent/cmd/warrantd/main.go and hooks.go): what must
    hold before sessions are let in, what the node tells the server about itself,
    and which records are logged. *)

From Stdlib Require Import ZArith Lia Ascii String.
From stdpp Require Import base tactics numbers list strings gmap sorting.
From S2P Require Import Prelude GoStd GoNet EbpfMap Os BpfMap Concrete Kernel.
From S2P Require Import Policy Session Pb Warrants Upstream Registry Node WatchLoop.
From S2P Require Import Ringbuf Services Handles Loader World.

(** * hooks.go *)

(** [strings.ToUpper] of an ASCII string. *)
Definition ToUpper (s : string) : string := map_bytes upper_byte s.

(** [slices.Compact]. *)
Fixpoint slices_Compact (l : list Z) : list Z :=
  match l with
  | x :: (y :: _) as l' => if x =? y then slices_Compact l' else x :: slices_Compact l'
  | _ => l
  end.
Definition slices_Sort (l : list Z) : list Z := merge_sort Z.le l.

(** The hook a section stands for, if the protocol names it. *)
Definition hook_of_section (sec : string) : option Z :=
  match Cut sec SLASH with
  | None => None
  | Some (_, name) =>
      let name := TrimPrefix name "security_" in
      snd <$> List.find (λ e, String.eqb (fst e) ("HOOK_" +:+ ToUpper name)) pb.Hook_value
  end.
Definition hooksFromSections (sections : list string) : list Z :=
  slices_Compact (slices_Sort (omap hook_of_section sections)).

Definition checkAttached (attached missingMirrors : list string) (total : nat) : res unit :=
  if negb ((length attached + length missingMirrors) =? total)%nat
  then Err (EMsg ("attach: " +:+ fmt_u (Z.of_nat (length attached)) +:+ " of " +:+
                  fmt_u (Z.of_nat total) +:+ " programs"))
  else Ok tt.

(** * main.go *)

Definition agentVersion : string := "warrantd 0.1.0-dev".

(** What [nodeHello] asks the system: the host name, the kernel release, the
    wall clock and the boot clock, all in nanoseconds. *)
Record HelloEnv := mkHelloEnv {
  he_hostname : res string; he_release : res string; he_now : Z; he_uptime : res Z
}.
Definition nodeHello (env : HelloEnv) (hooks : list Z) : pb.NodeHello :=
  pb.mkNodeHello
    (match he_hostname env with Ok h => h | _ => "" end)
    (match he_release env with Ok r => r | _ => "" end)
    true
    (match he_uptime env with Ok up => u64 (i64 (he_now env - up)) | _ => 0 end)
    agentVersion
    hooks.

(** [logRecord]: the values of its line; the kprobe mirror's copy is skipped. *)
Record logEntry := mkLogEntry {
  le_hook : string; le_verdict : string; le_warrant : Z; le_cgroup : Z; le_pid : Z; le_comm : string
}.
Definition logRecord (r : Record_) : option logEntry :=
  if Origin r =? 2 then None
  else Some (mkLogEntry (HookName (Hook r)) (VerdictName (Verdict r) (r_Mode r)) (WarrantID r)
               (p_CgroupID (Proc r)) (PID (Proc r)) (Comm (Proc r))).
(** [logGap]'s line. *)
Definition fmt_t (b : bool) : string := if b then "true" else "false".
Definition logGap (g : Gap) : string :=
  "ringbuf: GAP dropped=" +:+ fmt_u (DroppedCount g) +:+ " cause=" +:+ Cause g +:+ " known=" +:+
  fmt_t (Known g) +:+ " from_boot_ns=" +:+ fmt_u (FromBootNs g) +:+ " to_boot_ns=" +:+ fmt_u (ToBootNs g).

Section keys.
Context `{Crypto} `{Os}.

Definition loadKeys (t : nat) (upstreamEP dir : string) : TrustKeys :=
  if bool_decide (upstreamEP = "") || bool_decide (dir = "") then ∅
  else match LoadTrustKeys t dir with
       | Ok ks => ks
       | _ => ∅
       end.
End keys.

Section settle.
Context `{Crypto} {N : Type} `{KernelWarrants N}.

(** An error is logged. *)
Definition settleActive (subscribing : bool) (st : rstate N) : rstate N :=
  if (reg_len st =? 0)%nat && negb subscribing then fst (lift (kw_SetActive false) st) else st.
End settle.

(** ** [run], up to the point where sessions are let in *)

Section start.
Context {K Prog Lnk Hnd Rdr : Type} `{Ebpf K Prog Lnk} `{PinnedMaps K Hnd Rdr} `{ErrnoText}.
Context `{Crypto} `{Os} `{WallClock} `{KernelMaps} `{WarrantJson}.

(** What [run] reads: the LSM list, the object, what the pinned maps hold when
    they are opened, the warrant file and the host name; and the moment. *)
Record StartEnv := mkStartEnv {
  se_lsm : res string;
  se_embedded : M K CollectionSpec;
  se_fromFile : string → M K CollectionSpec;
  se_contents : MapHandles Hnd → K → Maps;
  se_file : res string;
  se_hostname : string;
  se_time : nat
}.

(** The registry with the local warrants, the flag settled. *)
Definition start_registry (env : StartEnv) (ks : TrustKeys) (m : Maps) : rstate node :=
  let st := mkRstate (newRegistry (se_hostname env) ks) (newPolicyInstaller m (se_time env)) in
  settleActive (negb (size ks =? 0)%nat) (loadLocalWarrants (se_file env) st).

Definition run_attach : LM (K := K) (Prog := Prog) (Lnk := Lnk) unit :=
  wrapping "attach: " AttachAll ;;;
  do s := mget in
  mres (checkAttached (AttachedHooks (fst s)) (MissingMirrors (fst s)) (ProgramCount (fst s))).

(** [pols.Close()]: the watcher, if there is one, is stopped and waited for
    ([WatchLoop]); that gives no error. *)
Definition close_policies (st : rstate node) : res unit := installer_Close (nd st) (Ok tt).

(** An error closes what is open so far, last opened first. *)
Definition run_start (env : StartEnv) (pinDir objPath : string) (ks : TrustKeys)
    : M K (Loader Prog Lnk * MapHandles Hnd * rstate node) :=
  do on := mres (BpfLsmEnabled (se_lsm env)) in
  if negb on then merr (ENew "bpf LSM is off: run deploy/enable-bpf-lsm.sh and reboot")
  else
    do ld := LoadObject (se_embedded env) (se_fromFile env) objPath pinDir in
    λ k, match on_fail Close
                 (do h := wrapping ("open maps " +:+ pinDir +:+ ": ") (kop (OpenMaps pinDir)) in
                  on_fail (kop (CloseMaps h))
                    (do s := mget in
                     let st := start_registry env ks (se_contents env h (snd s)) in
                     on_fail (mres (close_policies st)) (run_attach ;;; mok (h, st)))) (ld, k) with
         | ((ld', k'), Ok (h, st)) => (k', Ok (ld', h, st))
         | ((_, k'), Err e) => (k', Err e)
         | ((_, k'), Panic p) => (k', Panic p)
         end.
End start.
Arguments StartEnv K Hnd {_}.

(** * Lemmas *)

Lemma slices_Compact_elem l x : x ∈ slices_Compact l ↔ x ∈ l.
Proof.
  induction l as [|y [|z l] IH]; [done|done|]. cbn [slices_Compact] in *.
  destruct (Z.eqb_spec y z) as [->|Hne]; [|by rewrite !elem_of_cons, IH, elem_of_cons].
  rewrite IH. set_solver.
Qed.
Lemma slices_Compact_sorted l : StronglySorted Z.le l → StronglySorted Z.lt (slices_Compact l).
Proof.
  induction l as [|y [|z l] IH]; [by repeat constructor..|]. intros Hs.
  apply StronglySorted_inv in Hs as [Hs Hy]. specialize (IH Hs). cbn [slices_Compact] in *.
  destruct (Z.eqb_spec y z) as [->|Hne]; [done|].
  constructor; [done|]. apply Forall_forall. intros x Hx.
  change (x ∈ slices_Compact (z :: l)) in Hx. rewrite slices_Compact_elem in Hx.
  apply StronglySorted_inv in Hs as [_ Hz]. rewrite Forall_forall in Hy, Hz.
  pose proof (Hy z ltac:(set_solver)). apply elem_of_cons in Hx as [->|Hx]; [lia|].
  specialize (Hz x Hx). lia.
Qed.

Section start_lemmas.
Context {K Prog Lnk Obj : Type} `{Ebpf K Prog Lnk} `{Countable Lnk} `{!EbpfLaws K Prog Lnk Obj}
  `{ErrnoText}.

Lemma open_keeps_loader {A} msg (m : M K A) (l l' : Loader Prog Lnk) k k' a :
  wrapping msg (kop m) (l, k) = ((l', k'), Ok a) → l' = l.
Proof. intros E%wrapping_ok. unfold kop in E. destruct (m k). by simplify_eq. Qed.

Lemma run_attach_ok (s s' : Loader Prog Lnk * K) :
  run_attach s = (s', Ok tt) → AttachAll s = (s', Ok tt).
Proof.
  intros (s1 & [] & E%wrapping_ok & Hc)%mbnd_ok. apply mbnd_ok in Hc as (s2 & s3 & [= <- <-] & [= -> _]).
  done.
Qed.

Lemma LoadObject_fresh embedded fromFile objPath dir k k' (l : Loader Prog Lnk) :
  (∀ m, m = embedded ∨ m = fromFile objPath →
     ∀ k1 k2 s n, m k1 = (k2, Ok s) → is_Some (spec_Programs s !! n) → plain_name n) →
  LoadObject embedded fromFile objPath dir k = (k', Ok l) → fresh_loader l.
Proof.
  intros Hp. unfold LoadObject. case_bool_decide; intros E.
  - apply (load_ok _ _ _ _ _ _ (Hp _ (or_introl eq_refl)) E).
  - apply (load_ok _ _ _ _ _ _ (Hp _ (or_intror eq_refl)) E).
Qed.
End start_lemmas.

Lemma start_registry_inactive {K Hnd} `{Crypto} `{Os} `{WallClock} `{KernelMaps} `{!KernelMapsLaws}
    `{WarrantJson} (env : StartEnv K Hnd) (m : Maps) :
  byID (rg (start_registry env ∅ m)) = ∅ →
  ∃ m0 : Maps, n_maps (nd (start_registry env ∅ m)) = fst (SetActive false m0) ∧
    (snd (SetActive false m0) = Ok tt →
     ∀ t, lookup_warrant (n_maps (nd (start_registry env ∅ m))) t = None).
Proof.
  unfold start_registry, settleActive. change (size (∅ : TrustKeys)) with 0%nat. simpl.
  rewrite andb_true_r. destruct (loadLocalWarrants _ _) as [r n].
  destruct (reg_len _ =? 0)%nat eqn:E; simpl.
  - intros _. exists (n_maps n). unfold lift, on_maps. simpl.
    destruct (SetActive false (n_maps n)) as [m' r'] eqn:Es. simpl. split; [done|].
    intros -> t. by apply (SetActive_false_lookup _ _ t) in Es.
  - intros Hb. unfold reg_len in E. simpl in E. by rewrite Hb, map_size_empty in E.
Qed.

(** * Properties *)

(** [hooksFromSections] names each attached hook once, in increasing order: a
    number is listed exactly if some attached section stands for it.  The kprobe
    mirror of a hook and its LSM section stand for the same number. *)
Theorem hooks_reported_once sections :
  StronglySorted Z.lt (hooksFromSections sections) ∧
  (∀ h, h ∈ hooksFromSections sections ↔ ∃ sec, sec ∈ sections ∧ hook_of_section sec = Some h) ∧
  (∀ name, HasPrefix name "security_" = false →
     hook_of_section ("kprobe/security_" +:+ name) = hook_of_section ("lsm/" +:+ name)).
Proof.
  split; [|split].
  - apply slices_Compact_sorted. apply StronglySorted_merge_sort; apply _.
  - intros h. unfold hooksFromSections, slices_Sort.
    rewrite slices_Compact_elem, merge_sort_Permutation. apply list_elem_of_omap.
  - intros name Hn. unfold hook_of_section.
    change ("kprobe/security_" +:+ name) with ("kprobe" +:+ String SLASH ("security_" +:+ name)).
    change ("lsm/" +:+ name) with ("lsm" +:+ String SLASH name). rewrite !Cut_app by done.
    unfold TrimPrefix at 1. rewrite CutPrefix_app. unfold TrimPrefix.
    unfold HasPrefix in Hn. by destruct (CutPrefix name "security_").
Qed.

(** C35: when start-up succeeds, the boot parameter enables the BPF LSM, and with [l]
    what loading the object gave, every program of it has an open link, pinned at its
    own path, that was pinned there before or is new and runs that program; a program
    without one is a kprobe mirror of the object, and attaching it was tried and
    failed.  A node with no local warrant and no trust key judges no task, even if a
    previous run left the flag on, as long as the flag can be written. *)
Theorem start_safe {K Prog Lnk Obj Hnd Rdr} `{Ebpf K Prog Lnk} `{Countable Lnk}
    `{!EbpfLaws K Prog Lnk Obj} `{PinnedMaps K Hnd Rdr} `{ErrnoText} `{Crypto} `{Os} `{WallClock} `{KernelMaps} `{!KernelMapsLaws} `{WarrantJson}
    (env : StartEnv K Hnd) pinDir objPath (ks : TrustKeys) k k' (l' : Loader Prog Lnk) h' st' :
  (∀ m, m = se_embedded env ∨ m = se_fromFile env objPath →
     ∀ k1 k2 s n, m k1 = (k2, Ok s) → is_Some (spec_Programs s !! n) → plain_name n) →
  run_start env pinDir objPath ks k = (k', Ok (l', h', st')) →
  (∃ txt, se_lsm env = Ok txt ∧ hasBPF txt = true) ∧
  (∃ l k1 k2, LoadObject (se_embedded env) (se_fromFile env) objPath pinDir k = (k1, Ok l) ∧
     coll l' = coll l ∧ spec l' = spec l ∧
     ∀ n, is_Some (coll l !! n) →
       (∃ h, links l' !! n = Some h ∧ hooked l k2 k' n h) ∨
       links l' !! n = None ∧ is_mirror l n ∧ failed_at l k2 n) ∧
  (ks = (∅ : gmap _ _) → byID (rg st') = ∅ →
   ∃ m0 : Maps, n_maps (nd st') = fst (SetActive false m0) ∧
     (snd (SetActive false m0) = Ok tt → ∀ t, lookup_warrant (n_maps (nd st')) t = None)).
Proof.
  intros Hplain. unfold run_start. intros (k0 & on & Hon & Hrun)%mbnd_ok.
  injection Hon as -> Hlsm. destruct on; [|done]. simpl in Hrun.
  apply mbnd_ok in Hrun as (k1 & ld & Hload & Hrun). cbv beta in Hrun.
  destruct (on_fail Close _ (ld, k1)) as [[l2 k2] [[h st]|e|x]] eqn:Eb; [|done|done].
  injection Hrun as <- <- <- <-. apply on_fail_ok in Eb.
  apply mbnd_ok in Eb as ([l3 k3] & m & Hopen & Eb%on_fail_ok).
  apply mbnd_ok in Eb as (s3 & s4 & [= <- <-] & Eb). cbv zeta in Eb. apply on_fail_ok in Eb.
  apply mbnd_ok in Eb as (s5 & [] & Hatt & [= -> <- <-]).
  assert (l3 = ld) as -> by (by apply open_keeps_loader in Hopen).
  assert (fresh_loader ld) as Hf by (by eapply LoadObject_fresh).
  apply run_attach_ok in Hatt. destruct (attach_all_ok _ _ _ _ Hf Hatt) as (Hall & _ & Hcoll & Hspec).
  split; [|split].
  - destruct (se_lsm env) as [txt|e|x]; [|done|done]. exists txt. by injection Hlsm.
  - exists ld, k1, k3. by repeat (split; [done|]).
  - intros -> Hb. by apply start_registry_inactive.
Qed.

#[local] Existing Instance demo_os.
#[local] Existing Instance demo_crypto.
Definition demo_json : WarrantJson :=
  {| json_raw_array _ := Ok []; protojson_Warrant _ := Err (EMsg "json") |}.
#[local] Existing Instance demo_json.

(** A restart: the maps still have a session and the flag on, there is no
    warrant file. *)
Definition demo_start : StartEnv world nat := mkStartEnv (Ok "lockdown,capability,bpf")
  (mok demo_object) (λ _, mok demo_object) (λ _ _, one_session) (Err ErrNotExist) "web-1" 0.
Lemma demo_object_plain k1 k2 s n :
  @mok world _ demo_object k1 = (k2, Ok s) → is_Some (spec_Programs s !! n) → plain_name n.
Proof.
  intros [= _ <-] [ps Hn]. apply (proj2 (proj2 (proj2 (proj2 demo_loader_fresh))) n n).
  cbn [coll demo_loader]. rewrite map_lookup_imap. simpl in Hn. by rewrite Hn.
Qed.
(** One program is a mirror the kernel refuses. *)
Definition demo_started : world * res (Loader string nat * MapHandles nat * rstate node) :=
  run_start demo_start "/sys/fs/bpf/warrant" "" ∅ (demo_world ["mirror"]).

Lemma start_safe_witness :
  ∃ k' l' h' st' l k2 h, demo_started = (k', Ok (l', h', st')) ∧
    links l' !! "open" = Some h ∧ hooked l k2 k' "open" h.
Proof.
  destruct demo_started as [k' r] eqn:Hr. destruct r as [[[l' h'] st']|e|x].
  2, 3: exfalso; assert (match snd demo_started with Ok _ => true | _ => false end = true)
        as Hb by (vm_compute; reflexivity); rewrite Hr in Hb; discriminate Hb.
  destruct (start_safe demo_start _ _ _ _ _ _ _ _ (λ m Hm, match Hm with
    | or_introl E => eq_ind_r (λ m, ∀ k1 k2 s n, m k1 = (k2, Ok s) → is_Some (spec_Programs s !! n) → plain_name n)
                       demo_object_plain E
    | or_intror E => eq_ind_r (λ m, ∀ k1 k2 s n, m k1 = (k2, Ok s) → is_Some (spec_Programs s !! n) → plain_name n)
                       demo_object_plain E end) Hr) as (_ & (l & k1 & k2 & Hl & _ & _ & Hall) & _).
  assert (snd (LoadObject (se_embedded demo_start) (se_fromFile demo_start) "" "/sys/fs/bpf/warrant"
            (demo_world ["mirror"])) = Ok demo_loader) as Hd by (vm_compute; reflexivity).
  rewrite Hl in Hd. injection Hd as ->.
  destruct (Hall "open") as [(h & Hh & Hk)|(_ & (ps & Hps & Hty) & _)].
  - vm_compute. eexists. reflexivity.
  - exists k', l', h', st', demo_loader, k2, h. split; [reflexivity|]. split; [exact Hh|exact Hk].
  - exfalso. revert Hps Hty. vm_compute. intros [= <-]. discriminate.
Defined.
