(* ===== verification/Lifecycle.v ===== *)
(** From start-up to any later moment: what [run] (agent/cmd/warrantd/main.go) has
    set up when sessions are let in satisfies the agent's invariants (System), so
    they hold from then on, however its goroutines interleave (Concurrent). *)

From Stdlib Require Import ZArith Lia Ascii String.
From stdpp Require Import base tactics numbers list strings gmap relations.
From S2P Require Import Prelude GoStd GoNet EbpfMap Os BpfMap Concrete Kernel.
From S2P Require Import Policy Typed Session Pb Warrants Upstream Registry Node.
From S2P Require Import WatchLoop AuditQueue Pamsock Binder System Threads Requests Concurrent.
From S2P Require Import Ringbuf Services Handles Loader World Daemon.

Section lifecycle.
Context `{Crypto} `{Os} `{WallClock} `{KernelMaps} `{!KernelMapsLaws} `{SshKeys} `{WarrantJson}.

(** Both decoders give integers of the protocol's widths. *)
Variable Hdecode : ∀ bytes w, proto_Unmarshal bytes = Ok w → pb_typed w.
Variable Hjson : ∀ text w, protojson_Warrant text = Ok w → pb_typed w.

Lemma parseWarrantFile_typed b ws : parseWarrantFile b = Ok ws → Forall pb_typed ws.
Proof.
  unfold parseWarrantFile. destruct (json_raw_array b) as [raw|e|x]; [|done|done]. generalize 0%nat.
  revert ws. induction raw as [|r raw IH]; intros ws i; simpl; [by intros [= <-]|].
  destruct (protojson_Warrant r) as [w|e|x] eqn:E; [|done|done].
  destruct (parse_warrants (S i) raw) as [ws'|e|x] eqn:Er; [|done|done].
  intros [= <-]. constructor; [by eapply Hjson|by eapply IH].
Qed.

(** The local file is a sequence of the agent's own steps. *)
Lemma local_warrants_steps file st q :
  rtc agent_step (mkBstate _ _ st q) (mkBstate _ _ (loadLocalWarrants file st) q).
Proof.
  unfold loadLocalWarrants. destruct file as [b|e|x]; [|done|done].
  destruct (parseWarrantFile b) as [ws|e|x] eqn:E; [|done|done].
  apply parseWarrantFile_typed in E. unfold install_all. revert st.
  induction E as [|w ws Hw _ IH]; intros st; [done|]. simpl.
  eapply rtc_l; [by apply (SLocal w)|]. apply IH.
Qed.

Lemma settled_inv subscribing st q :
  agent_inv (mkBstate _ _ st q) → agent_inv (mkBstate _ _ (settleActive subscribing st) q).
Proof.
  unfold settleActive. destruct (_ && _); [|done]. intros [Hr Hn He]. simpl in *.
  destruct (lift_rinv _ (on_maps_inv _ (SetActive_typed false) (SetActive_tags false)) st (conj Hn He)) as [Hn' He'].
  split; [|done|done]. simpl.
  apply (reg_inv_same st); [|unfold lift, on_maps, SetActive; simpl|done].
  - unfold lift. simpl. by destruct (on_maps _ _).
  - destruct (finish _ _ _ _) as [m' r] eqn:E. simpl. apply (f_equal fst) in E. simpl in E. subst m'.
    by rewrite finish_fst.
Qed.

(** The maps an earlier run left, or fresh ones. *)
Definition contents_ok {K Hnd} (env : StartEnv K Hnd) : Prop :=
  ∀ h k, maps_typed (se_contents env h k) ∧ tags_resolve (se_contents env h k).

Lemma start_registry_inv {K Hnd} (env : StartEnv K Hnd) ks h k q :
  contents_ok env → agent_inv (mkBstate _ _ (start_registry env ks (se_contents env h k)) q).
Proof.
  intros Hc. destruct (Hc h k) as [Hty Htg]. unfold start_registry. apply settled_inv.
  eapply agent_steps_inv; [done|apply local_warrants_steps|]. apply start_agent_inv.
  split; [split; [done|]|done]. intros id s. simpl. by rewrite lookup_empty.
Qed.

Lemma run_start_registry {K Prog Lnk Hnd Rdr} `{Ebpf K Prog Lnk} `{PinnedMaps K Hnd Rdr} `{ErrnoText}
    (env : StartEnv K Hnd) pinDir objPath ks k k' (l' : Loader Prog Lnk) h' st' :
  run_start env pinDir objPath ks k = (k', Ok (l', h', st')) →
  ∃ k1, st' = start_registry env ks (se_contents env h' k1).
Proof.
  unfold run_start. intros (k0 & on & _ & Hrun)%mbnd_ok. destruct on; [|done]. simpl in Hrun.
  apply mbnd_ok in Hrun as (k1 & ld & _ & Hrun). cbv beta in Hrun.
  destruct (on_fail Close _ (ld, k1)) as [[l2 k2] [[h st]|e|x]] eqn:Eb; [|done|done].
  injection Hrun as <- <- <- <-. apply on_fail_ok in Eb.
  apply mbnd_ok in Eb as ([l3 k3] & m & _ & Eb%on_fail_ok).
  apply mbnd_ok in Eb as (s3 & s4 & [= <- <-] & Eb). cbv zeta in Eb. apply on_fail_ok in Eb.
  apply mbnd_ok in Eb as (s5 & [] & _ & [= _ <- <-]). by exists k3.
Qed.

(** C17: a bound session is judged from start-up on.  When start-up succeeds over
    maps an earlier run left well typed (or fresh ones), then whatever the
    subscription, the PAM socket, the watcher and the audit stream do afterwards,
    interrupting each other between any two map operations and with any operation
    failing: at every moment every task of a cgroup that carries a tag, on every
    CPU where enforcement is on, finds a warrant, sessions bound before the restart
    included; and whenever nobody is inside the registry's lock, its entries are in
    the kernel as converted. *)
Theorem started_sessions_judged {K Prog Lnk Hnd Rdr} `{Ebpf K Prog Lnk} `{PinnedMaps K Hnd Rdr} `{ErrnoText}
    (env : StartEnv K Hnd) pinDir objPath ks k k' (l' : Loader Prog Lnk) h' st' q c :
  contents_ok env → run_start env pinDir objPath ks k = (k', Ok (l', h', st')) →
  reachable (mkBstate _ _ st' q) c →
  (unlocked c → reg_inv (b_reg (cf_state c))) ∧
  ∀ t id, hm_get (cgroupWarrant (b_maps (cf_state c))) (t_cgroup t) = Some id →
    pa_get (activeFlag (b_maps (cf_state c))) (t_cpu t) = Some 1 →
    ∃ w, lookup_warrant (b_maps (cf_state c)) t = Some (id, TAG_CGROUP, w) ∧ kwarrant_typed w.
Proof.
  intros Hc [k1 ->]%run_start_registry Hr. pose proof (start_registry_inv env ks h' k1 q Hc) as Hi. split.
  - intros Hu. by apply (reachable_linear Hdecode _ _ Hi Hr Hu).
  - intros t id. apply tagged_judged. by eapply reachable_node.
Qed.
End lifecycle.

#[local] Existing Instance demo_os.
#[local] Existing Instance demo_crypto.
#[local] Existing Instance demo_ssh.
#[local] Existing Instance demo_errno_text.
(** A local file with one warrant; its decoder is the one of the pushed warrants. *)
Definition file_json : WarrantJson :=
  {| json_raw_array b := Ok [b]; protojson_Warrant := proto_Unmarshal |}.
#[local] Existing Instance file_json.
Definition demo_restart : StartEnv world nat := mkStartEnv (Ok "lockdown,capability,bpf")
  (mok demo_object) (λ _, mok demo_object) (λ _ _, one_session) (Ok "rev5") "web-1" 0.
Definition demo_restarted : world * res (Loader string nat * MapHandles nat * rstate node) :=
  run_start (Rdr := nat) demo_restart "/sys/fs/bpf/warrant" "" ∅ (demo_world ["mirror"]).
Definition demo_restart_state : rstate node :=
  match snd demo_restarted with Ok (_, _, st) => st | _ => demo_state end.

Lemma one_session_typed : maps_typed one_session ∧ tags_resolve one_session.
Proof.
  split; [split|].
  - intros [|[|cpu]] b; simpl; intros; simplify_eq; auto.
  - intros cg id. simpl. intros [_ <-]%lookup_singleton_Some. unfold_widths. lia.
  - intros id w. simpl. intros [_ <-]%lookup_singleton_Some.
    split; simpl; unfold_widths; unfold ModeEnforce; try lia; auto.
  - intros k v. simpl. by rewrite lookup_empty.
  - intros k v. simpl. by rewrite lookup_empty.
  - intros k v. unfold one_session. cbn [ruleNet]. by rewrite blpm_empty_entry.
  - intros cg id. simpl. intros [_ <-]%lookup_singleton_Some. by rewrite lookup_singleton_eq.
Qed.

(** The restarted daemon has a warrant for alice, and she logs in. *)
Definition demo_login_pending : conf bstate kind :=
  mkConf (mkBstate _ _ demo_restart_state None) (mkRw false 0)
    [(KSub, Idle); (KPam, Busy HNone (serve_prog map_to_list demo_login)); (KWatch, Idle); (KAudit, Idle)].
Definition demo_later : conf bstate kind :=
  default demo_login_pending (schedule (replicate 6 1%nat) demo_login_pending).
Lemma demo_later_reachable : reachable (mkBstate _ _ demo_restart_state None) demo_later.
Proof.
  eapply reachable_step; [|apply schedule_named].
  apply rtc_once. right.
  exact (EnvStart agent_req (mkBstate _ _ demo_restart_state None) (mkRw false 0) KPam
    (serve_prog map_to_list demo_login) [(KSub, Idle)] [(KWatch, Idle); (KAudit, Idle)]
    (RqDatagram map_to_list demo_login (λ m, reflexivity _))).
Qed.
Lemma demo_restart_ok :
  ∃ l' h', demo_restarted = (fst demo_restarted, Ok (l', h', demo_restart_state)).
Proof.
  unfold demo_restart_state. destruct demo_restarted as [k' r] eqn:Hr.
  assert (match snd demo_restarted with Ok _ => true | _ => false end = true) as Hb by (vm_compute; reflexivity).
  rewrite Hr in Hb. destruct r as [[[l' h'] st']|e|x]; [|done|done]. by exists l', h'.
Qed.
Lemma started_sessions_judged_witness :
  hm_get (cgroupWarrant (b_maps (cf_state demo_later))) 77 = Some 1 ∧
  ∃ w, lookup_warrant (b_maps (cf_state demo_later)) session_task = Some (1, TAG_CGROUP, w) ∧ kwarrant_typed w.
Proof.
  assert (hm_get (cgroupWarrant (b_maps (cf_state demo_later))) 77 = Some 1) as Hc by (vm_compute; reflexivity).
  assert (pa_get (activeFlag (b_maps (cf_state demo_later))) 1 = Some 1) as Hon by (vm_compute; reflexivity).
  split; [exact Hc|]. destruct demo_restart_ok as (l' & h' & Hr).
  exact (proj2 (started_sessions_judged demo_decodes demo_decodes demo_restart _ _ _ _ _ _ _ _ None _
    (λ _ _, one_session_typed) Hr demo_later_reachable) session_task 1 Hc Hon).
Defined.
