(* ===== verification/Run.v ===== *)
(** The whole of [run] and [main] (agent/cmd/warrantd/main.go): start-up, the PAM
    socket, the ring buffer, the upstream client, the readiness message, the
    goroutines of Shutdown, and the deferred calls.  What each part releases is put
    together with a frame law: a call on one kind of resource leaves the others
    alone. *)

From Stdlib Require Import ZArith Lia Ascii String.
From stdpp Require Import base tactics numbers list strings gmap.
From S2P Require Import Prelude GoStd GoNet EbpfMap Os BpfMap Concrete Kernel.
From S2P Require Import Policy Session Pb Warrants Upstream Registry Node WatchLoop.
From S2P Require Import Pamsock Ringbuf Services Handles Loader World Shutdown Daemon.

(** * [main] *)

Record Flags := mkFlags {
  fl_pinDir : string; fl_bpfObj : string; fl_pamSocket : string; fl_state : string;
  fl_upstream : string; fl_warrants : string; fl_trustKeys : string
}.
Definition flag_defaults : Flags :=
  mkFlags "/sys/fs/bpf/warrant" "/usr/lib/warrant/warrant.bpf.o" "/run/warrantd/pam.sock"
    "/var/lib/warrantd/state.db" "" "/etc/warrantd/warrants.json" "/etc/warrantd/keys".

(** * [run], from the socket on *)

(** How the goroutines ended ([Shutdown]): what the [select] loop returned, and
    whether the connection and the reader were closed by then. *)
Record outcome := mkOutcome { oc_err : option error; oc_connClosed : bool; oc_readerClosed : bool }.
Definition outcome_of {T} (s : rsys T) : option outcome :=
  match rs_main s with
  | Returned r => Some (mkOutcome r (pm_closed (rs_pam s))
                          (match rs_ring s with Some g => rg_closed g | None => false end))
  | _ => None
  end.

Section run.
Context {K Prog Lnk Hnd Rdr Conn Nc Up : Type} `{Ebpf K Prog Lnk} `{PinnedMaps K Hnd Rdr}
  `{UnixSockets K Conn} `{Notify K Nc} `{Grpc K Up} `{ErrnoText}.
Context `{Crypto} `{Os} `{WallClock} `{KernelMaps} `{WarrantJson}.

(** What the closers do to the system while the goroutines end. *)
Definition main_phase (o : outcome) (srv : Conn) (cons : option (RbHandles Hnd Rdr)) : M K unit :=
  (if oc_connClosed o then mtry (CloseConn srv) ;;; mok tt else mok tt) ;;;
  (match cons with
   | Some c => if oc_readerClosed o then mtry (CloseReader (rb_rd c)) ;;; mok tt else mok tt
   | None => mok tt
   end) ;;;
  match oc_err o with Some e => merr e | None => mok tt end.

(** [defer cons.Close()], if there is a consumer; likewise for the client. *)
Definition with_consumer (cons : option (RbHandles Hnd Rdr)) (m : M K unit) : M K unit :=
  match cons with Some c => deferring (CloseRingbuf c) m | None => m end.
Definition with_client (client : option (Up * Client)) (m : M K unit) : M K unit :=
  match client with Some c => deferring (CloseUpstream c) m | None => m end.

(** A failure is logged. *)
Definition open_consumer (pinDir : string) : M K (option (RbHandles Hnd Rdr)) :=
  do r := mtry (OpenRingbuf pinDir) in
  mok (match r with inl (c, _) => Some c | inr _ => None end).
Definition dial_upstream (upstreamEP : string) : M K (option (Up * Client)) :=
  if bool_decide (upstreamEP = "") then mok None
  else
    do r := mtry (DialUpstream upstreamEP "" "" "") in
    mok (match r with inl c => Some c | inr _ => None end).

Definition run_ready (upstreamEP : string) (o : outcome) (srv : Conn)
    (cons : option (RbHandles Hnd Rdr)) : M K unit :=
  do client := dial_upstream upstreamEP in
  with_client client
    (mtry (sdNotify "READY=1") ;;; main_phase o srv cons).
Definition run_rest (pinDir socketPath upstreamEP : string) (o : outcome) : M K unit :=
  do srv := Listen socketPath in
  do cons := open_consumer pinDir in
  with_consumer cons (run_ready upstreamEP o srv cons).

(** The policies' watcher is closed after everything opened later, then the maps,
    then the loader. *)
Definition run_with (ld : Loader Prog Lnk) (h : MapHandles Hnd) (st : rstate node) (rest : M K unit) : M K unit :=
  λ k, let '((_, k'), r) :=
         deferring Close (deferring (kop (CloseMaps h)) (deferring (mres (close_policies st)) (kop rest)))
           (ld, k) in (k', r).

Definition run (env : StartEnv K Hnd) (pinDir objPath socketPath upstreamEP trustDir : string)
    (o : outcome) : M K unit :=
  do x := run_start env pinDir objPath (loadKeys (se_time env) upstreamEP trustDir) in
  run_with (fst (fst x)) (snd (fst x)) (snd x) (run_rest pinDir socketPath upstreamEP o).

(** [main]: the exit code. *)
Definition main (env : StartEnv K Hnd) (f : Flags) (o : outcome) (k : K) : K * Z :=
  match run env (fl_pinDir f) (fl_bpfObj f) (fl_pamSocket f) (fl_upstream f) (fl_trustKeys f) o k with
  | (k', Ok _) => (k', 0)
  | (k', Err _) => (k', 1)
  | (k', Panic _) => (k', 2)
  end.
End run.

(** * Frames *)

(** The kinds of resource [run] holds. *)
Inductive kind := KLink | KColl | KMap | KSock | KNote.
#[export] Instance kind_eq_dec : EqDecision kind.
Proof. solve_decision. Defined.

Section frames.
Context {K Prog Lnk Hnd Rdr Conn Nc Up Obj Obj' : Type} `{Ebpf K Prog Lnk} `{PinnedMaps K Hnd Rdr}
  `{UnixSockets K Conn} `{Notify K Nc} `{Grpc K Up}.
Context `{Countable Lnk} `{Countable Hnd} `{Countable Rdr} `{Countable Conn} `{Countable Nc}
  `{!EbpfLaws K Prog Lnk Obj} `{!PinnedMapsLaws K Hnd Rdr Obj'} `{!UnixSocketsLaws K Conn}
  `{!NotifyLaws K Nc}.

(** Nothing of the kind was opened, closed or sent between the two states. *)
Definition same (κ : kind) (k0 k : K) : Prop :=
  match κ with
  | KLink => v_handles (view k) = v_handles (view k0)
  | KColl => colls k = colls k0
  | KMap => hv_maps (hsee k) = hv_maps (hsee k0) ∧ hv_readers (hsee k) = hv_readers (hsee k0)
  | KSock => ssee k = ssee k0
  | KNote => nsee k = nsee k0
  end.

(** The system calls, with the kind they may change. *)
Inductive kcall : option kind → (K → K) → Prop :=
  | kc_MkdirAll d : kcall None (λ k, fst (MkdirAll d k))
  | kc_NewCollection s d : kcall (Some KColl) (λ k, fst (NewCollectionWithOptions s d k))
  | kc_CloseCollection fd : kcall (Some KColl) (CloseCollection fd)
  | kc_LoadPinnedLink p : kcall (Some KLink) (λ k, fst (LoadPinnedLink p k))
  | kc_AttachLSM p : kcall (Some KLink) (λ k, fst (AttachLSM p k))
  | kc_AttachTracing p : kcall (Some KLink) (λ k, fst (AttachTracing p k))
  | kc_AttachKprobe s p : kcall (Some KLink) (λ k, fst (AttachKprobe s p k))
  | kc_Pin h p : kcall (Some KLink) (λ k, fst (Pin h p k))
  | kc_Unpin h : kcall (Some KLink) (λ k, fst (Unpin h k))
  | kc_CloseLink h : kcall (Some KLink) (λ k, fst (CloseLink h k))
  | kc_LoadPinnedMap p : kcall (Some KMap) (λ k, fst (LoadPinnedMap p k))
  | kc_CloseMap h : kcall (Some KMap) (λ k, fst (CloseMap h k))
  | kc_PossibleCPU : kcall (Some KMap) (λ k, fst (PossibleCPU k))
  | kc_NewReader h : kcall (Some KMap) (λ k, fst (NewReader h k))
  | kc_CloseReader r : kcall (Some KMap) (λ k, fst (CloseReader r k))
  | kc_Remove p : kcall (Some KSock) (λ k, fst (os_Remove p k))
  | kc_ListenUnixgram p : kcall (Some KSock) (λ k, fst (ListenUnixgram p k))
  | kc_Chmod p m : kcall (Some KSock) (λ k, fst (os_Chmod p m k))
  | kc_CloseConn c : kcall (Some KSock) (λ k, fst (CloseConn c k))
  | kc_DialUnix a : kcall (Some KNote) (λ k, fst (net_DialUnix a k))
  | kc_Write c s : kcall (Some KNote) (λ k, fst (unix_Write c s k))
  | kc_CloseUnix c : kcall (Some KNote) (λ k, fst (unix_Close c k))
  | kc_NewClient e : kcall None (λ k, fst (grpc_NewClient e k))
  | kc_CloseClient c : kcall None (λ k, fst (grpc_Close c k)).
End frames.

Class Frames (K Prog Lnk Hnd Rdr Conn Nc Up Obj Obj' : Type) `{Ebpf K Prog Lnk} `{PinnedMaps K Hnd Rdr}
    `{UnixSockets K Conn} `{Notify K Nc} `{Grpc K Up}
    `{Countable Lnk} `{Countable Hnd} `{Countable Rdr} `{Countable Conn} `{Countable Nc}
    `{!EbpfLaws K Prog Lnk Obj} `{!PinnedMapsLaws K Hnd Rdr Obj'} `{!UnixSocketsLaws K Conn}
    `{!NotifyLaws K Nc} : Prop := {
  kept c κ f k : kcall (Prog := Prog) (Lnk := Lnk) (Hnd := Hnd) (Rdr := Rdr) (Conn := Conn) (Nc := Nc) (Up := Up) c f →
    c ≠ Some κ → same (Lnk := Lnk) (Hnd := Hnd) (Rdr := Rdr) (Conn := Conn) (Nc := Nc) κ k (f k);
  CloseCollection_view fd k : view (CloseCollection (Prog := Prog) (Lnk := Lnk) fd k) = view k
}.

(** * Lemmas *)

Lemma keeps_kop {K Prog Lnk A} (P : K → Prop) (m : M K A) :
  keeps P m → keeps (λ s : Loader Prog Lnk * K, P (snd s)) (kop m).
Proof. intros Hm [l k] Hk. unfold kop. specialize (Hm k Hk). by destruct (m k). Qed.
Lemma keeps_mod_l {K Prog Lnk} (P : K → Prop) f :
  keeps (λ s : Loader Prog Lnk * K, P (snd s)) (mod_l f).
Proof. by intros [l k] Hk. Qed.
(** What a property of the loader's own fields needs. *)
Lemma keeps_kop_l {K Prog Lnk A} (P : Loader Prog Lnk → Prop) (m : M K A) : keeps (λ s, P (fst s)) (kop m).
Proof. intros [l k] Hl. unfold kop. by destruct (m k). Qed.
Lemma keeps_deref {S A} (P : S → Prop) (o : option A) : keeps P (deref o).
Proof. destruct o; [apply keeps_mok|apply keeps_mres]. Qed.
Lemma keeps_on_fail {S A B} (P : S → Prop) (f : M S B) (m : M S A) :
  keeps P f → keeps P m → keeps P (on_fail f m).
Proof. intros Hf Hm s Hs. unfold on_fail. specialize (Hm s Hs). destruct (m s) as [s' []]; [done|by apply Hf..]. Qed.
#[local] Hint Resolve keeps_kop keeps_mod_l keeps_deref : gohints.

(** [keep_steps], through [mtry], [wrapping] and the loader's state. *)
Ltac frame_steps :=
  repeat first
    [ progress keep_steps | apply keeps_mtry | apply keeps_wrapping | apply keeps_deferring
    | apply keeps_on_fail | apply keeps_kop ].

Section frame_lemmas.
Context {K Prog Lnk Hnd Rdr Conn Nc Up Obj Obj' : Type}.
Context `{Ef : Frames K Prog Lnk Hnd Rdr Conn Nc Up Obj Obj'} `{ErrnoText}.
Implicit Types (k : K) (κ : kind).
Notation same := (same (K := K) (Prog := Prog) (Lnk := Lnk) (Hnd := Hnd) (Rdr := Rdr) (Conn := Conn) (Nc := Nc)).

Lemma same_refl κ k : same κ k k.
Proof. by destruct κ. Qed.
Lemma same_trans κ k1 k2 k3 : same κ k1 k2 → same κ k2 k3 → same κ k1 k3.
Proof. destruct κ; simpl; intuition congruence. Qed.

Lemma keeps_call {A} c κ k0 (m : M K A) :
  kcall (Prog := Prog) (Lnk := Lnk) (Hnd := Hnd) (Rdr := Rdr) (Conn := Conn) (Nc := Nc) (Up := Up) c (λ k, fst (m k)) →
  c ≠ Some κ → keeps (same κ k0) m.
Proof. intros Hc Hn k Hk. eapply same_trans; [done|]. by apply (kept c κ _ k Hc). Qed.

Ltac call := eapply keeps_call; [constructor|congruence].

(** The loader touches links and its collection only. *)
Lemma LoadObject_same κ k0 em ff obj dir :
  κ ≠ KColl → keeps (same κ k0) em → (∀ p, keeps (same κ k0) (ff p)) →
  keeps (same κ k0) (LoadObject (Prog := Prog) (Lnk := Lnk) em ff obj dir).
Proof.
  intros Hn He Hf. assert (∀ fuel i src m, keeps (same κ k0) m →
    keeps (same κ k0) (load_loop (Prog := Prog) (Lnk := Lnk) fuel i dir src m)) as Hl.
  { intros fuel. induction fuel as [|fuel IH]; intros i src m Hm; simpl; [apply keeps_mres|].
    frame_steps; call. }
  unfold LoadObject, Load, load, mkdir. frame_steps; try call; by apply Hl.
Qed.
(** It has a new collection if loading succeeded, and none otherwise. *)
Definition only_coll k0 (l : Loader Prog Lnk) k : Prop :=
  collFd l ∉ colls k0 ∧ colls k = {[collFd l]} ∪ colls k0.
Lemma keeps_colls {A} (m : M K A) : (∀ k0, keeps (same KColl k0) m) → ∀ k, colls (fst (m k)) = colls k.
Proof. intros Hm k. exact (Hm k k eq_refl). Qed.
Lemma load_colls dir src (m : M K CollectionSpec) k :
  (∀ k0, keeps (same KColl k0) m) →
  match load (Prog := Prog) (Lnk := Lnk) dir src m k with
  | (k', Ok l) => only_coll k l k'
  | (k', _) => colls k' = colls k
  end.
Proof.
  intros Hm. assert (∀ w d k0, keeps (same KColl k0) (mkdir (Prog := Prog) (Lnk := Lnk) w d)) as Hd
    by (intros w d k0; unfold mkdir; frame_steps; call).
  unfold load, mbnd. pose proof (keeps_colls _ (Hd "pin 디렉터리" dir) k) as E1.
  destruct (mkdir _ dir k) as [k1 [[]|e|x]]; [|done|done].
  pose proof (keeps_colls _ (Hd "링크 디렉터리" (filepath_Join dir linkSubdir)) k1) as E2.
  destruct (mkdir _ _ k1) as [k2 [[]|e|x]]; simpl in E1, E2; [|congruence|congruence].
  pose proof (load_loop_colls attempts 0 dir src m k2 (keeps_colls m Hm)) as El.
  destruct (load_loop _ _ _ _ _ k2) as [k3 [sc|e|x]]; unfold only_coll; simpl; rewrite <- E1, <- E2; exact El.
Qed.
Lemma LoadObject_colls em ff obj dir k :
  (∀ k0, keeps (same KColl k0) em ∧ ∀ p, keeps (same KColl k0) (ff p)) →
  match LoadObject (Prog := Prog) (Lnk := Lnk) em ff obj dir k with
  | (k', Ok l) => only_coll k l k'
  | (k', _) => colls k' = colls k
  end.
Proof.
  intros Hq. unfold LoadObject, Load. case_bool_decide; apply load_colls; intros k0; by apply Hq.
Qed.

Lemma AttachAll_same κ k0 :
  κ ≠ KLink → keeps (λ s, same κ k0 (snd s)) (AttachAll (K := K) (Prog := Prog) (Lnk := Lnk)).
Proof.
  intros Hn. unfold AttachAll, attach_step, attachOne, keep_link, detachAll, detach_one, attachByType.
  frame_steps; call.
Qed.
Lemma close_each_same κ k0 ls errs :
  κ ≠ KLink → keeps (λ s, same κ k0 (snd s)) (close_each (K := K) (Prog := Prog) (Lnk := Lnk) ls errs).
Proof.
  intros Hn. revert errs. induction ls as [|[n h] ls IH]; intros errs; simpl; [apply keeps_mok|].
  unfold close_one. frame_steps; call.
Qed.
Lemma Close_same κ k0 :
  κ ≠ KLink → κ ≠ KColl → keeps (λ s, same κ k0 (snd s)) (Close (K := K) (Prog := Prog) (Lnk := Lnk)).
Proof.
  intros Hn Hn'. pose proof (λ ls errs, close_each_same κ k0 ls errs Hn) as Hc.
  unfold Close. frame_steps. intros [l k] Hk. simpl in *.
  eapply same_trans; [done|]. apply (kept (Some KColl) κ _ _ (kc_CloseCollection _)). congruence.
Qed.
(** [Close] closes the collection too. *)
Lemma Close_colls k0 l k : only_coll k0 l k → colls (snd (fst (Close (l, k)))) = colls k0.
Proof.
  intros [Hn Hc]. unfold Close. unfold mbnd at 1. simpl.
  destruct (close_each_view (range_links (links l)) [] l k) as (k1 & es & E & _).
  pose proof (close_each_same KColl k (range_links (links l)) [] ltac:(done) (l, k) eq_refl) as Hk.
  rewrite E in Hk. simpl in Hk.
  rewrite (mbnd_run _ _ _ _ _ E). simpl. rewrite CloseCollection_closed, Hk, Hc.
  apply set_eq. intros x. rewrite elem_of_difference, elem_of_union, elem_of_singleton.
  split; [tauto|]. intros Hx. split; [by right|]. by intros ->.
Qed.
(** The loader keeps its collection while it works. *)
Lemma AttachAll_coll fd : keeps (λ s, collFd (fst s) = fd) (AttachAll (K := K) (Prog := Prog) (Lnk := Lnk)).
Proof.
  unfold AttachAll, attach_step, attachOne, keep_link, detachAll, detach_one, attachByType.
  repeat first [ progress keep_steps | apply keeps_mtry
    | apply (keeps_kop_l (λ l : Loader Prog Lnk, collFd l = fd)) | by intros [? ?] ? ].
Qed.
Lemma Detach_coll fd : keeps (λ s, collFd (fst s) = fd) (Detach (K := K) (Prog := Prog) (Lnk := Lnk)).
Proof.
  assert (∀ ls errs, keeps (λ s, collFd (fst s) = fd)
    (detach_each (K := K) (Prog := Prog) (Lnk := Lnk) ls errs)) as Hc.
  { intros ls. induction ls as [|[n h] ls IH]; intros errs; cbn [detach_each];
      repeat first [ progress keep_steps | apply keeps_mtry
        | apply (keeps_kop_l (λ l : Loader Prog Lnk, collFd l = fd)) | by intros [? ?] ? ]. }
  unfold Detach. repeat first [ progress keep_steps | by intros [? ?] ? ].
Qed.
Lemma Detach_same κ k0 :
  κ ≠ KLink → keeps (λ s, same κ k0 (snd s)) (Detach (K := K) (Prog := Prog) (Lnk := Lnk)).
Proof.
  intros Hn. assert (∀ ls errs, keeps (λ s, same κ k0 (snd s))
    (detach_each (K := K) (Prog := Prog) (Lnk := Lnk) ls errs)) as Hc.
  { intros ls. induction ls as [|[n h] ls IH]; intros errs; cbn [detach_each]; frame_steps; call. }
  unfold Detach. frame_steps.
Qed.
(** The maps touch map handles only. *)
Lemma CloseMaps_same κ k0 h : κ ≠ KMap → keeps (same κ k0) (CloseMaps (Rdr := Rdr) h).
Proof.
  intros Hn. unfold CloseMaps, handles. simpl. unfold collect. frame_steps; call.
Qed.
Lemma OpenMaps_same κ k0 dir : κ ≠ KMap → keeps (same κ k0) (OpenMaps (Hnd := Hnd) (Rdr := Rdr) dir).
Proof.
  intros Hn. pose proof (λ m, CloseMaps_same κ k0 m Hn) as Hc.
  assert (∀ table m, keeps (same κ k0) (open_each dir table m)) as Ho.
  { intros table. induction table as [|[dst n] table IH]; intros m; cbn [open_each]; frame_steps; call. }
  unfold OpenMaps. frame_steps. call.
Qed.
Lemma OpenRingbuf_same κ k0 dir :
  κ ≠ KMap → keeps (same κ k0) (OpenRingbuf (Hnd := Hnd) (Rdr := Rdr) dir).
Proof. intros Hn. unfold OpenRingbuf. frame_steps; call. Qed.
Lemma CloseRingbuf_same κ k0 c :
  κ ≠ KMap → keeps (same κ k0) (CloseRingbuf (Hnd := Hnd) (Rdr := Rdr) c).
Proof. intros Hn. unfold CloseRingbuf, collect. frame_steps; call. Qed.
(** And so on. *)
Lemma Listen_same κ k0 p : κ ≠ KSock → keeps (same κ k0) (Listen (Conn := Conn) p).
Proof. intros Hn. unfold Listen. frame_steps; call. Qed.
Lemma sdNotify_same κ k0 m : κ ≠ KNote → keeps (same κ k0) (sdNotify (Nc := Nc) m).
Proof. intros Hn. unfold sdNotify. frame_steps; call. Qed.
Lemma dial_upstream_same κ k0 ep : keeps (same κ k0) (dial_upstream (Up := Up) ep).
Proof. unfold dial_upstream, DialUpstream, dial. frame_steps; call. Qed.
Lemma CloseUpstream_same κ k0 c : keeps (same κ k0) (CloseUpstream (Conn := Up) c).
Proof. unfold CloseUpstream. call. Qed.
#[local] Hint Resolve dial_upstream_same CloseUpstream_same : gohints.

Lemma Getenv_kept n k k' : same KNote k k' → os_Getenv (Nc := Nc) n k' = os_Getenv (Nc := Nc) n k.
Proof. intros E. simpl in E. by rewrite !os_Getenv_spec, E. Qed.

(** A property that depends on one kind only survives calls on the others. *)
Lemma keeps_of_same {A} κ (P : K → Prop) (m : M K A) :
  (∀ k k', same κ k k' → P k → P k') → (∀ k0, keeps (same κ k0) m) → keeps P m.
Proof. intros HP Hm k Hk. eapply HP; [|done]. apply Hm, same_refl. Qed.

(** ** From the socket on *)

Notation phase := (main_phase (Hnd := Hnd) (Rdr := Rdr) (Conn := Conn)).
Notation ready := (run_ready (Hnd := Hnd) (Rdr := Rdr) (Conn := Conn) (Nc := Nc) (Up := Up)).
Notation rest := (run_rest (Hnd := Hnd) (Rdr := Rdr) (Conn := Conn) (Nc := Nc) (Up := Up)).

(** What [run_ready] keeps is what its three parts keep. *)
Lemma keeps_ready κ (P : K → Prop) ep o srv cons :
  κ ≠ KNote → (∀ k k', same κ k k' → P k → P k') → keeps P (phase o srv cons) →
  keeps P (ready ep o srv cons).
Proof.
  intros Hn HP Hm. unfold run_ready, with_client. apply keeps_mbnd.
  { apply (keeps_of_same κ); [done|auto with gohints]. }
  assert (keeps P (mtry (sdNotify (Nc := Nc) "READY=1"))) as Hs.
  { apply keeps_mtry, (keeps_of_same κ); [done|]. intros k0. by apply sdNotify_same. }
  intros [c|]; [apply keeps_deferring|]; [|by apply keeps_mbnd..].
  apply (keeps_of_same κ); [done|auto with gohints].
Qed.

(** What [run_rest] keeps, when the socket and the ring buffer keep it. *)
Lemma keeps_rest κ (P : K → Prop) dir sp ep o :
  κ ≠ KNote → (∀ k k', same κ k k' → P k → P k') →
  keeps P (Listen (Conn := Conn) sp) → keeps P (OpenRingbuf (Hnd := Hnd) (Rdr := Rdr) dir) →
  (∀ c, keeps P (CloseRingbuf (Hnd := Hnd) (Rdr := Rdr) c)) → (∀ srv cons, keeps P (phase o srv cons)) →
  keeps P (rest dir sp ep o).
Proof.
  intros Hn HP Hl Ho Hc Hm. unfold run_rest, open_consumer, with_consumer.
  apply keeps_mbnd; [done|]. intros srv.
  apply keeps_mbnd; [apply keeps_mbnd; [by apply keeps_mtry|intros ?; apply keeps_mok]|].
  intros [c|]; [apply keeps_deferring; [done|]|]; by apply (keeps_ready κ).
Qed.
Lemma rest_links κ k0 dir sp ep o : κ = KLink ∨ κ = KColl → keeps (same κ k0) (rest dir sp ep o).
Proof.
  intros Hk. assert (κ ≠ KMap ∧ κ ≠ KSock ∧ κ ≠ KNote) as (? & ? & ?) by (by destruct Hk as [->| ->]).
  apply (keeps_rest κ); [done|intros; by eapply same_trans|by apply Listen_same| | |].
  - by apply OpenRingbuf_same.
  - intros c. by apply CloseRingbuf_same.
  - intros srv cons. unfold main_phase. frame_steps; call.
Qed.

(** The ring buffer's handles are open, the reader possibly closed already. *)
Definition ring_open (c : RbHandles Hnd Rdr) k2 k : Prop :=
  hv_maps (hsee k) = hv_maps (hsee k2) ∧
  base.delete (rb_rd c) (hv_readers (hsee k)) = base.delete (rb_rd c) (hv_readers (hsee k2)).
Lemma ring_open_same c k2 k k' : same KMap k k' → ring_open c k2 k → ring_open c k2 k'.
Proof. intros [E1 E2]. unfold ring_open. by rewrite E1, E2. Qed.
Lemma ring_open_reader c k2 : keeps (ring_open c k2) (CloseReader (Hnd := Hnd) (rb_rd c)).
Proof.
  intros k [E1 E2]. destruct (CloseReader_spec (rb_rd c) k) as [E _]. unfold ring_open. rewrite E. simpl.
  by rewrite delete_delete_eq.
Qed.
(** Closing them gives up what [OpenRingbuf] took. *)
Lemma ring_released dir c cs k1 k2 k3 :
  OpenRingbuf dir k1 = (k2, Ok (c, cs)) → ring_open c k2 k3 → same KMap k1 (fst (CloseRingbuf c k3)).
Proof.
  intros Eo [Hm' Hr']. pose proof (OpenRingbuf_spec dir k1) as Hs. rewrite Eo in Hs.
  destruct Hs as (_ & Honce & (v & _ & Hr & Hrn & Hm & Hmn) & _).
  destruct (CloseRingbuf_first c k3 Honce) as (k4 & c' & e & E & Em & Er). rewrite E. simpl.
  by rewrite Em, Er, Hm', Hr', Hm, Hr, !delete_insert_id.
Qed.

Lemma rest_maps dir sp ep o k : same KMap k (fst (rest dir sp ep o k)).
Proof.
  unfold run_rest. unfold mbnd at 1.
  pose proof (Listen_same KMap k sp ltac:(done) k (same_refl _ _)) as Hl.
  destruct (Listen sp k) as [k1 [srv|e|x]]; [|done|done]. cbn [fst] in Hl.
  eapply same_trans; [exact Hl|]. clear Hl k. unfold open_consumer, mbnd, mtry.
  pose proof (OpenRingbuf_spec dir k1) as Hs.
  destruct (OpenRingbuf dir k1) as [k2 [[c cs]|e|x]] eqn:Eo; [| |done].
  2:{ cbn [with_consumer]. apply (keeps_ready KMap (same KMap k1)); [done|intros; by eapply same_trans| |].
      - unfold main_phase. frame_steps; call.
      - simpl. by rewrite Hs. }
  clear Hs. cbv beta iota delta [with_consumer deferring mok].
  assert (ring_open c k2 (fst (ready ep o srv (Some c) k2))) as Hopen.
  { apply (keeps_ready KMap); [done|apply ring_open_same| |done].
    assert (keeps (ring_open c k2) (CloseConn srv))
      by (apply (keeps_of_same KMap); [apply ring_open_same|intros k0; call]).
    pose proof (ring_open_reader c k2). unfold main_phase. frame_steps. }
  destruct (ready ep o srv (Some c) k2) as [k3 r]. by eapply ring_released.
Qed.

Lemma phase_socket o srv cons k :
  ssee (fst (phase o srv cons k)) =
  mkSview (sv_files (ssee k)) (if oc_connClosed o then base.delete srv (sv_conns (ssee k)) else sv_conns (ssee k)).
Proof.
  assert (∀ k0, keeps (same KSock k0)
    ((match cons with
      | Some c => if oc_readerClosed o then mtry (CloseReader (Hnd := Hnd) (rb_rd c)) ;;; mok tt else mok tt
      | None => mok tt
      end) ;;; match oc_err o with Some e => merr e | None => mok tt end)) as Hk
    by (intros k0; frame_steps; call).
  unfold main_phase. destruct (oc_connClosed o).
  - unfold mbnd at 1 2, mtry. destruct (CloseConn_spec srv k) as [E Hp].
    destruct (CloseConn srv k) as [k1 [[]|e|x]]; [| |by destruct (Hp x)]; cbn [fst mok] in E |- *;
      rewrite <- E; exact (Hk k1 k1 eq_refl).
  - change (ssee (fst (phase (mkOutcome (oc_err o) false (oc_readerClosed o)) srv cons k)) =
            mkSview (sv_files (ssee k)) (sv_conns (ssee k))).
    transitivity (ssee k); [exact (Hk k k eq_refl)|by destruct (ssee k)].
Qed.
Lemma phase_notes o srv cons k0 : keeps (same KNote k0) (phase o srv cons).
Proof. unfold main_phase. frame_steps; call. Qed.

(** The readiness message and what follows it. *)
Definition ready_sent k k' : Prop :=
  nv_sent (nsee k') = nv_sent (nsee k) ++
    [(notify_addr (os_Getenv (Nc := Nc) "NOTIFY_SOCKET" k), "READY=1")].
Lemma ready_core o srv cons k k' r :
  (mtry (sdNotify (Nc := Nc) "READY=1") ;;; phase o srv cons) k = (k', r) →
  nv_conns (nsee k') = nv_conns (nsee k) ∧
  (nv_sent (nsee k') = nv_sent (nsee k) ∨ ready_sent k k') ∧
  ssee k' = mkSview (sv_files (ssee k))
    (if oc_connClosed o then base.delete srv (sv_conns (ssee k)) else sv_conns (ssee k)).
Proof.
  unfold mbnd, mtry. pose proof (sdNotify_same KSock k "READY=1" ltac:(done) k (same_refl _ _)) as Hs.
  destruct (sdNotify "READY=1" k) as [k1 r1] eqn:E. cbn [fst] in Hs.
  destruct (sdNotify_spec _ _ _ _ E) as (Hc & Hp & Hsent).
  intros E'. assert (phase o srv cons k1 = (k', r)) as Ep
    by (destruct r1 as [[]|e|x]; [done|done|by destruct (Hp x)]). clear E'.
  pose proof (phase_socket o srv cons k1) as Hps. pose proof (phase_notes o srv cons k1 k1 (same_refl _ _)) as Hpn.
  rewrite Ep in Hps, Hpn. simpl in Hs, Hps, Hpn. rewrite Hs in Hps. unfold ready_sent. rewrite Hpn.
  split; [done|]. split; [|done].
  destruct r1 as [[]|e|x]; [|left; by rewrite Hsent, app_nil_r|by destruct (Hp x)].
  cbv zeta in Hsent. destruct (bool_decide _); [left; by rewrite Hsent, app_nil_r|by right].
Qed.
Lemma dial_upstream_total ep k k1 e : dial_upstream (Up := Up) ep k ≠ (k1, Err e).
Proof.
  unfold dial_upstream. case_bool_decide; [done|]. unfold mbnd, mtry.
  by destruct (DialUpstream ep "" "" "" k) as [k2 []].
Qed.
Lemma ready_spec ep o srv cons k k' r :
  ready ep o srv cons k = (k', r) → (∀ x, r ≠ Panic x) →
  nv_conns (nsee k') = nv_conns (nsee k) ∧
  (nv_sent (nsee k') = nv_sent (nsee k) ∨ ready_sent k k') ∧
  ssee k' = mkSview (sv_files (ssee k))
    (if oc_connClosed o then base.delete srv (sv_conns (ssee k)) else sv_conns (ssee k)).
Proof.
  unfold run_ready, mbnd at 1.
  pose proof (λ κ, dial_upstream_same κ k ep k (same_refl _ _)) as Hd.
  destruct (dial_upstream ep k) as [k1 [cl|e|x]] eqn:Ed; [| |intros [= _ <-] Hp; by destruct (Hp x)].
  2:{ by apply dial_upstream_total in Ed. }
  pose proof (Hd KSock) as Hds. pose proof (Hd KNote) as Hdn. simpl in Hds, Hdn.
  pose proof (Getenv_kept "NOTIFY_SOCKET" k k1 Hdn) as Hg.
  destruct ((mtry (sdNotify (Nc := Nc) "READY=1") ;;; phase o srv cons) k1) as [k2 r2] eqn:E.
  pose proof (ready_core _ _ _ _ _ _ E) as Hc. unfold ready_sent in *. rewrite Hg, Hds, Hdn in Hc.
  destruct cl as [c|]; unfold with_client, deferring; rewrite E; intros [= <- <-] _; [|done].
  pose proof (λ κ, CloseUpstream_same κ k2 c k2 (same_refl _ _)) as Hcl.
  pose proof (Hcl KSock) as Hcs. pose proof (Hcl KNote) as Hcn. simpl in Hcs, Hcn.
  by rewrite Hcs, Hcn.
Qed.
(** What is left of the socket: the connection, unless the closer has run. *)
Definition socket_left (o : outcome) sp (k k' : K) : Prop :=
  sv_conns (ssee k') = sv_conns (ssee k) ∨
  oc_connClosed o = false ∧ ∃ c, sv_conns (ssee k) !! c = None ∧ sv_conns (ssee k') = <[c := sp]> (sv_conns (ssee k)).
Definition ready_once sp (k k' : K) : Prop :=
  nv_sent (nsee k') = nv_sent (nsee k) ∨
  ready_sent k k' ∧ ∃ c, sv_files (ssee k') !! sp = Some (socketMode, Some c).

Lemma open_consumer_same κ k0 dir : κ ≠ KMap → keeps (same κ k0) (open_consumer (Hnd := Hnd) (Rdr := Rdr) dir).
Proof.
  intros Hn. unfold open_consumer. apply keeps_mbnd; [apply keeps_mtry; by apply OpenRingbuf_same|].
  intros ?. apply keeps_mok.
Qed.
Lemma open_consumer_total dir k : ∃ k' c, open_consumer (Hnd := Hnd) (Rdr := Rdr) dir k = (k', Ok c).
Proof.
  unfold open_consumer, mbnd, mtry. pose proof (OpenRingbuf_spec dir k) as Hs.
  destruct (OpenRingbuf dir k) as [k1 [[c cs]|e|x]]; [by eexists _, _..|done].
Qed.
(** A deferred [Close] of the consumer touches neither sockets nor messages. *)
Lemma with_consumer_same κ cons (m : M K unit) k k' r :
  κ ≠ KMap → with_consumer cons m k = (k', r) → ∃ k1, m k = (k1, r) ∧ same κ k1 k'.
Proof.
  intros Hn. unfold with_consumer. destruct cons as [c|]; [|intros E; exists k'; split; [done|apply same_refl]].
  unfold deferring. destruct (m k) as [k1 r1]. intros [= <- <-]. exists k1. split; [done|].
  apply CloseRingbuf_same; [done|apply same_refl].
Qed.

Lemma rest_spec dir sp ep o k k' r :
  rest dir sp ep o k = (k', r) → (∀ x, r ≠ Panic x) →
  nv_conns (nsee k') = nv_conns (nsee k) ∧ socket_left o sp k k' ∧ ready_once sp k k'.
Proof.
  unfold run_rest, mbnd at 1. intros E Hp.
  pose proof (Listen_same KNote k sp ltac:(done) k (same_refl _ _)) as Hln. simpl in Hln.
  destruct (Listen sp k) as [k1 r1] eqn:El. pose proof (Listen_bound _ _ _ _ El) as (Hpl & Hok & Herr & _).
  destruct r1 as [srv|e|x]; [| |by destruct (Hpl x)]; cbn [fst] in Hln.
  2:{ injection E as <- <-. unfold socket_left, ready_once. rewrite Hln, (Herr e eq_refl). auto. }
  destruct (Hok srv eq_refl) as (Hfresh & Hconns & Hfile). clear Hok Herr Hpl.
  unfold mbnd in E. pose proof (open_consumer_same KSock k1 dir ltac:(done) k1 (same_refl _ _)) as Hcs.
  pose proof (open_consumer_same KNote k1 dir ltac:(done) k1 (same_refl _ _)) as Hcn.
  destruct (open_consumer_total dir k1) as (k2 & cons & Ec). rewrite Ec in E, Hcs, Hcn. simpl in Hcs, Hcn.
  destruct (with_consumer_same KSock _ _ _ _ _ ltac:(done) E) as (k3 & Er & Hs3).
  destruct (with_consumer_same KNote _ _ _ _ _ ltac:(done) E) as (k3' & Er' & Hn3).
  assert (k3' = k3) as -> by congruence. simpl in Hs3, Hn3.
  destruct (ready_spec _ _ _ _ _ _ _ Er Hp) as (Hnc & Hsent & Hss).
  rewrite Hcs in Hss. unfold socket_left, ready_once, ready_sent in *.
  assert (os_Getenv (Nc := Nc) "NOTIFY_SOCKET" k2 = os_Getenv (Nc := Nc) "NOTIFY_SOCKET" k) as Hg.
  { rewrite (Getenv_kept _ k1 k2) by done. by apply Getenv_kept. }
  rewrite Hcn, Hln, Hg in Hsent. rewrite Hn3, Hs3, Hnc, Hcn, Hln, Hss. cbn [sv_conns sv_files].
  split; [done|]. split.
  - rewrite Hconns. destruct (oc_connClosed o); [left; by rewrite delete_insert_id|right]. eauto.
  - destruct Hsent as [?|?]; [by left|right]. eauto.
Qed.
(** ** Start-up *)

Definition all_same k0 k : Prop := ∀ κ, same κ k0 k.

(** Since [k0] the process holds the links of [l] and the maps of [h], no more. *)
Definition held k0 (l : Loader Prog Lnk) (h : MapHandles Hnd) k : Prop :=
  only_links k0 l k ∧ only_maps k0 h k ∧ hv_readers (hsee k) = hv_readers (hsee k0).

Lemma only_links_same k0 k1 l k k' :
  same KLink k0 k1 → same KLink k k' → only_links k1 l k → only_links k0 l k'.
Proof. intros E1 E2 [Ho Hn]. simpl in *. split; [intros h Hh|intros n h Hh]; rewrite <- ?E1, ?E2; eauto. Qed.
Lemma only_maps_same k0 k1 h k k' :
  same KMap k0 k1 → same KMap k k' → only_maps k1 h k → only_maps k0 h k'.
Proof. intros [E1 _] [E2 _] Hm x. specialize (Hm x). by rewrite <- E1, E2. Qed.
Lemma held_same k0 l h k k' : same KLink k k' → same KMap k k' → held k0 l h k → held k0 l h k'.
Proof.
  intros El Em (Hl & Hm & Hr). split; [|split].
  - by eapply only_links_same; [apply same_refl|exact El|].
  - by eapply only_maps_same; [apply same_refl|exact Em|].
  - destruct Em as [_ ->]. done.
Qed.

Lemma only_coll_same k0 k1 l l' k k' :
  same KColl k0 k1 → same KColl k k' → collFd l' = collFd l → only_coll k1 l k → only_coll k0 l' k'.
Proof. intros E1 E2 E3 [Hn Hc]. unfold only_coll. simpl in *. by rewrite <- E1, E2, E3. Qed.

(** [Close] gives up the links and the collection, and nothing else. *)
Lemma close_links k0 l k :
  only_links k0 l k → only_coll k0 l k → ∃ l' k' e, Close (l, k) = ((l', k'), Ok e) ∧
    same KLink k0 k' ∧ same KColl k0 k' ∧ v_pins (view k') = v_pins (view k) ∧
    ∀ κ, κ ≠ KLink → κ ≠ KColl → same κ k k'.
Proof.
  intros Hl Hco. destruct (Close_restores k0 l k Hl CloseCollection_view) as (k' & e & E & Hv & Hp).
  eexists _, k', e. split; [done|]. split; [done|]. split; [|split; [done|]].
  - apply Close_colls in Hco. by rewrite E in Hco.
  - intros κ Hn Hn'. pose proof (Close_same κ k Hn Hn' (l, k) (same_refl _ _)) as Hc. by rewrite E in Hc.
Qed.
(** Closing the maps, then the links, gives up everything held. *)
Lemma close_held k0 l h k :
  held k0 l h k → only_coll k0 l k →
  ∃ k1 e1 l' k' e, CloseMaps h k = (k1, Ok e1) ∧ Close (l, k1) = ((l', k'), Ok e) ∧
    same KLink k0 k' ∧ same KColl k0 k' ∧ same KMap k0 k' ∧ ssee k' = ssee k ∧ nsee k' = nsee k.
Proof.
  intros (Hl & Hm & Hr) Hco. destruct (CloseMaps_restores k0 h k Hm) as (k1 & e1 & E1 & Hm1 & Hr1).
  pose proof (λ κ Hn, CloseMaps_same κ k h Hn k (same_refl _ _)) as Hc. rewrite E1 in Hc. cbn [fst] in Hc.
  destruct (close_links k0 l k1) as (l' & k' & e & E2 & Hl2 & Hco2 & _ & Hc2).
  { eapply only_links_same; [apply same_refl|by apply Hc|exact Hl]. }
  { by eapply only_coll_same; [apply same_refl|by apply Hc|reflexivity|]. }
  exists k1, e1, l', k', e. split; [done|]. split; [done|]. split; [done|]. split; [done|].
  pose proof (Hc2 KMap ltac:(done) ltac:(done)) as [Ema Emb]. pose proof (Hc2 KSock ltac:(done) ltac:(done)) as Es.
  pose proof (Hc2 KNote ltac:(done) ltac:(done)) as En. pose proof (Hc KSock ltac:(done)) as Es1.
  pose proof (Hc KNote ltac:(done)) as En1. simpl in *. split; [split|split]; congruence.
Qed.

Context `{Crypto} `{Os} `{WallClock} `{KernelMaps} `{WarrantJson}.

Lemma run_attach_state (s : Loader Prog Lnk * K) : fst (run_attach s) = fst (AttachAll s).
Proof.
  unfold run_attach, mbnd, wrapping. destruct (AttachAll s) as [s1 [[]|e|x]]; [|done|done].
  simpl. done.
Qed.
Lemma run_attach_links l k l' k' r :
  fresh_loader l → run_attach (l, k) = ((l', k'), r) →
  only_links k l' k' ∧ collFd l' = collFd l ∧ ∀ κ, κ ≠ KLink → same κ k k'.
Proof.
  intros Hf E. pose proof (run_attach_state (l, k)) as Hs. rewrite E in Hs.
  destruct (AttachAll (l, k)) as [[l1 k1] r1] eqn:Ea. simpl in Hs. injection Hs as <- <-.
  split; [by destruct (attach_all_links _ _ _ _ _ Hf Ea)|]. split.
  { pose proof (AttachAll_coll (collFd l) (l, k) eq_refl) as Hc. by rewrite Ea in Hc. }
  intros κ Hn. pose proof (AttachAll_same κ k Hn (l, k) (same_refl _ _)) as Hc. by rewrite Ea in Hc.
Qed.

(** Reading the object opens nothing. *)
Definition object_quiet (embedded : M K CollectionSpec) (fromFile : string → M K CollectionSpec) : Prop :=
  ∀ κ k0, keeps (same κ k0) embedded ∧ ∀ p, keeps (same κ k0) (fromFile p).
Definition object_plain (embedded : M K CollectionSpec) (fromFile : string → M K CollectionSpec) objPath : Prop :=
  ∀ m, m = embedded ∨ m = fromFile objPath →
    ∀ k1 k2 s n, m k1 = (k2, Ok s) → is_Some (spec_Programs s !! n) → plain_name n.

Lemma start_opened env dir ks l k l' k' r :
  fresh_loader l →
  (do h := wrapping ("open maps " +:+ dir +:+ ": ") (kop (OpenMaps dir)) in
   on_fail (kop (CloseMaps h))
     (do s := mget in
      let st := start_registry env ks (se_contents env h (snd s)) in
      on_fail (mres (close_policies st)) (run_attach ;;; mok (h, st)))) (l, k) = ((l', k'), r) →
  collFd l' = collFd l ∧
  match r with
  | Ok (h, _) => held k l' h k' ∧ same KColl k k' ∧ same KSock k k' ∧ same KNote k k'
  | _ => only_links k l' k' ∧ ∀ κ, κ ≠ KLink → same κ k k'
  end.
Proof.
  intros Hf. unfold mbnd at 1, wrapping, kop at 1. pose proof (OpenMaps_spec (Rdr := Rdr) dir k) as Ho.
  pose proof (λ κ Hn, OpenMaps_same κ k dir Hn k (same_refl _ _)) as Hs.
  destruct (OpenMaps dir k) as [k1 [h|e|x]]; cbn [fst] in Hs; [| |done].
  2:{ intros [= <- <- <-]. split; [done|]. split.
      - eapply only_links_same; [apply same_refl|by apply Hs|by apply fresh_only_links].
      - intros [| | | |] Hn; [done|by apply Hs|simpl; by rewrite Ho|by apply Hs..]. }
  destruct Ho as ((hs & Hh & Hl & Hop) & _). pose proof (opened_only_maps _ _ _ _ _ Hh Hl Hop) as Hm.
  unfold on_fail, mbnd at 1. simpl. unfold mbnd at 1.
  destruct (run_attach (l, k1)) as [[l2 k2] r2] eqn:Ea.
  destruct (run_attach_links _ _ _ _ _ Hf Ea) as (Hol & Hfd & Hat).
  assert (held k l2 h k2) as Hheld.
  { split; [|split].
    - by eapply only_links_same; [by apply Hs|apply same_refl|].
    - eapply only_maps_same; [apply same_refl|by apply Hat|done].
    - destruct (Hat KMap ltac:(done)) as [_ ->]. apply (op_readers _ _ _ _ Hop). }
  assert (∀ κ, κ ≠ KLink → κ ≠ KMap → same κ k k2) as Hrest.
  { intros κ Hn Hn'; (eapply same_trans; [by apply Hs|by apply Hat]). }
  destruct r2 as [[]|e|x].
  { intros [= <- <- <-]. split; [done|]. split; [done|].
    split; [by apply (Hrest KColl)|]. split; [by apply (Hrest KSock)|by apply (Hrest KNote)]. }
  all: unfold kop, mres; cbn [fst]; cbv beta iota; destruct (CloseMaps_restores k h k2) as (k3 & e3 & E3 & Hm3 & Hr3); [apply Hheld|];
    rewrite E3; intros [= <- <- <-];
    pose proof (λ κ Hn, CloseMaps_same κ k2 h Hn k2 (same_refl _ _)) as Hc; rewrite E3 in Hc; cbn [fst] in Hc;
    (split; [done|]); (split; [eapply only_links_same; [apply same_refl|by apply Hc|apply Hheld]|]);
    intros κ Hn; (destruct (decide (κ = KMap)) as [->|Hn']; [|eapply same_trans; [by apply Hrest|by apply Hc]]);
    (split; [done|]); rewrite Hr3; apply Hheld.
Qed.

Lemma run_start_held env dir obj ks k k' r :
  object_quiet (se_embedded env) (se_fromFile env) → object_plain (se_embedded env) (se_fromFile env) obj → run_start env dir obj ks k = (k', r) →
  match r with
  | Ok (l, h, _) => held k l h k' ∧ only_coll k l k' ∧ same KSock k k' ∧ same KNote k k'
  | _ => all_same k k'
  end.
Proof.
  intros Hq Hp. unfold run_start, mbnd at 1, mres.
  destruct (BpfLsmEnabled (se_lsm env)) as [[]|e|x]; simpl.
  2-4: by intros [= <- <-] κ; apply same_refl.
  unfold mbnd at 1. pose proof (λ κ Hn, LoadObject_same κ k _ _ obj dir Hn (proj1 (Hq κ k)) (proj2 (Hq κ k))
    k (same_refl _ _)) as Hlo.
  pose proof (LoadObject_colls _ _ obj dir k (Hq KColl)) as Hco.
  destruct (LoadObject _ _ obj dir k) as [k1 [l|e|x]] eqn:El; cbn [fst] in Hlo.
  2, 3: intros [= <- <-] κ; destruct (decide (κ = KColl)) as [->|]; [done|by apply Hlo].
  apply LoadObject_fresh in El; [|done].
  unfold on_fail at 1. destruct (mbnd _ _ (l, k1)) as [[l2 k2] r2] eqn:Eo.
  pose proof (start_opened _ _ _ _ _ _ _ _ El Eo) as [Hfd Hr]. destruct r2 as [[h st]|e|x].
  { destruct Hr as ((Hl & Hm & Hrd) & Hcs & Hs & Hn). intros [= <- <-]. split; [split; [|split]|split; [|split]].
    - eapply only_links_same; [by apply Hlo|apply same_refl|done].
    - eapply only_maps_same; [by apply Hlo|apply same_refl|done].
    - rewrite Hrd. by destruct (Hlo KMap).
    - by eapply only_coll_same; [apply same_refl|exact Hcs|exact Hfd|].
    - exact (same_trans KSock _ _ _ (Hlo KSock ltac:(done)) Hs).
    - exact (same_trans KNote _ _ _ (Hlo KNote ltac:(done)) Hn). }
  all: destruct Hr as [Hl Ho]; destruct (close_links k l2 k2) as (l3 & k3 & e3 & E3 & Hl3 & Hc3 & _ & Ho3);
    [by eapply only_links_same; [by apply Hlo|apply same_refl|]
    |by eapply only_coll_same; [apply same_refl|by apply Ho|exact Hfd|]|];
    rewrite E3; intros [= <- <-] κ; (destruct (decide (κ = KLink)) as [->|Hn]; [done|]);
    (destruct (decide (κ = KColl)) as [->|Hn']; [done|]);
    (eapply same_trans; [by apply Hlo|eapply same_trans; [by apply Ho|by apply Ho3]]).
Qed.

(** A run that succeeds was told to stop. *)
Lemma rest_ok dir sp ep o k k' : rest dir sp ep o k = (k', Ok tt) → oc_err o = None.
Proof.
  intros (k1 & srv & _ & E)%mbnd_ok. apply mbnd_ok in E as (k2 & cons & _ & E).
  apply (with_consumer_same KLink) in E as (k3 & E & _); [|done].
  apply mbnd_ok in E as (k4 & cl & _ & E).
  assert (∃ k5, (mtry (sdNotify (Nc := Nc) "READY=1") ;;; phase o srv cons) k4 = (k5, Ok tt)) as [k5 E5].
  { unfold with_client, deferring in E. destruct cl; [|by eexists].
    destruct (mbnd _ _ k4) as [k5 r5]. injection E as _ ->. by eexists. }
  apply mbnd_ok in E5 as (k6 & ? & _ & E6). apply mbnd_ok in E6 as (k7 & ? & _ & E7).
  apply mbnd_ok in E7 as (k8 & ? & _ & E8). by destruct (oc_err o).
Qed.

(** Whatever [run] holds when start-up succeeded is given up at the end. *)
Lemma run_with_spec k0 l h st (m : M K unit) k k' r :
  held k0 l h k → only_coll k0 l k →
  (∀ κ k1, κ = KLink ∨ κ = KColl → keeps (same κ k1) m) → (∀ k1, same KMap k1 (fst (m k1))) →
  run_with l h st m k = (k', r) →
  ∃ k1, m k = (k1, r) ∧ same KLink k0 k' ∧ same KColl k0 k' ∧ same KMap k0 k' ∧
        ssee k' = ssee k1 ∧ nsee k' = nsee k1.
Proof.
  intros Hh Hco Hk Hm. unfold run_with, deferring, kop, mres.
  pose proof (Hk KLink k ltac:(auto) k (same_refl _ _)) as Hl.
  pose proof (Hk KColl k ltac:(auto) k (same_refl _ _)) as Hcl. specialize (Hm k). clear Hk.
  destruct (m k) as [k1 r1] eqn:E. cbn [fst] in Hl, Hm, Hcl.
  assert (held k0 l h k1) as Hh1 by (by eapply held_same; [exact Hl|exact Hm|]).
  assert (only_coll k0 l k1) as Hco1 by (by eapply only_coll_same; [apply same_refl|exact Hcl|reflexivity|]).
  destruct (close_held _ _ _ _ Hh1 Hco1) as (k2 & e2 & l3 & k3 & e3 & E2 & E3 & Hr).
  cbn [fst]. cbv beta iota. rewrite E2. cbn [fst]. rewrite E3. intros [= <- <-]. by exists k1.
Qed.
End frame_lemmas.

(** * Properties *)

(** C37: the daemon gives back what it took, on every path out of [main]: however
    start-up or the run ends, every link handle, map handle and ring buffer reader
    opened on the way is closed again, and so is the collection with the programs and
    maps it holds.  Unless a call panics, no notify connection
    stays open and the PAM connection is closed by the signal; systemd is told
    READY at most once, and only after start-up succeeded with the socket bound
    and its mode 0600.  Exit code 0 means the goroutines ended without an error. *)
Theorem run_releases {K Prog Lnk Hnd Rdr Conn Nc Up Obj Obj'}
    `{Ef : Frames K Prog Lnk Hnd Rdr Conn Nc Up Obj Obj'} `{ErrnoText} `{Crypto} `{Os} `{WallClock}
    `{KernelMaps} `{WarrantJson} (env : StartEnv K Hnd) (f : Flags) (o : outcome) (k k' : K) code :
  object_quiet (se_embedded env) (se_fromFile env) →
  object_plain (se_embedded env) (se_fromFile env) (fl_bpfObj f) →
  main (Prog := Prog) (Lnk := Lnk) (Rdr := Rdr) (Conn := Conn) (Nc := Nc) (Up := Up) env f o k = (k', code) →
  v_handles (view k') = v_handles (view k) ∧ colls k' = colls k ∧
  hv_maps (hsee k') = hv_maps (hsee k) ∧ hv_readers (hsee k') = hv_readers (hsee k) ∧
  (code ≠ 2 → nv_conns (nsee k') = nv_conns (nsee k) ∧ socket_left o (fl_pamSocket f) k k' ∧
     (nv_sent (nsee k') = nv_sent (nsee k) ∨
      ready_sent k k' ∧ (∃ c, sv_files (ssee k') !! fl_pamSocket f = Some (socketMode, Some c)) ∧
      ∃ k1 x, run_start (Prog := Prog) (Lnk := Lnk) (Rdr := Rdr) env (fl_pinDir f) (fl_bpfObj f)
                (loadKeys (se_time env) (fl_upstream f) (fl_trustKeys f)) k = (k1, Ok x))) ∧
  (code = 0 → oc_err o = None).
Proof.
  intros Hq Hp. unfold main. destruct (run _ _ _ _ _ _ o k) as [k1 r] eqn:Er. intros E.
  assert (k1 = k') as -> by (by destruct r; simplify_eq).
  assert (code = match r with Ok _ => 0 | Err _ => 1 | Panic _ => 2 end) as -> by (by destruct r; simplify_eq).
  clear E. unfold run, mbnd in Er. destruct (run_start env _ _ _ k) as [ks rs] eqn:Es.
  pose proof (run_start_held _ _ _ _ _ _ _ Hq Hp Es) as Hs. destruct rs as [[[l h] st]|e|x].
  2, 3: injection Er as <- <-; destruct (Hs KMap) as [Hm Hr]; pose proof (Hs KLink) as Hl;
    pose proof (Hs KColl) as Hco;
    pose proof (Hs KSock) as Hso; pose proof (Hs KNote) as Hno; simpl in Hso, Hno, Hl, Hco;
    (split; [done|]); (split; [done|]); (split; [done|]); (split; [done|]); (split; [|done]); intros _;
    unfold socket_left; rewrite Hso, Hno; by auto.
  destruct Hs as (Hh & Hco & Hso & Hno). cbn [fst snd] in Er. simpl in Hso, Hno.
  destruct (run_with_spec _ _ _ _ _ _ _ _ Hh Hco (λ κ k1, rest_links κ k1 _ _ _ _) (rest_maps _ _ _ _) Er)
    as (k2 & E2 & Hl & Hc' & [Hm Hr] & Hso' & Hno').
  split; [done|]. split; [done|]. split; [done|]. split; [done|]. split.
  - intros Hc. destruct (rest_spec _ _ _ _ _ _ _ E2) as (Hnc & Hleft & Hsent); [by intros x ->|].
    unfold socket_left, ready_once, ready_sent in *.
    rewrite Hso in Hleft. rewrite Hno, (Getenv_kept _ k ks Hno) in Hsent. rewrite Hso', Hno', Hnc, Hno.
    split; [done|]. split; [done|]. destruct Hsent as [?|[? ?]]; [by left|right].
    split; [done|]. split; [done|]. by eexists _, _.
  - destruct r as [[]|e|x]; [|done|done]. intros _. by apply rest_ok in E2.
Qed.

(** The concrete system has the frame law. *)
#[export] Instance world_frames : Frames world string nat nat nat nat nat unit (nat * string) nat.
Proof.
  split; [|done].
  intros c κ f w Hc Hn. destruct Hc, κ; try congruence; simpl; unfold in_bpf, in_maps, in_net, fsk_attach;
    by repeat (case_match; simplify_eq/=).
Qed.

#[local] Existing Instance demo_os.
#[local] Existing Instance demo_crypto.
#[local] Existing Instance demo_json.
#[local] Existing Instance demo_errno_text.

Definition demo_flags : Flags :=
  mkFlags "/sys/fs/bpf/warrant" "" "/run/warrantd/pam.sock" "" "" "/etc/warrantd/warrants.json" "".
(** The signal came and both closers ran. *)
Definition demo_stopped : outcome := mkOutcome None true true.
Definition demo_run (refused : list string) : world * Z :=
  main (Lnk := nat) (Rdr := nat) (Conn := nat) (Nc := nat) (Up := unit)
    demo_start demo_flags demo_stopped (demo_world refused).

Lemma run_releases_witness :
  let k := demo_world [] in let k' := fst (demo_run []) in
  snd (demo_run []) = 0 ∧ v_handles (view k') = v_handles (view k) ∧ colls k' = colls k ∧
  nv_sent (nsee k') = [(String "000" "/run/systemd/notify", "READY=1")] ∧
  snd (demo_run ["open"]) = 1 ∧ hsee (fst (demo_run ["open"])) = hsee (demo_world ["open"]).
Proof.
  intros k k'. assert (snd (demo_run []) = 0) as Hc by (vm_compute; reflexivity).
  split; [exact Hc|]. refine (proj2 (and_assoc _ _ _) _). split; [|split; [|split]; vm_compute; reflexivity].
  assert (object_quiet (se_embedded demo_start) (se_fromFile demo_start)) as Hq by (by intros κ k0; split; [|intros p]; apply keeps_mok).
  assert (object_plain (se_embedded demo_start) (se_fromFile demo_start) "") as Hp by (by intros m [->| ->]; exact demo_object_plain).
  refine ((λ H, conj (proj1 H) (proj1 (proj2 H)))
    (run_releases demo_start demo_flags demo_stopped k k' (snd (demo_run [])) Hq Hp _)).
  exact (surjective_pairing (demo_run [])).
Defined.
