(* ===== verification/GoFmt.v ===== *)
(** The parts of [fmt], [unicode/utf8], [net/netip] and [time] that the harness
    prints with. *)

From Stdlib Require Import ZArith Lia Ascii String.
From stdpp Require Import base tactics numbers list strings.
From S2P Require Import Prelude GoStd GoNet.

(** * Runes *)

Definition byte_in (lo hi : Z) (c : ascii) : bool := (lo <=? Z_of_byte c) && (Z_of_byte c <=? hi).

(** How many continuation bytes follow a first byte, and the range of the first
    of them; [None] for a byte that starts no rune. *)
Definition rune_shape (c : ascii) : option (nat * Z * Z) :=
  let b := Z_of_byte c in
  if b <? 128 then Some (0%nat, 128, 191)
  else if (194 <=? b) && (b <=? 223) then Some (1%nat, 128, 191)
  else if b =? 224 then Some (2%nat, 160, 191)
  else if b =? 237 then Some (2%nat, 128, 159)
  else if (225 <=? b) && (b <=? 239) then Some (2%nat, 128, 191)
  else if b =? 240 then Some (3%nat, 144, 191)
  else if (241 <=? b) && (b <=? 243) then Some (3%nat, 128, 191)
  else if b =? 244 then Some (3%nat, 128, 143)
  else None.
(** What is left after [n] continuation bytes, if they are there. *)
Fixpoint continuation (n : nat) (lo hi : Z) (s : string) : option string :=
  match n, s with
  | O, _ => Some s
  | S n', String c s' => if byte_in lo hi c then continuation n' 128 191 s' else None
  | S _, EmptyString => None
  end.
(** [utf8.RuneCountInString]: a byte that starts no rune counts as one.  The
    length of the string is enough fuel. *)
Fixpoint rune_count_fuel (fuel : nat) (s : string) : nat :=
  match fuel, s with
  | S f, String c s' =>
      S (rune_count_fuel f
           (match rune_shape c with
            | Some (n, lo, hi) => default s' (continuation n lo hi s')
            | None => s'
            end))
  | _, _ => 0
  end.
Definition RuneCountInString (s : string) : nat := rune_count_fuel (String.length s) s.

(** [strings.Repeat] of a space; [%-ws], which counts runes. *)
Fixpoint spaces (n : nat) : string :=
  match n with O => "" | S n' => String " " (spaces n') end.
Definition pad_right (w : nat) (s : string) : string := s +:+ spaces (w - RuneCountInString s).

(** * Numbers and times *)

(** A number below 100, or 1000, with its leading zeros. *)
Definition two_digits (n : Z) : string := fmt_u (n / 10) +:+ fmt_u (n mod 10).
Definition three_digits (n : Z) : string := fmt_u (n / 100) +:+ two_digits (n mod 100).

(** [t.Format("[15:04:05.000]")] of a time in nanoseconds, in a zone given by its
    offset in seconds at each moment. *)
Definition clock_text (zone_offset : Z → Z) (t : Z) : string :=
  let secs := (t / 1000000000 + zone_offset t) mod 86400 in
  "[" +:+ two_digits (secs / 3600) +:+ ":" +:+ two_digits (secs / 60 mod 60) +:+ ":" +:+
  two_digits (secs mod 60) +:+ "." +:+ three_digits (t / 1000000 mod 1000) +:+ "]".

(** * Addresses *)

Fixpoint hex_digits (fuel : nat) (z : Z) (acc : string) : string :=
  match fuel with
  | O => acc
  | S f => let acc' := String (hex_digit (z mod 16)) acc in
           if z <? 16 then acc' else hex_digits f (z / 16) acc'
  end.
Definition fmt_x16 (z : Z) : string := hex_digits 4 z "".

Fixpoint v6_groups (b : list Z) : list Z :=
  match b with
  | hi :: lo :: b' => 256 * hi + lo :: v6_groups b'
  | _ => []
  end.
Fixpoint zero_prefix (gs : list Z) : nat :=
  match gs with 0 :: gs' => S (zero_prefix gs') | _ => 0 end.
(** The first longest run of at least two zero groups: where it starts and ends. *)
Fixpoint best_zeros (i : nat) (gs : list Z) (best : option (nat * nat)) : option (nat * nat) :=
  match gs with
  | [] => best
  | _ :: gs' =>
      let l := zero_prefix gs in
      let longer := match best with Some (s, e) => (e - s <? l)%nat | None => true end in
      best_zeros (S i) gs' (if (2 <=? l)%nat && longer then Some (i, i + l)%nat else best)
  end.
Definition join_colon (gs : list Z) : string := Join (fmt_x16 <$> gs) ":"%char.
Definition string6 (gs : list Z) : string :=
  match best_zeros 0 gs None with
  | Some (s, e) => join_colon (take s gs) +:+ "::" +:+ join_colon (drop e gs)
  | None => join_colon gs
  end.
Definition string4 (a : Addr) : string := Join (fmt_u <$> drop 12 (addr16 a)) "."%char.
Definition with_zone (a : Addr) (s : string) : string :=
  if bool_decide (zone a = "") then s else s +:+ "%" +:+ zone a.
(** [netip.Addr.String]. *)
Definition Addr_String (a : Addr) : string :=
  if is4 a then string4 a
  else if Is4In6 a then with_zone a ("::ffff:" +:+ string4 a)
  else with_zone a (string6 (v6_groups (addr16 a))).

Example rune_count_mixed : RuneCountInString "a→1✓" = 4%nat.
Proof. reflexivity. Qed.
Example string6_examples :
  Addr_String (AddrFrom16 [32;1;13;184;0;0;0;0;0;1;0;0;0;0;0;1]) = "2001:db8::1:0:0:1" ∧
  Addr_String (AddrFrom16 (zeros 15 ++ [1])) = "::1" ∧
  Addr_String (Unmap (AddrFrom16 (v4InV6Prefix ++ [10;0;0;7]))) = "10.0.0.7".
Proof. repeat split. Qed.
Example clock_example : clock_text (λ _, 32400) 1700000000123456789 = "[07:13:20.123]".
Proof. reflexivity. Qed.
