(* ===== verification/CtlOutput.v ===== *)
(** What the development harness prints (agent/cmd/warrantctl/main.go): one line per
    record, with the paths of the rules for their inodes, in colour on a terminal. *)

From Stdlib Require Import ZArith Lia Ascii String.
From stdpp Require Import base tactics numbers list strings gmap.
From S2P Require Import Prelude GoStd GoNet GoFmt Os EbpfMap BpfMap Policy Ringbuf.

(** * Colours *)

Definition ESC : ascii := "027"%char.
Definition ansi (code : string) : string := String ESC ("[" +:+ code +:+ "m").
Definition cReset : string := ansi "0".
Definition cRed : string := ansi "31".
Definition cGreen : string := ansi "32".
Definition cAmber : string := ansi "33".
Definition cGray : string := ansi "90".
Definition cMagenta : string := ansi "35".

Definition paint (on : bool) (c s : string) : string :=
  if negb on then s else c +:+ s +:+ cReset.
(** Pads by the text without its colour codes. *)
Definition padTo (s : string) (visible width : nat) : string :=
  if (width <=? visible)%nat then s else s +:+ spaces (width - visible).
Definition stamp (zone_offset : Z → Z) (t : Z) : string := clock_text zone_offset t.

(** [st.Mode()&os.ModeCharDevice], with the mode as [Stat] gives it. *)
Definition ModeCharDevice : Z := 2097152.   (* 1 << 21 *)
Definition isTTY (mode : res Z) : bool :=
  match mode with Ok m => negb (Z.land m ModeCharDevice =? 0) | _ => false end.

(** * Names *)

#[export] Instance FileRef_countable : Countable FileRef.
Proof.
  refine (inj_countable' (λ f, (Dev f, Ino f)) (λ '(d, i), mkFileRef d i) _). by intros [].
Defined.
Notation name_table := (gmap FileRef string).

(** The names of a compiled policy's files are added; the last one for a file
    stays. *)
Definition add_names (srcs : list Source) (names : name_table) : name_table :=
  foldl (λ t s, <[src_Ref s := src_Path s]> t) names srcs.

Definition name_of (names : name_table) (f : rFileRef) : string :=
  match names !! mkFileRef (f_Dev f) (f_Ino f) with
  | Some n => n
  | None => if f_Ino f =? 0 then "-" else "ino:" +:+ fmt_u (f_Ino f)
  end.

(** * Records *)

(** The destination and size of a datagram, when its address is known. *)
Definition udp_target (r : Record_) : option string :=
  match UDPSend r with
  | Some u =>
      (λ a, Addr_String a +:+ ":" +:+ fmt_u (cp_Port (Destination u)) +:+ " " +:+
            fmt_u (ud_Size u) +:+ "B") <$> cp_Addr (Destination u)
  | None => None
  end.
Definition connect_target (c : ConnectPayload) : string :=
  if negb (bool_decide (UnixPath c = "")) then UnixPath c
  else match cp_Addr c with
       | Some a => Addr_String a +:+ ":" +:+ fmt_u (cp_Port c)
       | None => "-"
       end.

Definition target (r : Record_) (names : name_table) : string :=
  match Exec r with
  | Some e => name_of names (xp_File e) +:+
              (if negb (Z.land (IMode e) S_ISUID =? 0) then " (setuid)" else "")
  | None =>
  match Write r with
  | Some w => name_of names (wp_File w)
  | None =>
  match Inode r with
  | Some i => OpName (ip_Op i) +:+ " in " +:+ name_of names (ip_Dir i)
  | None =>
  match udp_target r with
  | Some s => s
  | None =>
  match Connect r with
  | Some c => connect_target c
  | None =>
  match Fork r with
  | Some f => "pid " +:+ fmt_u (ParentTGID f) +:+ " -> " +:+ fmt_u (ChildTGID f)
  | None => "-"
  end end end end end end.

Definition who (r : Record_) : string :=
  let p := Proc r in
  pad_right 26
    (Comm p +:+ "(" +:+ fmt_u (PID p) +:+ ")" +:+
     (if negb (UID p =? EUID p)
      then " uid" +:+ fmt_u (UID p) +:+ "→" +:+ fmt_u (EUID p)
      else " uid" +:+ fmt_u (UID p))).

Definition mark_of (verdict : Z) : string * string :=
  if verdict =? 1 then ("✗", cRed) else if verdict =? 2 then ("⚠", cAmber) else ("✓", cGreen).
Definition tail_of (r : Record_) (showOrigin : bool) : string :=
  TagSourceName (TagSource r) +:+ (if showOrigin then " " +:+ OriginName (Origin r) else "").

(** [bootWall] is the wall clock at boot, in nanoseconds. *)
Definition line (zone_offset : Z → Z) (r : Record_) (bootWall : Z) (names : name_table)
    (color showOrigin : bool) : string :=
  let verdict := VerdictName (Verdict r) (r_Mode r) in
  let '(mark, col) := mark_of (Verdict r) in
  paint color cGray (stamp zone_offset (bootWall + i64 (BootTsNs r))) +:+ " " +:+
  paint color col mark +:+ " " +:+
  pad_right 9 (HookName (Hook r)) +:+ " " +:+
  padTo (paint color col verdict) (String.length verdict) 9 +:+ " " +:+
  pad_right 28 (target r names) +:+ " " +:+
  who r +:+ " " +:+
  paint color cGray (tail_of r showOrigin).

(** * Lemmas *)

(** A terminal shows the text without its colour codes. *)
Fixpoint shown_from (code : bool) (s : string) : string :=
  match s with
  | EmptyString => ""
  | String c s' =>
      if code then shown_from (negb (Ascii.eqb c "m")) s'
      else if Ascii.eqb c ESC then shown_from true s'
      else String c (shown_from false s')
  end.
Definition shown (s : string) : string := shown_from false s.
Definition plain (s : string) : Prop := str_mem ESC s = false.

Lemma shown_plain s t : plain s → shown (s +:+ t) = s +:+ shown t.
Proof.
  unfold plain, shown. induction s as [|c s IH]; [done|]. simpl. rewrite orb_false_iff. intros [Hc Hs].
  by rewrite Hc, IH.
Qed.
Lemma shown_code code t : str_mem "m" code = false → shown (ansi code +:+ t) = shown t.
Proof.
  intros Hc. unfold shown, ansi. cbn [String.append shown_from negb].
  rewrite (eq_refl : Ascii.eqb ESC ESC = true). cbn [shown_from negb].
  change (Ascii.eqb "[" "m") with false. cbn [negb].
  induction code as [|c code IH]; [reflexivity|]. simpl in *. apply orb_false_iff in Hc as [Hc Hs].
  rewrite Hc. cbn [negb]. by apply IH.
Qed.

Lemma plain_app s t : plain (s +:+ t) ↔ plain s ∧ plain t.
Proof.
  unfold plain. induction s as [|c s IH]; simpl; [naive_solver|]. rewrite !orb_false_iff, IH. tauto.
Qed.
Lemma plain_digits fuel z acc : plain acc → plain (fmt_digits fuel z acc).
Proof.
  revert z acc. induction fuel as [|fuel IH]; intros z acc Ha; [done|]. simpl.
  assert (plain (String (byte_of_Z (48 + z mod 10)) acc)) as Hp.
  { unfold plain in *. simpl. rewrite Ha, orb_false_r.
    assert (0 <= z mod 10 < 10) as Hz by (apply Z.mod_pos_bound; lia).
    assert (z mod 10 = 0 ∨ z mod 10 = 1 ∨ z mod 10 = 2 ∨ z mod 10 = 3 ∨ z mod 10 = 4 ∨ z mod 10 = 5 ∨
            z mod 10 = 6 ∨ z mod 10 = 7 ∨ z mod 10 = 8 ∨ z mod 10 = 9) as Hd by lia.
    by destruct Hd as [->|[->|[->|[->|[->|[->|[->|[->|[->| ->]]]]]]]]]. }
  destruct (z <? 10); [done|by apply IH].
Qed.
Lemma plain_fmt_u z : plain (fmt_u z).
Proof. by apply plain_digits. Qed.
Lemma plain_spaces n : plain (spaces n).
Proof. induction n; [done|]. by apply (plain_app " "). Qed.
Lemma plain_pad w s : plain s → plain (pad_right w s).
Proof. intros Hs. apply plain_app. split; [done|apply plain_spaces]. Qed.
Lemma plain_if (b : bool) s t : plain s → plain t → plain (if b then s else t).
Proof. by destruct b. Qed.
#[local] Hint Resolve plain_fmt_u plain_spaces plain_pad plain_if : gohints.

(** Splits a text at its parts. *)
Ltac plain_parts :=
  repeat first [ done | solve [auto with gohints] | apply plain_app; split | apply plain_if | apply plain_pad ].

Lemma plain_stamp zo t : plain (stamp zo t).
Proof. unfold stamp, clock_text, two_digits, three_digits, two_digits. plain_parts. Qed.
Lemma plain_names r so :
  plain (HookName (Hook r)) ∧ plain (VerdictName (Verdict r) (r_Mode r)) ∧ plain (tail_of r so) ∧
  plain (fst (mark_of (Verdict r))).
Proof.
  unfold HookName, VerdictName, tail_of, TagSourceName, OriginName, mark_of.
  split; [plain_parts|]. split; [plain_parts|]. split; [plain_parts|]. by repeat case_match.
Qed.
Lemma plain_who r : plain (Comm (Proc r)) → plain (who r).
Proof. intros Hc. unfold who. plain_parts. Qed.

(** The codes the harness uses. *)
Definition codes : list string := [cReset; cRed; cGreen; cAmber; cGray; cMagenta].
Lemma shown_codes c t : c ∈ codes → shown (c +:+ t) = shown t.
Proof. intros Hc. unfold codes in Hc. set_unfold in Hc. destruct_or! Hc; subst; by apply shown_code. Qed.
Lemma shown_paint c s t : c ∈ codes → plain s → shown (paint true c s +:+ t) = s +:+ shown t.
Proof.
  intros Hc Hs. unfold paint. cbn [negb]. rewrite !str_app_assoc.
  rewrite shown_codes, shown_plain, shown_codes by (done || set_solver). done.
Qed.
Lemma shown_padTo c s w t :
  c ∈ codes → plain s →
  shown (padTo (paint true c s) (String.length s) w +:+ t) = padTo s (String.length s) w +:+ shown t.
Proof.
  intros Hc Hs. unfold padTo. destruct (w <=? String.length s)%nat; [by apply shown_paint|].
  rewrite !str_app_assoc, shown_paint by done. by rewrite shown_plain by apply plain_spaces.
Qed.

(** * Properties *)

(** Colour changes nothing but colour.  For a record whose target and command
    carry no escape character, the line printed in colour, as a terminal shows it,
    is the line printed without colour: the columns are the same, because the
    padding counts the verdict without its codes. *)
Theorem colour_invisible zone_offset r bootWall names showOrigin :
  plain (target r names) → plain (Comm (Proc r)) →
  shown (line zone_offset r bootWall names true showOrigin) =
  line zone_offset r bootWall names false showOrigin.
Proof.
  intros Ht Hw. destruct (plain_names r showOrigin) as (Hh & Hv & Ho & Hm). unfold line.
  destruct (mark_of (Verdict r)) as [mark col] eqn:Em. cbn [fst] in Hm.
  assert (col ∈ codes) as Hcol by (revert Em; unfold mark_of; repeat case_match; intros [= _ <-]; unfold codes; set_solver).
  assert (cGray ∈ codes) as Hgray by (unfold codes; set_solver).
  assert (plain " ") as Hsp by done.
  pose proof (plain_stamp zone_offset (bootWall + i64 (BootTsNs r))) as Hst.
  rewrite !shown_paint, !shown_plain, !shown_paint, !shown_plain, !shown_padTo
    by auto using plain_pad, plain_who.
  rewrite !shown_plain by auto using plain_pad, plain_who.
  rewrite <- (str_app_nil_r (paint true cGray _)), shown_paint by done.
  unfold paint. cbn [negb shown]. by rewrite str_app_nil_r.
Qed.

(** An executable a rule names, denied. *)
Definition demo_denied : Record_ :=
  mkRecord 0 1 HookBprmCheckSecurity 1 2 1 1 1500000000 1 42 7
    (mkProcess 500 500 1 1000 0 0 0 0 77 "sh")
    (encode_fields plExec_layout [8; 0; 100; 35309; 0; 0; 0]).
Definition demo_names : name_table := add_names [mkSource "/usr/bin/sudo" (mkFileRef 8 100) KindExec] ∅.
Lemma colour_invisible_witness :
  line (λ _, 0) demo_denied 0 demo_names false true =
    "[00:00:01.500] ✗ EXEC      DENY      /usr/bin/sudo (setuid)       sh(500) uid1000→0          cg lsm" ∧
  shown (line (λ _, 0) demo_denied 0 demo_names true true) = line (λ _, 0) demo_denied 0 demo_names false true.
Proof.
  split; [vm_compute; reflexivity|].
  apply (colour_invisible (λ _, 0) demo_denied 0 demo_names true); vm_compute; reflexivity.
Defined.
