(* ===== verification/Warrantctl.v ===== *)
(** The development harness (agent/cmd/warrantctl): option parsing, the warrant
    and policy it writes by hand, the session it binds for the length of its run,
    the comparison of LSM verdicts with their kprobe mirror, and what it opens and
    gives back.  The lines it prints are in CtlOutput. *)

From Stdlib Require Import ZArith Lia Ascii String.
From stdpp Require Import base tactics numbers list strings gmap.
From S2P Require Import Prelude GoStd GoNet EbpfMap Os BpfMap Concrete Kernel.
From S2P Require Import Policy Session Pb Registry Node WatchLoop Ringbuf Handles.
From S2P Require Import Pamsock Services Loader World Shutdown Daemon Run CtlOutput.

(** * Options *)

Definition warrantID : Z := 1.
Definition policyID : Z := 7.
Definition subjectID : Z := 42.

(** Durations are in nanoseconds, an int64. *)
Record opts := mkOpts {
  o_cgroup : Z; o_mode : string; o_obj : string;
  o_allowExec : list string; o_allowWrite : list string; o_denyWrite : list string;
  o_allowNet : list string;
  o_expireIn : Z; o_revokeIn : Z;
  o_breakGlass : bool; o_active : bool; o_mirror : bool; o_detach : bool; o_color : bool;
  o_inspectUDP : bool
}.

Definition ToLower (s : string) : string := map_bytes lower_byte s.

Definition parseMode (s : string) : res Z :=
  let l := ToLower s in
  if String.eqb l "observe" then Ok ModeObserve
  else if String.eqb l "dryrun" then Ok ModeDryRun
  else if String.eqb l "enforce" then Ok ModeEnforce
  else Err (EMsg ("mode 는 observe · dryrun · enforce 중 하나다: " +:+ fmt_q s)).

Definition split (s : string) : list string :=
  if bool_decide (s = "") then [] else TrimSpace <$> Split s ","%char.

(** The flags as parsed, with their defaults. *)
Record CtlFlags := mkCtlFlags {
  cf_pinDir : string; cf_bindCgroup : Z; cf_mode : string;
  cf_allowExec : string; cf_allowWrite : string; cf_denyWrite : string; cf_allowNet : string;
  cf_expireIn : Z; cf_revokeIn : Z; cf_breakGlass : bool; cf_inspectUDP : bool; cf_active : bool;
  cf_mirror : bool; cf_obj : string; cf_detach : bool; cf_noColor : bool
}.
Definition ctl_defaults : CtlFlags :=
  mkCtlFlags "/sys/fs/bpf/wmaps" 0 "observe" "" "" "" "" 0 0 false false true false "" false false.
(** [stderr]: the mode of standard error, as [Stat] gives it. *)
Definition ctl_opts (f : CtlFlags) (stderr : res Z) : opts :=
  mkOpts (cf_bindCgroup f) (cf_mode f) (cf_obj f) (split (cf_allowExec f)) (split (cf_allowWrite f))
    (split (cf_denyWrite f)) (split (cf_allowNet f)) (cf_expireIn f) (cf_revokeIn f)
    (cf_breakGlass f) (cf_active f) (cf_mirror f) (cf_detach f)
    (negb (cf_noColor f) && isTTY stderr) (cf_inspectUDP f).

(** * The session *)

Definition flag (b : bool) : Z := if b then 1 else 0.

Definition ctl_warrant (o : opts) (mode expires : Z) : KWarrant :=
  mkKWarrant expires 0 subjectID policyID 0 mode 0 (flag (o_breakGlass o)) (flag (o_inspectUDP o)).

Definition ctl_spec (o : opts) : Spec :=
  mkSpec "warrantctl"
    (mkExecRule <$> o_allowExec o)
    (((λ x, mkWriteRule x true EffectAllow) <$> o_allowWrite o) ++
     ((λ x, mkWriteRule x true EffectDeny) <$> o_denyWrite o))
    ((λ x, mkNetRule x 0 0) <$> o_allowNet o)
    [] (o_inspectUDP o) false.

Section session_defs.
Context `{Os} `{WallClock} `{KernelMaps}.

(** The expiry, on the boot clock. *)
Definition ctl_expires (o : opts) : M node Z :=
  if 0 <? o_expireIn o
  then do now := tick BootNs in mok (u64 (now + u64 (o_expireIn o)))
  else mok 0.

(** The warrant and the rules: [run] from [parseMode] to [compiled.Apply]. *)
Definition ctl_write (o : opts) : M node Compiled :=
  do md := mres (parseMode (o_mode o)) in
  do expires := ctl_expires o in
  on_maps (PutWarrant warrantID (ctl_warrant o md expires)) ;;;
  do c := compile_now policyID (ctl_spec o) in
  on_maps (Policy.Apply c) ;;;
  mok c.

(** The watcher's callback: the spec is compiled and applied again, the names of
    its files are added. *)
Definition ctl_recompile (o : opts) (st : node * name_table) (id : Z) : node * name_table :=
  let '(n, names) := st in
  match (do c := compile_now id (ctl_spec o) in on_maps (Policy.Apply c) ;;; watch_compiled c ;;; mok c) n with
  | (n', Ok c) => (n', add_names (c_Sources c) names)
  | (n', _) => (n', names)
  end.
(** A pass of the watcher, over the policies in some order. *)
Definition ctl_pass (o : opts) (order : list (Z * list Source)) (st : node * name_table)
    : node * name_table :=
  let '(t', ids) := changed (n_time (fst st)) order in
  foldl (ctl_recompile o) (set_time (fst st) t', snd st) ids.

(** [NewWatcher], its callback and the first [Watch], whose error is dropped. *)
Definition ctl_watch (c : Compiled) : M node unit :=
  do w := mres NewWatcher in
  mmod (λ n, mkNode _ (n_maps n) (n_specs n) (Some (OnChange w)) (n_time n)) ;;;
  watch_compiled c.
(** The timer's goroutine. *)
Definition ctl_revoke : M node unit := on_maps (Revoke warrantID).
End session_defs.

(** * LSM verdicts and their mirror *)

Definition originKprobe : Z := 2.

Record dupKey := mkDupKey { d_pid : Z; d_hook : Z; d_dev : Z; d_ino : Z }.
#[export] Instance dupKey_eq_dec : EqDecision dupKey.
Proof. solve_decision. Defined.
#[export] Instance dupKey_countable : Countable dupKey.
Proof.
  refine (inj_countable' (λ k, (d_pid k, d_hook k, d_dev k, d_ino k))
            (λ '(p, h, d, i), mkDupKey p h d i) _).
  by intros [].
Defined.

Record divergence := mkDivergence { pending : gmap dupKey Z; d_origin : gmap dupKey Z }.
Definition newDivergence : divergence := mkDivergence ∅ ∅.

Definition keyOf (r : Record_) : option dupKey :=
  if Hook r =? HookFileOpen then
    (λ w, mkDupKey (PID (Proc r)) (Hook r) (f_Dev (wp_File w)) (f_Ino (wp_File w))) <$> Write r
  else if Hook r =? HookBprmCheckSecurity then
    (λ e, mkDupKey (PID (Proc r)) (Hook r) (f_Dev (xp_File e)) (f_Ino (xp_File e))) <$> Exec r
  else None.

Definition divergence_message (k : dupKey) (prev : Z) (r : Record_) : string :=
  "판정 불일치 " +:+ HookName (Hook r) +:+ " pid=" +:+ fmt_u (d_pid k) +:+ " ino=" +:+
  fmt_u (d_ino k) +:+ " — lsm 과 kprobe 가 다르다 (" +:+ VerdictName prev (r_Mode r) +:+ " vs " +:+
  VerdictName (Verdict r) (r_Mode r) +:+ ")".

(** The first of a pair is kept, the second is compared with it; the table is
    emptied when it grows beyond 4096 records without a partner. *)
Definition observe (r : Record_) (d : divergence) : divergence * string :=
  match keyOf r with
  | None => (d, "")
  | Some k =>
      let paired :=
        match pending d !! k with
        | Some prev => if default 0 (d_origin d !! k) =? Origin r then None else Some prev
        | None => None
        end in
      match paired with
      | Some prev =>
          (mkDivergence (base.delete k (pending d)) (base.delete k (d_origin d)),
           if prev =? Verdict r then "" else divergence_message k prev r)
      | None =>
          let d := if 4096 <? Z.of_nat (size (pending d)) then newDivergence else d in
          (mkDivergence (<[k := Verdict r]> (pending d)) (<[k := Origin r]> (d_origin d)), "")
      end
  end.
Definition unpaired (d : divergence) : Z := Z.of_nat (size (pending d)).

(** The table after a stream of records. *)
Definition observe_all (rs : list Record_) (d : divergence) : divergence :=
  foldl (λ d r, fst (observe r d)) d rs.

(** * Receiving *)

(** What the handler and the callbacks keep: the consumer, the comparison, the
    names, and the lines printed about records, losses and differing verdicts
    (progress messages are left out). *)
Record ctl_view := mkCtlView {
  cv_cons : Consumer; cv_div : divergence; cv_names : name_table; cv_lines : list string
}.

(** Printed before a message: the time and a mark. *)
Definition ctl_note (zo : Z → Z) (color : bool) (now : Z) (col mark msg : string) : string :=
  stamp zo now +:+ " " +:+ paint color col mark +:+ " " +:+ msg.
(** [OnGap]'s callback. *)
Definition gap_line (zo : Z → Z) (o : opts) (now : Z) (g : Gap) : string :=
  ctl_note zo (o_color o) now cMagenta "‼"
    ("감사 유실 " +:+ fmt_u (DroppedCount g) +:+ "건 (" +:+ Cause g +:+ ")").
(** [Run]'s handler. *)
Definition ctl_handle (zo : Z → Z) (o : opts) (bootWall now : Z) (r : Record_) (v : ctl_view) : ctl_view :=
  let '(d', msg) := observe r (cv_div v) in
  mkCtlView (cv_cons v) d' (cv_names v)
    (cv_lines v ++
     (if bool_decide (msg = "") then [] else [ctl_note zo (o_color o) now cMagenta "‼" msg]) ++
     (if negb (o_mirror o) && (Origin r =? originKprobe) then []
      else [line zo r bootWall (cv_names v) (o_color o) (o_mirror o)])).
(** One sample of [Run]: a broken one is counted, the others are checked for a gap
    and handled. *)
Definition ctl_sample (zo : Z → Z) (o : opts) (bootWall now : Z) (raw : list Z) (v : ctl_view) : ctl_view :=
  let '(c', out) := run_one (cv_cons v, []) raw in
  let lost := drop (length (reported (cv_cons v))) (reported c') in
  let v1 := mkCtlView c' (cv_div v) (cv_names v) (cv_lines v ++ (gap_line zo o now <$> lost)) in
  foldl (λ v r, ctl_handle zo o bootWall now r v) v1 out.

(** What happens while the harness receives, in any order: a sample at some time,
    a pass of the watcher, the timer. *)
Inductive ctl_event :=
  | EvSample (now : Z) (raw : list Z)
  | EvPass (order : list (Z * list Source))
  | EvRevoke.

Section receive.
Context `{Os} `{WallClock} `{KernelMaps}.

Definition ctl_event_step (zo : Z → Z) (o : opts) (bootWall : Z) (st : node * ctl_view) (e : ctl_event)
    : node * ctl_view :=
  let '(n, v) := st in
  match e with
  | EvSample now raw => (n, ctl_sample zo o bootWall now raw v)
  | EvPass order =>
      let '(n', names') := ctl_pass o order (n, cv_names v) in
      (n', mkCtlView (cv_cons v) (cv_div v) names' (cv_lines v))
  | EvRevoke => if 0 <? o_revokeIn o then (fst (ctl_revoke n), v) else (n, v)
  end.
Definition ctl_receive (zo : Z → Z) (o : opts) (bootWall : Z) (c : Compiled) (cons : Consumer)
    (evs : list ctl_event) (n : node) : node * ctl_view :=
  foldl (ctl_event_step zo o bootWall)
    (n, mkCtlView (OnGap cons) newDivergence (add_names (c_Sources c) ∅) []) evs.
(** The last lines. *)
Definition ctl_summary (v : ctl_view) : list string :=
  (if 0 <? unpaired (cv_div v)
   then ["─── 짝 없는 기록 " +:+ fmt_u (unpaired (cv_div v)) +:+ "건 (미러가 안 붙는 훅이다) ───"] else []) ++
  ["─── 종료 (유실 누적 " +:+ fmt_u (DroppedTotal (cv_cons v)) +:+ "건) ───"].
End receive.

(** * [run] *)

Section run.
Context {K Prog Lnk Hnd Rdr : Type} `{Ebpf K Prog Lnk} `{PinnedMaps K Hnd Rdr} `{ErrnoText}.
Context `{Os} `{WallClock} `{KernelMaps}.

(** The system, with the maps and the watcher of the session. *)
Definition HM (A : Type) : Type := M (K * node) A.
Definition at_node {A} (m : M node A) : HM A := λ '(k, n), let '(n', r) := m n in ((k, n'), r).
Definition at_sys {A} (m : M K A) : HM A := λ '(k, n), let '(k', r) := m k in ((k', n), r).

(** The environment of a run: what is read at the start, what happens while it
    receives, the wall clock when it starts to, and how [Run] ends: its error,
    and whether the reader was closed by then. *)
Record CtlEnv := mkCtlEnv {
  ce_lsm : res string;
  ce_embedded : M K CollectionSpec;
  ce_fromFile : string → M K CollectionSpec;
  ce_node : MapHandles Hnd → K → node;
  ce_zone : Z → Z;
  ce_events : list ctl_event;
  ce_now : Z;
  ce_err : option error;
  ce_readerClosed : bool
}.

(** Everything after [SetActive]; the lines printed are the result. *)
Definition ctl_body (env : CtlEnv) (pinDir : string) (o : opts) (c : Compiled) : HM (list string) :=
  at_node (ctl_watch c) ;;;
  do x := at_sys (OpenRingbuf (Hnd := Hnd) (Rdr := Rdr) pinDir) in
  deferring (at_sys (CloseRingbuf (fst x)))
    (do bootNs := at_node (tick BootNs) in
     let bootWall := ce_now env - i64 bootNs in
     do v := (λ '(k, n), let '(n', v) := ctl_receive (ce_zone env) o bootWall c (snd x) (ce_events env) n in
                         ((k, n'), Ok v)) in
     (if ce_readerClosed env then mtry (at_sys (CloseReader (Hnd := Hnd) (rb_rd (fst x)))) ;;; mok tt else mok tt) ;;;
     match ce_err env with
     | Some e => if bool_decide (e = Canceled) then mok (cv_lines v ++ ctl_summary v) else merr e
     | None => mok (cv_lines v ++ ctl_summary v)
     end).

(** The session is tagged for as long as [body], the rest of [run], lasts. *)
Definition ctl_run {A} (o : opts) (body : Compiled → HM A) : HM A :=
  do c := at_node (ctl_write o) in
  let rest := (at_node (on_maps (SetActive (o_active o))) ;;; body c) in
  if o_cgroup o =? 0 then rest
  else
    at_node (on_maps (TagCgroup (o_cgroup o) warrantID)) ;;;
    deferring (at_node (on_maps (UntagCgroup (o_cgroup o)))) rest.

(** The hooks, then the maps, then the session. *)
Definition ctl_maps (env : CtlEnv) (pinDir : string) (o : opts) : M K (list string) :=
  do h := OpenMaps pinDir in
  deferring (CloseMaps h)
    (λ k, let '((k', _), r) := ctl_run o (ctl_body env pinDir o) (k, ce_node env h k) in (k', r)).
Definition ctl_attach : LM (K := K) (Prog := Prog) (Lnk := Lnk) unit :=
  AttachAll ;;;
  do s := mget in
  let l := fst s in
  if negb (length (AttachedHooks l) + length (MissingMirrors l) =? ProgramCount l)%nat
  then merr (EMsg ("attach 누락: " +:+ fmt_u (Z.of_nat (length (AttachedHooks l))) +:+ "/" +:+
                   fmt_u (Z.of_nat (ProgramCount l))))
  else mok tt.
Definition ctl_main (env : CtlEnv) (pinDir : string) (o : opts) : M K (list string) :=
  do on := wrapping "bpf LSM 확인: " (mres (BpfLsmEnabled (ce_lsm env))) in
  if negb on
  then merr (EMsg "bpf LSM 이 꺼져 있다. deploy/enable-bpf-lsm.sh 를 돌리고 재부팅해야 한다")
  else
    do ld := LoadObject (ce_embedded env) (ce_fromFile env) (o_obj o) pinDir in
    λ k, let '((_, k'), r) :=
           deferring Close
             (ctl_attach ;;;
              (if o_detach o then deferring Detach (kop (ctl_maps env pinDir o))
               else kop (ctl_maps env pinDir o))) (ld, k) in (k', r).
End run.
Arguments CtlEnv K Hnd {_}.

(** * Lemmas *)

(** A record with another key leaves the entry alone while the table is small. *)
Lemma observe_other k r d :
  keyOf r ≠ Some k → unpaired d <= 4096 →
  pending (fst (observe r d)) !! k = pending d !! k ∧
  d_origin (fst (observe r d)) !! k = d_origin d !! k ∧
  unpaired (fst (observe r d)) <= unpaired d + 1.
Proof.
  unfold observe, unpaired. intros Hk Hs. destruct (keyOf r) as [k'|]; [|simpl; split; [done|]; split; [done|lia]].
  assert (k' ≠ k) as Hne by congruence.
  destruct (match pending d !! k' with Some _ => _ | None => _ end) as [prev|]; simpl.
  - rewrite !lookup_delete_ne by done. split; [done|]. split; [done|].
    rewrite map_size_delete. destruct (pending d !! k'); simpl; lia.
  - rewrite (proj2 (Z.ltb_ge _ _)) by lia. rewrite !lookup_insert_ne by done.
    split; [done|]. split; [done|]. rewrite map_size_insert. destruct (pending d !! k'); simpl; lia.
Qed.

Lemma observe_all_other k rs d :
  Forall (λ r, keyOf r ≠ Some k) rs → unpaired d + Z.of_nat (length rs) <= 4096 →
  pending (observe_all rs d) !! k = pending d !! k ∧
  d_origin (observe_all rs d) !! k = d_origin d !! k.
Proof.
  intros Hall. revert d. induction Hall as [|r rs Hr _ IH]; intros d Hs; [done|].
  cbn [length] in Hs. cbn [observe_all foldl].
  destruct (observe_other k r d Hr ltac:(lia)) as (H1 & H2 & H3).
  destruct (IH (fst (observe r d)) ltac:(lia)) as [H4 H5]. unfold observe_all in *. split; congruence.
Qed.

(** The table never holds more than one record beyond its limit. *)
Lemma observe_bounded r d : unpaired d <= 4097 → unpaired (fst (observe r d)) <= 4097.
Proof.
  unfold observe, unpaired. intros Hs. destruct (keyOf r) as [k|]; [|done].
  destruct (match pending d !! k with Some _ => _ | None => _ end); simpl.
  - rewrite map_size_delete. destruct (pending d !! k); simpl; lia.
  - destruct (Z.ltb_spec 4096 (Z.of_nat (size (pending d)))); rewrite map_size_insert; simpl.
    + rewrite map_size_empty, lookup_empty. simpl. lia.
    + destruct (pending d !! k); simpl; lia.
Qed.
Lemma observe_all_bounded rs d :
  unpaired d <= 4097 → unpaired (observe_all rs d) <= 4097.
Proof.
  revert d. induction rs as [|r rs IH]; intros d Hd; [done|]. simpl. by apply IH, observe_bounded.
Qed.

Lemma on_maps_ok `{KernelMaps} {A} (m : M Maps A) n n' a :
  on_maps m n = (n', Ok a) → m (n_maps n) = (n_maps n', Ok a).
Proof. unfold on_maps. destruct (m (n_maps n)). naive_solver. Qed.

Lemma at_node_ok {K A} `{KernelMaps} (m : M node A) (k k' : K) n n' a :
  at_node m (k, n) = ((k', n'), Ok a) → k' = k ∧ m n = (n', Ok a).
Proof. unfold at_node. destruct (m n). naive_solver. Qed.

Section session.
Context `{Os} `{WallClock} `{KernelMaps} `{!KernelMapsLaws}.

Lemma ctl_expires_maps o n n' e : ctl_expires o n = (n', Ok e) → n_maps n' = n_maps n.
Proof.
  unfold ctl_expires. destruct (0 <? o_expireIn o); [|by intros [= <- _]].
  intros (n1 & now & E & [= <- _])%mbnd_ok. unfold tick in E. by injection E as <- _.
Qed.
Lemma compile_now_maps id s n n' c : compile_now id s n = (n', Ok c) → n_maps n' = n_maps n.
Proof. unfold compile_now. destruct (Compile _ _ _). by intros [= <- _]. Qed.

(** What is in the maps once the warrant and the rules are written. *)
Lemma ctl_write_ok o n n' c :
  nets_wf (n_maps n) → ctl_write o n = (n', Ok c) →
  ∃ md e, parseMode (o_mode o) = Ok md ∧ (o_expireIn o <= 0 → e = 0) ∧
    hm_get (warrants (n_maps n')) warrantID = Some (ctl_warrant o md e) ∧
    ncpu (n_maps n') = ncpu (n_maps n) ∧
    (∀ f, f ∈ c_Exec c → hm_get (ruleExec (n_maps n')) (rule_key (c_PolicyID c) f) = Some 1).
Proof.
  intros Hw (n1 & md & [= <- Hmd] & Hr)%mbnd_ok.
  apply mbnd_ok in Hr as (n2 & e & He & Hr). pose proof (ctl_expires_maps _ _ _ _ He) as E2.
  apply mbnd_ok in Hr as (n3 & [] & [E3 Hput]%on_maps_ok%PutWarrant_ok & Hr).
  apply mbnd_ok in Hr as (n4 & c' & E4%compile_now_maps & Hr).
  apply mbnd_ok in Hr as (n5 & [] & Hap%on_maps_ok & [= <- <-]).
  assert (nets_wf (n_maps n4)) as Hw4.
  { unfold nets_wf in *. rewrite E4, E3, E2. simpl. exact Hw. }
  apply Apply_ok in Hap as ((_ & _ & Hwa & Hcpu) & _ & _ & Hexec & _); [|done].
  exists md, e. split; [done|]. split.
  { intros Hle. unfold ctl_expires in He. destruct (Z.ltb_spec 0 (o_expireIn o)); [lia|].
    by injection He. }
  split; [by rewrite Hwa, E4, Hput, decide_True|]. split.
  { rewrite Hcpu, E4, E3, E2. done. }
  intros f Hf. rewrite Hexec, bool_decide_true; [done|]. by apply list_elem_of_fmap_2.
Qed.
End session.

(** ** What is given back *)

Lemma keeps_at_node {K A} `{KernelMaps} (P : K → Prop) (m : M node A) :
  keeps (λ s, P (fst s)) (at_node m).
Proof. intros [k n] Hk. unfold at_node. by destruct (m n). Qed.
Lemma keeps_at_sys {K A} `{KernelMaps} (P : K → Prop) (m : M K A) :
  keeps P m → keeps (λ s, P (fst s)) (at_sys m).
Proof. intros Hm [k n] Hk. unfold at_sys. specialize (Hm k Hk). by destruct (m k). Qed.
#[local] Hint Resolve keeps_at_node keeps_at_sys : gohints.

Section release.
Context {K Prog Lnk Hnd Rdr Conn Nc Up Obj Obj' : Type}.
Context `{Ef : Frames K Prog Lnk Hnd Rdr Conn Nc Up Obj Obj'} `{ErrnoText} `{Os} `{WallClock} `{KernelMaps}.
Implicit Types (k : K) (κ : kind) (env : CtlEnv K Hnd).
Notation same := (same (K := K) (Prog := Prog) (Lnk := Lnk) (Hnd := Hnd) (Rdr := Rdr) (Conn := Conn) (Nc := Nc)).
Notation body := (ctl_body (K := K) (Hnd := Hnd) (Rdr := Rdr)).

Lemma keeps_run {A} (P : K → Prop) o (b : Compiled → HM (K := K) A) :
  (∀ c, keeps (λ s, P (fst s)) (b c)) → keeps (λ s, P (fst s)) (ctl_run o b).
Proof. intros Hb. unfold ctl_run. frame_steps. Qed.

(** The ring buffer is opened and given back. *)
Lemma ctl_body_maps env dir o c k0 : keeps (λ s, same KMap k0 (fst s)) (body env dir o c).
Proof.
  intros [k n] Hk. unfold ctl_body. unfold mbnd at 1, at_node at 1.
  destruct (ctl_watch c n) as [n1 [[]|e|x]]; [|done|done].
  unfold mbnd at 1, at_sys at 1. pose proof (OpenRingbuf_spec dir k) as Hs.
  destruct (OpenRingbuf dir k) as [k2 [[h cs]|e|x]] eqn:Eo; [| |done].
  2:{ simpl in *. by rewrite Hs. }
  clear Hs. cbn [fst snd]. unfold deferring. set (m := mbnd (at_node (tick BootNs)) _).
  assert (keeps (λ s, ring_open h k2 (fst s)) m) as Hm.
  { pose proof (ring_open_reader h k2). unfold m. frame_steps. intros [k3 n3] Hr. by destruct (ctl_receive _ _ _ _ _ _ _). }
  specialize (Hm (k2, n1) (conj eq_refl eq_refl)). clearbody m. destruct (m (k2, n1)) as [[k3 n3] r].
  unfold at_sys. pose proof (ring_released _ _ _ _ _ k3 Eo Hm) as Hc.
  destruct (CloseRingbuf h k3) as [k4 r4]. eapply same_trans; [exact Hk|exact Hc].
Qed.
Lemma ctl_body_same env dir o c κ k0 : κ ≠ KMap → keeps (λ s, same κ k0 (fst s)) (body env dir o c).
Proof.
  intros Hn. pose proof (OpenRingbuf_same κ k0 dir Hn) as Ho.
  pose proof (λ c, CloseRingbuf_same κ k0 c Hn) as Hc.
  assert (∀ r, keeps (same κ k0) (CloseReader (Hnd := Hnd) r)) as Hr
    by (intros r; eapply keeps_call; [constructor|congruence]).
  unfold ctl_body. frame_steps. intros [k n] Hk. by destruct (ctl_receive _ _ _ _ _ _ _).
Qed.
Lemma ctl_inner_same env dir o n κ k0 :
  keeps (same κ k0) (λ k, let '((k', _), r) := ctl_run o (body env dir o) (k, n k) in (k', r)).
Proof.
  intros k Hk. assert (keeps (λ s, same κ k0 (fst s)) (ctl_run o (body env dir o))) as Hr.
  { apply keeps_run. intros c. destruct (decide (κ = KMap)) as [->|Hn]; [apply ctl_body_maps|by apply ctl_body_same]. }
  specialize (Hr (k, n k) Hk). by destruct (ctl_run _ _ _) as [[k' n'] r].
Qed.
(** The map handles are given back, the other kinds are not touched. *)
Lemma ctl_maps_same env dir o κ k : same κ k (fst (ctl_maps env dir o k)).
Proof.
  unfold ctl_maps, mbnd. pose proof (OpenMaps_spec (Rdr := Rdr) dir k) as Ho.
  pose proof (λ κ Hn, OpenMaps_same κ k dir Hn k (same_refl _ _)) as Hs.
  destruct (OpenMaps dir k) as [k1 [h|e|x]]; cbn [fst] in Hs; [| |done].
  2:{ destruct (decide (κ = KMap)) as [->|Hn]; [simpl; by rewrite Ho|by apply Hs]. }
  destruct Ho as ((hs & Hh & Hl & Hop) & _). pose proof (opened_only_maps _ _ _ _ _ Hh Hl Hop) as Hm.
  pose proof (λ κ', ctl_inner_same env dir o (ce_node env h) κ' k1 k1 (same_refl _ _)) as Hi.
  unfold deferring. cbv beta in Hi |- *.
  destruct (ctl_run o _ (k1, ce_node env h k1)) as [[k2 n2] r]. cbn [fst] in *.
  destruct (CloseMaps_restores k h k2) as (k3 & e3 & E3 & Hm3 & Hr3).
  { by eapply only_maps_same; [apply same_refl|apply Hi|]. }
  pose proof (λ κ Hn, CloseMaps_same κ k2 h Hn k2 (same_refl _ _)) as Hc. rewrite E3 in Hc |- *. cbn [fst] in *.
  destruct (decide (κ = KMap)) as [->|Hn].
  - split; [done|]. rewrite Hr3. destruct (Hi KMap) as [_ ->]. apply (op_readers _ _ _ _ Hop).
  - eapply same_trans; [by apply Hs|]. eapply same_trans; [apply Hi|by apply Hc].
Qed.

Notation main := (ctl_main (K := K) (Prog := Prog) (Lnk := Lnk) (Hnd := Hnd) (Rdr := Rdr)).

Lemma ctl_attach_state (s : Loader Prog Lnk * K) : fst (ctl_attach s) = fst (AttachAll s).
Proof.
  unfold ctl_attach, mbnd. destruct (AttachAll s) as [s1 [[]|e|x]]; [|done|done]. simpl. by case_match.
Qed.
Lemma ctl_attach_ok (s s' : Loader Prog Lnk * K) : ctl_attach s = (s', Ok tt) → AttachAll s = (s', Ok tt).
Proof.
  intros (s1 & [] & E & Hc)%mbnd_ok. apply mbnd_ok in Hc as (s2 & s3 & [= <- <-] & Hc). cbv zeta in Hc.
  case_match; [done|]. by injection Hc as <-.
Qed.

(** The hooks stay attached and their handles are closed, or they are taken off. *)
Lemma ctl_hooks_closed env dir o k0 l k l' k' r :
  fresh_loader l → (∀ κ, κ ≠ KColl → same κ k0 k) → only_coll k0 l k →
  deferring Close (ctl_attach ;;;
    (if o_detach o then deferring Detach (kop (ctl_maps env dir o)) else kop (ctl_maps env dir o))) (l, k) =
    ((l', k'), r) →
  (∀ κ, same κ k0 k') ∧
  (o_detach o = true → unpin_works (K := K) (Prog := Prog) (Lnk := Lnk) → ∀ ls, r = Ok ls →
   ∀ n, is_Some (coll l !! n) → ¬ is_mirror l n → v_pins (view k') !! link_path l n = None).
Proof.
  intros Hf H0k Hco0. unfold deferring at 1. unfold mbnd at 1. pose proof (ctl_attach_state (l, k)) as Hst.
  destruct (ctl_attach (l, k)) as [[l1 k1] r1] eqn:Ea. destruct (AttachAll (l, k)) as [[l2 k2] r2] eqn:Eall.
  simpl in Hst. injection Hst as <- <-. destruct (attach_all_links _ _ _ _ _ Hf Eall) as [_ Hol].
  pose proof (λ κ Hn, AttachAll_same κ k Hn (l, k) (same_refl _ _)) as Hat. rewrite Eall in Hat. cbn [fst snd] in Hat.
  pose proof (AttachAll_coll (collFd l) (l, k) eq_refl) as Hfd. rewrite Eall in Hfd. cbn [fst snd] in Hfd.
  assert (only_links k0 l1 k1) as Hol0 by (eapply only_links_same; [by apply H0k|apply same_refl|exact Hol]).
  assert (only_coll k0 l1 k1) as Hco1 by (eapply only_coll_same; [apply same_refl|by apply Hat|exact Hfd|exact Hco0]).
  destruct r1 as [[]|e|x].
  2, 3: destruct (close_links k0 l1 k1 Hol0 Hco1) as (l3 & k3 & e3 & E3 & Hl3 & Hc3 & _ & Ho3); rewrite E3;
    intros [= <- <- <-]; (split; [|done]); intros κ; (destruct (decide (κ = KLink)) as [->|Hn]; [done|]);
    (destruct (decide (κ = KColl)) as [->|Hn']; [done|]);
    (eapply same_trans; [by apply H0k|eapply same_trans; [by apply Hat|by apply Ho3]]).
  apply ctl_attach_ok in Ea. rewrite Ea in Eall. injection Eall as <-.
  pose proof (λ κ, ctl_maps_same env dir o κ k1) as Hm. unfold kop, deferring.
  assert (∀ k2 : K, fst (ctl_maps env dir o k1) = k2 →
    only_links k0 l1 k2 ∧ only_coll k0 l1 k2 ∧ same KLink k1 k2 ∧
    ∀ κ, κ ≠ KLink → κ ≠ KColl → same κ k0 k2) as Hfacts.
  { intros k2 <-. split; [by eapply only_links_same; [apply same_refl|apply (Hm KLink)|]|].
    split; [by eapply only_coll_same; [apply same_refl|apply (Hm KColl)|reflexivity|]|].
    split; [apply Hm|]. intros κ Hn Hn'. eapply same_trans; [by apply H0k|].
    eapply same_trans; [by apply Hat|apply Hm]. }
  destruct (o_detach o); cbv beta iota; destruct (ctl_maps env dir o k1) as [k2 rm];
    destruct (Hfacts k2 eq_refl) as (Hol2 & Hco2 & El & Hs2).
  - assert (links_pinned l l1 k2) as Hpin.
    { destruct (attach_all_pinned _ _ _ _ Hf Ea) as [Hi Hp]. split; [done|]. simpl in El. by rewrite El. }
    destruct (Detach_restores k0 l l1 k2 Hol2 Hpin) as (l3 & k3 & e3 & E3 & Hempty & Hh3 & Hun).
    pose proof (λ κ Hn, Detach_same κ k2 Hn (l1, k2) (same_refl _ _)) as Hd.
    pose proof (Detach_coll (collFd l1) (l1, k2) eq_refl) as Hfd3. rewrite E3 in Hd, Hfd3 |- *. cbn [fst snd] in *.
    destruct (close_links k0 l3 k3) as (l4 & k4 & e4 & E4 & Hl4 & Hc4 & Hp4 & Ho4).
    { split; [intros h _; by rewrite Hh3|]. intros n h. by rewrite Hempty, lookup_empty. }
    { eapply only_coll_same; [apply same_refl|by apply Hd|exact Hfd3|exact Hco2]. }
    rewrite E4. intros [= <- <- <-]. split.
    + intros κ. destruct (decide (κ = KLink)) as [->|Hn]; [done|].
      destruct (decide (κ = KColl)) as [->|Hn']; [done|].
      eapply same_trans; [by apply Hs2|]. eapply same_trans; [by apply Hd|by apply Ho4].
    + intros _ Hu ls _ n Hn Hnm. rewrite Hp4. apply Hun; [done|].
      destruct (proj1 (attach_all_ok _ _ _ _ Hf Ea) n Hn) as [(h & Hh & _)|(_ & ? & _)]; [by exists h|done].
  - destruct (close_links k0 l1 k2 Hol2 Hco2) as (l3 & k3 & e3 & E3 & Hl3 & Hc3 & _ & Ho3). rewrite E3.
    intros [= <- <- <-]. split; [|done]. intros κ. destruct (decide (κ = KLink)) as [->|Hn]; [done|].
    destruct (decide (κ = KColl)) as [->|Hn']; [done|].
    eapply same_trans; [by apply Hs2|by apply Ho3].
Qed.
End release.

(** * Properties *)

(** A verdict and its mirror are compared.  When two records of the same
    event (process, hook and file) arrive from different origins, with no other
    record of that event in between and fewer than 4096 events waiting, the
    second one yields a message exactly if the verdicts differ, and the event is
    no longer waiting.  The table of waiting events stays bounded whatever
    arrives. *)
Theorem mirror_compared d r1 mid r2 k :
  keyOf r1 = Some k → keyOf r2 = Some k → pending d !! k = None → Origin r1 ≠ Origin r2 →
  Forall (λ r, keyOf r ≠ Some k) mid → unpaired d + Z.of_nat (length mid) < 4096 →
  let d2 := observe_all (r1 :: mid) d in
  (snd (observe r2 d2) ≠ "" ↔ Verdict r1 ≠ Verdict r2) ∧
  pending (fst (observe r2 d2)) !! k = None ∧
  ∀ rs, unpaired (observe_all rs newDivergence) <= 4097.
Proof.
  intros Hk1 Hk2 Hnew Ho Hmid Hs. cbv zeta.
  set (d1 := fst (observe r1 d)). change (observe_all (r1 :: mid) d) with (observe_all mid d1).
  assert (d1 = mkDivergence (<[k := Verdict r1]> (pending d)) (<[k := Origin r1]> (d_origin d))) as E1.
  { subst d1. unfold observe. rewrite Hk1, Hnew. unfold unpaired in Hs.
    by rewrite (proj2 (Z.ltb_ge _ _)) by lia. }
  destruct (observe_all_other k mid d1 Hmid) as [Hp Hor].
  { rewrite E1. unfold unpaired in *. cbn [pending]. rewrite map_size_insert, Hnew. cbn. lia. }
  clearbody d1. rewrite E1 in Hp, Hor |- *. cbn [pending d_origin] in Hp, Hor. rewrite lookup_insert_eq in Hp, Hor.
  unfold observe. rewrite Hk2, Hp, Hor. cbn [default id].
  rewrite (proj2 (Z.eqb_neq _ _)) by done. cbn [fst snd pending].
  split; [|split; [apply lookup_delete_eq|]].
  - destruct (Z.eqb_spec (Verdict r1) (Verdict r2)); split; done.
  - intros rs. by apply observe_all_bounded.
Qed.

Definition demo_record (origin verdict : Z) : Record_ :=
  mkRecord 0 1 HookBprmCheckSecurity verdict 2 origin 1 10 1 42 7
    (mkProcess 500 500 1 0 0 0 0 0 77 "sh")
    (encode_fields plExec_layout [8; 0; 100; 33261; 0; 0; 0]).
Lemma mirror_compared_witness :
  snd (observe (demo_record 2 0) (observe_all [demo_record 1 1] newDivergence)) ≠ "".
Proof.
  apply (mirror_compared newDivergence (demo_record 1 1) [] (demo_record 2 0)
           (mkDupKey 500 2 8 100)); [reflexivity|reflexivity|reflexivity|discriminate|constructor| |discriminate].
  vm_compute. reflexivity.
Defined.

(** While the harness runs, the chosen session is judged by the warrant the
    options describe: every task of the cgroup finds it, with the mode, the
    break-glass and UDP flags and the expiry of the options, and each compiled
    executable is allowed; when the run ends, however it ends after the tagging,
    the session's tag is removed, unless removing it failed. *)
Theorem ctl_session {K A : Type} `{Os} `{WallClock} `{KernelMaps} `{!KernelMapsLaws} o
    (body : Compiled → HM (K := K) A) (k k' : K) (n n' : node) x :
  nets_wf (n_maps n) → o_cgroup o ≠ 0 → o_active o = true → ctl_run o body (k, n) = ((k', n'), Ok x) →
  ∃ c n1 n2 md e, parseMode (o_mode o) = Ok md ∧ (o_expireIn o <= 0 → e = 0) ∧
    body c (k, n1) = ((k', n2), Ok x) ∧
    (∀ t, t_cgroup t = o_cgroup o → (t_cpu t < ncpu (n_maps n))%nat →
       lookup_warrant (n_maps n1) t = Some (warrantID, TAG_CGROUP, ctl_warrant o md e)) ∧
    (∀ f, f ∈ c_Exec c → hm_get (ruleExec (n_maps n1)) (rule_key (c_PolicyID c) f) = Some 1) ∧
    (snd (UntagCgroup (o_cgroup o) (n_maps n2)) = Ok tt →
       hm_get (cgroupWarrant (n_maps n')) (o_cgroup o) = None).
Proof.
  intros Hw Hcg Hact ([k1 n1] & c & [-> Hwr]%at_node_ok & Hr)%mbnd_ok.
  apply ctl_write_ok in Hwr as (md & e & Hmd & He & Hget & Hcpu & Hexec); [|done].
  rewrite (proj2 (Z.eqb_neq _ _)) in Hr by done.
  apply mbnd_ok in Hr as ([k2 n2] & [] & [-> [Et Htag]%on_maps_ok%TagCgroup_ok]%at_node_ok & Hr).
  unfold deferring in Hr. destruct (mbnd _ _ (k, n2)) as [[k3 n3] r] eqn:Erest.
  unfold at_node in Hr. destruct (on_maps (UntagCgroup _) n3) as [n3' r3] eqn:Eu. injection Hr as -> <- ->.
  apply mbnd_ok in Erest as ([k4 n4] & [] & [-> [Ea Hset]%on_maps_ok%SetActive_ok]%at_node_ok & Hbody).
  exists c, n4, n3, md, e. split; [done|]. split; [done|]. split; [done|]. split; [|split].
  - intros t Ht Hc. unfold lookup_warrant. rewrite Hset, Et. cbn [ncpu set_cgroupWarrant].
    rewrite Hact, lookup_replicate_2 by lia. cbn.
    rewrite Ea. cbn [cgroupWarrant warrants set_activeFlag]. rewrite Ht, Htag, decide_True by done.
    rewrite Et. cbn [warrants set_cgroupWarrant]. by rewrite Hget.
  - intros f Hf. rewrite Ea, Et. cbn. by apply Hexec.
  - unfold on_maps in Eu. destruct (UntagCgroup _ (n_maps n3)) as [m' r'] eqn:Em.
    injection Eu as <- <-. cbn. intros ->. apply UntagCgroup_ok in Em as [_ Hu]. by rewrite Hu, decide_True.
Qed.

#[local] Existing Instance demo_os.
Definition demo_opts : opts :=
  mkOpts 77 "Enforce" "" ["/usr/bin/git"] ["/tmp/w"] ["/tmp/w/secret"] ["10.0.0.0/8"] 0 0
    false true false false false false.
Lemma demo_nets_wf : nets_wf (n_maps demo_node).
Proof. intros k v. unfold demo_node, demo_empty. cbn [n_maps ruleNet]. by rewrite blpm_empty_entry. Qed.

Lemma ctl_session_witness :
  ∃ c n1, lookup_warrant (n_maps n1) session_task =
            Some (warrantID, TAG_CGROUP, ctl_warrant demo_opts ModeEnforce 0) ∧
          ∀ f, f ∈ c_Exec c → hm_get (ruleExec (n_maps n1)) (rule_key (c_PolicyID c) f) = Some 1.
Proof.
  assert (snd (ctl_run demo_opts (λ _, mok tt) (tt, demo_node)) = Ok tt) as Hr by (vm_compute; reflexivity).
  apply run_named in Hr. destruct (fst (ctl_run demo_opts _ _)) as [k' n'] in Hr.
  destruct (ctl_session demo_opts (λ _, mok tt) tt _ demo_node _ _ demo_nets_wf ltac:(discriminate) eq_refl Hr)
    as (c & n1 & n2 & md & e & Hmd & He & _ & Hl & Hx & _).
  exists c, n1. split; [|exact Hx]. injection Hmd as <-. rewrite (He ltac:(discriminate)) in Hl.
  apply Hl; [reflexivity|]. vm_compute. constructor.
Defined.

(** The harness gives back what it took.  On every path out of [run] the link
    handles, the collection, the map handles and the ring buffer reader are closed
    again, whether
    the hooks stay attached or not; with [-detach] a run that succeeds leaves no
    program of the object pinned to its hook, as far as unpinning works (a mirror
    that did not attach aside). *)
Theorem ctl_releases {K Prog Lnk Hnd Rdr Conn Nc Up Obj Obj'}
    `{Ef : Frames K Prog Lnk Hnd Rdr Conn Nc Up Obj Obj'} `{ErrnoText} `{Os} `{WallClock} `{KernelMaps}
    (env : CtlEnv K Hnd) pinDir o (k k' : K) r :
  object_quiet (ce_embedded env) (ce_fromFile env) →
  object_plain (ce_embedded env) (ce_fromFile env) (o_obj o) →
  ctl_main (Prog := Prog) (Lnk := Lnk) (Rdr := Rdr) env pinDir o k = (k', r) →
  v_handles (view k') = v_handles (view k) ∧ colls k' = colls k ∧
  hv_maps (hsee k') = hv_maps (hsee k) ∧ hv_readers (hsee k') = hv_readers (hsee k) ∧
  (o_detach o = true → unpin_works (K := K) (Prog := Prog) (Lnk := Lnk) → ∀ ls, r = Ok ls →
   ∃ (l : Loader Prog Lnk) k1,
     LoadObject (ce_embedded env) (ce_fromFile env) (o_obj o) pinDir k = (k1, Ok l) ∧
     ∀ n, is_Some (coll l !! n) → ¬ is_mirror l n → v_pins (view k') !! link_path l n = None).
Proof.
  intros Hq Hp. unfold ctl_main, mbnd at 1, wrapping, mres.
  destruct (BpfLsmEnabled (ce_lsm env)) as [[]|e|x]; simpl; [|by intros [= <- <-]..].
  unfold mbnd at 1. pose proof (λ κ Hn, LoadObject_same κ k _ _ (o_obj o) pinDir Hn (proj1 (Hq κ k)) (proj2 (Hq κ k))
    k (same_refl _ _)) as Hlo.
  pose proof (LoadObject_colls _ _ (o_obj o) pinDir k (Hq KColl)) as Hco.
  destruct (LoadObject _ _ (o_obj o) pinDir k) as [k1 [l|e|x]] eqn:El; cbn [fst] in Hlo.
  2, 3: intros [= <- <-]; destruct (Hlo KMap ltac:(done)) as [? ?]; pose proof (Hlo KLink ltac:(done)); by auto.
  pose proof (LoadObject_fresh _ _ _ _ _ _ _ Hp El) as Hf.
  destruct (deferring Close _ (l, k1)) as [[l2 k2] r2] eqn:Ed. intros [= <- <-].
  destruct (ctl_hooks_closed _ _ _ _ _ _ _ _ _ Hf Hlo Hco Ed) as [Hs Hdet].
  pose proof (Hs KMap) as [? ?]. pose proof (Hs KLink). pose proof (Hs KColl).
  split; [done|]. split; [done|]. split; [done|]. split; [done|]. intros Ht Hu ls Hr. exists l, k1. split; [done|].
  by apply (Hdet Ht Hu ls).
Qed.

#[local] Existing Instance demo_errno_text.
(** One record is received, then the interrupt comes. *)
Definition demo_ctl : CtlEnv world nat :=
  mkCtlEnv (Ok "lockdown,bpf") (mok demo_object) (λ _, mok demo_object) (λ _ _, demo_node) (λ _, 0)
    [EvSample 0 (demo_sample 5 10); EvRevoke] 0 (Some Canceled) true.
Definition demo_detach : opts :=
  mkOpts 77 "enforce" "" ["/usr/bin/git"] [] [] [] 0 1 false true false true false false.
Definition demo_harness : world * res (list string) :=
  ctl_main (Lnk := nat) (Rdr := nat) demo_ctl "/sys/fs/bpf/warrant" demo_detach (demo_world []).
Lemma ctl_releases_witness :
  (∃ ls, snd demo_harness = Ok ls ∧ length ls = 2%nat) ∧
  v_handles (view (fst demo_harness)) = v_handles (view (demo_world [])) ∧
  v_pins (view (fst demo_harness)) = ∅.
Proof.
  split; [eexists; split; vm_compute; reflexivity|]. split; [|vm_compute; reflexivity].
  assert (object_quiet (ce_embedded demo_ctl) (ce_fromFile demo_ctl)) as Hq
    by (by intros κ k0; split; [|intros p]; apply keeps_mok).
  assert (object_plain (ce_embedded demo_ctl) (ce_fromFile demo_ctl) "") as Hp
    by (by intros m [->| ->]; exact demo_object_plain).
  exact (proj1 (ctl_releases demo_ctl _ demo_detach _ _ _ Hq Hp (surjective_pairing demo_harness))).
Defined.
