(* ===== verification/Hooks.v ===== *)
(** The BPF programs as the kernel calls them (bpf/warrant.bpf.c): the LSM hooks
    with what an earlier LSM answered, the kprobe mirrors, and the records they
    leave, payload bytes included.  [Kernel] has the decisions these make;
    [Ringbuf] and [Warrantctl] read the records. *)

From Stdlib Require Import ZArith Lia Ascii String.
From stdpp Require Import base tactics numbers list strings gmap.
From S2P Require Import Prelude GoStd GoNet EbpfMap Os BpfMap Concrete Kernel.
From S2P Require Import Policy Session Tasks Ringbuf Daemon CtlOutput Warrantctl.

(** A small constant fits its field. *)
Ltac op_small := by (split; vm_compute).

(** * The walk with its evidence *)

Definition no_ref : FileRef := mkFileRef 0 0.

(** [dentry_write_allowed] with the two references it fills in: the dentry itself,
    and the nearest ancestor that has an inode. *)
Fixpoint walk (rules : ruleKey → option writeVal) (pid : Z) (fuel depth : nat)
    (chain : list (option FileRef)) (self evid : FileRef) : bool * FileRef * FileRef :=
  match fuel, chain with
  | O, _ | _, [] => (false, self, evid)
  | S f, None :: up => walk rules pid f (S depth) up self evid
  | S f, Some r :: up =>
      let self := if (depth =? 0)%nat then r else self in
      let evid := if Ino evid =? 0 then r else evid in
      match rules (rule_key pid r) with
      | Some v =>
          if (depth =? 0)%nat || negb (wv_Recursive v =? 0) || (depth =? 1)%nat
          then (wv_Effect v =? EffectAllowByte, self, evid)
          else walk rules pid f (S depth) up self evid
      | None => walk rules pid f (S depth) up self evid
      end
  end.

(** * What a hook is called with, and what it leaves *)

(** The current task: the process of the record, the clock of [validity] and the
    clock of the record. *)
Record kctx := mkKctx { kc_task : task; kc_proc : Process; kc_now : Z; kc_ts : Z }.

(** An inode with the device of its super block, and an open file: its inode, mode
    and flags, and the dentry with its ancestors.  [None] is a null pointer. *)
Record kinode := mkKinode { in_ino : Z; in_mode : Z; in_sb : option Z }.
Record kfile := mkKfile {
  kf_inode : option kinode; kf_mode : Z; kf_flags : Z; kf_chain : list (option FileRef)
}.

(** [get_dev_ino] follows the pointers; a load through a null pointer reads zero. *)
Definition get_dev_ino (f : kfile) : FileRef :=
  let in_ := kf_inode f in
  let ino := match in_ with Some i => in_ino i | None => 0 end in
  let sb := match in_ with Some i => in_sb i | None => None end in
  let dev := match sb with Some s_dev => s_dev | None => 0 end in
  mkFileRef dev ino.
(** [get_dev_ino_probe] reads one pointer after the other and leaves [out] alone
    from the first null on. *)
Definition get_dev_ino_probe (f : kfile) (out : FileRef) : FileRef :=
  match kf_inode f with
  | None => out
  | Some i =>
      let out := mkFileRef (Dev out) (in_ino i) in
      match in_sb i with
      | None => out
      | Some s_dev => mkFileRef s_dev (Ino out)
      end
  end.

Inductive kcall :=
  | CFileOpen (f : option kfile)
  | CCreate (d : list (option FileRef))
  | CUnlink (d : list (option FileRef))
  | CRename (old new : list (option FileRef))
  | CLink (new : list (option FileRef))
  | CSymlink (d : list (option FileRef))
  | CExec (f : option kfile)
  | CConnect (a : sockaddr)
  | CSendmsg (a : option sockaddr) (size : Z).

Definition OP_CREATE : Z := 1.
Definition OP_UNLINK : Z := 2.
Definition OP_RENAME : Z := 3.
Definition OP_LINK : Z := 4.
Definition OP_SYMLINK : Z := 5.

(** [emit]'s record; its number is filled in when it is written ([Emit]). *)
Definition krecord (c : kctx) (hook verdict tag wid : Z) (w : option KWarrant) (origin : Z) (pl : list Z) : Record_ :=
  mkRecord (Z.of_nat (t_cpu (kc_task c))) 0 hook verdict (default ModeObserve (Mode <$> w)) origin tag
    (kc_ts c) wid (default 0 (SubjectID <$> w)) (default 0 (PolicyID <$> w)) (kc_proc c) pl.

(** The payload structs, with their padding. *)
Definition pl_write (file parent : FileRef) (flags : Z) : list Z :=
  encode_fields plWrite_layout [Dev file; 0; Ino file; Dev parent; 0; Ino parent; flags; 0].
Definition pl_inode (dir target : FileRef) (op : Z) : list Z :=
  encode_fields plInode_layout [Dev dir; 0; Ino dir; Dev target; 0; Ino target; op; 0].
Definition pl_exec (file : FileRef) (i_mode : Z) : list Z :=
  encode_fields plExec_layout [Dev file; 0; Ino file; i_mode; 0; 0; 0].
Definition pl_connect (family proto port : Z) (addr : list Z) : list Z :=
  encode_fields plConnect_layout [family; proto; port; 0] ++ addr.
Definition pl_udp (family port : Z) (addr : list Z) (size : Z) : list Z :=
  pl_connect family 2 port addr ++ le_enc 8 (if 0 <? size then size else 0).

Section programs.
Context `{KernelMaps}.
Implicit Types (m : Maps) (c : kctx).

(** Each verdict function: what it returns and the record it emits. *)

Definition file_prog m c (is_probe : bool) (origin : Z) (file : option kfile) : Z * option Record_ :=
  match lookup_warrant m (kc_task c), file with
  | None, _ | _, None => (0, None)
  | Some (wid, tag, w), Some f =>
      if Z.land (kf_mode f) FMODE_WRITE =? 0 then (0, None)
      else
        let '(denied, file, parent) :=
          if negb (validity w (kc_now c) =? 0)
          then (true, if is_probe then get_dev_ino_probe f no_ref else get_dev_ino f, no_ref)
          else let '(ok, self, evid) :=
                 walk (hm_get (ruleWrite m)) (PolicyID w) WALK_MAX 0 (kf_chain f) no_ref no_ref in
               (negb ok, self, evid) in
        (if origin =? ORIGIN_KPROBE then 0 else ret_of w denied,
         if denied
         then Some (krecord c HookFileOpen (verdict_of w denied) tag wid (Some w) origin
                      (pl_write file parent (kf_flags f)))
         else None)
  end.

Definition inode_prog m c (hook op origin : Z) (d : list (option FileRef)) : Z * option Record_ :=
  match lookup_warrant m (kc_task c) with
  | None => (0, None)
  | Some (wid, tag, w) =>
      let '(denied, target, dir) :=
        if negb (validity w (kc_now c) =? 0) then (true, no_ref, no_ref)
        else let '(ok, self, evid) :=
               walk (hm_get (ruleWrite m)) (PolicyID w) WALK_MAX 0 d no_ref no_ref in
             (negb ok, self, evid) in
      (ret_of w denied,
       if denied
       then Some (krecord c hook (verdict_of w denied) tag wid (Some w) origin (pl_inode dir target op))
       else None)
  end.

Definition bprm_prog m c (origin : Z) (file : option kfile) : Z * option Record_ :=
  match lookup_warrant m (kc_task c), file with
  | None, _ | _, None => (0, None)
  | Some (wid, tag, w), Some f =>
      let ref := get_dev_ino_probe f no_ref in
      let val := validity w (kc_now c) in
      let denied :=
        if val =? 1 then true
        else if val =? 2 then false
        else match hm_get (ruleExec m) (rule_key (PolicyID w) ref) with
             | Some _ => false
             | None => true
             end in
      let i_mode := match kf_inode f with Some i => in_mode i | None => 0 end in
      (ret_of w denied,
       Some (krecord c HookBprmCheckSecurity (verdict_of w denied) tag wid (Some w) origin (pl_exec ref i_mode)))
  end.

(** The 16 address bytes of a UNIX payload are the start of the path. *)
Definition path_bytes (path : string) : list Z :=
  take addrSize (((λ a, Z.of_N (Ascii.N_of_ascii a)) <$> String.list_ascii_of_string path) ++ zeros addrSize).

Definition connect_prog m c (origin : Z) (a : sockaddr) : Z * option Record_ :=
  match lookup_warrant m (kc_task c) with
  | None => (0, None)
  | Some (wid, tag, w) =>
      let out (denied : bool) (pl : list Z) :=
        (ret_of w denied,
         Some (krecord c HookSocketConnect (verdict_of w denied) tag wid (Some w) origin pl)) in
      match a with
      | SockInet addr4 port =>
          out (net_denied m w (kc_now c) (v4_mapped addr4) port 1) (pl_connect 2 1 port (v4_mapped addr4))
      | SockInet6 addr port =>
          out (net_denied m w (kc_now c) addr port 1) (pl_connect 10 1 port addr)
      | SockUnix path =>
          if delegation_socket path then out true (pl_connect 1 0 0 (path_bytes path)) else (0, None)
      | SockOther => (0, None)
      end
  end.

Definition sendmsg_prog m c (a : option sockaddr) (size : Z) : Z * option Record_ :=
  match lookup_warrant m (kc_task c) with
  | None => (0, None)
  | Some (wid, tag, w) =>
      if InspectUDP w =? 0 then (0, None)
      else
        let out (family port : Z) (addr : list Z) :=
          if net_denied m w (kc_now c) addr port 2
          then (ret_of w true,
                Some (krecord c HookSocketSendmsg (verdict_of w true) tag wid (Some w) ORIGIN_LSM
                        (pl_udp family port addr size)))
          else (0, None) in
        match a with
        | Some (SockInet addr4 port) => out 2 port (v4_mapped addr4)
        | Some (SockInet6 addr port) => out 10 port addr
        | _ => (0, None)
        end
  end.

(** [warrant_fork]: the child's tag and the record. *)
Definition fork_prog m c (stored : bool) (parent_tgid child_tgid : Z) : option Z * option Record_ :=
  let '(tag, found) := warrant_fork m (kc_task c) stored in
  (tag, (λ '(src, wid), krecord c HookSchedProcessFork VERDICT_ALLOW src wid (hm_get (warrants m) wid)
           ORIGIN_LSM (encode_fields plFork_layout [parent_tgid; child_tgid; t_cgroup (kc_task c)])) <$> found).

(** [selfprotect] with its record, which has no payload. *)
Definition selfprotect_prog m c (hook : Z) (last : option Z) : Z * option Record_ :=
  let '(v, verdict) := selfprotect m (kc_task c) (kc_now c) last in
  (v, match lookup_warrant m (kc_task c), verdict with
      | Some (wid, tag, w), Some verdict => Some (krecord c hook verdict tag wid (Some w) ORIGIN_LSM [])
      | _, _ => None
      end).

(** The five hooks that call it, with the other task's cgroup where there is one; an
    earlier refusal becomes -EPERM. *)
Inductive spcall := SpBpf | SpKill (peer_cgroup : Z) | SpUmount | SpPtrace (peer_cgroup : Z) | SpModule.
Definition sp_prog m c (s : spcall) (last : option Z) (prior : Z) : Z * option Record_ :=
  if negb (prior =? 0) then (- EPERM, None)
  else match s with
       | SpBpf => selfprotect_prog m c HookBPF last
       | SpKill cg =>
           if negb (peer_outside_warrant m (kc_task c) cg) then (0, None)
           else selfprotect_prog m c HookTaskKill last
       | SpUmount => selfprotect_prog m c HookSbUmount last
       | SpPtrace cg =>
           if negb (peer_outside_warrant m (kc_task c) cg) then (0, None)
           else selfprotect_prog m c HookPtraceAccessCheck last
       | SpModule => selfprotect_prog m c HookKernelModuleReq last
       end.

(** * The programs *)

Definition one_record (x : Z * option Record_) : Z * list Record_ :=
  (fst x, match snd x with Some r => [r] | None => [] end).

(** [lsm/...]: the answer of an earlier LSM stands; a rename must be allowed at
    both ends. *)
Definition lsm m c (call : kcall) (prior : Z) : Z * list Record_ :=
  if negb (prior =? 0) then (prior, [])
  else match call with
       | CFileOpen f => one_record (file_prog m c false ORIGIN_LSM f)
       | CCreate d => one_record (inode_prog m c HookInodeCreate OP_CREATE ORIGIN_LSM d)
       | CUnlink d => one_record (inode_prog m c HookInodeUnlink OP_UNLINK ORIGIN_LSM d)
       | CRename old new =>
           let '(v, rs) := one_record (inode_prog m c HookInodeRename OP_RENAME ORIGIN_LSM old) in
           if negb (v =? 0) then (v, rs)
           else let '(v', rs') := one_record (inode_prog m c HookInodeRename OP_RENAME ORIGIN_LSM new) in
                (v', rs ++ rs')
       | CLink d => one_record (inode_prog m c HookInodeLink OP_LINK ORIGIN_LSM d)
       | CSymlink d => one_record (inode_prog m c HookInodeSymlink OP_SYMLINK ORIGIN_LSM d)
       | CExec f => one_record (bprm_prog m c ORIGIN_LSM f)
       | CConnect a => one_record (connect_prog m c ORIGIN_LSM a)
       | CSendmsg a size => one_record (sendmsg_prog m c a size)
       end.

(** [kprobe/security_...]: the four mirrors; they return 0. *)
Definition mirror m c (call : kcall) : option (Z * list Record_) :=
  let records x := Some (0, snd (one_record x)) in
  match call with
  | CFileOpen f => records (file_prog m c true ORIGIN_KPROBE f)
  | CUnlink d => records (inode_prog m c HookInodeUnlink OP_UNLINK ORIGIN_KPROBE d)
  | CExec f => records (bprm_prog m c ORIGIN_KPROBE f)
  | CConnect a => records (connect_prog m c ORIGIN_KPROBE a)
  | _ => None
  end.

(** * Lemmas *)

Lemma walk_allowed rules pid fuel depth chain self evid :
  fst (fst (walk rules pid fuel depth chain self evid)) = write_walk rules pid fuel depth chain.
Proof.
  revert depth chain self evid. induction fuel as [|f IH]; intros depth chain self evid; [done|].
  destruct chain as [|[r|] up]; simpl; [done| |apply IH].
  destruct (rules (rule_key pid r)) as [v|]; [|apply IH]. by destruct (_ || _ || _).
Qed.

(** The decisions are those of [Kernel]. *)
Definition decision (x : Z * option Record_) : Z * option Z := (fst x, Verdict <$> snd x).
Lemma write_denied_walk m w now d :
  (if negb (validity w now =? 0) then true
   else negb (fst (fst (walk (hm_get (ruleWrite m)) (PolicyID w) WALK_MAX 0 d no_ref no_ref)))) =
  write_denied m w now d.
Proof. unfold write_denied, dentry_write_allowed. by rewrite walk_allowed. Qed.
Lemma file_prog_decision m c is_probe origin f :
  decision (file_prog m c is_probe origin (Some f)) =
  file_verdict m (kc_task c) (kc_now c) (kf_mode f) origin (kf_chain f).
Proof.
  unfold file_prog, file_verdict. destruct (lookup_warrant _ _) as [[[wid tag] w]|]; [|done].
  destruct (_ =? 0); [done|]. rewrite <- write_denied_walk. destruct (negb _); [done|].
  destruct (walk _ _ _ _ _ _ _) as [[ok self] evid]. simpl. by destruct ok.
Qed.
Lemma inode_prog_decision m c hook op origin d :
  decision (inode_prog m c hook op origin d) = inode_verdict m (kc_task c) (kc_now c) d.
Proof.
  unfold inode_prog, inode_verdict. destruct (lookup_warrant _ _) as [[[wid tag] w]|]; [|done].
  rewrite <- write_denied_walk. destruct (negb _); [done|].
  destruct (walk _ _ _ _ _ _ _) as [[ok self] evid]. simpl. by destruct ok.
Qed.
Lemma bprm_prog_decision m c origin f :
  decision (bprm_prog m c origin (Some f)) = bprm_verdict m (kc_task c) (kc_now c) (get_dev_ino_probe f no_ref).
Proof.
  unfold bprm_prog, bprm_verdict. by destruct (lookup_warrant _ _) as [[[wid tag] w]|].
Qed.
Lemma connect_prog_decision m c origin a :
  decision (connect_prog m c origin a) = connect_verdict m (kc_task c) (kc_now c) a.
Proof.
  unfold connect_prog, connect_verdict. destruct (lookup_warrant _ _) as [[[wid tag] w]|]; [|done].
  destruct a as [a4 port|a port|path|]; try done. by destruct (delegation_socket path).
Qed.
Lemma sendmsg_prog_decision m c a size :
  decision (sendmsg_prog m c a size) = sendmsg_verdict m (kc_task c) (kc_now c) a.
Proof.
  unfold sendmsg_prog, sendmsg_verdict. destruct (lookup_warrant _ _) as [[[wid tag] w]|]; [|done].
  destruct (_ =? 0); [done|]. destruct a as [[a4 port|a port|path|]|]; try done; by destruct (net_denied _ _ _ _ _ _).
Qed.

(** ** Modes *)

Definition set_Mode (w : KWarrant) (b : Z) : KWarrant :=
  mkKWarrant (ExpiresNs w) (GraceNs w) (SubjectID w) (PolicyID w)
             (Revoked w) b (OnExpiry w) (BreakGlass w) (InspectUDP w).

(** A decision under enforcement and the same one under observation. *)
Definition predicts (e o : Z * option Record_) : Prop :=
  fst o = 0 ∧
  (fst e = - EPERM ∧ (∃ r, snd e = Some r ∧ Verdict r = VERDICT_DENY) ∧
     (∃ r, snd o = Some r ∧ Verdict r = VERDICT_WOULD_DENY) ∨
   fst e = 0 ∧ ∀ r, snd o = Some r ∨ snd e = Some r → Verdict r = VERDICT_ALLOW).

Section modes.
Context (m m' : Maps) (c : kctx) (wid tag : Z) (w : KWarrant).
Hypothesis Hl : lookup_warrant m (kc_task c) = Some (wid, tag, w).
Hypothesis Hl' : lookup_warrant m' (kc_task c) = Some (wid, tag, set_Mode w ModeObserve).
Hypothesis He : Mode w = ModeEnforce.
Hypothesis Hr : same_rules m m'.

Lemma predicts_out hook origin denied pl :
  predicts (ret_of w denied, Some (krecord c hook (verdict_of w denied) tag wid (Some w) origin pl))
    (ret_of (set_Mode w ModeObserve) denied,
     Some (krecord c hook (verdict_of (set_Mode w ModeObserve) denied) tag wid
             (Some (set_Mode w ModeObserve)) origin pl)).
Proof.
  unfold predicts, ret_of, verdict_of. simpl. rewrite He. destruct denied; simpl.
  - split; [done|]. left. split; [done|]. split; by eexists.
  - split; [done|]. right. split; [done|]. by intros r [[= <-]|[= <-]].
Qed.
Lemma predicts_silent : predicts (0, None) (0, None).
Proof. split; [done|]. right. split; [done|]. by intros r [?|?]. Qed.
Lemma predicts_denied hook origin denied pl :
  predicts
    (ret_of w denied, if denied then Some (krecord c hook (verdict_of w denied) tag wid (Some w) origin pl) else None)
    (ret_of (set_Mode w ModeObserve) denied,
     if denied then Some (krecord c hook (verdict_of (set_Mode w ModeObserve) denied) tag wid
                            (Some (set_Mode w ModeObserve)) origin pl) else None).
Proof. destruct denied; [apply (predicts_out hook origin true)|apply predicts_silent]. Qed.

Lemma predicts_file file : predicts (file_prog m c false ORIGIN_LSM file) (file_prog m' c false ORIGIN_LSM file).
Proof.
  destruct Hr as (_ & Hw & _). unfold file_prog. rewrite Hl, Hl'. destruct file as [f|]; [|apply predicts_silent].
  rewrite Hw. cbn [PolicyID set_Mode].
  change (validity (set_Mode w ModeObserve)) with (validity w).
  destruct (_ =? 0); [apply predicts_silent|]. cbn [Z.eqb ORIGIN_LSM ORIGIN_KPROBE].
  destruct (if negb (validity w (kc_now c) =? 0) then _ else _) as [[denied file] parent]. apply predicts_denied.
Qed.
Lemma predicts_inode hook op d : predicts (inode_prog m c hook op ORIGIN_LSM d) (inode_prog m' c hook op ORIGIN_LSM d).
Proof.
  destruct Hr as (_ & Hw & _). unfold inode_prog. rewrite Hl, Hl', Hw. cbn [PolicyID set_Mode].
  change (validity (set_Mode w ModeObserve)) with (validity w).
  destruct (if negb (validity w (kc_now c) =? 0) then _ else _) as [[denied file] parent]. apply predicts_denied.
Qed.
Lemma predicts_exec file : predicts (bprm_prog m c ORIGIN_LSM file) (bprm_prog m' c ORIGIN_LSM file).
Proof.
  destruct Hr as (Hx & _). unfold bprm_prog. rewrite Hl, Hl', Hx.
  destruct file as [f|]; [apply predicts_out|apply predicts_silent].
Qed.
Lemma net_denied_mode addr port proto :
  net_denied m' (set_Mode w ModeObserve) (kc_now c) addr port proto = net_denied m w (kc_now c) addr port proto.
Proof. destruct Hr as (_ & _ & Hn). unfold net_denied, net_allowed. by rewrite Hn. Qed.
Lemma predicts_connect a : predicts (connect_prog m c ORIGIN_LSM a) (connect_prog m' c ORIGIN_LSM a).
Proof.
  unfold connect_prog. rewrite Hl, Hl'.
  destruct a as [a4 port|a port|path|]; rewrite ?net_denied_mode; [apply predicts_out..| |apply predicts_silent].
  destruct (delegation_socket path); [apply predicts_out|apply predicts_silent].
Qed.
Lemma predicts_sendmsg a size : predicts (sendmsg_prog m c a size) (sendmsg_prog m' c a size).
Proof.
  unfold sendmsg_prog. rewrite Hl, Hl'. cbn [InspectUDP set_Mode]. destruct (_ =? 0); [apply predicts_silent|].
  destruct a as [[a4 port|a port|path|]|]; rewrite ?net_denied_mode; try apply predicts_silent;
    (destruct (net_denied m w _ _ _ _); [apply (predicts_out _ _ true)|apply predicts_silent]).
Qed.

(** At a self-protection hook a refusal foretold is a refusal; one that is not was
    recorded for the process and the hook less than a second before. *)
Definition foretold (last : option Z) (e o : Z * option Record_) : Prop :=
  fst o = 0 ∧ (fst e = 0 ∨ fst e = - EPERM) ∧
  (∀ r, snd o = Some r → Verdict r = VERDICT_WOULD_DENY ∧ fst e = - EPERM) ∧
  (fst e = - EPERM → is_Some (snd o) ∨ ∃ l, last = Some l ∧ u64 (kc_now c - l) < 1000000000).
Lemma foretold_silent last : foretold last (0, None) (0, None).
Proof. split; [done|]. split; [by left|]. by split. Qed.
Lemma foretold_selfprotect hook last :
  foretold last (selfprotect_prog m c hook last) (selfprotect_prog m' c hook last).
Proof.
  unfold selfprotect_prog, selfprotect. rewrite Hl, Hl'. cbn [BreakGlass set_Mode].
  destruct (negb (BreakGlass w =? 0)); [apply foretold_silent|].
  unfold foretold, ret_of, verdict_of. cbn [Mode set_Mode]. rewrite He. simpl.
  destruct last as [l|]; [destruct (Z.ltb_spec (u64 (kc_now c - l)) 1000000000)|]; simpl.
  - split; [done|]. split; [by right|]. split; [done|]. intros _. right. by exists l.
  - split; [done|]. split; [by right|]. split; [by intros r [= <-]|]. by left.
  - split; [done|]. split; [by right|]. split; [by intros r [= <-]|]. by left.
Qed.
Lemma foretold_sp s last :
  cgroupWarrant m' = cgroupWarrant m → foretold last (sp_prog m c s last 0) (sp_prog m' c s last 0).
Proof.
  intros Hc. assert (∀ cg, peer_outside_warrant m' (kc_task c) cg = peer_outside_warrant m (kc_task c) cg) as Hp.
  { intros cg. unfold peer_outside_warrant. by rewrite Hl, Hl', Hc. }
  unfold sp_prog. cbn [Z.eqb negb]. destruct s as [|cg| |cg|]; rewrite ?Hp; try apply foretold_selfprotect;
    (destruct (negb _); [apply foretold_silent|apply foretold_selfprotect]).
Qed.
End modes.

(** The same of a whole program, which may leave two records. *)
Definition predicts_all (e o : Z * list Record_) : Prop :=
  fst o = 0 ∧ (fst e = 0 ∨ fst e = - EPERM) ∧
  (fst e = - EPERM ↔ ∃ r, r ∈ snd o ∧ Verdict r = VERDICT_WOULD_DENY) ∧
  (fst e = - EPERM ↔ ∃ r, r ∈ snd e ∧ Verdict r = VERDICT_DENY).
Lemma predicts_one e o : predicts e o → predicts_all (one_record e) (one_record o).
Proof.
  destruct e as [ve re], o as [vo ro]. unfold predicts, predicts_all. simpl.
  intros (Ho & [(He & (r1 & -> & H1) & (r2 & -> & H2))|[He Ha]]); simpl in *; subst.
  - split; [done|]. split; [by right|]. split; (split; [intros _|done]);
      [exists r2|exists r1]; (split; [by left|done]).
  - split; [done|]. split; [by left|].
    assert (∀ r ro v, (ro = Some r → Verdict r = VERDICT_ALLOW) → v ≠ VERDICT_ALLOW →
              r ∈ match ro with Some x => [x] | None => [] end → Verdict r ≠ v) as Hnot.
    { intros r [x|] v Hx Hv; [|by intros ?%elem_of_nil].
      intros ->%list_elem_of_singleton. rewrite Hx by done. congruence. }
    split; (split; [done|]); intros (r & Hin & Hv); exfalso; revert Hv; (eapply Hnot; [|done|exact Hin]); eauto.
Qed.
Lemma predicts_rename e1 o1 e2 o2 :
  predicts_all e1 o1 → predicts_all e2 o2 →
  predicts_all
    (let '(v, rs) := e1 in if negb (v =? 0) then (v, rs) else let '(v', rs') := e2 in (v', rs ++ rs'))
    (let '(v, rs) := o1 in if negb (v =? 0) then (v, rs) else let '(v', rs') := o2 in (v', rs ++ rs')).
Proof.
  destruct e1 as [v1 r1], o1 as [w1 s1], e2 as [v2 r2], o2 as [w2 s2]. unfold predicts_all. simpl.
  intros (-> & Hv1 & Ha1 & Hb1) (-> & Hv2 & Ha2 & Hb2). simpl.
  assert (∀ v l l', (∃ r, r ∈ l ++ l' ∧ Verdict r = v) ↔
            (∃ r, r ∈ l ∧ Verdict r = v) ∨ ∃ r, r ∈ l' ∧ Verdict r = v) as Happ.
  { intros v l l'. setoid_rewrite elem_of_app. naive_solver. }
  destruct Hv1 as [-> | ->]; simpl; rewrite !Happ, <- Ha1, <- Ha2.
  - rewrite <- Hb1, <- Hb2. split; [done|]. split; [done|]. split; split; naive_solver.
  - split; [done|]. split; [by right|]. split; [|done]. naive_solver.
Qed.
End programs.

(** * Properties *)

Section properties.
Context `{KernelMaps}.

(** C12: observing predicts enforcing.  Take a warrant in enforce mode and the same
    warrant in observe mode over the same rules and cgroup tags.  For every call at a
    file, inode, exec or network hook: observing lets it pass, enforcing answers 0 or
    -EPERM, and enforcing refuses exactly if observing records a would-be denial, and
    exactly if enforcing records a denial.  At the five self-protection hooks
    observing lets every call pass too and whatever it records as a would-be denial
    is refused when enforcing; a refusal it does not foretell is one the rate limit
    kept out of the records, the process having hit the hook within the last
    second. *)
Theorem observe_predicts_enforce (m m' : Maps) c wid tag w call s last :
  lookup_warrant m (kc_task c) = Some (wid, tag, w) → Mode w = ModeEnforce →
  lookup_warrant m' (kc_task c) = Some (wid, tag, set_Mode w ModeObserve) → same_rules m m' →
  cgroupWarrant m' = cgroupWarrant m →
  predicts_all (lsm m c call 0) (lsm m' c call 0) ∧
  foretold c last (sp_prog m c s last 0) (sp_prog m' c s last 0).
Proof.
  intros Hl He Hl' Hr Hc. split; [|by eapply foretold_sp]. unfold lsm. cbn [Z.eqb negb].
  destruct call; try apply predicts_one;
    eauto using predicts_file, predicts_inode, predicts_exec, predicts_connect, predicts_sendmsg.
  apply predicts_rename; apply predicts_one; by eapply predicts_inode.
Qed.

(** The record of a mirror, from that of the hook. *)
Definition as_mirror (ts : Z) (r : Record_) : Record_ :=
  mkRecord (CPU r) (CPUSeq r) (Hook r) (Verdict r) (r_Mode r) ORIGIN_KPROBE (TagSource r) ts
    (WarrantID r) (r_SubjectID r) (r_PolicyID r) (Proc r) (PayloadRaw r).

(** The mirror's clock falls on the same side of the warrant's expiry. *)
Definition same_validity (m : Maps) (c c' : kctx) : Prop :=
  ∀ wid tag w, lookup_warrant m (kc_task c) = Some (wid, tag, w) →
    validity w (kc_now c') = validity w (kc_now c).

Lemma mirror_silent r ts d :
  Origin r = ORIGIN_LSM → (∀ k, keyOf r = Some k → pending d !! k = None) →
  snd (observe (as_mirror ts r) d) = "" ∧ snd (observe r (fst (observe (as_mirror ts r) d))) = "".
Proof.
  intros Ho Hp. assert (keyOf (as_mirror ts r) = keyOf r) as Ek by done.
  unfold observe at 1 3. rewrite Ek. destruct (keyOf r) as [k|] eqn:E.
  - rewrite (Hp k eq_refl). split; [done|]. unfold observe. rewrite E. cbn [fst pending d_origin].
    rewrite !lookup_insert_eq, Ho. simpl. by rewrite Z.eqb_refl.
  - split; [done|]. unfold observe. by rewrite E.
Qed.

(** What both ways of reading the file find: its inode and device, zero where a
    pointer is null. *)
Definition file_ref (f : kfile) : FileRef :=
  match kf_inode f with
  | Some i => mkFileRef (default 0 (in_sb i)) (in_ino i)
  | None => no_ref
  end.
Lemma get_dev_ino_named f : get_dev_ino f = file_ref f.
Proof. unfold get_dev_ino, file_ref. by destruct (kf_inode f) as [[ino mode [dev|]]|]. Qed.
Lemma get_dev_ino_probe_named f : get_dev_ino_probe f no_ref = file_ref f.
Proof. unfold get_dev_ino_probe, file_ref. by destruct (kf_inode f) as [[ino mode [dev|]]|]. Qed.

Section mirrored.
Context (m : Maps) (c c' : kctx).
Hypothesis Ht : kc_task c' = kc_task c.
Hypothesis Hp : kc_proc c' = kc_proc c.
Hypothesis Hv : same_validity m c c'.

Lemma krecord_mirror hook verdict tag wid w pl :
  krecord c' hook verdict tag wid w ORIGIN_KPROBE pl =
  as_mirror (kc_ts c') (krecord c hook verdict tag wid w ORIGIN_LSM pl).
Proof. unfold krecord, as_mirror. simpl. by rewrite Ht, Hp. Qed.
Lemma file_mirror file :
  snd (file_prog m c' true ORIGIN_KPROBE file) = as_mirror (kc_ts c') <$> snd (file_prog m c false ORIGIN_LSM file).
Proof.
  unfold file_prog. rewrite Ht. destruct (lookup_warrant m (kc_task c)) as [[[wid tag] w]|] eqn:El; [|done].
  destruct file as [f|]; [|done].
  destruct (_ =? 0); [done|]. rewrite (Hv _ _ _ El), get_dev_ino_named, get_dev_ino_probe_named.
  destruct (if negb (validity w (kc_now c) =? 0) then _ else _) as [[denied file] parent].
  rewrite krecord_mirror. by destruct denied.
Qed.
Lemma inode_mirror hook op d :
  snd (inode_prog m c' hook op ORIGIN_KPROBE d) = as_mirror (kc_ts c') <$> snd (inode_prog m c hook op ORIGIN_LSM d).
Proof.
  unfold inode_prog. rewrite Ht. destruct (lookup_warrant m (kc_task c)) as [[[wid tag] w]|] eqn:El; [|done].
  rewrite (Hv _ _ _ El).
  destruct (if negb (validity w (kc_now c) =? 0) then _ else _) as [[denied file] parent].
  rewrite krecord_mirror. by destruct denied.
Qed.
Lemma bprm_mirror file :
  snd (bprm_prog m c' ORIGIN_KPROBE file) = as_mirror (kc_ts c') <$> snd (bprm_prog m c ORIGIN_LSM file).
Proof.
  unfold bprm_prog. rewrite Ht. destruct (lookup_warrant m (kc_task c)) as [[[wid tag] w]|] eqn:El; [|done].
  destruct file as [f|]; [|done].
  by rewrite (Hv _ _ _ El), krecord_mirror.
Qed.
Lemma connect_mirror a :
  snd (connect_prog m c' ORIGIN_KPROBE a) = as_mirror (kc_ts c') <$> snd (connect_prog m c ORIGIN_LSM a).
Proof.
  unfold connect_prog. rewrite Ht. destruct (lookup_warrant m (kc_task c)) as [[[wid tag] w]|] eqn:El; [|done].
  unfold net_denied. rewrite (Hv _ _ _ El). destruct a as [a4 port|a port|path|]; cbn [snd];
    [by rewrite krecord_mirror..| |done].
  destruct (delegation_socket path); [|done]. cbn [snd]. by rewrite krecord_mirror.
Qed.
Lemma lsm_origin call r : r ∈ snd (lsm m c call 0) → mirror m c' call ≠ None → Origin r = ORIGIN_LSM.
Proof.
  unfold lsm, mirror, one_record. cbn [Z.eqb negb].
  assert (∀ (x : option Record_) r, r ∈ match x with Some r => [r] | None => [] end → x = Some r) as Hin.
  { intros [x|] r0; [by intros ->%list_elem_of_singleton|by intros ?%elem_of_nil]. }
  destruct call; try done; cbn [fst snd]; intros Hr%Hin _; revert Hr;
    unfold file_prog, inode_prog, bprm_prog, connect_prog;
    destruct (lookup_warrant _ _) as [[[wid tag] w]|]; try done.
  - destruct f as [f|]; [|done]. destruct (_ =? 0); [done|].
    destruct (if negb _ then _ else _) as [[[] file] parent]; [by intros [= <-]|done].
  - destruct (if negb _ then _ else _) as [[[] file] parent]; [by intros [= <-]|done].
  - destruct f as [f|]; [|done]. by intros [= <-].
  - destruct a as [a4 port|a port|path|]; [by intros [= <-]..| |done].
    destruct (delegation_socket path); [by intros [= <-]|done].
Qed.
End mirrored.

(** C13: a mirror never disagrees, and never interferes.  For each of the four
    mirrored hooks, on the same maps, with the two clock readings on the same side
    of the expiry: the kprobe, which reads the file by probes where the LSM program
    follows its pointers, returns 0 and leaves exactly the records the LSM program
    leaves when no earlier module refused, except for the origin and the time stamp,
    null pointers or not.  Whatever an earlier module answered, the harness that pairs
    the two by process and file then reports no divergence for the records of the LSM
    program (none, if the earlier answer was a refusal), and the daemon's log leaves
    the copies out. *)
Theorem mirrors_agree (m : Maps) c c' call prior v rs d :
  kc_task c' = kc_task c → kc_proc c' = kc_proc c → same_validity m c c' →
  mirror m c' call = Some (v, rs) →
  v = 0 ∧ rs = as_mirror (kc_ts c') <$> snd (lsm m c call 0) ∧ omap logRecord rs = [] ∧
  (prior ≠ 0 → snd (lsm m c call prior) = []) ∧
  ∀ r, r ∈ snd (lsm m c call prior) → (∀ k, keyOf r = Some k → pending d !! k = None) →
    snd (observe (as_mirror (kc_ts c') r) d) = "" ∧
    snd (observe r (fst (observe (as_mirror (kc_ts c') r) d))) = "".
Proof.
  intros Ht Hp Hv Hm. assert (v = 0 ∧ rs = as_mirror (kc_ts c') <$> snd (lsm m c call 0)) as [-> Hrs].
  { assert (∀ x y, x = as_mirror (kc_ts c') <$> y →
      match x with Some r => [r] | None => [] end =
      as_mirror (kc_ts c') <$> match y with Some r => [r] | None => [] end) as Hone
      by (by intros x [y|] ->).
    unfold mirror, one_record in Hm. unfold lsm. cbn [Z.eqb negb].
    destruct call; try done; injection Hm as <- <-; (split; [done|]); apply Hone.
    - by apply file_mirror.
    - by apply inode_mirror.
    - by apply bprm_mirror.
    - by apply connect_mirror. }
  split; [done|]. split; [done|]. split.
  { rewrite Hrs. generalize (snd (lsm m c call 0)) as l. by intros l; induction l. }
  assert (prior ≠ 0 → snd (lsm m c call prior) = []) as Hprior.
  { intros Hn. unfold lsm. by rewrite (proj2 (Z.eqb_neq _ _) Hn). }
  split; [exact Hprior|]. intros r Hr. apply mirror_silent.
  destruct (Z.eq_dec prior 0) as [->|Hn]; [|rewrite Hprior in Hr by done; by apply elem_of_nil in Hr].
  eapply (lsm_origin m c c'); [exact Hr|by rewrite Hm].
Qed.

(** ** What the records say *)

Definition nearest (chain : list (option FileRef)) : FileRef :=
  default no_ref (head (omap id (take WALK_MAX chain))).
Definition itself (chain : list (option FileRef)) : FileRef :=
  match chain with Some r :: _ => r | _ => no_ref end.
Definition chain_ok (chain : list (option FileRef)) : Prop :=
  ∀ r, Some r ∈ chain → is_u32 (Dev r) ∧ 0 < Ino r < 2 ^ 64.

Lemma walk_deep rules pid fuel depth chain self evid :
  chain_ok chain → (0 < depth)%nat →
  snd (fst (walk rules pid fuel depth chain self evid)) = self ∧
  snd (walk rules pid fuel depth chain self evid) =
    if Ino evid =? 0 then default evid (head (omap id (take fuel chain))) else evid.
Proof.
  revert depth chain self evid. induction fuel as [|n IH]; intros depth chain self evid Hc Hd; simpl.
  { by destruct (_ =? 0). }
  destruct chain as [|[r|] up]; simpl; [by destruct (_ =? 0)| |].
  - assert (chain_ok up) as Hup by (intros x Hx; apply Hc; by right).
    destruct (Hc r) as [_ Hi]; [by left|]. rewrite (proj2 (Nat.eqb_neq depth 0)) by lia.
    set (ev := if Ino evid =? 0 then r else evid).
    assert (Ino ev =? 0 = false) as Hev.
    { unfold ev. destruct (Ino evid =? 0) eqn:E; [apply Z.eqb_neq; lia|done]. }
    destruct (rules (rule_key pid r)) as [v|]; [destruct (_ || _ || _); [done|]|].
    all: destruct (IH (S depth) up self ev Hup ltac:(lia)) as [-> ->]; by rewrite Hev.
  - apply IH; [|lia]. intros x Hx. apply Hc. by right.
Qed.
(** The references the walk fills in. *)
Lemma walk_start rules pid n chain :
  chain_ok chain →
  snd (fst (walk rules pid (S n) 0 chain no_ref no_ref)) = itself chain ∧
  snd (walk rules pid (S n) 0 chain no_ref no_ref) = default no_ref (head (omap id (take (S n) chain))).
Proof.
  intros Hc. destruct chain as [|[r|] up]; [done| |];
    assert (chain_ok up) as Hup by (intros x Hx; apply Hc; by right); simpl.
  - destruct (Hc r) as [_ Hi]; [by left|]. destruct (rules (rule_key pid r)) as [v|]; [done|].
    destruct (walk_deep rules pid n 1 up r r Hup ltac:(lia)) as [-> ->].
    by rewrite (proj2 (Z.eqb_neq (Ino r) 0)) by lia.
  - apply (walk_deep rules pid n 1 up no_ref no_ref Hup). lia.
Qed.
Lemma walk_refs rules pid chain :
  chain_ok chain →
  snd (fst (walk rules pid WALK_MAX 0 chain no_ref no_ref)) = itself chain ∧
  snd (walk rules pid WALK_MAX 0 chain no_ref no_ref) = nearest chain.
Proof. apply (walk_start rules pid 15). Qed.

Definition to_r (f : FileRef) : rFileRef := mkRFileRef (Dev f) (Ino f).
Definition ref_ok (f : FileRef) : Prop := is_u32 (Dev f) ∧ is_u64 (Ino f).
Lemma no_ref_ok : ref_ok no_ref.
Proof. split; unfold_widths; simpl; lia. Qed.
Lemma itself_ok chain : chain_ok chain → ref_ok (itself chain).
Proof.
  intros Hc. destruct chain as [|[r|] up]; [apply no_ref_ok| |apply no_ref_ok].
  destruct (Hc r) as [? ?]; [by left|]. split; [done|]. simpl. unfold_widths. lia.
Qed.
Lemma nearest_ok chain : chain_ok chain → ref_ok (nearest chain).
Proof.
  intros Hc. unfold nearest. destruct (omap id (take WALK_MAX chain)) as [|r l] eqn:E; [apply no_ref_ok|].
  assert (r ∈ omap id (take WALK_MAX chain)) as Hin by (rewrite E; by left).
  apply list_elem_of_omap in Hin as (x & Hx & Er). simpl in Er. unfold id in Er. subst x.
  apply elem_of_take in Hx as (i & Hx & _). apply list_elem_of_lookup_2 in Hx.
  destruct (Hc r Hx) as [? ?]. split; [done|]. simpl. unfold_widths. lia.
Qed.

(** ** Reading the payloads back *)

Lemma pl_write_read r file parent flags :
  Hook r = HookFileOpen → PayloadRaw r = pl_write file parent flags →
  ref_ok file → ref_ok parent → is_u32 flags →
  Write r = Some (mkWritePayload (to_r file) (to_r parent) flags).
Proof.
  intros Hh Hpl [Hd Hi] [Hpd Hpi] Hf. destruct (payloads_roundtrip r []) as (_ & Hw & _).
  rewrite (Hw (Dev file) 0 (Ino file) (Dev parent) 0 (Ino parent) flags 0), Hh; [done| |by rewrite app_nil_r].
  repeat constructor; unfold fits; unfold_widths; simpl; lia.
Qed.
Lemma pl_inode_read r dir target op :
  is_inode_hook (Hook r) = true → PayloadRaw r = pl_inode dir target op →
  ref_ok dir → ref_ok target → is_u8 op →
  Inode r = Some (mkInodePayload (to_r dir) (to_r target) op).
Proof.
  intros Hh Hpl [Hd Hi] [Hpd Hpi] Hf. destruct (payloads_roundtrip r []) as (_ & _ & Hw & _).
  rewrite (Hw (Dev dir) 0 (Ino dir) (Dev target) 0 (Ino target) op 0), Hh; [done| |by rewrite app_nil_r].
  repeat constructor; unfold fits; unfold_widths; simpl; lia.
Qed.
Lemma pl_exec_read r f i_mode :
  Hook r = HookBprmCheckSecurity → PayloadRaw r = pl_exec f i_mode → ref_ok f → is_u16 i_mode →
  Exec r = Some (mkExecPayload (to_r f) i_mode 0 0).
Proof.
  intros Hh Hpl [Hd Hi] Hf. destruct (payloads_roundtrip r []) as (Hw & _).
  rewrite (Hw (Dev f) 0 (Ino f) i_mode 0 0 0), Hh; [done| |by rewrite app_nil_r].
  repeat constructor; unfold fits; unfold_widths; simpl; lia.
Qed.

(** The address as the agent shows it: an IPv4-mapped one as IPv4. *)
Definition shown (addr : list Z) : Addr := mkAddr addr (bool_decide (take 12 addr = v4InV6Prefix)) "".
Lemma Unmap_shown addr :
  (if Is4In6 (AddrFrom16 addr) then Unmap (AddrFrom16 addr) else AddrFrom16 addr) = shown addr.
Proof.
  unfold Unmap, shown, Is4In6, AddrFrom16. simpl.
  by destruct (bool_decide (take 12 addr = v4InV6Prefix)).
Qed.
(** A socket payload, whatever follows it: an internet address, or a path. *)
Lemma pl_connect_read r family proto port addr more :
  Hook r = HookSocketConnect ∨ Hook r = HookSocketSendmsg → PayloadRaw r = pl_connect family proto port addr ++ more →
  is_u8 family → is_u8 proto → is_u16 port → length addr = addrSize →
  Connect r = Some (if family =? 1 then mkConnectPayload family proto port None (cstr addr)
                    else if (family =? 2) || (family =? 10)
                    then mkConnectPayload family proto port (Some (shown addr)) ""
                    else mkConnectPayload family proto port None "").
Proof.
  intros Hh Hpl Hf Hpr Hpo Hlen. unfold Connect.
  assert (negb (Hook r =? HookSocketConnect) && negb (Hook r =? HookSocketSendmsg) = false) as ->
    by (by destruct Hh as [->| ->]).
  rewrite Hpl. unfold pl_connect. rewrite <- app_assoc, unpack_encode.
  - cbn [decode_fields]. rewrite drop_app_length' by (by rewrite length_encode_fields).
    rewrite take_app_length' by done. cbv beta iota zeta. rewrite Unmap_shown.
    by destruct (family =? 1), ((family =? 2) || (family =? 10)).
  - repeat constructor; unfold fits; unfold_widths; simpl; lia.
  - rewrite length_app. lia.
Qed.
Lemma pl_udp_read r family port addr size :
  Hook r = HookSocketSendmsg → PayloadRaw r = pl_udp family port addr size →
  family = 2 ∨ family = 10 → is_u16 port → length addr = addrSize → - 2 ^ 31 <= size < 2 ^ 31 →
  UDPSend r = Some (mkUDPSendPayload (mkConnectPayload family 2 port (Some (shown addr)) "") (Z.max 0 size)).
Proof.
  intros Hh Hpl Hf Hpo Hlen Hsz. unfold UDPSend. rewrite Hh. cbn [Z.eqb negb Pos.eqb HookSocketSendmsg].
  assert (is_u8 family) as Hf8 by (destruct Hf as [->| ->]; op_small).
  rewrite (pl_connect_read r family 2 port addr (le_enc 8 (if 0 <? size then size else 0)));
    [|by right|exact Hpl|done|op_small|done|done].
  unfold pl_udp, pl_connect in Hpl. rewrite Hpl, <- app_assoc, unpack_encode.
  - rewrite drop_app_ge by (rewrite length_encode_fields by done; unfold addrSize; simpl; lia).
    rewrite length_encode_fields by done. rewrite drop_app_length' by (rewrite Hlen; reflexivity).
    rewrite take_ge by (by rewrite length_le_enc).
    rewrite le_dec_enc by (change (256 ^ Z.of_nat 8) with (2 ^ 64); destruct (Z.ltb_spec 0 size); lia).
    assert ((if 0 <? size then size else 0) = Z.max 0 size) as -> by (destruct (Z.ltb_spec 0 size); lia).
    by destruct Hf as [->| ->].
  - repeat constructor; unfold fits; unfold_widths; simpl; lia.
  - rewrite length_app, length_le_enc. lia.
Qed.

(** The start of a path survives the 16 bytes of the payload. *)
Definition nul_free (s : string) : Prop := Forall (λ a, a ≠ Ascii.zero) (String.list_ascii_of_string s).
Lemma cstr_path n k path :
  nul_free path → (n ≤ k)%nat →
  cstr (take n (((λ a, Z.of_N (Ascii.N_of_ascii a)) <$> String.list_ascii_of_string path) ++ zeros k)) =
  String.substring 0 n path.
Proof.
  unfold nul_free. revert n. induction path as [|a path IH]; intros n Hp Hk.
  - destruct n as [|n]; [done|]. destruct k as [|k]; [lia|]. done.
  - apply Forall_cons in Hp as [Ha Hp]. destruct n as [|n]; [done|].
    cbn [String.list_ascii_of_string fmap list_fmap app take cstr String.substring].
    assert (Z.of_N (Ascii.N_of_ascii a) ≠ 0) as Hz.
    { intros E. apply Ha. rewrite <- (Ascii.ascii_N_embedding a). by replace (Ascii.N_of_ascii a) with 0%N by lia. }
    rewrite (proj2 (Z.eqb_neq _ _) Hz). f_equal.
    + unfold byte_of_Z. rewrite N2Z.id. apply Ascii.ascii_N_embedding.
    + apply IH; [done|lia].
Qed.
Lemma length_path_bytes path : length (path_bytes path) = addrSize.
Proof. unfold path_bytes, zeros. rewrite length_take, length_app, length_replicate. lia. Qed.

(** ** What a record says of its call *)

(** The warrant, the process and the clock. *)
Definition signed_by (c : kctx) (wid tag : Z) (w : KWarrant) (r : Record_) : Prop :=
  WarrantID r = wid ∧ TagSource r = tag ∧ r_PolicyID r = PolicyID w ∧ r_SubjectID r = SubjectID w ∧
  r_Mode r = Mode w ∧ Proc r = kc_proc c ∧ CPU r = Z.of_nat (t_cpu (kc_task c)) ∧ BootTsNs r = kc_ts c.
(** The references of a write or inode record: none once the warrant is dead. *)
Definition if_live (w : KWarrant) (now : Z) (f dead : FileRef) : rFileRef :=
  to_r (if validity w now =? 0 then f else dead).
(** What the agent's decoder gets out of the payload.  Of a refused write it is the
    file and its flags; the parent field is left open. *)
Definition describes (c : kctx) (w : KWarrant) (call : kcall) (r : Record_) : Prop :=
  let live := if_live w (kc_now c) in
  let inode hook op d := Hook r = hook ∧
    Inode r = Some (mkInodePayload (live (nearest d) no_ref) (live (itself d) no_ref) op) in
  match call with
  | CFileOpen (Some f) =>
      ∃ parent, Write r = Some (mkWritePayload (live (itself (kf_chain f)) (file_ref f)) parent (kf_flags f))
  | CCreate d => inode HookInodeCreate OP_CREATE d
  | CUnlink d => inode HookInodeUnlink OP_UNLINK d
  | CRename old new => inode HookInodeRename OP_RENAME old ∨ inode HookInodeRename OP_RENAME new
  | CLink d => inode HookInodeLink OP_LINK d
  | CSymlink d => inode HookInodeSymlink OP_SYMLINK d
  | CExec (Some f) =>
      Exec r = Some (mkExecPayload (to_r (file_ref f)) (default 0 (in_mode <$> kf_inode f)) 0 0)
  | CConnect (SockInet a4 port) =>
      Hook r = HookSocketConnect ∧
      Connect r = Some (mkConnectPayload 2 1 port (Some (mkAddr (v4InV6Prefix ++ a4) true "")) "")
  | CConnect (SockInet6 a6 port) =>
      Hook r = HookSocketConnect ∧ Connect r = Some (mkConnectPayload 10 1 port (Some (shown a6)) "")
  | CConnect (SockUnix path) =>
      Hook r = HookSocketConnect ∧
      Connect r = Some (mkConnectPayload 1 0 0 None (String.substring 0 addrSize path))
  | CSendmsg (Some (SockInet a4 port)) size =>
      UDPSend r = Some (mkUDPSendPayload
        (mkConnectPayload 2 2 port (Some (mkAddr (v4InV6Prefix ++ a4) true "")) "") (Z.max 0 size))
  | CSendmsg (Some (SockInet6 a6 port)) size =>
      UDPSend r = Some (mkUDPSendPayload (mkConnectPayload 10 2 port (Some (shown a6)) "") (Z.max 0 size))
  | _ => False
  end.

(** The arguments of a call are what the kernel passes: inode numbers, devices,
    flags, ports and sizes of their widths, addresses of their lengths. *)
Definition file_ok (f : kfile) : Prop :=
  chain_ok (kf_chain f) ∧ ref_ok (file_ref f) ∧ is_u32 (kf_flags f) ∧ is_u16 (default 0 (in_mode <$> kf_inode f)).
Definition addr_ok (a : sockaddr) : Prop :=
  match a with
  | SockInet a4 port => length a4 = 4%nat ∧ is_u16 port
  | SockInet6 a6 port => length a6 = 16%nat ∧ is_u16 port
  | SockUnix path => nul_free path
  | SockOther => True
  end.
Definition call_ok (call : kcall) : Prop :=
  match call with
  | CFileOpen f | CExec f => ∀ x, f = Some x → file_ok x
  | CCreate d | CUnlink d | CLink d | CSymlink d => chain_ok d
  | CRename old new => chain_ok old ∧ chain_ok new
  | CConnect a => addr_ok a
  | CSendmsg a size => (∀ x, a = Some x → addr_ok x) ∧ - 2 ^ 31 <= size < 2 ^ 31
  end.

Lemma shown_v4 a4 : shown (v4_mapped a4) = mkAddr (v4InV6Prefix ++ a4) true "".
Proof. unfold shown, v4_mapped. by rewrite bool_decide_true. Qed.
Lemma length_v4 a4 : length (v4_mapped a4) = (12 + length a4)%nat.
Proof. unfold v4_mapped. rewrite !length_app. simpl. lia. Qed.

Section one_call.
Context (m : Maps) (c : kctx) (wid tag : Z) (w : KWarrant).
Hypothesis Hl : lookup_warrant m (kc_task c) = Some (wid, tag, w).

Lemma inode_record hook op d r :
  is_inode_hook hook = true → is_u8 op → chain_ok d →
  snd (inode_prog m c hook op ORIGIN_LSM d) = Some r →
  signed_by c wid tag w r ∧ Hook r = hook ∧
  Inode r = Some (mkInodePayload (if_live w (kc_now c) (nearest d) no_ref)
                                 (if_live w (kc_now c) (itself d) no_ref) op).
Proof.
  intros Hh Hop Hd. unfold inode_prog. rewrite Hl. unfold if_live.
  destruct (walk_refs (hm_get (ruleWrite m)) (PolicyID w) d Hd) as [E1 E2].
  destruct (validity w (kc_now c) =? 0); cbn [negb].
  - destruct (walk _ _ _ _ _ _ _) as [[ok self] evid]. simpl in E1, E2. subst. cbn [snd].
    destruct ok; [done|]. intros [= <-]. split; [done|]. split; [done|].
    apply pl_inode_read; [done|done|by apply nearest_ok|by apply itself_ok|done].
  - intros [= <-]. split; [done|]. split; [done|]. apply pl_inode_read; [done|done|apply no_ref_ok|apply no_ref_ok|done].
Qed.
Lemma file_record f r :
  file_ok f → snd (file_prog m c false ORIGIN_LSM (Some f)) = Some r →
  signed_by c wid tag w r ∧ describes c w (CFileOpen (Some f)) r.
Proof.
  intros (Hd & Hf & Hfl & _). unfold file_prog. rewrite Hl. destruct (Z.land _ _ =? 0); [done|].
  unfold describes, if_live. rewrite get_dev_ino_named.
  destruct (walk_refs (hm_get (ruleWrite m)) (PolicyID w) (kf_chain f) Hd) as [E1 E2].
  destruct (validity w (kc_now c) =? 0); cbn [negb].
  - destruct (walk _ _ _ _ _ _ _) as [[ok self] evid]. simpl in E1, E2. subst. cbn [snd].
    destruct ok; [done|]. intros [= <-]. split; [done|]. eexists.
    apply pl_write_read; [done|done|by apply itself_ok|by apply nearest_ok|done].
  - intros [= <-]. split; [done|]. eexists. apply pl_write_read; [done|done|done|apply no_ref_ok|done].
Qed.
Lemma exec_record f r :
  file_ok f → snd (bprm_prog m c ORIGIN_LSM (Some f)) = Some r →
  signed_by c wid tag w r ∧ describes c w (CExec (Some f)) r.
Proof.
  intros (_ & Hf & _ & Hi). unfold bprm_prog. rewrite Hl, get_dev_ino_probe_named. intros [= <-].
  split; [done|]. unfold describes. rewrite (pl_exec_read _ (file_ref f) (default 0 (in_mode <$> kf_inode f)));
    [done|done| |done|done]. by destruct (kf_inode f).
Qed.
Lemma connect_record a r :
  addr_ok a → snd (connect_prog m c ORIGIN_LSM a) = Some r →
  signed_by c wid tag w r ∧ describes c w (CConnect a) r.
Proof.
  unfold connect_prog. rewrite Hl. unfold describes. destruct a as [a4 port|a6 port|path|]; cbn [addr_ok snd]; [| | |done].
  - intros [Hlen Hp] [= <-]. split; [done|]. split; [done|]. rewrite <- shown_v4.
    apply (pl_connect_read _ 2 1 port (v4_mapped a4) []);
      [by left|by rewrite app_nil_r|op_small|op_small|done|by rewrite length_v4, Hlen].
  - intros [Hlen Hp] [= <-]. split; [done|]. split; [done|].
    apply (pl_connect_read _ 10 1 port a6 []); [by left|by rewrite app_nil_r|op_small|op_small|done|done].
  - intros Hn. destruct (delegation_socket path); [|done]. intros [= <-]. split; [done|]. split; [done|].
    rewrite (pl_connect_read _ 1 0 0 (path_bytes path) []);
      [|by left|by rewrite app_nil_r|op_small|op_small|op_small|apply length_path_bytes].
    cbn [Z.eqb Pos.eqb]. do 2 f_equal. by apply cstr_path.
Qed.
Lemma sendmsg_record a size r :
  call_ok (CSendmsg a size) → snd (sendmsg_prog m c a size) = Some r →
  signed_by c wid tag w r ∧ describes c w (CSendmsg a size) r.
Proof.
  unfold sendmsg_prog. rewrite Hl. destruct (_ =? 0); [done|].
  destruct a as [[a4 port|a6 port|path|]|]; try done; intros [Ha Hsz]; specialize (Ha _ eq_refl) as [Hlen Hp];
    (destruct (net_denied _ _ _ _ _ _); [|done]); intros [= <-]; (split; [done|]); unfold describes.
  - rewrite <- shown_v4. apply pl_udp_read; [done|done|by left|done|by rewrite length_v4, Hlen|done].
  - apply pl_udp_read; [done|done|by right|done|done|done].
Qed.

(** Whatever the hook, a record of it names the call. *)
Lemma lsm_record call r :
  call_ok call → r ∈ snd (lsm m c call 0) → signed_by c wid tag w r ∧ describes c w call r.
Proof.
  intros Hok Hr.
  assert (∀ (x : Z * option Record_), r ∈ snd (one_record x) → snd x = Some r) as Hin.
  { intros [v [x|]]; simpl; [by intros ->%list_elem_of_singleton|by intros ?%elem_of_nil]. }
  unfold lsm in Hr. cbn [Z.eqb negb] in Hr.
  destruct call as [[f|]|d|d|old new|d|d|[f|]|a|a size]; try apply Hin in Hr;
    try (by apply inode_record in Hr; [|done|op_small|done]).
  - apply file_record; [by apply Hok|done].
  - unfold file_prog in Hr. by rewrite Hl in Hr.
  - destruct Hok as [Ho Hn]. destruct (one_record (inode_prog m c _ _ _ old)) as [v rs] eqn:E1.
    destruct (one_record (inode_prog m c _ _ _ new)) as [v' rs'] eqn:E2.
    assert (r ∈ rs ∨ r ∈ rs') as [Hx|Hx] by (destruct (negb _); [by left|by apply elem_of_app in Hr]).
    + assert (r ∈ snd (one_record (inode_prog m c HookInodeRename OP_RENAME ORIGIN_LSM old))) as Hi%Hin by (by rewrite E1).
      apply inode_record in Hi as [? ?]; [|done|op_small|done]. split; [done|by left].
    + assert (r ∈ snd (one_record (inode_prog m c HookInodeRename OP_RENAME ORIGIN_LSM new))) as Hi%Hin by (by rewrite E2).
      apply inode_record in Hi as [? ?]; [|done|op_small|done]. split; [done|by right].
  - apply exec_record; [by apply Hok|done].
  - unfold bprm_prog in Hr. by rewrite Hl in Hr.
  - by apply connect_record.
  - by apply sendmsg_record.
Qed.
End one_call.

(** The answer of an earlier LSM stands and nothing is recorded; a rename is let
    through exactly when both ends may be written. *)
Theorem hooks_compose (m : Maps) c call prior old new :
  (prior ≠ 0 → lsm m c call prior = (prior, [])) ∧
  (fst (lsm m c (CRename old new) 0) = 0 ↔
   fst (inode_verdict m (kc_task c) (kc_now c) old) = 0 ∧ fst (inode_verdict m (kc_task c) (kc_now c) new) = 0).
Proof.
  split; [intros Hp; unfold lsm; by rewrite (proj2 (Z.eqb_neq _ _) Hp)|].
  rewrite <- (inode_prog_decision m c HookInodeRename OP_RENAME ORIGIN_LSM old).
  rewrite <- (inode_prog_decision m c HookInodeRename OP_RENAME ORIGIN_LSM new).
  unfold lsm, one_record, decision. cbn [Z.eqb negb fst].
  destruct (Z.eqb_spec (fst (inode_prog m c HookInodeRename OP_RENAME ORIGIN_LSM old)) 0); simpl; naive_solver.
Qed.
End properties.

(** * Witnesses *)

(** A session in enforce mode, the same in observe mode, and a process in it. *)
Definition demo_observed : Maps := fst (PutWarrant 9 (set_Mode live_kw ModeObserve) one_session).
Definition demo_process : Process := mkProcess 500 500 1 0 0 0 0 0 77 "sh".
Definition demo_ctx (ts : Z) : kctx := mkKctx session_task demo_process 500 ts.
(** A file in a directory, neither with a rule. *)
Definition demo_open : kcall :=
  CFileOpen (Some (mkKfile (Some (mkKinode 100 33188 (Some 8))) 2 577
    [Some (mkFileRef 8 100); Some (mkFileRef 8 2)])).

Lemma demo_open_denied :
  ∃ r, snd (lsm one_session (demo_ctx 10) demo_open 0) = [r] ∧
       fst (lsm one_session (demo_ctx 10) demo_open 0) = -1 ∧ keyOf r = Some (mkDupKey 500 4 8 100).
Proof. eexists. split; [vm_compute; reflexivity|]. split; vm_compute; reflexivity. Qed.
Lemma demo_open_chain : chain_ok [Some (mkFileRef 8 100); Some (mkFileRef 8 2)].
Proof.
  intros r. rewrite !elem_of_cons, elem_of_nil. intros [[= ->]|[[= ->]|[]]]; simpl; unfold_widths; lia.
Qed.

(** The parent field of a refused open of an existing file holds the file itself: the
    walk fills its evidence at depth 0 already. *)
Theorem parent_field_is_file :
  Write <$> snd (lsm one_session (demo_ctx 10) demo_open 0) =
  [Some (mkWritePayload (mkRFileRef 8 100) (mkRFileRef 8 100) 577)].
Proof. vm_compute. reflexivity. Qed.

Lemma observe_predicts_enforce_witness :
  fst (lsm demo_observed (demo_ctx 10) demo_open 0) = 0 ∧
  ∃ r, r ∈ snd (lsm demo_observed (demo_ctx 10) demo_open 0) ∧ Verdict r = VERDICT_WOULD_DENY.
Proof.
  destruct (observe_predicts_enforce one_session demo_observed (demo_ctx 10) 9 TAG_CGROUP live_kw demo_open SpBpf None)
    as ((Ho & _ & Hi & _) & _); [reflexivity|reflexivity|reflexivity|by split|reflexivity|].
  split; [exact Ho|]. apply Hi. vm_compute. reflexivity.
Defined.
Lemma mirrors_agree_witness :
  ∃ rs, mirror one_session (demo_ctx 9) demo_open = Some (0, rs) ∧
        rs = as_mirror 9 <$> snd (lsm one_session (demo_ctx 10) demo_open 0).
Proof.
  eexists. split; [reflexivity|].
  eapply (mirrors_agree one_session (demo_ctx 10) (demo_ctx 9) demo_open 0 0 _ newDivergence);
    [reflexivity|reflexivity|by intros wid tag w _|reflexivity].
Defined.
Lemma hooks_compose_witness : lsm one_session (demo_ctx 10) demo_open (-13) = (-13, []).
Proof. apply (hooks_compose one_session (demo_ctx 10) demo_open (-13) [] []). discriminate. Defined.
