(* ===== verification/EndToEnd.v ===== *)
(** The agent end to end: from the bytes a warrant was signed as to what the BPF
    programs answer a task of the session, through the signature check, the
    registry, the compiler, the maps and the binder.  A pushed policy is what the
    session is judged by; the agent never makes the kernel refuse anything, but for
    modes that only the conversion to a byte makes enforcing; and what a program
    records is decoded and reaches the log of the agent. *)

From Stdlib Require Import ZArith Lia Ascii String.
From stdpp Require Import base tactics numbers list strings gmap relations.
From S2P Require Import Prelude GoStd GoNet EbpfMap Os BpfMap Concrete Kernel.
From S2P Require Import Policy Typed Session Tasks Enforcement Pb Warrants Upstream.
From S2P Require Import Registry Node WatchLoop AuditQueue Pamsock Ringbuf Emit Binder System.
From S2P Require Import Threads Requests Concurrent Authority Daemon Lifecycle Hooks.

(** * A policy in force *)

Section in_force.
Context `{KernelMaps} `{!KernelMapsLaws}.

(** No rule of the policy is in the maps: its id was never used. *)
Definition policy_fresh (pid : Z) (m : Maps) : Prop :=
  exec_fresh pid m ∧ write_fresh pid m ∧ net_fresh pid m.

(** The rule maps hold the compiled policy and nothing else under its id. *)
Record in_force (c : Compiled) (m : Maps) : Prop := mkInForce {
  if_exec f : is_Some (hm_get (ruleExec m) (rule_key (c_PolicyID c) f)) ↔ f ∈ c_Exec c;
  if_write f : hm_get (ruleWrite m) (rule_key (c_PolicyID c) f) = write_rule_of c f;
  if_net : net_state (c_PolicyID c) (c_Net c) m
}.

Lemma Apply_in_force c m m' :
  nets_wf m → policy_fresh (c_PolicyID c) m → Policy.Apply c m = (m', Ok tt) → in_force c m'.
Proof.
  intros Hw (Hfe & Hfw & Hfn) Ha. pose proof (Apply_net _ _ _ Hw Hfn Ha) as Hst.
  apply Apply_ok in Ha as (_ & _ & Hwr & Hex & _); [|done]. split; [|by eapply write_rules_exact|exact Hst].
  intros f. rewrite Hex, Hfe. case_bool_decide as Hin.
  - apply list_elem_of_fmap in Hin as (g & [_ ->]%rule_key_eq & Hg). split; [done|by eauto].
  - split; [by intros []|]. intros Hf. destruct Hin. by apply list_elem_of_fmap_2.
Qed.
Lemma in_force_same c m m' : same_rules m m' → in_force c m → in_force c m'.
Proof.
  intros (E1 & E2 & E3) [He Hw [Hn Hs Hc]]. split.
  - intros f. by rewrite E1.
  - intros f. by rewrite E2.
  - split; unfold nets_wf, net_sound, net_complete in *; by rewrite E3.
Qed.

(** What the kernel answers a task under a live warrant [kw] on the policy, and
    what it records: the exec list decides an execution, the nearest rule a write
    (where no inode has both an ALLOW and a DENY).  A connection over IPv4 or IPv6 that
    is allowed has a rule for it, and one that a rule with the longest of the matching
    prefixes admits is allowed. *)
Record follows (m : Maps) (t : task) (now : Z) (kw : KWarrant) (c : Compiled) : Prop := mkFollows {
  fo_exec f :
    bprm_verdict m t now f =
    let denied := negb (bool_decide (f ∈ c_Exec c)) in (ret_of kw denied, Some (verdict_of kw denied));
  fo_write fmode chain :
    unambiguous c → Z.land fmode FMODE_WRITE ≠ 0 →
    (may_write (rule_on c) 0 WALK_MAX chain → file_verdict m t now fmode ORIGIN_LSM chain = (0, None)) ∧
    (¬ may_write (rule_on c) 0 WALK_MAX chain →
       file_verdict m t now fmode ORIGIN_LSM chain = (ret_of kw true, Some (verdict_of kw true)));
  fo_connect a addr port :
    inet_dest a addr port → snd (connect_verdict m t now a) = Some VERDICT_ALLOW →
    ∃ r n, r ∈ c_Net c ∧ ParseCIDR (ne_CIDR r) = Ok n ∧ cidr_contains n addr ∧
           (ne_Port r = 0 ∨ port = ne_Port r) ∧ (ne_Proto r = ProtoAny ∨ ne_Proto r = ProtoTCP);
  fo_longest a addr port r n :
    inet_dest a addr port → r ∈ c_Net c → ParseCIDR (ne_CIDR r) = Ok n → cidr_contains n addr →
    longest (c_Net c) addr n → (ne_Port r = 0 ∨ port = ne_Port r) →
    (ne_Proto r = ProtoAny ∨ ne_Proto r = ProtoTCP) →
    connect_verdict m t now a = (0, Some VERDICT_ALLOW)
}.
Lemma in_force_follows c m t now kw :
  is_u32 (c_PolicyID c) → in_force c m → judged m t now kw → PolicyID kw = c_PolicyID c → follows m t now kw c.
Proof.
  intros Hu [He Hw Hn] Hj Hp. split.
  - intros f. rewrite (judged_exec _ _ _ kw) by done. rewrite Hp. by rewrite (bool_decide_ext _ _ (He f)).
  - intros fmode chain Hc Hm. rewrite (judged_write _ _ _ kw) by done. rewrite Hp.
    rewrite <- (dentry_may_write (hm_get (ruleWrite m)) (c_PolicyID c))
      by (intros f; by rewrite Hw, unambiguous_rule).
    by destruct (dentry_write_allowed _ _ _).
  - intros a addr port Ha. rewrite (judged_connect _ _ _ kw _ addr port) by done. rewrite Hp.
    pose proof (inet_dest_length _ _ _ Ha) as Hl.
    intros [= E%verdict_allow%negb_false_iff]. exact (net_state_sound _ _ _ _ Hu Hn Hl _ _ E).
  - intros a addr port r n Ha Hr Hc Hcon Hlong Hport Hproto. rewrite (judged_connect _ _ _ kw _ addr port) by done.
    pose proof (inet_dest_length _ _ _ Ha) as Hl.
    by rewrite Hp, (net_state_longest _ _ _ _ Hu Hn Hl r n).
Qed.
End in_force.

(** * From the signature to the verdict *)

Section push.
Context `{Os} `{WallClock} `{KernelMaps} `{!KernelMapsLaws} `{Crypto} `{SshKeys}.
Implicit Types b : bstate.
(** The trusted decoder's integers have the widths of the protocol. *)
Variable Hdecode : ∀ bytes w, proto_Unmarshal bytes = Ok w → pb_typed w.

(** An accepted push: the warrant whose signature verified was installed. *)
Lemma Apply_accepted env (st st' : rstate node) id :
  Apply env st = (st', (id, None)) →
  ∃ w, Verify env (keys (rg st)) = Ok w ∧ id = pb.w_WarrantId w ∧ install w fromCentral st = (st', Ok tt).
Proof.
  unfold Apply. destruct (Verify _ _) as [w|e|x]; [|done|done]. intros E. exists w. split; [done|].
  by destruct (install w fromCentral st) as [st1 [[]|e|x]]; simplify_eq.
Qed.

End push.

(** * What a call leaves behind *)

Section calls.
Context `{KernelMaps} (m : Maps) (k : kctx) (origin : Z).

(** A record of the task's warrant, and the answer that goes with it (a mirror's
    answer does not count); under [C] the payload fits its area. *)
Definition on_record (C : Prop) (v : Z) (r : Record_) : Prop :=
  ∃ wid tag w hook denied pl, lookup_warrant m (kc_task k) = Some (wid, tag, w) ∧
    (origin = ORIGIN_LSM → v = ret_of w denied) ∧
    r = krecord k hook (verdict_of w denied) tag wid (Some w) origin pl ∧
    is_u16 hook ∧ (C → (length pl ≤ PAYLOAD_MAX)%nat).
(** The program lets the call pass in silence, or answers and leaves a record. *)
Definition answers (C : Prop) (x : Z * option Record_) : Prop :=
  x = (0, None) ∨ ∃ r, snd x = Some r ∧ on_record C (fst x) r.

Lemma answers_out (C : Prop) v wid tag w hook denied pl :
  lookup_warrant m (kc_task k) = Some (wid, tag, w) → (origin = ORIGIN_LSM → v = ret_of w denied) →
  is_u16 hook → (C → (length pl ≤ PAYLOAD_MAX)%nat) →
  answers C (v, Some (krecord k hook (verdict_of w denied) tag wid (Some w) origin pl)).
Proof. intros Hl Hv Hh Hp. right. eexists. split; [done|]. by exists wid, tag, w, hook, denied, pl. Qed.
(** A record only when denied. *)
Lemma answers_if (C : Prop) wid tag w hook denied pl :
  lookup_warrant m (kc_task k) = Some (wid, tag, w) → is_u16 hook → (C → (length pl ≤ PAYLOAD_MAX)%nat) →
  answers C (ret_of w denied,
             if denied : bool then Some (krecord k hook (verdict_of w denied) tag wid (Some w) origin pl) else None).
Proof. intros Hl Hh Hp. destruct denied; [by apply answers_out|by left]. Qed.

Lemma answers_file (C : Prop) is_probe file : answers C (file_prog m k is_probe origin file).
Proof.
  unfold file_prog. destruct (lookup_warrant _ _) as [[[wid tag] w]|] eqn:El; [|by left].
  destruct file as [f|]; [|by left]. destruct (Z.land _ _ =? 0); [by left|].
  assert (∀ denied a b c, answers C (if origin =? ORIGIN_KPROBE then 0 else ret_of w denied,
    if denied : bool then Some (krecord k HookFileOpen (verdict_of w denied) tag wid (Some w) origin (pl_write a b c))
    else None)) as Hout.
  { intros [] a b c; [|left; by destruct (_ =? _)]. apply answers_out; [done|by intros ->|op_small|vm_compute; lia]. }
  destruct (negb _); [apply (Hout true)|]. destruct (walk _ _ _ _ _ _ _) as [[ok self] evid]. apply Hout.
Qed.
Lemma answers_inode (C : Prop) hook op d : is_u16 hook → answers C (inode_prog m k hook op origin d).
Proof.
  intros Hh. unfold inode_prog. destruct (lookup_warrant _ _) as [[[wid tag] w]|] eqn:El; [|by left].
  destruct (negb _); [by apply answers_out; [| | |vm_compute; lia]|].
  destruct (walk _ _ _ _ _ _ _) as [[ok self] evid]. apply answers_if; [done|done|vm_compute; lia].
Qed.
Lemma answers_exec (C : Prop) file : answers C (bprm_prog m k origin file).
Proof.
  unfold bprm_prog. destruct (lookup_warrant _ _) as [[[wid tag] w]|] eqn:El; [|by left].
  destruct file as [f|]; [|by left]. apply answers_out; [done|done|op_small|vm_compute; lia].
Qed.
Lemma length_pl_connect family proto port addr : length (pl_connect family proto port addr) = (8 + length addr)%nat.
Proof. unfold pl_connect. by rewrite length_app, length_encode_fields. Qed.
Lemma length_pl_udp family port addr size : length (pl_udp family port addr size) = (16 + length addr)%nat.
Proof. unfold pl_udp. rewrite length_app, length_pl_connect, length_le_enc. lia. Qed.
Lemma answers_connect a : answers (addr_ok a) (connect_prog m k origin a).
Proof.
  unfold connect_prog. destruct (lookup_warrant _ _) as [[[wid tag] w]|] eqn:El; [|by left].
  destruct a as [a4 p|a6 p|path|]; [| |destruct (delegation_socket path); [|by left]|by left];
    (apply answers_out; [done|done|op_small|]); rewrite length_pl_connect, ?length_v4; unfold PAYLOAD_MAX;
    cbn [addr_ok]; [lia|lia|]. rewrite length_path_bytes. unfold addrSize. lia.
Qed.
(** A call: an answer of its own has its record, and so has each record an answer. *)
Definition accounted (C : Prop) (x : Z * list Record_) : Prop :=
  (fst x ≠ 0 → ∃ r, r ∈ snd x ∧ on_record C (fst x) r) ∧ ∀ r, r ∈ snd x → ∃ v, on_record C v r.
Lemma accounted_one C x : answers C x → accounted C (one_record x).
Proof.
  intros [->|(r & Hr & Hrec)]; [split; [done|by intros r ?%elem_of_nil]|]. unfold one_record. rewrite Hr.
  split; simpl; [intros _; exists r; split; [by left|done]|]. intros r' ->%list_elem_of_singleton. by eexists.
Qed.
End calls.

(** The records of an LSM program and of its mirror. *)
Section programs.
Context `{KernelMaps} (m : Maps) (k : kctx).

Lemma answers_sendmsg a size :
  answers m k ORIGIN_LSM (call_ok (CSendmsg a size)) (sendmsg_prog m k a size).
Proof.
  unfold sendmsg_prog. destruct (lookup_warrant _ _) as [[[wid tag] w]|] eqn:El; [|by left].
  destruct (_ =? 0); [by left|].
  destruct a as [[a4 p|a6 p|path|]|]; try (by left); (destruct (net_denied _ _ _ _ _ _); [|by left]);
    (apply answers_out; [done|done|op_small|]); intros [Ha _]; destruct (Ha _ eq_refl) as [Hlen _];
    rewrite length_pl_udp, ?length_v4, Hlen; unfold PAYLOAD_MAX; lia.
Qed.
Lemma lsm_accounted call : accounted m k ORIGIN_LSM (call_ok call) (lsm m k call 0).
Proof.
  unfold lsm. cbn [Z.eqb negb].
  assert (∀ C hook op d, is_u16 hook → accounted m k ORIGIN_LSM C (one_record (inode_prog m k hook op ORIGIN_LSM d)))
    as Hin by (intros C hook op d Hh; by apply accounted_one, answers_inode).
  destruct call as [f|d|d|old new|d|d|f|a|a size]; try (apply Hin; op_small);
    try (apply accounted_one; (apply answers_file || apply answers_exec || apply answers_connect || apply answers_sendmsg)).
  destruct (Hin (call_ok (CRename old new)) HookInodeRename OP_RENAME old) as [Ho1 Ho2]; [op_small|].
  destruct (Hin (call_ok (CRename old new)) HookInodeRename OP_RENAME new) as [Hn1 Hn2]; [op_small|].
  destruct (one_record (inode_prog m k HookInodeRename OP_RENAME ORIGIN_LSM old)) as [v rs].
  destruct (one_record (inode_prog m k HookInodeRename OP_RENAME ORIGIN_LSM new)) as [v' rs'].
  destruct (negb (v =? 0)); [by split|]. split; simpl in *.
  - intros (r & Hr & Hrec)%Hn1. exists r. split; [apply elem_of_app; by right|done].
  - intros r [?|?]%elem_of_app; auto.
Qed.
Lemma lsm_records call prior r :
  r ∈ snd (lsm m k call prior) → ∃ v, on_record m k ORIGIN_LSM (call_ok call) v r.
Proof.
  destruct (Z.eq_dec prior 0) as [->|Hp]; [apply lsm_accounted|].
  unfold lsm. rewrite (proj2 (Z.eqb_neq _ _) Hp). by intros ?%elem_of_nil.
Qed.
Lemma mirror_one C x (v : Z) rs r :
  answers m k ORIGIN_KPROBE C x → Some (0, snd (one_record x)) = Some (v, rs) → r ∈ rs →
  ∃ v', on_record m k ORIGIN_KPROBE C v' r.
Proof. intros Hx [= _ <-]. by apply accounted_one. Qed.
Lemma mirror_accounted call v rs r :
  mirror m k call = Some (v, rs) → r ∈ rs → ∃ v', on_record m k ORIGIN_KPROBE (call_ok call) v' r.
Proof.
  destruct call as [f|d|d|old new|d|d|f|a|a size]; try done; apply mirror_one;
    [apply answers_file|apply answers_inode; op_small|apply answers_exec|apply answers_connect].
Qed.

(** A self-protection hook: refused without a record only by the rate limit. *)
Definition quiet (last : option Z) : Prop := ∃ l, last = Some l ∧ u64 (kc_now k - l) < 1000000000.
Definition protects (last : option Z) (x : Z * option Record_) : Prop :=
  (fst x ≠ 0 → quiet last ∨ ∃ r, snd x = Some r ∧ on_record m k ORIGIN_LSM True (fst x) r) ∧
  ∀ r, snd x = Some r → on_record m k ORIGIN_LSM True (fst x) r.
Lemma protects_silent last : protects last (0, None).
Proof. by split. Qed.
Lemma protects_prog hook last : is_u16 hook → protects last (selfprotect_prog m k hook last).
Proof.
  intros Hh. unfold selfprotect_prog, selfprotect. destruct (lookup_warrant _ _) as [[[wid tag] w]|] eqn:El;
    [|apply protects_silent].
  destruct (negb _); [apply protects_silent|].
  assert (∀ r, r = krecord k hook (verdict_of w true) tag wid (Some w) ORIGIN_LSM [] →
    on_record m k ORIGIN_LSM True (ret_of w true) r) as Hrec.
  { intros r ->. exists wid, tag, w, hook, true, []. split; [done|]. split; [done|]. split; [done|].
    split; [done|]. intros _. simpl. lia. }
  destruct last as [l|]; [destruct (Z.ltb_spec (u64 (kc_now k - l)) 1000000000) as [Hq|Hq]|]; split; simpl.
  - intros _. left. by exists l.
  - done.
  - intros _. right. eexists. split; [done|by apply Hrec].
  - intros r [= <-]. by apply Hrec.
  - intros _. right. eexists. split; [done|by apply Hrec].
  - intros r [= <-]. by apply Hrec.
Qed.
Lemma sp_protects sp last : protects last (sp_prog m k sp last 0).
Proof.
  unfold sp_prog. cbn [Z.eqb negb].
  destruct sp as [|cg| |cg|]; try (destruct (negb _); [apply protects_silent|]); apply protects_prog; op_small.
Qed.
Lemma sp_records sp last prior r :
  snd (sp_prog m k sp last prior) = Some r → ∃ v, on_record m k ORIGIN_LSM True v r.
Proof.
  destruct (Z.eq_dec prior 0) as [->|Hp]; [intros Hr; eexists; by apply (proj2 (sp_protects sp last))|].
  unfold sp_prog. by rewrite (proj2 (Z.eqb_neq _ _) Hp).
Qed.
End programs.

(** ** Without an enforcing warrant *)

(** No warrant of the maps asks for enforcement. *)
Definition unenforced `{KernelMaps} (m : Maps) : Prop :=
  ∀ id kw, hm_get (warrants m) id = Some kw → Mode kw ≠ ModeEnforce.
(** An answer that is the earlier one, and records without a refusal. *)
Definition passes (prior : Z) (x : Z * list Record_) : Prop :=
  fst x = prior ∧ ∀ r, r ∈ snd x → Verdict r ≠ VERDICT_DENY.

Section observing.
Context `{KernelMaps} (m : Maps) (k : kctx).
Hypothesis Hm : ∀ wid tag w, lookup_warrant m (kc_task k) = Some (wid, tag, w) → Mode w ≠ ModeEnforce.

Lemma unenforced_record C v r : on_record m k ORIGIN_LSM C v r → v = 0 ∧ Verdict r ≠ VERDICT_DENY.
Proof.
  intros (wid & tag & w & hook & denied & pl & Hl%Hm & Hv & -> & _).
  rewrite Hv by done. unfold ret_of. cbn [Verdict krecord]. unfold verdict_of. rewrite (proj2 (Z.eqb_neq _ _) Hl), andb_false_r.
  split; [done|]. by destruct denied.
Qed.
Lemma lsm_passes call prior : passes prior (lsm m k call prior).
Proof.
  split; [|intros r (v & Hrec)%lsm_records; exact (proj2 (unenforced_record _ _ _ Hrec))].
  destruct (Z.eq_dec prior 0) as [->|Hp].
  2:{ unfold lsm. by rewrite (proj2 (Z.eqb_neq _ _) Hp). }
  destruct (Z.eq_dec (fst (lsm m k call 0)) 0) as [|(r & _ & Hrec)%(proj1 (lsm_accounted m k call))]; [done|].
  exact (proj1 (unenforced_record _ _ _ Hrec)).
Qed.
Lemma sp_passes sp last : passes 0 (one_record (sp_prog m k sp last 0)).
Proof.
  assert (∀ hook, passes 0 (one_record (selfprotect_prog m k hook last))) as Hp.
  { intros hook. unfold selfprotect_prog, selfprotect. destruct (lookup_warrant _ _) as [[[wid tag] w]|] eqn:El.
    2:{ split; [done|]. by intros r ?%elem_of_nil. }
    pose proof (Hm _ _ _ eq_refl) as Hne. unfold ret_of, verdict_of. rewrite (proj2 (Z.eqb_neq _ _) Hne). simpl.
    destruct (negb _); [split; [done|by intros r ?%elem_of_nil]|].
    destruct (match last with Some _ => _ | None => _ end); split; try done; [by intros r ?%elem_of_nil|].
    by intros r ->%list_elem_of_singleton. }
  assert (passes 0 (one_record (0, None))) as H0 by (split; [done|]; by intros r ?%elem_of_nil).
  unfold sp_prog. cbn [Z.eqb negb]. destruct sp as [|cg| |cg|]; try (destruct (negb _); [done|]); apply Hp.
Qed.
End observing.

Section never.
Context `{Os} `{WallClock} `{KernelMaps} `{!KernelMapsLaws} `{Crypto} `{SshKeys}.
Variable b0 : bstate.

(** A mode that is not the enforcing one and whose low byte is. *)
Definition truncated_mode (mode : Z) : Prop := mode ≠ pb.Mode_MODE_ENFORCE ∧ u8 mode = ModeEnforce.

Lemma reachable_unenforced c id kw :
  nets_wf (b_maps b0) → unenforced (b_maps b0) → watched_known (nd (b_reg b0)) → reachable b0 c →
  hm_get (warrants (b_maps (cf_state c))) id = Some kw →
  Mode kw ≠ ModeEnforce ∨ ∃ w, trusted b0 w ∧ pb.w_WarrantId w = id ∧ truncated_mode (pb.w_Mode w).
Proof.
  intros Hn Hu Hk Hr Hw. apply (au_warrants _ _ (reachable_authority b0 c Hn Hk Hr)) in Hw as (kw0 & Hkw & Hf).
  assert (Mode kw = Mode kw0) as -> by (by destruct Hkw as [->| ->]).
  destruct Hf as [(w & now & boot & Ht & -> & ->)|Hst]; [|left; by apply Hu in Hst].
  destruct (Z.eq_dec (Mode (kernelWarrant w now boot)) ModeEnforce) as [E|]; [right|by left].
  exists w. split; [done|]. split; [done|]. split; [|exact E]. by eapply checkWarrant_mode, Ht.
Qed.

End never.

(** * From the call to the log *)

(** The process of a record is what the kernel keeps of it. *)
Definition proc_ok (p : Process) : Prop :=
  is_u32 (PID p) ∧ is_u32 (TGID p) ∧ is_u32 (PPID p) ∧ is_u32 (UID p) ∧ is_u32 (EUID p) ∧
  is_u32 (GID p) ∧ is_u32 (PIDNsInum p) ∧ is_u64 (StartTimeNs p) ∧ is_u64 (p_CgroupID p).
Definition ctx_ok (k : kctx) : Prop :=
  is_u32 (Z.of_nat (t_cpu (kc_task k))) ∧ (∀ wid, t_tag (kc_task k) = Some wid → is_u64 wid) ∧
  proc_ok (kc_proc k) ∧ is_u64 (kc_ts k).

Section log.
Context `{KernelMaps}.

(** A record with a header of the right widths: what every program leaves, the one on
    the fork tracepoint too, whose warrant may be gone. *)
Definition stamped (m : Maps) (k : kctx) (origin : Z) (C : Prop) (r : Record_) : Prop :=
  ∃ wid tag ow hook verdict pl, r = krecord k hook verdict tag wid ow origin pl ∧
    is_u16 hook ∧ is_u8 verdict ∧ is_u8 tag ∧
    (maps_typed m → ctx_ok k → is_u64 wid ∧ ∀ w, ow = Some w → kwarrant_typed w) ∧
    (C → (length pl ≤ PAYLOAD_MAX)%nat).
Lemma lookup_warrant_u64 m t wid tag w :
  lookup_warrant m t = Some (wid, tag, w) →
  (tag = TAG_CGROUP ∨ tag = TAG_TASK) ∧
  (maps_typed m → (∀ x, t_tag t = Some x → is_u64 x) → is_u64 wid ∧ kwarrant_typed w).
Proof.
  intros Hl. pose proof (lookup_warrant_wid _ _ _ _ _ Hl) as Hw. revert Hl.
  unfold lookup_warrant. destruct (pa_get _ _) as [on|]; [|done]. destruct (on =? 0); [done|].
  destruct (hm_get (cgroupWarrant m) _) as [id|] eqn:Ec.
  - destruct (hm_get (warrants m) id); [|done]. intros [= -> <- _]. split; [by left|]. intros Hm _.
    split; [by apply (mt_cgroup _ Hm) in Ec|by apply (mt_warrant _ Hm) in Hw].
  - destruct (t_tag t) as [id|]; [|done]. destruct (hm_get (warrants m) id); [|done]. intros [= -> <- _].
    split; [by right|]. intros Hm Ht. split; [by apply Ht|by apply (mt_warrant _ Hm) in Hw].
Qed.
Lemma tag_u8 tag : tag = TAG_CGROUP ∨ tag = TAG_TASK → is_u8 tag.
Proof. intros [->| ->]; op_small. Qed.
Lemma on_record_stamped m k origin C v r : on_record m k origin C v r → stamped m k origin C r.
Proof.
  intros (wid & tag & w & hook & denied & pl & Hl & _ & -> & Hh & Hpl).
  apply lookup_warrant_u64 in Hl as [Htag Hty].
  exists wid, tag, (Some w), hook, (verdict_of w denied), pl. split; [done|]. split; [done|].
  split; [unfold verdict_of; repeat case_match; op_small|]. split; [by apply tag_u8|]. split; [|done].
  intros Hm (_ & Ht & _). destruct (Hty Hm Ht) as [? ?]. split; [done|]. by intros ? [= <-].
Qed.
Lemma fork_stamped m k stored p ch r :
  snd (fork_prog m k stored p ch) = Some r → stamped m k ORIGIN_LSM True r.
Proof.
  unfold fork_prog, warrant_fork, fork_tag.
  assert (∀ wid src, src = TAG_CGROUP ∨ src = TAG_TASK →
    (maps_typed m → ctx_ok k → is_u64 wid) → ∀ r,
    krecord k HookSchedProcessFork VERDICT_ALLOW src wid (hm_get (warrants m) wid) ORIGIN_LSM
      (encode_fields plFork_layout [p; ch; t_cgroup (kc_task k)]) = r → stamped m k ORIGIN_LSM True r) as Hout.
  { intros wid src Hsrc Hwid r0 <-. eexists wid, src, _, _, _, _. split; [done|]. split; [op_small|]. split; [op_small|].
    split; [by apply tag_u8|]. split; [|intros _; vm_compute; lia]. intros Hm Hk. split; [by apply Hwid|].
    intros w Hw. by apply (mt_warrant _ Hm) in Hw. }
  destruct (t_tag (kc_task k)) as [wid|] eqn:Et; cbn [snd fmap option_fmap option_map].
  - intros [= Hr]. eapply Hout; [by right| |exact Hr]. intros _ (_ & Ht & _). by apply Ht.
  - destruct (hm_get (cgroupWarrant m) _) as [wid|] eqn:Ec; [|done]. cbn. intros [= Hr].
    eapply Hout; [by left| |exact Hr]. intros Hm _. by apply (mt_cgroup _ Hm) in Ec.
Qed.
Lemma stamped_fits m k origin C r n :
  maps_typed m → ctx_ok k → is_u8 origin → C → stamped m k origin C r → is_u64 n → record_fits (set_seq r n) 0 0.
Proof.
  intros Hm Hk Ho HC (wid & tag & ow & hook & verdict & pl & -> & Hh & Hv & Ht & Hty & Hpl) Hn.
  specialize (Hpl HC). destruct (Hty Hm Hk) as [Hwid How].
  destruct Hk as (Hcpu & _ & (Hp1 & Hp2 & Hp3 & Hp4 & Hp5 & Hp6 & Hp7 & Hp8 & Hp9) & Hts).
  assert (is_u32 (default 0 (SubjectID <$> ow)) ∧ is_u32 (default 0 (PolicyID <$> ow)) ∧
          is_u8 (default ModeObserve (Mode <$> ow))) as (Hsub & Hpol & Hmode).
  { destruct ow as [w|]; [destruct (How w eq_refl) as [_ _ Hsub Hpol _ Hmode _ _ _]; done|by split; [|split]; op_small]. }
  unfold PAYLOAD_MAX in Hpl. unfold_widths. repeat constructor; unfold fits; cbn -[Z.pow Z.of_nat]; lia.
Qed.


(** A call of the programs that write records: at a hook of [lsm], at a self-protection
    hook with its [sp_seen] entry, or at the fork tracepoint. *)
Inductive hcall :=
  | HCall (call : kcall)
  | HProtect (sp : spcall) (last : option Z)
  | HFork (stored : bool) (parent_tgid child_tgid : Z).

(** One of them: the maps and the task when the program runs, what an earlier module
    answered, the maps and the task when the mirror on the function's entry runs (if
    it is attached), the command name in memory, the call, and which of the records
    find room. *)
Record kevent := mkKevent {
  ke_maps : Maps; ke_ctx : kctx; ke_prior : Z; ke_mirror : option (Maps * kctx);
  ke_comm : list Z; ke_call : hcall; ke_room : nat → bool
}.
Definition ke_answer (e : kevent) : Z * list Record_ :=
  match ke_call e with
  | HCall call => lsm (ke_maps e) (ke_ctx e) call (ke_prior e)
  | HProtect sp last => one_record (sp_prog (ke_maps e) (ke_ctx e) sp last (ke_prior e))
  | HFork stored p ch => one_record (0, snd (fork_prog (ke_maps e) (ke_ctx e) stored p ch))
  end.
Definition ke_mirrored (e : kevent) : list Record_ :=
  match ke_mirror e, ke_call e with
  | Some (m, k), HCall call => match mirror m k call with Some (_, rs) => rs | None => [] end
  | _, _ => []
  end.
Definition ke_records (e : kevent) : list Record_ := ke_mirrored e ++ snd (ke_answer e).
Definition emissions (e : kevent) : list emission :=
  imap (λ i r, mkEmission r (ke_comm e) (ke_room e i)) (ke_records e).
Definition trace (es : list kevent) : list emission := mjoin (emissions <$> es).
(** The arguments are what the kernel passes. *)
Definition args_ok (e : kevent) : Prop := match ke_call e with HCall call => call_ok call | _ => True end.
(** The maps are typed, the task is one the kernel knows, under its command name. *)
Definition at_hook (e : kevent) (m : Maps) (k : kctx) : Prop :=
  maps_typed m ∧ ctx_ok k ∧ cstr (ke_comm e) = Comm (kc_proc k).
Definition kevent_ok (e : kevent) : Prop :=
  at_hook e (ke_maps e) (ke_ctx e) ∧ (∀ m k, ke_mirror e = Some (m, k) → at_hook e m k) ∧
  args_ok e ∧ length (ke_comm e) = commSize.
(** The rate limit of the self-protection hooks lets the record through. *)
Definition loud (e : kevent) : Prop :=
  match ke_call e with HProtect _ last => ¬ quiet (ke_ctx e) last | _ => True end.

Lemma stamped_ok e m k origin r room :
  at_hook e m k → args_ok e → length (ke_comm e) = commSize → is_u8 origin →
  stamped m k origin (args_ok e) r → emission_ok (mkEmission r (ke_comm e) room).
Proof.
  intros (Hm & Hk & Hcomm) Hc Hlen Ho Hrec.
  split; [intros n Hn; exact (stamped_fits _ _ _ _ _ _ Hm Hk Ho Hc Hrec Hn)|].
  destruct Hrec as (wid & tag & w & hook & verdict & pl & -> & _ & _ & _ & _ & Hpl).
  split; [by apply Hpl|]. by split.
Qed.
Lemma one_record_elem (x : Z * option Record_) r : r ∈ snd (one_record x) → snd x = Some r.
Proof. destruct x as [v [y|]]; simpl; [by intros ->%list_elem_of_singleton|by intros ?%elem_of_nil]. Qed.
(** Each record is one of the program or one of the mirror. *)
Lemma answer_stamped e r :
  r ∈ snd (ke_answer e) → stamped (ke_maps e) (ke_ctx e) ORIGIN_LSM (args_ok e) r.
Proof.
  unfold ke_answer, args_ok. destruct (ke_call e) as [call|sp last|st p ch].
  - intros [v Hv]%lsm_records. by eapply on_record_stamped.
  - intros [v Hv]%one_record_elem%sp_records. by eapply on_record_stamped.
  - intros Hr%one_record_elem%fork_stamped. exact Hr.
Qed.
Lemma ke_records_elem e r :
  r ∈ ke_records e →
  r ∈ snd (ke_answer e) ∧ stamped (ke_maps e) (ke_ctx e) ORIGIN_LSM (args_ok e) r ∨
  ∃ m k, ke_mirror e = Some (m, k) ∧ stamped m k ORIGIN_KPROBE (args_ok e) r.
Proof.
  intros [Hr|Hr]%elem_of_app; [right|left; split; [done|by apply answer_stamped]]. revert Hr. unfold ke_mirrored, args_ok.
  destruct (ke_mirror e) as [[m k]|]; [|by intros ?%elem_of_nil].
  destruct (ke_call e) as [call|sp last|st p ch]; [|by intros ?%elem_of_nil..].
  destruct (mirror m k call) as [[v rs]|] eqn:Em; [|by intros ?%elem_of_nil].
  intros Hr. destruct (mirror_accounted _ _ _ _ _ _ Em Hr) as [v' Hv]. exists m, k. split; [done|].
  by eapply on_record_stamped.
Qed.
Lemma kevent_emissions e : kevent_ok e → Forall emission_ok (emissions e).
Proof.
  intros (Hl & Hm & Hk & Hlen). apply Forall_forall. intros x Hx.
  apply elem_of_lookup_imap in Hx as (i & r & -> & Hr). apply list_elem_of_lookup_2, ke_records_elem in Hr.
  destruct Hr as [(_ & Hrec)|(m & k & Em & Hrec)].
  - eapply stamped_ok; [exact Hl|done|done| |exact Hrec]. op_small.
  - eapply stamped_ok; [exact (Hm _ _ Em)|done|done| |exact Hrec]. op_small.
Qed.
Lemma trace_elem es x :
  x ∈ trace es ↔ ∃ e i r, e ∈ es ∧ ke_records e !! i = Some r ∧ x = mkEmission r (ke_comm e) (ke_room e i).
Proof.
  unfold trace. rewrite list_elem_of_join. split.
  - intros (l & Hx & (e & -> & He)%list_elem_of_fmap). apply elem_of_lookup_imap in Hx as (i & r & -> & Hr). by exists e, i, r.
  - intros (e & i & r & He & Hr & ->). exists (emissions e). split; [|by apply list_elem_of_fmap_2].
    apply elem_of_lookup_imap. by exists i, r.
Qed.

(** The line the agent writes for a record. *)
Definition line_of (r : Record_) : logEntry :=
  mkLogEntry (HookName (Hook r)) (VerdictName (Verdict r) (r_Mode r)) (WarrantID r)
    (p_CgroupID (Proc r)) (PID (Proc r)) (Comm (Proc r)).
Lemma stamped_line m k C r n : stamped m k ORIGIN_LSM C r → logRecord (set_seq r n) = Some (line_of r).
Proof. intros (wid & tag & w & hook & verdict & pl & -> & _). done. Qed.
Lemma mirrored_line m k C r n : stamped m k ORIGIN_KPROBE C r → logRecord (set_seq r n) = None.
Proof. intros (wid & tag & w & hook & verdict & pl & -> & _). done. Qed.
(** An answer other than 0 is a refusal, and its record says so. *)
Lemma on_record_refusal m k C v r :
  on_record m k ORIGIN_LSM C v r → v ≠ 0 →
  v = - EPERM ∧ le_verdict (line_of r) = "DENY" ∧ le_pid (line_of r) = PID (kc_proc k) ∧
  ∃ tag w, lookup_warrant m (kc_task k) = Some (le_warrant (line_of r), tag, w).
Proof.
  intros (wid & tag & w & hook & denied & pl & Hl & Hv & -> & _). rewrite Hv by done. unfold ret_of. simpl. unfold verdict_of.
  destruct denied; [|done]. simpl. destruct (Mode w =? ModeEnforce); [|done]. intros _.
  split; [done|]. split; [done|]. split; [done|]. by exists tag, w.
Qed.
Lemma refusal_recorded e :
  ke_prior e = 0 → loud e → fst (ke_answer e) ≠ 0 →
  ∃ r C, r ∈ snd (ke_answer e) ∧ on_record (ke_maps e) (ke_ctx e) ORIGIN_LSM C (fst (ke_answer e)) r.
Proof.
  unfold ke_answer, loud. intros ->. destruct (ke_call e) as [call|sp last|st p ch]; [| |done].
  - intros _ (r & Hr & Hrec)%(proj1 (lsm_accounted _ _ _)). by exists r, (call_ok call).
  - intros Hq Hv. destruct (proj1 (sp_protects (ke_maps e) (ke_ctx e) sp last) Hv) as [?|(r & Hr & Hrec)]; [done|].
    exists r, True. split; [|exact Hrec]. unfold one_record. rewrite Hr. by left.
Qed.
(** A record of a program that found room is logged. *)
Lemma record_logged es e i r :
  e ∈ es → ke_records e !! i = Some r → r ∈ snd (ke_answer e) → ke_room e i = true →
  line_of r ∈ omap logRecord (sent (trace es)).
Proof.
  intros He Hr Ha Hroom. apply answer_stamped in Ha.
  destruct (sent_after_room [] (trace es) (mkEmission r (ke_comm e) (ke_room e i))) as [n Hn]; [|done|].
  - apply trace_elem. by exists e, i, r.
  - apply list_elem_of_omap. exists (set_seq r n). split; [exact Hn|]. by eapply stamped_line.
Qed.
Lemma log_line_from es line :
  line ∈ omap logRecord (sent (trace es)) → ∃ e r, e ∈ es ∧ r ∈ snd (ke_answer e) ∧ line = line_of r.
Proof.
  intros (r & Hr & Hl)%list_elem_of_omap.
  apply sent_after_elem in Hr as (x & n & (e & i & r0 & He & Hr0 & ->)%trace_elem & _ & ->). simpl in Hl.
  apply list_elem_of_lookup_2, ke_records_elem in Hr0 as [(Ha & Hv)|(m & k & _ & Hv)].
  - rewrite (stamped_line _ _ _ _ _ Hv) in Hl. injection Hl as <-. by exists e, r0.
  - by rewrite (mirrored_line _ _ _ _ _ Hv) in Hl.
Qed.

(** C15: what the kernel decides reaches the log.  Take any sequence of calls of the
    programs that emit records, at the file, inode, exec and network hooks, at the
    five self-protection hooks and at the fork tracepoint, by any tasks on any CPUs and
    against maps that change in between, whatever earlier modules answered, with the
    kprobe mirrors attached or not and with some of the records finding no room in the
    ring buffer.  The consumer decodes them and the agent logs them: a call the
    program refuses, its records finding room, is logged as DENY with the process and
    the warrant it was judged by, a self-protection hook's unless the rate limit
    dropped the record; every record of a program that finds room is logged; every line
    stems from such a record, a mirror's copy is not logged a second time; and the
    losses reported are the records without room between two of their CPU. *)
Theorem calls_reach_log es :
  Forall kevent_ok es → Z.of_nat (length (trace es)) < 2 ^ 64 - 1 →
  let '(c, out) := Run (kr_samples (emit_all (trace es))) (newConsumer true) in
  (∀ e, e ∈ es → ke_prior e = 0 → fst (ke_answer e) ≠ 0 → loud e → (∀ i, ke_room e i = true) →
     ∃ line tag w, line ∈ omap logRecord out ∧ le_verdict line = "DENY" ∧ le_pid line = PID (kc_proc (ke_ctx e)) ∧
       lookup_warrant (ke_maps e) (kc_task (ke_ctx e)) = Some (le_warrant line, tag, w)) ∧
  (∀ e i r, e ∈ es → ke_records e !! i = Some r → r ∈ snd (ke_answer e) → ke_room e i = true →
     line_of r ∈ omap logRecord out) ∧
  (∀ line, line ∈ omap logRecord out → ∃ e r, e ∈ es ∧ r ∈ snd (ke_answer e) ∧ line = line_of r) ∧
  lost_total (reported c) = lost_between [] (trace es).
Proof.
  intros Hok Hlen. assert (Forall emission_ok (trace es)) as Hem.
  { apply Forall_forall. intros x (e & i & r & He & Hr & ->)%trace_elem. rewrite Forall_forall in Hok.
    specialize (kevent_emissions e (Hok e He)). rewrite Forall_forall. intros Hx. apply Hx.
    apply elem_of_lookup_imap. by exists i, r. }
  generalize (Run_emitted _ Hlen Hem). destruct (Run _ _) as [c out]. simpl. intros (-> & Hlost & _).
  split; [|split; [apply record_logged|split; [apply log_line_from|exact Hlost]]].
  intros e He Hpr Hv Hloud Hroom. destruct (refusal_recorded e Hpr Hloud Hv) as (r & C & Hr & Hx).
  destruct (on_record_refusal _ _ _ _ _ Hx Hv) as (_ & Hd & Hp & tag & w & Hl).
  assert (r ∈ ke_records e) as Hin by (apply elem_of_app; by right).
  apply list_elem_of_lookup_1 in Hin as [i Hi]. exists (line_of r), tag, w.
  split; [exact (record_logged es e i r He Hi Hr (Hroom i))|done].
Qed.
End log.

(** * A push, a login, a call *)

#[local] Existing Instance demo_ssh.
#[local] Existing Instance demo_os.
#[local] Existing Instance demo_crypto.

Definition granted_state : bstate := set_reg demo_start_state (push "grant" demo_state).
Definition granted_order : list (Z * entry) := map_to_list (byID (rg (b_reg granted_state))).
Definition granted_bound : bstate := fst (Bind granted_order (alice_session "SHA256:a") granted_state).

Definition granted_kw : KWarrant := mkKWarrant 15000001000 0 1 8 0 1 0 0 0.

Lemma demo_empty_fresh pid : policy_fresh pid (b_maps demo_start_state).
Proof.
  split; [intros f; apply lookup_empty|]. split; [intros f; apply lookup_empty|].
  intros k v a _ He. pose proof (eq_trans (eq_sym (blpm_empty_entry 8192 k)) He). done.
Qed.
Lemma demo_start_nets : nets_wf (b_maps demo_start_state).
Proof. apply typed_nets, demo_node_inv. Qed.
Lemma demo_grant_verifies : Verify (signed "grant") demo_keys = Ok demo_grant.
Proof. vm_compute. reflexivity. Qed.
Lemma granted_judged :
  lookup_warrant (b_maps granted_bound) session_task = Some (2, TAG_CGROUP, granted_kw).
Proof. vm_compute. reflexivity. Qed.
Lemma granted_push : Apply (signed "grant") demo_state = (push "grant" demo_state, (2, None)).
Proof.
  pose proof (surjective_pairing (Apply (signed "grant") demo_state)) as E.
  assert (snd (Apply (signed "grant") demo_state) = (2, None)) as E2 by (vm_compute; reflexivity).
  by rewrite E2 in E.
Qed.
Lemma granted_binds : Bind granted_order (alice_session "SHA256:a") granted_state = (granted_bound, Ok 2).
Proof.
  assert (snd (Bind granted_order (alice_session "SHA256:a") granted_state) = Ok 2) as Hr by (vm_compute; reflexivity).
  exact (run_named (Bind granted_order (alice_session "SHA256:a")) granted_state (Ok 2) Hr).
Qed.
Lemma judging_warrant_eq `{KernelMaps} m t id id' tag tag' w w' :
  lookup_warrant m t = Some (id, tag, w) → lookup_warrant m t = Some (id', tag', w') → w = w'.
Proof. intros -> [=]. done. Qed.

(** A file the granted policy does not list: let through, and recorded. *)
Definition refused_exec : kcall := CExec (Some (mkKfile (Some (mkKinode 102 33261 (Some 8))) 1 0 [])).
Lemma demo_trusted_mode w : trusted demo_start_state w → ¬ truncated_mode (pb.w_Mode w).
Proof.
  intros [[env Hv] _] [Hn He]. revert Hv. unfold Verify. intros Hv. repeat case_match; simplify_eq.
  match goal with E : proto_Unmarshal ?b = Ok w |- _ => revert E; simpl end.
  destruct (String.eqb _ "rev4"); [intros [= <-]; by vm_compute in He|].
  destruct (String.eqb _ "rev5"); [intros [= <-]; by vm_compute in He|].
  destruct (String.eqb _ "grant"); [intros [= <-]; by vm_compute in He|done].
Qed.

(** A file opened for writing by a task under an enforcing warrant, with the mirror's
    copy on the ring buffer first; then the task tries bpf(2) and forks. *)
Definition demo_comm : list Z := [115; 104] ++ zeros 14.
Definition demo_event (call : hcall) : kevent :=
  mkKevent one_session (demo_ctx 10) 0 (Some (one_session, demo_ctx 9)) demo_comm call (λ _, true).
Definition demo_events : list kevent :=
  [demo_event (HCall demo_open); demo_event (HProtect SpBpf None); demo_event (HFork true 500 501)].
Lemma demo_ctx_ok ts : is_u64 ts → ctx_ok (demo_ctx ts).
Proof. intros Hts. split; [op_small|]. split; [done|]. split; [|done]. repeat split; vm_compute; done. Qed.
Lemma demo_open_ok : call_ok demo_open.
Proof.
  intros x [= <-]. split; [exact demo_open_chain|]. split; [split; op_small|]. split; op_small.
Qed.
Lemma demo_events_ok : Forall kevent_ok demo_events.
Proof.
  assert (∀ call, args_ok (demo_event call) → kevent_ok (demo_event call)) as Hev.
  { intros call Hc. assert (∀ ts, is_u64 ts → at_hook (demo_event call) one_session (demo_ctx ts)) as Hat.
    { intros ts Hts. split; [exact (proj1 one_session_typed)|]. split; [by apply demo_ctx_ok|vm_compute; reflexivity]. }
    split; [apply Hat; op_small|]. split; [intros m k [= <- <-]; apply Hat; op_small|]. by split. }
  constructor; [apply Hev; exact demo_open_ok|]. by repeat (constructor; [apply Hev; exact I|]).
Qed.
Lemma calls_reach_log_witness :
  ∃ line, line ∈ omap logRecord (snd (Run (kr_samples (emit_all (trace demo_events))) (newConsumer true))) ∧
          le_verdict line = "DENY" ∧ le_pid line = 500.
Proof.
  generalize (calls_reach_log demo_events demo_events_ok ltac:(vm_compute; done)).
  destruct (Run _ _) as [c out]. intros (Hd & _).
  destruct (Hd (demo_event (HCall demo_open))) as (line & tag & w & Hin & Hv & Hp & _);
    [by left|reflexivity|by vm_compute|exact I|done|].
  by exists line.
Defined.
